(* ===== verification/_CoqProject ===== *)
-Q . S2P
Prelude.v
CLib.v
Constants.v
HashTable.v
HashDump.v
HashTableTest.v
StrTable.v
NumSpace.v
OldAlarms.v
Trace.v
Utils.v
RefCount.v
Locks.v
BinaryHeap.v
ReadContext.v
StringBuffer.v
Uri.v
Http.v
Fetcher.v
Parsers.v
Counted.v
DirentryCache.v
Indexnode.v
Listing.v
Downloader.v
Direntry.v
Browse.v
FuseMethods.v
Session.v
Reads.v
Alarm.v
Indexnodes.v
Interleaving.v
Statics.v
Listener.v
Collection.v
Config.v
Main.v
UnitTests.v
