(* ===== verification/Prelude.v ===== *)
(** * fsfuse: a model of the program and its verification

    fsfuse mounts an FS2 network as a read-only file system: peers on a network
    share files, indexnodes list them, and fsfuse shows the lists as directories
    and downloads the files that are read. The C sources are under src/src; the
    release build of src/build/Makefile (DEBUG=0, assertions on) is modelled,
    and beside it the parts of the tree that it does not build but that are
    complete: http.c and uri.c, and the hash table, the number collapser, the
    old alarms and the directory cache of src/scrap; of the DEBUG build, the
    tracing and the dumps.

    ** How the program works

    [main] (fsfuse.c) stacks its configuration, reads the command line and runs
    libfuse's session; init starts the collection of indexnodes. Indexnodes are
    heard of from UDP adverts (the listener thread) or asked for at intervals
    when they are configured (alarms). A FUSE request names an inode: the inode
    map gives the direntry, a node of a tree that is filled in when it is looked
    into, by fetching the directory's page from an indexnode (fetcher, over
    libcurl) and parsing it (parsers, over libxml2's SAX interface) into
    listings. Opening a file starts a download thread; a read queues a chunk on
    it, a priority queue ordered by start (binary heap); the thread asks an
    indexnode for the file's alternatives, chooses a peer (peerstats), downloads
    from it and hands each buffer that comes to [buf_consumer], which fills the
    chunks and replies to the reads. Objects are reference counted throughout.

    ** The files

    - [Prelude]: outcomes of a C call, machine integers, memory, strings,
      tactics. [CLib]: the C library's string functions, allocated strings.
      [Constants] (fs2_constants.c): the names of the protocol.
    - [Utils] (utils.c): paths, dotted versions, thread indexes.
    - [RefCount] (ref_count.c), [Counted]: counts, and heaps of counted objects
      with [adds], how a run of copies and deletes changed the counts.
    - [Locks] (locks.c): the reader-writer lock and, as a step relation, the
      threads that use it.
    - [BinaryHeap] (binary_heap.c, kvp.c): the heap in its array, and the class
      [PriQ] of what its user relies on, with the heap as an instance.
    - [ReadContext]: the memory reads share with their thread; [chunk_done] of
      fuse_methods/read.c.
    - [StringBuffer] (string_buffer.c), [Fetcher] (fetcher.c): text, HTTP over
      the class [Curl] of what libcurl documents.
    - [Uri] (uri.c), [Http] (http.c): URIs as allocated components, and requests
      over sockets, both over the program's string buffers.
    - [Parsers] (parser/): Modules [Filelist] and [Stats], the two state
      machines, and the SAX front end before them.
    - [Listing] (nativefs/listing.c, listing_list.c, peerstats.c).
    - [Downloader] (downloader/downloader.c): the thread, over any [PriQ]; a
      pass is [Listing]'s query over [Indexnode]'s and [Fetcher]'s download.
    - [Direntry] (nativefs/direntry.c, inode_map.c): the tree, with the listings
      that pages leave behind; Module [InodeMap]. [Browse]: its lookups with
      [Indexnode]'s fetch put together.
    - [FuseMethods] (fuse_methods/): the handlers libfuse calls. [Reads]: the
      read handler and the download thread put together. [Session]: sequences of
      requests against a server by inode and name, without pointers.
    - [Indexnode] (indexnodes/proto_indexnode.c, indexnode.c), [Indexnodes]
      (indexnodes.c, its lists and iterators), [Alarm] (alarm_simple.c),
      [Statics] (indexnodes_statics_manager.c over Module [LinkedList],
      linked_list.h), [Listener] (indexnodes_listener.c,
      indexnodes_listener_thread.c), [Collection]: all of them put together,
      from init.c to destroy.c. [Interleaving]: the collection's threads over
      the lock of [Locks], an access at a time.
    - [Config] (config/, with the generated getters), [Main] (fsfuse.c,
      localei.c, with a log of what is printed and called).
    - [Trace] (trace.c, trace.h): the debugging log.
    - [HashTable] (scrap/hash_table.c): chains in memory; [HashDump]: its
      dumps; [HashTableTest] (scrap/hash_table_test.c): its tests, run on it.
      [StrTable]: the class of what its users rely on, with the hash table as an
      instance; over that class [NumSpace] (scrap/num_space_collapser.c) and
      [DirentryCache] (scrap/direntry_cache.c), a tree of counted directory
      entries found by path. [OldAlarms] (scrap/alarms_old.c).
    - [UnitTests] (src/tests/unit): the repository's own tests, run on the model.

    ** How it is modelled

    A C function is a function to [outcome]: it returns, fails an assertion,
    does something undefined (out of bounds, freed, null or uninitialised
    memory, a wild call, signed overflow), or has not returned within the
    schedule given ([Blocked]). State that a component keeps is a record passed
    through; objects that are shared live in heaps (finite maps by address), so
    a use of a freed object is [Undef]. Integers are [Z] with their wrap-around
    written out where the code's type matters ([u32], [u64], [i32], [i64]; off_t,
    size_t and long have 64 bits). C strings are lists of characters without the
    NUL; where the bounds of a block matter, memory is a list of cells, [None]
    for one not written.

    What other threads and the system do is a schedule: the returns of
    [pthread_cond_timedwait] with the requests queued meanwhile (Downloader),
    those of [select] with what is then read (Alarm, Listener), whose turn it is
    (Alarm, Statics), steps of any thread (Locks, Interleaving), the returns of [read],
    [write] and [connect] (Http), of [gettimeofday] (OldAlarms) and [calloc]
    (HashTable). libcurl is the class [Curl]; the network's answer to
    a query, libxml2's SAX calls and XPath results, libfuse's results and [fuse_add_direntry], escaping, [realpath], the
    time, the random number and, for the directory cache, the listing that is
    fetched are parameters.

    Fuel: loops that consume a list or schedule recurse on it. Others take fuel
    from the code's own measure, and the theorems show that it suffices: the
    heap's sifts [used + 1], the dotted version's loop the strings' lengths, the
    buffer's loop one more than the chunks to come, the queue's emptying its
    length; the walks of the direntry tree take a depth or a number of
    siblings that their theorems bound, those of the hash table's chains the
    number of entries, the list of alarms the size of its memory, the directory
    cache's deletions twice its nodes and the tree's depth.

    ** What is shown

    - The download: [buf_consumer] answers reads with exactly their bytes and
      makes progress, whatever the buffers it is given. A whole thread, with the
      program's own query and fetch, never gives it one: an empty page of
      alternatives is taken for a failure and answers every request with EBUSY;
      a page with a body is a wild call, since [fetcher_fetch_body] registers
      the client's context for the wrapper. A failed download that holds no
      chunk strands the queue.
    - The heap sorts; add and pop refine a multiset with a minimum.
    - The lock excludes with one reader, and does not with two.
    - String buffers refine strings; URLs, paths, versions and the parsers'
      pages have functional specifications; directory pages and the inode map
      round-trip.
    - Objects: the choice of a peer, the lookups in the tree, the lists of
      indexnodes and the adverts balance their references, exactly, with the
      exceptions proved as such.
    - Indexnodes: the listener and the collection refine a list of members with
      one entry for each id; listener and alarms stop when they are deleted and
      leave behind exactly what the theorems name. Interleaved, the accesses of
      any number of announcing threads and a session are defined, and their
      references exact, as long as no search overlaps a get; from any state so
      reached in which a thread searches, a get can free the list that it walks.
      Two searches for one id can both add.
    - The handlers: what read queues, readdir answers, statfs totals; and what
      the reads of an open file come to: an assertion, EBUSY once for each, or
      undefined behaviour. A session of any requests over a tree that has been
      looked into refines a server that keeps no state, with exact references;
      those show that some requests give back more than they took, and that a
      directory is freed by being opened often enough. readlink aborts the
      program, and getattr of what is not open is undefined. Looking into a
      directory that was not looked into leaves it empty for good, or, if the
      indexnode's answer has a body, is undefined.
    - The configuration reads the last source, with the type its table declares.
      [my_fuse_main] mounts, runs the loop and unmounts as it says; but [main]
      does not get so far, since [direntry_init] is undefined.
    - Beside the program: the hash table refines a finite map, through every
      rehash, without a leak and within its load; what is set in a URI is
      read back, component by component, but neither its text nor a request's
      can be made: [string_buffer_append] frees the literals it is given; a
      buffer is sent whole however writes are cut up, and a reply is handed over
      as the whole stream cut into blocks; the log renders a stack of indentations.
    - The directory cache finds what its tree holds, fills a directory that is
      looked into, and is empty of entries when it is finalised; a stale entry
      loses its children, and refreshing one reads a child it has freed.
    - The unit tests that the driver runs, and those of the hash table, pass on
      the model, leaving no memory behind where the model counts it.
    - Defects: the properties of kind error, and further theorems beside them,
      each that a run which the code allows ends in an assertion, undefined
      behaviour, a lost or wrong reply, or a leaked reference.

    ** What is not modelled

    Allocation (but for the hash table's) and replies to libfuse do not fail.
    src/scrap/alarms.c is left out: it is a sketch that does not compile.
    [DirentryCache] models its file with the record of an entry that it is
    written against, which the tree no longer declares. 3rdparty's queue.h is
    left out, its lists are lists here; so are the suites' registration and the
    integration and interactive drivers, which need a mounted network.
    [Session] starts from a tree that is there, each of whose entries is counted:
    making one goes through the mismatched [inode_map_add] and is undefined.
    So do the theorems of [FuseMethods] on such trees, [Reads] on an open file and
    [Downloader] on a thread: each component is specified by itself, whatever
    [main] comes to. [Direntry] is given a function for the page, and [Browse]
    the one of [Indexnode].
    [Interleaving] has the threads of the collection side by side; the other
    files of the collection have one thread at a time: [collection_lifecycle]
    has the listener's packets before the alarms' ticks, the order they are
    stopped in. Memory is sequentially consistent, and a call
    on a counted object is one step. Freeing the lock leaves no trace. *)
From stdpp Require Export base list strings gmap.
From Stdlib Require Export ZArith Lia Ascii Sorted.

(** * Outcomes of a C call *)

(** What a call can do: return, stop at a failed [assert()], do something the
    C standard leaves undefined (out-of-bounds access, use of a freed or null
    pointer, signed overflow, use of an uninitialised value), or not return
    within the fuel / schedule it was given. *)
Inductive outcome (A : Type) : Type :=
| Ret (a : A)
| AssertFail
| Undef
| Blocked.
Arguments Ret {A} a.
Arguments AssertFail {A}.
Arguments Undef {A}.
Arguments Blocked {A}.

#[export] Instance outcome_ret : MRet outcome := fun A a => Ret a.
#[export] Instance outcome_bind : MBind outcome := fun A B f m =>
  match m with
  | Ret a => f a
  | AssertFail => AssertFail
  | Undef => Undef
  | Blocked => Blocked
  end.
#[export] Instance outcome_fmap : FMap outcome := fun A B f m => a ← m; Ret (f a).
#[export] Instance outcome_eq_dec {A} `{EqDecision A} : EqDecision (outcome A).
Proof. solve_decision. Defined.

Definition returns {A} (m : outcome A) : Prop := exists a, m = Ret a.

(** [assert(b)]. The Makefile never defines NDEBUG: both builds keep it. *)
Definition c_assert (b : bool) : outcome unit := if b then Ret tt else AssertFail.

(** Dereference: [None] is a pointer (or a cell) that must not be read. *)
Definition deref {A} (o : option A) : outcome A :=
  match o with Some a => Ret a | None => Undef end.

Lemma bind_ret_l {A B} (a : A) (f : A -> outcome B) : (Ret a ≫= f) = f a.
Proof. reflexivity. Qed.

Lemma bind_ret_inv {A B} (m : outcome A) (f : A -> outcome B) b :
  (m ≫= f) = Ret b -> exists a, m = Ret a /\ f a = Ret b.
Proof. destruct m; simpl; intros H; try discriminate. eauto. Qed.

Lemma deref_ret_inv {A} (o : option A) a : deref o = Ret a -> o = Some a.
Proof. destruct o; simpl; congruence. Qed.

Lemma assert_ret_inv b u : c_assert b = Ret u -> b = true.
Proof. destruct b; simpl; congruence. Qed.

(** * State passing with outcomes *)

(** A C function over a shared store. *)
Definition ST (S A : Type) : Type := S -> outcome (A * S).
#[export] Instance ST_ret {S} : MRet (ST S) := fun A a s => Ret (a, s).
#[export] Instance ST_bind {S} : MBind (ST S) := fun A B f m s =>
  match m s with
  | Ret (a, s') => f a s'
  | AssertFail => AssertFail
  | Undef => Undef
  | Blocked => Blocked
  end.
Definition lift {S A} (m : outcome A) : ST S A := fun s => a ← m; Ret (a, s).

Lemma ST_bind_ret_l {S A B} (m : ST S A) (f : A -> ST S B) s a s' :
  m s = Ret (a, s') -> (m ≫= f) s = f a s'.
Proof. unfold mbind, ST_bind. intros ->. reflexivity. Qed.

Lemma ST_bind_ret_inv {S A B} (m : ST S A) (f : A -> ST S B) s r :
  (m ≫= f) s = Ret r -> exists a s', m s = Ret (a, s') /\ f a s' = Ret r.
Proof.
  unfold mbind, ST_bind. destruct (m s) as [[a s']| | |]; try discriminate. eauto.
Qed.

(** * Machine integers *)

Definition u32 (z : Z) : Z := z mod 2 ^ 32.
Definition u64 (z : Z) : Z := z mod 2 ^ 64.
(** Conversion to a signed type: the value modulo 2^w in the signed range
    (implementation-defined in C99, this in gcc and clang). *)
Definition i32 (z : Z) : Z := (z + 2 ^ 31) mod 2 ^ 32 - 2 ^ 31.
Definition i64 (z : Z) : Z := (z + 2 ^ 63) mod 2 ^ 64 - 2 ^ 63.
Definition INT_MAX : Z := 2 ^ 31 - 1.
Definition in_i32 (z : Z) : bool := (- 2 ^ 31 <=? z)%Z && (z <? 2 ^ 31)%Z.
Definition in_i64 (z : Z) : bool := (- 2 ^ 63 <=? z)%Z && (z <? 2 ^ 63)%Z.
(** The result of signed [int] arithmetic: overflow is undefined. *)
Definition int_op (z : Z) : outcome Z := if in_i32 z then Ret z else Undef.
(** The same for [off_t] and [long] (64 bits). *)
Definition off_op (z : Z) : outcome Z := if in_i64 z then Ret z else Undef.

Lemma u32_id z : (0 <= z < 2 ^ 32)%Z -> u32 z = z.
Proof. apply Z.mod_small. Qed.
Lemma u64_id z : (0 <= z < 2 ^ 64)%Z -> u64 z = z.
Proof. apply Z.mod_small. Qed.
Lemma i32_id z : (- 2 ^ 31 <= z < 2 ^ 31)%Z -> i32 z = z.
Proof. intros H. unfold i32. rewrite Z.mod_small; lia. Qed.
Lemma i64_id z : (- 2 ^ 63 <= z < 2 ^ 63)%Z -> i64 z = z.
Proof. intros H. unfold i64. rewrite Z.mod_small; lia. Qed.
Lemma u32_range z : (0 <= u32 z < 2 ^ 32)%Z.
Proof. apply Z.mod_pos_bound. lia. Qed.
Lemma i32_range z : (- 2 ^ 31 <= i32 z < 2 ^ 31)%Z.
Proof.
  unfold i32. pose proof (Z.mod_pos_bound (z + 2 ^ 31) (2 ^ 32) ltac:(lia)). lia.
Qed.
Lemma int_op_ok z : (- 2 ^ 31 <= z < 2 ^ 31)%Z -> int_op z = Ret z.
Proof.
  intros H. unfold int_op, in_i32.
  rewrite (proj2 (Z.leb_le _ _)), (proj2 (Z.ltb_lt _ _)); [reflexivity|lia|lia].
Qed.
Lemma off_op_ok z : (- 2 ^ 63 <= z < 2 ^ 63)%Z -> off_op z = Ret z.
Proof.
  intros H. unfold off_op, in_i64.
  rewrite (proj2 (Z.leb_le _ _)), (proj2 (Z.ltb_lt _ _)); [reflexivity|lia|lia].
Qed.
Lemma int_op_inv z r : int_op z = Ret r -> r = z /\ (- 2 ^ 31 <= z < 2 ^ 31)%Z.
Proof.
  unfold int_op, in_i32. destruct (_ && _) eqn:E; [|discriminate].
  intros [= <-]. apply andb_true_iff in E as [?%Z.leb_le ?%Z.ltb_lt]. auto.
Qed.

(** * C strings *)

(** A C string is its characters up to the terminating NUL, which is kept
    implicit: no element of the list is [NUL]. *)
Abbreviation cstr := (list ascii).
Definition NUL : ascii := "000"%char.
Definition cs (s : string) : cstr := String.list_ascii_of_string s.
Definition no_nul (s : cstr) : Prop := Forall (fun c => c <> NUL) s.

(** [!strcmp(a, b)] *)
Definition streq (a b : cstr) : bool := bool_decide (a = b).

Lemma streq_true a b : streq a b = true <-> a = b.
Proof. apply bool_decide_eq_true. Qed.
Lemma streq_false a b : streq a b = false <-> a <> b.
Proof. apply bool_decide_eq_false. Qed.
Lemma streq_refl a : streq a a = true.
Proof. by apply streq_true. Qed.

(** * Automation *)

Create HintDb fsfuse discriminated.
Create Rewrite HintDb fsfuse.
#[export] Hint Resolve u32_range i32_range streq_refl : fsfuse.
#[export] Hint Rewrite @bind_ret_l : fsfuse.

(** Take apart a hypothesis that says a monadic computation returned. *)
Ltac inv_ret :=
  repeat match goal with
  | H : (_ ≫= _) = Ret _ |- _ =>
      let a := fresh "r" in let H1 := fresh "Hr" in
      apply bind_ret_inv in H as (a & H1 & H); cbn beta in H
  | H : c_assert _ = Ret _ |- _ => apply assert_ret_inv in H
  | H : deref _ = Ret _ |- _ => apply deref_ret_inv in H
  | H : Ret _ = Ret _ |- _ => injection H; clear H; intros; subst
  | H : AssertFail = Ret _ |- _ => discriminate H
  | H : Undef = Ret _ |- _ => discriminate H
  | H : Blocked = Ret _ |- _ => discriminate H
  end.

(** Split boolean hypotheses into propositions over [Z] and [nat]. *)
Ltac bool_hyps :=
  repeat match goal with
  | H : _ && _ = true |- _ => apply andb_true_iff in H as [? ?]
  | H : _ || _ = false |- _ => apply orb_false_iff in H as [? ?]
  | H : negb _ = true |- _ => apply negb_true_iff in H
  | H : negb _ = false |- _ => apply negb_false_iff in H
  | H : (_ <? _)%Z = true |- _ => apply Z.ltb_lt in H
  | H : (_ <? _)%Z = false |- _ => apply Z.ltb_ge in H
  | H : (_ <=? _)%Z = true |- _ => apply Z.leb_le in H
  | H : (_ <=? _)%Z = false |- _ => apply Z.leb_gt in H
  | H : (_ =? _)%Z = true |- _ => apply Z.eqb_eq in H
  | H : (_ =? _)%Z = false |- _ => apply Z.eqb_neq in H
  | H : (_ <? _) = true |- _ => apply Nat.ltb_lt in H
  | H : (_ <? _) = false |- _ => apply Nat.ltb_ge in H
  | H : (_ <=? _) = true |- _ => apply Nat.leb_le in H
  | H : (_ <=? _) = false |- _ => apply Nat.leb_gt in H
  | H : (_ =? _) = true |- _ => apply Nat.eqb_eq in H
  | H : (_ =? _) = false |- _ => apply Nat.eqb_neq in H
  | H : streq _ _ = true |- _ => apply streq_true in H
  | H : streq _ _ = false |- _ => apply streq_false in H
  end.

(** * Memory blocks *)

(** [memcpy] source: [len] cells of a block starting at [off]; reading outside
    the block is undefined. *)
Definition mem_read {A} (mem : list A) (off len : nat) : outcome (list A) :=
  if off + len <=? length mem then Ret (take len (drop off mem)) else Undef.

(** Overwrite the cells of a block from [off] on; outside it is undefined. *)
Definition mem_write {A} (mem : list A) (off : nat) (data : list A) : outcome (list A) :=
  if off + length data <=? length mem
  then Ret (take off mem ++ data ++ drop (off + length data) mem)
  else Undef.

(** The C string stored at the start of a block. *)
Fixpoint until_nul (mem : cstr) : cstr :=
  match mem with
  | [] => []
  | c :: mem' => if decide (c = NUL) then [] else c :: until_nul mem'
  end.

Lemma until_nul_app s rest : no_nul s -> until_nul (s ++ NUL :: rest) = s.
Proof.
  induction 1 as [|c s Hc Hs IH]; cbn [until_nul app]; case_decide; [done..|].
  by rewrite IH.
Qed.

Lemma until_nul_id s : no_nul s -> until_nul s = s.
Proof.
  induction 1 as [|c s Hc Hs IH]; cbn [until_nul]; [done|]. case_decide; [done|]. by rewrite IH.
Qed.

Lemma no_nul_app a b : no_nul (a ++ b) <-> no_nul a /\ no_nul b.
Proof. apply Forall_app. Qed.

Lemma mem_write_ok {A} (mem : list A) off data :
  off + length data <= length mem ->
  mem_write mem off data = Ret (take off mem ++ data ++ drop (off + length data) mem).
Proof. intros H. unfold mem_write. by rewrite (proj2 (Nat.leb_le _ _) H). Qed.

Lemma mem_read_ok {A} (mem : list A) off len :
  off + len <= length mem -> mem_read mem off len = Ret (take len (drop off mem)).
Proof. intros H. unfold mem_read. by rewrite (proj2 (Nat.leb_le _ _) H). Qed.

Lemma mem_write_length {A} (mem : list A) off data mem' :
  mem_write mem off data = Ret mem' -> length mem' = length mem.
Proof.
  unfold mem_write. destruct (_ <=? _) eqn:E; [|discriminate]. intros [= <-].
  apply Nat.leb_le in E. rewrite !length_app, length_take, length_drop. lia.
Qed.
