(* ===== verification/CLib.v ===== *)
(** * The C library functions the program calls on strings

    [strchr], [strrchr], [strspn], [strcasecmp], [strncmp], [strtol] and its
    relatives, over C strings without their terminating NUL, with the lemmas
    their callers use. *)
From stdpp Require Import pretty.
From S2P Require Import Prelude.

(** ** Searching *)

(** [strchr(s, c) - s]: the first position of [c], [None] for a null result. *)
Fixpoint strchr (c : ascii) (s : cstr) : option nat :=
  match s with
  | [] => None
  | x :: s' => if decide (x = c) then Some 0 else S <$> strchr c s'
  end.

(** [strrchr(s, c) - s]: the last position of [c]. *)
Fixpoint strrchr (c : ascii) (s : cstr) : option nat :=
  match s with
  | [] => None
  | x :: s' =>
      match strrchr c s' with
      | Some i => Some (S i)
      | None => if decide (x = c) then Some 0 else None
      end
  end.

(** [strspn(s, set)]: the length of the prefix made of characters of [set]. *)
Fixpoint strspn (set s : cstr) : nat :=
  match s with
  | [] => 0
  | x :: s' => if decide (x ∈ set) then S (strspn set s') else 0
  end.

Lemma strchr_Some c s i :
  strchr c s = Some i <->
  exists t, s = take i s ++ c :: t /\ i = length (take i s) /\ c ∉ take i s.
Proof.
  revert i. induction s as [|x s IH]; intros i; simpl.
  - split; [discriminate|]. intros (t & H & _). by destruct i.
  - case_decide as Hx.
    + subst. split.
      * intros [= <-]. exists s. repeat split; [done..|]. apply not_elem_of_nil.
      * intros (t & H & Hi & Hn). destruct i as [|i]; [done|].
        exfalso. apply Hn. simpl. left.
    + destruct i as [|i]; simpl.
      * split; [destruct (strchr c s); discriminate|].
        intros (t & [= -> _] & _). done.
      * transitivity (strchr c s = Some i).
        { destruct (strchr c s); simpl; naive_solver congruence. }
        rewrite IH. split.
        -- intros (t & H1 & H2 & H3). exists t.
           split; [by f_equal|]. split; [by f_equal|].
           rewrite not_elem_of_cons. done.
        -- intros (t & H1 & H2 & H3). exists t. injection H1 as H1.
           injection H2 as H2. rewrite not_elem_of_cons in H3. naive_solver.
Qed.

Lemma strchr_None c s : strchr c s = None <-> c ∉ s.
Proof.
  induction s as [|x s IH]; simpl.
  - split; [intros; apply not_elem_of_nil|done].
  - rewrite not_elem_of_cons. case_decide.
    + naive_solver.
    + rewrite fmap_None, IH. naive_solver.
Qed.

Lemma strchr_app c s t : c ∉ s -> strchr c (s ++ c :: t) = Some (length s).
Proof.
  intros H. apply strchr_Some. exists t.
  by rewrite take_app_length.
Qed.

Lemma strrchr_None c s : strrchr c s = None <-> c ∉ s.
Proof.
  induction s as [|x s IH]; simpl.
  - split; [intros; apply not_elem_of_nil|done].
  - rewrite not_elem_of_cons. destruct (strrchr c s); [naive_solver|].
    case_decide; naive_solver.
Qed.

Lemma strrchr_app c s t : c ∉ t -> strrchr c (s ++ c :: t) = Some (length s).
Proof.
  intros Ht%strrchr_None. induction s as [|x s IH]; simpl.
  - rewrite Ht. by rewrite decide_True.
  - by rewrite IH.
Qed.

Lemma strrchr_Some c s i :
  strrchr c s = Some i ->
  exists a t, s = a ++ c :: t /\ i = length a /\ c ∉ t.
Proof.
  revert i. induction s as [|x s IH]; simpl; intros i H; [done|].
  destruct (strrchr c s) as [j|] eqn:E.
  - injection H as <-. destruct (IH j eq_refl) as (a & t & -> & -> & Ht).
    by exists (x :: a), t.
  - case_decide; [|done]. simplify_eq. apply strrchr_None in E.
    by exists [], s.
Qed.

Lemma strspn_le set s : strspn set s <= length s.
Proof. induction s; simpl; [lia|case_decide; lia]. Qed.

Lemma strspn_full set s : strspn set s = length s <-> Forall (.∈ set) s.
Proof.
  induction s as [|x s IH]; simpl; [by rewrite Forall_nil|].
  rewrite Forall_cons. case_decide as H; [|naive_solver].
  rewrite <- IH. naive_solver.
Qed.

(** ** Comparison *)

(** [!strncmp(s, prefix, strlen(prefix))] *)
Definition strprefix (prefix s : cstr) : bool :=
  bool_decide (take (length prefix) s = prefix).

Lemma strprefix_app p s : strprefix p (p ++ s) = true.
Proof. apply bool_decide_eq_true. by rewrite take_app_length. Qed.
Lemma strprefix_true p s : strprefix p s = true -> exists t, s = p ++ t.
Proof.
  intros H%bool_decide_eq_true. exists (drop (length p) s).
  rewrite <- H at 1. by rewrite take_drop.
Qed.

Definition between (lo hi : ascii) (c : ascii) : bool :=
  ((nat_of_ascii lo <=? nat_of_ascii c) && (nat_of_ascii c <=? nat_of_ascii hi))%nat.

(** ** Allocated strings *)

(** A string in a block from [malloc] or [strdup]. *)
Record str := Str { addr : nat; text : cstr }.

(** The addresses of the blocks in use. *)
Definition str_new (s : cstr) (live : gset nat) : str * gset nat :=
  let p := stdpp.base.fresh live in (Str p s, {[ p ]} ∪ live).
Definition str_free (s : str) (live : gset nat) : outcome (gset nat) :=
  if bool_decide (addr s ∈ live) then Ret (live ∖ {[ addr s ]}) else Undef.

Lemma str_new_fresh s live : addr (fst (str_new s live)) ∉ live.
Proof. apply is_fresh. Qed.

Lemma str_free_ok s live : addr s ∈ live -> str_free s live = Ret (live ∖ {[ addr s ]}).
Proof. intros H. unfold str_free. by rewrite bool_decide_true. Qed.

Lemma str_free_dead s live : addr s ∉ live -> str_free s live = Undef.
Proof. intros H. unfold str_free. by rewrite bool_decide_false. Qed.


(** [tolower] in the C locale *)
Definition tolower (c : ascii) : ascii :=
  if between "A" "Z" c then ascii_of_nat (nat_of_ascii c + 32) else c.
(** [!strcasecmp(a, b)] *)
Definition strcaseeq (a b : cstr) : bool :=
  bool_decide (tolower <$> a = tolower <$> b).

(** ** Numbers *)

Definition isspace (c : ascii) : bool :=
  bool_decide (c ∈ cs " ") || between "009" "013" c.

Definition digit_val (c : ascii) : Z :=
  if between "0" "9" c then Z.of_nat (nat_of_ascii c) - 48
  else if between "a" "z" c then Z.of_nat (nat_of_ascii c) - 87
  else if between "A" "Z" c then Z.of_nat (nat_of_ascii c) - 55
  else 99.
Definition is_digit (base : Z) (c : ascii) : bool := (digit_val c <? base)%Z.

Fixpoint skip_spaces (s : cstr) : cstr :=
  match s with
  | c :: s' => if isspace c then skip_spaces s' else s
  | [] => []
  end.

(** The digits at the start of [s], accumulated onto [acc]. *)
Fixpoint digits (base acc : Z) (s : cstr) : Z * cstr :=
  match s with
  | c :: s' =>
      if is_digit base c then digits base (acc * base + digit_val c) s' else (acc, s)
  | [] => (acc, [])
  end.

Definition sign (s : cstr) : bool * cstr :=
  match s with
  | "-"%char :: s' => (true, s')
  | "+"%char :: s' => (false, s')
  | _ => (false, s)
  end.

(** The base that a prefix selects when [base] is 0, and what follows it. *)
Definition detect_base (base : Z) (s : cstr) : Z * cstr :=
  if (base =? 0)%Z then
    match s with
    | "0"%char :: x :: d :: s' =>
        if bool_decide (x ∈ cs "xX") && is_digit 16 d then (16%Z, d :: s') else (8%Z, s)
    | "0"%char :: _ => (8%Z, s)
    | _ => (10%Z, s)
    end
  else (base, s).

Definition LONG_MAX : Z := 2 ^ 63 - 1.
Definition LONG_MIN : Z := - 2 ^ 63.
Definition clamp_long (z : Z) : Z := Z.max LONG_MIN (Z.min LONG_MAX z).

(** [strtol(s, &end, base)] for [base] 0 or 10: the value, saturated to [long],
    and [end]; [end] is [s] itself when there is no number. *)
Definition strtol (base : Z) (s : cstr) : Z * cstr :=
  let '(neg, s2) := sign (skip_spaces s) in
  let '(b, s3) := detect_base base s2 in
  match s3 with
  | c :: _ =>
      if is_digit b c then
        let '(v, rest) := digits b 0 s3 in
        (clamp_long (if neg : bool then - v else v)%Z, rest)
      else (0%Z, s)
  | [] => (0%Z, s)
  end.

(** [atol], [atoll] *)
Definition atol (s : cstr) : Z := fst (strtol 10 s).

(** [strtoul(s, NULL, 0)]: a negated value is the two's complement. *)
Definition strtoul0 (s : cstr) : Z :=
  let '(neg, s2) := sign (skip_spaces s) in
  let '(b, s3) := detect_base 0 s2 in
  match s3 with
  | c :: _ =>
      if is_digit b c then
        let '(v, _) := digits b 0 s3 in
        if (2 ^ 64 - 1 <? v)%Z then (2 ^ 64 - 1)%Z
        else if neg : bool then u64 (- v) else v
      else 0%Z
  | [] => 0%Z
  end.

Lemma digits_suffix base acc s : length (snd (digits base acc s)) <= length s.
Proof.
  revert acc. induction s as [|c s IH]; intros acc; simpl; [lia|].
  destruct (is_digit base c); simpl; [|lia]. specialize (IH (acc * base + digit_val c)%Z). lia.
Qed.

Lemma skip_spaces_len s : length (skip_spaces s) <= length s.
Proof. induction s; simpl; [lia|]. destruct (isspace _); simpl; lia. Qed.

Lemma sign_len s : length (snd (sign s)) <= length s.
Proof.
  destruct s as [|c s]; simpl; [lia|].
  destruct c as [[] [] [] [] [] [] [] []]; simpl; lia.
Qed.

Lemma detect_base_len base s : length (snd (detect_base base s)) <= length s.
Proof.
  unfold detect_base. destruct (base =? 0)%Z; [|simpl; lia].
  destruct s as [|c s]; simpl; [lia|].
  destruct c as [[] [] [] [] [] [] [] []]; simpl; try lia.
  destruct s as [|x [|d s]]; simpl; try lia.
  destruct (_ && _); simpl; lia.
Qed.

(** [strtol] never moves the end pointer outside the string. *)
Lemma strtol_rest_len base s : length (snd (strtol base s)) <= length s.
Proof.
  unfold strtol. pose proof (skip_spaces_len s) as H1.
  pose proof (sign_len (skip_spaces s)) as H2.
  destruct (sign (skip_spaces s)) as [neg s2]; simpl in *.
  pose proof (detect_base_len base s2) as H3.
  destruct (detect_base base s2) as [b s3]; simpl in *.
  destruct s3 as [|c s3]; [simpl; lia|].
  destruct (is_digit b c); [|simpl; lia].
  pose proof (digits_suffix b 0 (c :: s3)) as H4.
  destruct (digits b 0 (c :: s3)); simpl in *; lia.
Qed.

(** [printf]'s ["%" PRIu64]. *)
Definition print_u64 (n : Z) : cstr := cs (pretty (Z.to_N (u64 n))).

(** Decimal digits are few, and none is a NUL. *)
Lemma pretty_go_chars (k : nat) : forall (x : N) (s : String.string),
  (x < 10 ^ N.of_nat k)%N -> no_nul (cs s) ->
  no_nul (cs (pretty_N_go x s)) /\ length (cs (pretty_N_go x s)) <= length (cs s) + k.
Proof.
  assert (forall d, pretty_N_char d <> NUL) as Hd.
  { intros d. unfold pretty_N_char. by repeat case_match. }
  induction k as [|k IH]; intros x s Hx Hs; (destruct (N.eq_dec x 0) as [->|Hne]; [rewrite pretty_N_go_0; split; [done|lia]|]).
  - rewrite N.pow_0_r in Hx. lia.
  - rewrite pretty_N_go_step by lia.
    rewrite Nat2N.inj_succ, N.pow_succ_r' in Hx.
    destruct (IH (x `div` 10)%N (String.String (pretty_N_char (x `mod` 10)) s)) as [H1 H2].
    + apply N.Div0.div_lt_upper_bound. lia.
    + by constructor.
    + split; [done|]. cbn [cs String.list_ascii_of_string length] in H2 |- *. unfold cs in *. lia.
Qed.

Lemma print_u64_chars n : no_nul (print_u64 n) /\ (Z.of_nat (length (print_u64 n)) <= 20)%Z.
Proof.
  unfold print_u64. pose proof (Z.mod_pos_bound n (2 ^ 64) ltac:(lia)) as Hn.
  assert (Z.to_N (u64 n) < 10 ^ N.of_nat 20)%N as Hb by (unfold u64; lia).
  unfold pretty, pretty_N. case_decide; [split; [by constructor|cbn; lia]|].
  destruct (pretty_go_chars 20 _ "" Hb ltac:(constructor)) as [H1 H2]. split; [done|]. cbn in H2 |- *. lia.
Qed.

Definition newline : cstr := ["010"%char].
Definition dquote : cstr := ["034"%char].
(** A line of a text. *)
Definition line (text : cstr) : cstr := text ++ newline.

(** [printf]'s ["%d"]. *)
Definition print_int (z : Z) : cstr :=
  (if (z <? 0)%Z then cs "-" else []) ++ cs (pretty (Z.to_N (Z.abs z))).

Example print_int_ex : print_int (-10) = cs "-10".
Proof. vm_compute. reflexivity. Qed.
Example print_u64_ex : print_u64 1048576 = cs "1048576".
Proof. vm_compute. reflexivity. Qed.
Example strtol_dec : strtol 0 (cs "13.7") = (13%Z, cs ".7").
Proof. vm_compute. reflexivity. Qed.
Example strtol_oct : strtol 0 (cs "010") = (8%Z, []).
Proof. vm_compute. reflexivity. Qed.
Example strtol_hex : strtol 0 (cs "-0x1fz") = ((-31)%Z, cs "z").
Proof. vm_compute. reflexivity. Qed.
Example strtol_none : strtol 0 (cs ".5") = (0%Z, cs ".5").
Proof. vm_compute. reflexivity. Qed.
Example atol_ex : atol (cs "4096 bytes") = 4096%Z.
Proof. vm_compute. reflexivity. Qed.
