(* ===== verification/Constants.v ===== *)
(** * fs2_constants.c: the names of the fs2 protocol

    Attributes and headers, as indexnodes spell them, and the ids of the
    elements that hold lists; the root's inode of common.h. *)
From S2P Require Import Prelude CLib.

Definition fs2_alternativescount_attribute_key : cstr := cs "fs2-alternativescount".
Definition fs2_clientalias_attribute_key : cstr := cs "fs2-clientalias".
Definition fs2_hash_attribute_key : cstr := cs "fs2-hash".
Definition fs2_href_attribute_key : cstr := cs "href".
Definition fs2_linkcount_attribute_key : cstr := cs "fs2-linkcount".
Definition fs2_name_attribute_key : cstr := cs "fs2-name".
Definition fs2_size_attribute_key : cstr := cs "fs2-size".
Definition fs2_type_attribute_key : cstr := cs "fs2-type".

Definition fs2_alias_header_key : cstr := cs "fs2-alias: ".
Definition fs2_indexnode_uid_header_key : cstr := cs "fs2-indexnode-uid: ".
Definition fs2_version_header_key : cstr := cs "fs2-version: ".

Definition fs2_filelist_node_id : cstr := cs "fs2-filelist".

Definition FSFUSE_ROOT_INODE : Z := 1.
