(* ===== verification/HashTable.v ===== *)
(** * scrap/hash_table.c: the hash table of the retired directory cache

    A table is an array of chains; a chain's entries are blocks in memory, found
    by their addresses, so the rehashing that frees the old entries one step
    behind its cursor is modelled as it runs. Keys are borrowed from the
    caller and kept as texts; [D] is what the data pointers point to, [None]
    is NULL. Loads are doubles: counts over powers of two, which doubles hold
    exactly, so they are rationals here. *)
From S2P Require Import Prelude.
From Stdlib Require Export QArith.
From Stdlib Require Import Lqa.
#[local] Open Scope nat_scope.

(** [a < b] on rationals *)
Definition Qltb (a b : Q) : bool := negb (Qle_bool b a).

Lemma Qltb_true a b : Qltb a b = true <-> (a < b)%Q.
Proof.
  unfold Qltb. rewrite negb_true_iff. split; intros H.
  - apply Qnot_le_lt. intros E%Qle_bool_iff. congruence.
  - destruct (Qle_bool b a) eqn:E; [|done]. apply Qle_bool_iff in E.
    exfalso. eapply Qlt_not_le; eassumption.
Qed.

Lemma Qltb_false a b : Qltb a b = false <-> (b <= a)%Q.
Proof. unfold Qltb. by rewrite negb_false_iff, Qle_bool_iff. Qed.

(** ** The hash function *)

(** A [char] is signed. *)
Definition schar (c : ascii) : Z :=
  let n := Z.of_N (N_of_ascii c) in if (n <? 128)%Z then n else (n - 256)%Z.

Definition hash_step (hash : Z) (c : ascii) : Z :=
  u32 (u32 (u32 (Z.shiftl hash 5) + hash) + schar c).
Definition hash_djb2 (str : cstr) : Z := foldl hash_step 5381%Z str.

(** The hash in use. *)
Definition hash (str : cstr) : Z := hash_djb2 str.

Section HashTable.
Context {D : Type}.
(** Does [calloc] give a block for an array of this many slots? *)
Context (calloc_ok : Z -> bool).

(** ** The code *)

Record hash_table_entry := Entry { key : cstr; data : option D; next : option nat }.

Record hash_table := Table {
  size_ : Z;
  count : Z;
  max_load : Q;
  min_load : Q;
  entries : list (option nat)
}.

Definition c_initial_size : Z := 16.

(** The entries in use, by address. *)
Abbreviation mem := (gmap nat hash_table_entry).

Definition hash_table_new (max_load min_load : Q) : hash_table :=
  Table c_initial_size 0 max_load min_load (replicate (Z.to_nat c_initial_size) None).

(** The number of entries that [free(tbl)] leaves behind is what is in [m]. *)
Definition hash_table_delete (tbl : hash_table) : outcome unit := c_assert (count tbl =? 0)%Z.

(** [h % entries_len] *)
Definition slot_of (h entries_len : Z) : outcome nat :=
  if (entries_len =? 0)%Z then Undef else Ret (Z.to_nat (h mod entries_len)).

Definition add_to_entries (es : list (option nat)) (entries_len : Z) (k : cstr) (d : option D) (m : mem)
  : outcome (list (option nat) * mem) :=
  i ← slot_of (hash k) entries_len;
  oe ← deref (es !! i);
  let e := stdpp.base.fresh (dom m) in
  Ret (<[i := Some e]> es, <[e := Entry k d oe]> m).

Definition hash_table_get_size (tbl : hash_table) : Z := size_ tbl.
Definition hash_table_get_count (tbl : hash_table) : Z := count tbl.
Definition hash_table_get_load_factor (tbl : hash_table) : Q :=
  (inject_Z (count tbl) / inject_Z (size_ tbl))%Q.

Definition free_entry (e : option nat) (m : mem) : outcome mem :=
  match e with
  | None => Ret m
  | Some a => _ ← deref (m !! a); Ret (delete a m)
  end.

(** The inner loop of [hash_table_resize], over one chain of the old table. *)
Fixpoint rehash_chain (fuel : nat) (new_size : Z) (es : list (option nat)) (m : mem)
    (e e_prev : option nat) (cnt : Z) : outcome (list (option nat) * mem * Z) :=
  match fuel with
  | 0 => Blocked
  | S fuel =>
      match e with
      | None => m ← free_entry e_prev m; Ret (es, m, cnt)
      | Some a =>
          en ← deref (m !! a);
          '(es, m) ← add_to_entries es new_size (key en) (data en) m;
          m ← free_entry e_prev m;
          en ← deref (m !! a);
          rehash_chain fuel new_size es m (next en) (Some a) (u32 (cnt + 1))
      end
  end.

(** Its outer loop, over the slots from [i] on. *)
Fixpoint rehash_slots (n i : nat) (old : list (option nat)) (new_size : Z)
    (es : list (option nat)) (m : mem) (cnt : Z) : outcome (list (option nat) * mem * Z) :=
  match n with
  | 0 => Ret (es, m, cnt)
  | S n =>
      e ← deref (old !! i);
      '(es, m, cnt) ← rehash_chain (S (size m)) new_size es m e None cnt;
      rehash_slots n (S i) old new_size es m cnt
  end.

Definition hash_table_resize (tbl : hash_table) (new_size : Z) (m : mem) : outcome (hash_table * mem) :=
  if calloc_ok new_size then
    '(es, m, cnt) ← rehash_slots (Z.to_nat (size_ tbl)) 0 (entries tbl) new_size
                      (replicate (Z.to_nat new_size) None) m 0%Z;
    _ ← c_assert (cnt =? count tbl)%Z;
    Ret (Table new_size (count tbl) (max_load tbl) (min_load tbl) es, m)
  else Ret (tbl, m).

Definition hash_table_add (tbl : hash_table) (k : cstr) (d : option D) (m : mem)
  : outcome (hash_table * mem) :=
  '(es, m) ← add_to_entries (entries tbl) (size_ tbl) k d m;
  let tbl := Table (size_ tbl) (u32 (count tbl + 1)) (max_load tbl) (min_load tbl) es in
  if Qltb (max_load tbl) (hash_table_get_load_factor tbl)
  then hash_table_resize tbl (u32 (size_ tbl * 2)) m
  else Ret (tbl, m).

(** [while (e)] *)
Fixpoint find_from (fuel : nat) (m : mem) (e : option nat) (k : cstr) : outcome (option D) :=
  match fuel with
  | 0 => Blocked
  | S fuel =>
      match e with
      | None => Ret None
      | Some a =>
          en ← deref (m !! a);
          if streq (key en) k then Ret (data en) else find_from fuel m (next en) k
      end
  end.

Definition hash_table_find (tbl : hash_table) (k : cstr) (m : mem) : outcome (option D) :=
  i ← slot_of (hash k) (size_ tbl);
  e ← deref (entries tbl !! i);
  find_from (S (size m)) m e k.

(** [while (e->next)]: unlink the first entry behind [a] that has the key. *)
Fixpoint del_behind (fuel : nat) (m : mem) (a : nat) (k : cstr) : outcome (bool * mem) :=
  match fuel with
  | 0 => Blocked
  | S fuel =>
      e ← deref (m !! a);
      match next e with
      | None => Ret (false, m)
      | Some b =>
          en ← deref (m !! b);
          if streq (key en) k
          then Ret (true, delete b (<[a := Entry (key e) (data e) (next en)]> m))
          else del_behind fuel m b k
      end
  end.

(** Take the first entry with the key out of slot [i], if there is one. *)
Definition unlink (es : list (option nat)) (i : nat) (k : cstr) (m : mem)
  : outcome (bool * list (option nat) * mem) :=
  oe ← deref (es !! i);
  match oe with
  | None => Ret (false, es, m)
  | Some a =>
      e ← deref (m !! a);
      if streq (key e) k
      then Ret (true, <[i := next e]> es, delete a m)
      else '(rc, m) ← del_behind (S (size m)) m a k; Ret (rc, es, m)
  end.

Definition hash_table_del (tbl : hash_table) (k : cstr) (m : mem) : outcome (bool * hash_table * mem) :=
  i ← slot_of (hash k) (size_ tbl);
  '(rc, es, m) ← unlink (entries tbl) i k m;
  let tbl := Table (size_ tbl) (count tbl) (max_load tbl) (min_load tbl) es in
  if rc : bool then
    let tbl := Table (size_ tbl) (u32 (count tbl - 1)) (max_load tbl) (min_load tbl) es in
    '(tbl, m) ← (if Qltb (hash_table_get_load_factor tbl) (min_load tbl)
                 then hash_table_resize tbl (size_ tbl / 2) m
                 else Ret (tbl, m));
    Ret (true, tbl, m)
  else Ret (false, tbl, m).

(** *** Iterators *)

Record hash_table_iterator := Iterator { slot : nat; entry : option nat; end_ : bool }.

(** [while (!(e = tbl->entries[s++]) && s < tbl->size)]: the slots from [s] on. *)
Fixpoint first_from (n s : nat) (tbl : hash_table) : outcome (option nat * nat) :=
  match n with
  | 0 => Blocked
  | S n =>
      e ← deref (entries tbl !! s);
      match e with
      | None => if (Z.of_nat (S s) <? size_ tbl)%Z then first_from n (S s) tbl else Ret (None, S s)
      | Some a => Ret (Some a, S s)
      end
  end.

Definition hash_table_iterator_find_first (tbl : hash_table) (iter : hash_table_iterator)
  : outcome hash_table_iterator :=
  '(e, s) ← first_from (S (length (entries tbl))) 0 tbl;
  if (Z.of_nat s <? size_ tbl)%Z
  then Ret (Iterator (s - 1) e (end_ iter))
  else Ret (Iterator (slot iter) (entry iter) true).

Definition hash_table_iterator_new (tbl : hash_table) : outcome hash_table_iterator :=
  hash_table_iterator_find_first tbl (Iterator 0 None false).

Definition hash_table_iterator_current_key (iter : hash_table_iterator) (m : mem) : outcome (option cstr) :=
  if end_ iter then Ret None
  else a ← deref (entry iter); e ← deref (m !! a); Ret (Some (key e)).

Definition hash_table_iterator_current_data (iter : hash_table_iterator) (m : mem) : outcome (option D) :=
  if end_ iter then Ret None
  else a ← deref (entry iter); e ← deref (m !! a); Ret (data e).

(** [while (s < tbl->size && !(e = tbl->entries[s]))] *)
Fixpoint next_from (n s : nat) (tbl : hash_table) : outcome (option nat * nat) :=
  match n with
  | 0 => Blocked
  | S n =>
      if (Z.of_nat s <? size_ tbl)%Z then
        e ← deref (entries tbl !! s);
        match e with
        | None => next_from n (S s) tbl
        | Some a => Ret (Some a, s)
        end
      else Ret (None, s)
  end.

Definition hash_table_iterator_next (tbl : hash_table) (iter : hash_table_iterator) (m : mem)
  : outcome (bool * hash_table_iterator) :=
  a ← (match entry iter with Some a => Ret a | None => AssertFail end);
  e ← deref (m !! a);
  match next e with
  | Some b => Ret (true, Iterator (slot iter) (Some b) (end_ iter))
  | None =>
      '(e, s) ← next_from (S (length (entries tbl))) (slot iter + 1) tbl;
      if (Z.of_nat s <? size_ tbl)%Z
      then Ret (true, Iterator s e (end_ iter))
      else Ret (false, Iterator (slot iter) (entry iter) true)
  end.

Definition hash_table_iterator_at_end (iter : hash_table_iterator) : bool := end_ iter.

(** ** Chains in memory *)

Abbreviation item := (cstr * option D)%type.

(** [chain m p l]: from [p] the entries [l] are met, each with its address. *)
Fixpoint chain (m : mem) (p : option nat) (l : list (nat * item)) : Prop :=
  match l with
  | [] => p = None
  | (a, (k, d)) :: l => p = Some a /\ exists n, m !! a = Some (Entry k d n) /\ chain m n l
  end.

(** [l] lists the entries in use, each once. *)
Definition owns (m : mem) (l : list nat) : Prop := NoDup l /\ forall a, a ∈ dom m <-> a ∈ l.

Lemma chain_agree m m' p l :
  (forall a, a ∈ l.*1 -> m' !! a = m !! a) -> chain m p l -> chain m' p l.
Proof.
  revert p. induction l as [|[a [k d]] l IH]; intros p Hm; cbn [chain]; [done|].
  intros (-> & n & E & H). split; [done|]. exists n. split.
  - rewrite Hm; [done|]. cbn. left.
  - apply IH; [|done]. intros b Hb. apply Hm. cbn. by right.
Qed.

Lemma chain_dom m p l a : chain m p l -> a ∈ l.*1 -> a ∈ dom m.
Proof.
  revert p. induction l as [|[b [k d]] l IH]; intros p; cbn [chain fmap list_fmap].
  { intros _ H. by apply elem_of_nil in H. }
  intros (_ & n & E & H). rewrite elem_of_cons. intros [-> | Ha].
  - apply elem_of_dom. by eexists.
  - by eapply IH.
Qed.

Lemma owns_perm m l l' : l ≡ₚ l' -> owns m l -> owns m l'.
Proof.
  intros P [H1 H2]. split; [by rewrite <- P|]. intros a. rewrite H2. by rewrite P.
Qed.

Lemma owns_insert m l a e : a ∉ dom m -> owns m l -> owns (<[a := e]> m) (a :: l).
Proof.
  intros Ha [H1 H2]. split.
  - constructor; [|done]. by rewrite <- H2.
  - intros b. rewrite dom_insert_L, elem_of_union, elem_of_singleton, elem_of_cons, H2. tauto.
Qed.

Lemma owns_update m l a e : a ∈ dom m -> owns m l -> owns (<[a := e]> m) l.
Proof.
  intros Ha [H1 H2]. split; [done|].
  intros b. rewrite dom_insert_L, elem_of_union, elem_of_singleton, <- H2.
  split; [intros [-> | ?]; done|]. by right.
Qed.

Lemma owns_delete m l a : owns m (a :: l) -> owns (delete a m) l.
Proof.
  intros [H1 H2]. apply NoDup_cons in H1 as [Ha H1]. split; [done|].
  intros b. rewrite dom_delete_L, elem_of_difference, elem_of_singleton, H2, elem_of_cons.
  split; [tauto|]. intros Hb. split; [by right|]. by intros ->.
Qed.

Lemma owns_size m l : owns m l -> size m = length l.
Proof.
  intros [H1 H2]. rewrite <- size_dom, <- (size_list_to_set (C := gset nat) l) by done.
  f_equal. apply set_eq. intros a. by rewrite H2, elem_of_list_to_set.
Qed.

Lemma owns_fresh m l : owns m l -> stdpp.base.fresh (dom m) ∉ l.
Proof. intros [_ H]. rewrite <- H. apply is_fresh. Qed.

(** ** Slots, with and without addresses *)

Abbreviation addrs cs := (concat cs).*1.

Definition items (cs : list (list (nat * item))) : list (list item) := (fun l => l.*2) <$> cs.

(** Put an item before the chain of its slot. *)
Definition push (n : Z) (bs : list (list item)) (x : item) : list (list item) :=
  alter (cons x) (Z.to_nat (hash x.1 mod n)) bs.

(** The slots of a table of [n] slots that was given the items of [l] in turn. *)
Definition rehash (n : Z) (l : list item) : list (list item) :=
  foldl (push n) (replicate (Z.to_nat n) []) l.

(** Items are in the slots of their keys. *)
Definition hashed (n : Z) (bs : list (list item)) : Prop :=
  forall i l x, bs !! i = Some l -> x ∈ l -> Z.to_nat (hash x.1 mod n) = i.

Lemma slot_lt h n : (0 < n)%Z -> Z.to_nat (h mod n) < Z.to_nat n.
Proof. intros H. pose proof (Z.mod_pos_bound h n H). lia. Qed.

Lemma slot_of_ok h n : (0 < n)%Z -> slot_of h n = Ret (Z.to_nat (h mod n)).
Proof. intros H. unfold slot_of. by rewrite (proj2 (Z.eqb_neq _ _)) by lia. Qed.

Lemma items_concat cs : concat (items cs) = (concat cs).*2.
Proof.
  induction cs as [|l cs IH]; [done|]. cbn. rewrite fmap_app. by f_equal.
Qed.

Lemma items_alter a x i cs : items (alter (cons (a, x)) i cs) = alter (cons x) i (items cs).
Proof.
  unfold items. revert i. induction cs as [|l cs IH]; intros [|i]; cbn; [done..|].
  f_equal. apply IH.
Qed.

Lemma concat_alter {A} (x : A) i (cs : list (list A)) :
  i < length cs -> concat (alter (cons x) i cs) ≡ₚ x :: concat cs.
Proof.
  revert i. induction cs as [|l cs IH]; intros [|i] H; cbn in *; [lia|lia|done|].
  rewrite IH by lia. by rewrite Permutation_middle.
Qed.

Lemma push_length n bs x : length (push n bs x) = length bs.
Proof. apply length_alter. Qed.

Lemma push_concat n bs x :
  (0 < n)%Z -> length bs = Z.to_nat n -> concat (push n bs x) ≡ₚ x :: concat bs.
Proof. intros Hn Hl. apply concat_alter. rewrite Hl. by apply slot_lt. Qed.

Lemma push_hashed n bs x : hashed n bs -> hashed n (push n bs x).
Proof.
  intros H i l y. unfold push. destruct (decide (Z.to_nat (hash x.1 mod n) = i)) as [<- | Hi].
  - rewrite list_lookup_alter_eq. destruct (bs !! _) as [l0|] eqn:E; [|discriminate].
    intros [= <-]. rewrite elem_of_cons. intros [-> | Hy]; [done|]. by eapply H.
  - rewrite list_lookup_alter_ne by done. apply H.
Qed.

Lemma rehash_length n l : length (rehash n l) = Z.to_nat n.
Proof.
  unfold rehash.
  assert (forall bs, length (foldl (push n) bs l) = length bs) as G.
  { induction l as [|x l IH]; intros bs; cbn; [done|]. rewrite IH. apply push_length. }
  rewrite G. apply length_replicate.
Qed.

Lemma rehash_concat n l : (0 < n)%Z -> concat (rehash n l) ≡ₚ l.
Proof.
  intros Hn. unfold rehash.
  assert (forall bs, length bs = Z.to_nat n -> concat (foldl (push n) bs l) ≡ₚ concat bs ++ l) as G.
  { induction l as [|x l IH]; intros bs Hb; cbn; [by rewrite app_nil_r|].
    rewrite IH by (by rewrite push_length). rewrite push_concat by done. cbn.
    by rewrite Permutation_middle. }
  rewrite G by apply length_replicate.
  assert (forall k, concat (replicate k (@nil item)) = []) as -> by (by induction k; cbn). done.
Qed.

Lemma rehash_hashed n l : hashed n (rehash n l).
Proof.
  unfold rehash.
  assert (forall bs, hashed n bs -> hashed n (foldl (push n) bs l)) as G.
  { induction l as [|x l IH]; intros bs Hb; cbn; [done|]. apply IH. by apply push_hashed. }
  apply G. intros i b x E. apply lookup_replicate in E as [-> _]. intros H%elem_of_nil. done.
Qed.

(** ** The operations on memory *)

Lemma slots_agree m m' es cs :
  (forall a, a ∈ addrs cs -> m' !! a = m !! a) -> Forall2 (chain m) es cs -> Forall2 (chain m') es cs.
Proof.
  intros Hm H. induction H as [|p l es cs Hl H IH]; [constructor|]. constructor.
  - eapply chain_agree; [|done]. intros a Ha. apply Hm. cbn. rewrite fmap_app. apply elem_of_app. by left.
  - apply IH. intros a Ha. apply Hm. cbn. rewrite fmap_app. apply elem_of_app. by right.
Qed.

Lemma add_to_entries_ok n es m cs O k d :
  (0 < n)%Z -> length es = Z.to_nat n -> Forall2 (chain m) es cs -> owns m (addrs cs ++ O) ->
  exists es' m' cs', add_to_entries es n k d m = Ret (es', m') /\
    length es' = Z.to_nat n /\ Forall2 (chain m') es' cs' /\ owns m' (addrs cs' ++ O) /\
    (forall a, a ∈ dom m -> m' !! a = m !! a) /\ items cs' = push n (items cs) (k, d).
Proof.
  intros Hn Hl HF HO. unfold add_to_entries. rewrite slot_of_ok, bind_ret_l by done.
  pose proof (slot_lt (hash k) n Hn) as Hi. remember (Z.to_nat (hash k mod n)) as i eqn:Ei.
  assert (i < length es) as Hie by lia. pose proof (Forall2_length _ _ _ HF) as Hcs.
  destruct (lookup_lt_is_Some_2 es i Hie) as [oe Ee]. rewrite Ee. cbn [deref]. rewrite bind_ret_l.
  set (e := stdpp.base.fresh (dom m)). assert (e ∉ dom m) as He by apply is_fresh.
  clearbody e.
  assert (forall a, a ∈ dom m -> <[e := Entry k d oe]> m !! a = m !! a) as Hag.
  { intros a Ha. apply lookup_insert_ne. by intros ->. }
  assert (concat (alter (cons (e, (k, d))) i cs) ≡ₚ (e, (k, d)) :: concat cs) as HP.
  { apply concat_alter. lia. }
  exists (<[i := Some e]> es), (<[e := Entry k d oe]> m), (alter (cons (e, (k, d))) i cs).
  split; [done|]. split; [by rewrite length_insert|]. split_and!; [| |done|].
  - rewrite list_insert_alter. apply Forall2_alter.
    + eapply slots_agree; [|done]. intros a Ha. apply Hag. apply HO, elem_of_app. by left.
    + intros p l Ep El Hc. rewrite Ee in Ep. injection Ep as <-. cbn [chain].
      split; [done|]. exists oe. by rewrite lookup_insert_eq.
  - eapply owns_perm; [|by apply owns_insert]. by rewrite HP.
  - rewrite items_alter, Ei. done.
Qed.

Lemma free_entry_ok m e L :
  owns m (option_list e ++ L) ->
  exists m', free_entry e m = Ret m' /\ owns m' L /\ (forall a, a ∈ L -> m' !! a = m !! a).
Proof.
  destruct e as [a|]; cbn [option_list app free_entry]; intros H; [|by exists m].
  assert (is_Some (m !! a)) as [x E].
  { apply elem_of_dom, H. left. }
  rewrite E. cbn [deref]. rewrite bind_ret_l. eexists; split; [done|]. split; [by apply owns_delete|].
  intros b Hb. apply lookup_delete_ne. intros <-. destruct H as [H _]. by apply NoDup_cons in H as [? _].
Qed.

(** [owns] up to the order of the list. *)
Ltac owned := eapply owns_perm; [|eassumption]; cbn; solve_Permutation.

Lemma rehash_chain_ok n l : forall fuel es m cs e e_prev O c,
  length l < fuel -> (0 < n)%Z -> length es = Z.to_nat n -> Forall2 (chain m) es cs -> chain m e l ->
  owns m (option_list e_prev ++ l.*1 ++ addrs cs ++ O) ->
  (0 <= c)%Z -> (c + Z.of_nat (length l) < 2 ^ 32)%Z ->
  exists es' m' cs', rehash_chain fuel n es m e e_prev c = Ret (es', m', (c + Z.of_nat (length l))%Z) /\
    length es' = Z.to_nat n /\ Forall2 (chain m') es' cs' /\ owns m' (addrs cs' ++ O) /\
    (forall a, a ∈ O -> m' !! a = m !! a) /\ items cs' = foldl (push n) (items cs) l.*2.
Proof.
  induction l as [|[a [k d]] l IH]; intros fuel es m cs e e_prev O c Hf Hn Hl HF Hc HO Hc0 Hc1;
    (destruct fuel as [|fuel]; [cbn in Hf; lia|]); cbn [chain] in Hc; cbn [rehash_chain].
  { subst e. destruct (free_entry_ok m e_prev (addrs cs ++ O)) as (m' & -> & HO' & Hag); [done|].
    rewrite bind_ret_l. exists es, m', cs. split; [by rewrite Z.add_0_r|]. split_and!; [done| |done| |done].
    - eapply slots_agree; [|done]. intros b Hb. apply Hag, elem_of_app. by left.
    - intros b Hb. apply Hag, elem_of_app. by right. }
  destruct Hc as (-> & nx & Ea & Hc). rewrite Ea. cbn [deref]. rewrite bind_ret_l. cbn [key data].
  destruct (add_to_entries_ok n es m cs (option_list e_prev ++ a :: l.*1 ++ O) k d)
    as (es1 & m1 & cs1 & -> & Hl1 & HF1 & HO1 & Hag1 & Hit1); [done..|owned|].
  rewrite bind_ret_l.
  destruct (free_entry_ok m1 e_prev (addrs cs1 ++ a :: l.*1 ++ O)) as (m2 & -> & HO2 & Hag2); [owned|].
  rewrite bind_ret_l.
  assert (forall b, b ∈ a :: l.*1 ++ O -> m2 !! b = m !! b) as Hag.
  { intros b Hb. rewrite Hag2 by (apply elem_of_app; by right). apply Hag1, HO.
    rewrite !elem_of_app in *. cbn. rewrite !elem_of_cons, elem_of_app in *. tauto. }
  rewrite Hag by left. rewrite Ea. cbn [deref]. rewrite bind_ret_l. cbn [next].
  destruct (IH fuel es1 m2 cs1 nx (Some a) O (u32 (c + 1))) as (es' & m' & cs' & -> & H).
  - cbn in Hf. lia.
  - done.
  - done.
  - eapply slots_agree; [|done]. intros b Hb. apply Hag2, elem_of_app. by left.
  - eapply chain_agree; [|done]. intros b Hb. apply Hag. right. apply elem_of_app. by left.
  - owned.
  - apply u32_range.
  - cbn [length] in Hc1. rewrite u32_id; lia.
  - exists es', m', cs'. cbn [length] in *. rewrite u32_id by lia.
    split; [do 2 f_equal; lia|]. destruct H as (H1 & H2 & H3 & H4 & H5). split_and!; [done..| |].
    + intros b Hb. rewrite H4 by done. apply Hag. right. apply elem_of_app. by right.
    + cbn. by rewrite H5, Hit1.
Qed.

Lemma rehash_slots_ok n old ls : forall i es m cs c,
  (0 < n)%Z -> length es = Z.to_nat n -> Forall2 (chain m) es cs -> Forall2 (chain m) (drop i old) ls ->
  owns m (addrs ls ++ addrs cs) -> (0 <= c)%Z -> (c + Z.of_nat (length (concat ls)) < 2 ^ 32)%Z ->
  exists es' m' cs',
    rehash_slots (length ls) i old n es m c = Ret (es', m', (c + Z.of_nat (length (concat ls)))%Z) /\
    length es' = Z.to_nat n /\ Forall2 (chain m') es' cs' /\ owns m' (addrs cs') /\
    items cs' = foldl (push n) (items cs) (concat ls).*2.
Proof.
  induction ls as [|l ls IH]; intros i es m cs c Hn Hl HF Ho HO Hc0 Hc1; cbn [length rehash_slots].
  { exists es, m, cs. cbn in *. rewrite Z.add_0_r. by split_and!. }
  destruct (drop i old) as [|e old'] eqn:Eo; inversion Ho as [|? ? ? ? Hc Ho']; subst.
  rewrite <- (Nat.add_0_r i), <- lookup_drop, Eo. cbn [lookup list_lookup deref]. rewrite bind_ret_l.
  rewrite Nat.add_0_r. cbn [concat] in *. rewrite length_app in *. rewrite fmap_app, <- app_assoc in HO.
  rewrite fmap_app.
  destruct (rehash_chain_ok n l (S (size m)) es m cs e None (addrs ls) c)
    as (es1 & m1 & cs1 & -> & Hl1 & HF1 & HO1 & Hag & Hit1); try done.
  - rewrite (owns_size _ _ HO), length_app, length_fmap. lia.
  - owned.
  - lia.
  - rewrite bind_ret_l.
    destruct (IH (S i) es1 m1 cs1 (c + Z.of_nat (length l))%Z) as (es' & m' & cs' & -> & H); try done.
    + rewrite <- Nat.add_1_r, <- drop_drop, Eo. cbn. by eapply slots_agree.
    + owned.
    + lia.
    + lia.
    + exists es', m', cs'. destruct H as (H1 & H2 & H3 & H4).
      split; [do 2 f_equal; lia|]. split_and!; [done..|]. by rewrite H4, Hit1, foldl_app.
Qed.

(** ** Well-formed tables *)

Record wf (tbl : hash_table) (m : mem) (cs : list (list (nat * item))) : Prop := {
  wf_size : size_ tbl = Z.of_nat (length cs);
  wf_pow : exists k, (0 <= k < 32)%Z /\ size_ tbl = (2 ^ k)%Z;   (* so loads are exact *)
  wf_slots : Forall2 (chain m) (entries tbl) cs;
  wf_owns : owns m (addrs cs);
  wf_count : count tbl = Z.of_nat (length (concat cs));
  wf_count_range : (count tbl < 2 ^ 32)%Z;
  wf_hashed : hashed (size_ tbl) (items cs)
}.

Lemma pow2_pos k : (0 <= k)%Z -> (0 < 2 ^ k)%Z.
Proof. intros H. by apply Z.pow_pos_nonneg. Qed.

Lemma wf_size_pos tbl m cs : wf tbl m cs -> (0 < size_ tbl)%Z.
Proof. intros H. destruct (wf_pow _ _ _ H) as (k & Hk & ->). apply pow2_pos. lia. Qed.

Lemma wf_entries tbl m cs : wf tbl m cs -> length (entries tbl) = Z.to_nat (size_ tbl).
Proof. intros H. rewrite (Forall2_length _ _ _ (wf_slots _ _ _ H)), (wf_size _ _ _ H). lia. Qed.

Lemma empty_slots m n : Forall2 (chain m) (replicate n None) (replicate n []).
Proof. induction n; by constructor. Qed.

Lemma new_table_wf max min : wf (hash_table_new max min) ∅ (replicate 16 []).
Proof.
  split.
  - done.
  - exists 4%Z. done.
  - apply (empty_slots ∅ 16).
  - split; [constructor|]. intros a. cbn. rewrite dom_empty_L. set_solver.
  - done.
  - done.
  - intros i l x E. change (replicate 16 [] !! i = Some l) in E. apply lookup_replicate in E as [-> _]. intros H%elem_of_nil. done.
Qed.

Lemma resize_ok tbl m cs k :
  (0 <= k < 32)%Z -> calloc_ok (2 ^ k) = true ->
  Forall2 (chain m) (entries tbl) cs -> length cs = Z.to_nat (size_ tbl) -> owns m (addrs cs) ->
  count tbl = Z.of_nat (length (concat cs)) -> (count tbl < 2 ^ 32)%Z ->
  exists tbl' m' cs', hash_table_resize tbl (2 ^ k) m = Ret (tbl', m') /\ wf tbl' m' cs' /\
    items cs' = rehash (2 ^ k) (concat (items cs)) /\
    size_ tbl' = (2 ^ k)%Z /\ count tbl' = count tbl /\
    max_load tbl' = max_load tbl /\ min_load tbl' = min_load tbl.
Proof.
  intros Hk Hcal HF Hlen HO Hcnt Hr. unfold hash_table_resize. rewrite Hcal.
  pose proof (pow2_pos k ltac:(lia)) as Hpos. remember (2 ^ k)%Z as n eqn:En. rewrite <- Hlen.
  assert (forall j, concat (replicate j (@nil (nat * item))) = []) as Hnil by (by induction j; cbn).
  destruct (rehash_slots_ok n (entries tbl) cs 0 (replicate (Z.to_nat n) None) m
    (replicate (Z.to_nat n) []) 0%Z) as (es' & m' & cs' & -> & H1 & H2 & H3 & H4); try done.
  - apply length_replicate.
  - apply empty_slots.
  - rewrite Hnil. by rewrite app_nil_r.
  - lia.
  - rewrite bind_ret_l, Z.add_0_l, Hcnt, Z.eqb_refl. cbn [c_assert]. rewrite bind_ret_l.
    assert (items cs' = rehash n (concat (items cs))) as Hit.
    { rewrite H4, items_concat. unfold rehash, items. by rewrite fmap_replicate. }
    eexists _, m', cs'. split; [done|]. split_and!; try done. split; cbn [size_ count entries]; try done.
    + rewrite <- (Forall2_length _ _ _ H2), H1. lia.
    + eauto.
    + rewrite <- (length_fmap snd (concat cs')), <- items_concat, Hit, rehash_concat by done.
      by rewrite items_concat, length_fmap.
    + lia.
    + rewrite Hit. apply rehash_hashed.
Qed.

(** ** Looking up *)

(** The first item with the key. *)
Fixpoint assoc (k : cstr) (l : list item) : option (option D) :=
  match l with
  | [] => None
  | (k', d) :: l => if streq k' k then Some d else assoc k l
  end.

Lemma assoc_app k l1 l2 :
  assoc k (l1 ++ l2) = match assoc k l1 with Some d => Some d | None => assoc k l2 end.
Proof. induction l1 as [|[k' d] l1 IH]; cbn; [done|]. by destruct (streq k' k). Qed.

Lemma assoc_None k l : k ∉ l.*1 -> assoc k l = None.
Proof.
  induction l as [|[k' d] l IH]; cbn; [done|]. intros H. apply not_elem_of_cons in H as [H1 H2].
  rewrite (proj2 (streq_false k' k)) by congruence. by apply IH.
Qed.

(** The other slots do not have the key. *)
Lemma hashed_other n bs i l k :
  hashed n bs -> bs !! i = Some l -> i <> Z.to_nat (hash k mod n) -> k ∉ l.*1.
Proof.
  intros H E Hi (x & -> & Hx)%list_elem_of_fmap. apply Hi. symmetry. by eapply H.
Qed.

Lemma assoc_concat (bs : list (list item)) i l k :
  (forall j l', bs !! j = Some l' -> j <> i -> k ∉ l'.*1) -> bs !! i = Some l ->
  assoc k (concat bs) = assoc k l.
Proof.
  revert i. induction bs as [|b bs IH]; intros [|i] H E; cbn in *; [done|done|injection E as ->|].
  - rewrite assoc_app. assert (assoc k (concat bs) = None) as ->; [|by destruct (assoc k l)].
    apply assoc_None. intros (x & -> & Hx)%list_elem_of_fmap. apply list_elem_of_In, in_concat in Hx as (b & Hb & Hx).
    apply list_elem_of_In, list_elem_of_lookup in Hb as [j Ej].
    apply (H (S j) b Ej); [done|]. apply list_elem_of_fmap. exists x. split; [done|]. by apply list_elem_of_In.
  - rewrite assoc_app, (assoc_None k b).
    + apply (IH i); [|done]. intros j l' Ej Hj. apply (H (S j)); [done|congruence].
    + by apply (H 0).
Qed.

Lemma find_from_ok k m l : forall fuel e,
  chain m e l -> length l < fuel -> find_from fuel m e k = Ret (default None (assoc k l.*2)).
Proof.
  induction l as [|[a [k' d]] l IH]; intros fuel e Hc Hf; (destruct fuel as [|fuel]; [cbn in Hf; lia|]);
    cbn [chain find_from] in *; [by subst|].
  destruct Hc as (-> & n & E & Hc). rewrite E. cbn [deref]. rewrite bind_ret_l. cbn [key data next fmap list_fmap snd assoc].
  destruct (streq k' k); [done|]. apply IH; [done|]. cbn in Hf. lia.
Qed.

(** The slot of a key. *)
Lemma wf_slot tbl m cs k :
  wf tbl m cs -> exists i e l, slot_of (hash k) (size_ tbl) = Ret i /\
    i = Z.to_nat (hash k mod size_ tbl) /\ entries tbl !! i = Some e /\ cs !! i = Some l /\ chain m e l /\
    length l <= size m.
Proof.
  intros H. pose proof (wf_size_pos _ _ _ H) as Hp.
  rewrite slot_of_ok by done. pose proof (slot_lt (hash k) _ Hp) as Hi.
  remember (Z.to_nat (hash k mod size_ tbl)) as i eqn:Ei.
  destruct (lookup_lt_is_Some_2 (entries tbl) i) as [e Ee]; [by rewrite (wf_entries _ _ _ H)|].
  destruct (Forall2_lookup_l _ _ _ _ _ (wf_slots _ _ _ H) Ee) as (l & El & Hc).
  exists i, e, l. split_and!; try done.
  rewrite (owns_size _ _ (wf_owns _ _ _ H)), length_fmap.
  rewrite <- (take_drop_middle cs i l El), concat_app. cbn. rewrite !length_app. lia.
Qed.

Lemma items_lookup cs i l : cs !! i = Some l -> items cs !! i = Some l.*2.
Proof. intros E. unfold items. by rewrite list_lookup_fmap, E. Qed.

Lemma find_ok tbl m cs k :
  wf tbl m cs -> hash_table_find tbl k m = Ret (default None (assoc k (concat (items cs)))).
Proof.
  intros H. destruct (wf_slot _ _ _ k H) as (i & e & l & Es & Ei & Ee & El & Hc & Hs).
  unfold hash_table_find. rewrite Es, bind_ret_l, Ee. cbn [deref]. rewrite bind_ret_l.
  rewrite (find_from_ok k m l) by (done || lia). do 2 f_equal.
  symmetry. apply assoc_concat with (i := i); [|by apply items_lookup].
  intros j l' E Hj. eapply hashed_other; [by apply (wf_hashed _ _ _ H)|done|]. by rewrite <- Ei.
Qed.

(** ** Adding *)

(** Is the table over its load once it gets one more entry, and does it grow? *)
Definition overloaded (tbl : hash_table) : bool :=
  Qltb (max_load tbl) (inject_Z (count tbl + 1) / inject_Z (size_ tbl)).
Definition grows (tbl : hash_table) : bool := overloaded tbl && calloc_ok (size_ tbl * 2).

Lemma table_add_ok tbl m cs k d :
  wf tbl m cs -> (count tbl + 1 < 2 ^ 32)%Z -> (overloaded tbl = true -> size_ tbl * 2 < 2 ^ 32)%Z ->
  exists tbl' m' cs', hash_table_add tbl k d m = Ret (tbl', m') /\ wf tbl' m' cs' /\
    count tbl' = (count tbl + 1)%Z /\ max_load tbl' = max_load tbl /\ min_load tbl' = min_load tbl /\
    size_ tbl' = (if grows tbl then size_ tbl * 2 else size_ tbl)%Z /\
    items cs' = (let bs := push (size_ tbl) (items cs) (k, d) in
                 if grows tbl then rehash (size_ tbl * 2) (concat bs) else bs).
Proof.
  intros H Hc1 Hsz. pose proof (wf_size_pos _ _ _ H) as Hp. destruct (wf_pow _ _ _ H) as (p & Hpr & Ep).
  unfold hash_table_add.
  destruct (add_to_entries_ok (size_ tbl) (entries tbl) m cs [] k d)
    as (es1 & m1 & cs1 & -> & Hl1 & HF1 & HO1 & _ & Hit1).
  { done. } { by apply (wf_entries tbl m cs). } { by apply wf_slots. }
  { rewrite app_nil_r. by apply (wf_owns tbl). }
  rewrite bind_ret_l. rewrite app_nil_r in HO1.
  pose proof (wf_count _ _ _ H) as Hcnt. rewrite u32_id by lia.
  unfold hash_table_get_load_factor. cbn [max_load count size_]. fold (overloaded tbl).
  assert (length (items cs) = Z.to_nat (size_ tbl)) as Hlit.
  { unfold items. rewrite length_fmap, (wf_size _ _ _ H). lia. }
  assert (length cs1 = Z.to_nat (size_ tbl)) as Hlcs1 by (by rewrite <- (Forall2_length _ _ _ HF1)).
  assert (count tbl + 1 = Z.of_nat (length (concat cs1)))%Z as Hcnt1.
  { rewrite <- (length_fmap snd (concat cs1)), <- items_concat, Hit1, push_concat by done.
    cbn [length]. rewrite items_concat, length_fmap. lia. }
  assert (wf (Table (size_ tbl) (count tbl + 1) (max_load tbl) (min_load tbl) es1) m1 cs1) as Hwf1.
  { split; cbn [size_ count entries]; try done; [lia|by exists p|].
    rewrite Hit1. apply push_hashed. by apply (wf_hashed tbl m). }
  unfold grows. destruct (overloaded tbl) eqn:Ov; cbn [andb].
  2:{ eexists _, m1, cs1. split; [done|]. split_and!; done. }
  specialize (Hsz eq_refl). rewrite u32_id by lia.
  destruct (calloc_ok (size_ tbl * 2)) eqn:Ecal.
  2:{ unfold hash_table_resize. rewrite Ecal. eexists _, m1, cs1. split; [done|]. split_and!; done. }
  assert (size_ tbl * 2 = 2 ^ (p + 1))%Z as E2 by (rewrite Ep, Z.pow_add_r by lia; lia).
  assert (p + 1 < 32)%Z as Hp1.
  { apply (Z.pow_lt_mono_r_iff 2); lia. }
  rewrite E2 in *.
  destruct (resize_ok (Table (size_ tbl) (count tbl + 1) (max_load tbl) (min_load tbl) es1) m1 cs1 (p + 1))
    as (tbl' & m' & cs' & -> & Hwf' & Hit' & Hs' & Hc' & Hmx & Hmn); try done; [lia|].
  exists tbl', m', cs'. split; [done|]. split_and!; try done. rewrite Hit'. by rewrite Hit1.
Qed.

(** ** Deleting *)

(** Without the first item that has the key. *)
Fixpoint remove1 (k : cstr) (l : list item) : option (list item) :=
  match l with
  | [] => None
  | (k', d) :: l => if streq k' k then Some l else cons (k', d) <$> remove1 k l
  end.

Lemma del_behind_ok k l : forall fuel m a x O,
  chain m (Some a) ((a, x) :: l) -> length l < fuel -> owns m (a :: l.*1 ++ O) ->
  match remove1 k l.*2 with
  | None => del_behind fuel m a k = Ret (false, m)
  | Some r =>
      exists m' l', del_behind fuel m a k = Ret (true, m') /\ l'.*2 = r /\
        chain m' (Some a) ((a, x) :: l') /\ owns m' (a :: l'.*1 ++ O) /\
        (forall b, b ∈ O -> m' !! b = m !! b)
  end.
Proof.
  induction l as [|[b [kb db]] l IH]; intros fuel m a [ka da] O Hc Hf HO;
    (destruct fuel as [|fuel]; [cbn in Hf; lia|]);
    cbn [chain] in Hc; destruct Hc as (_ & n & Ea & Hc); cbn [del_behind fmap list_fmap snd remove1];
    rewrite Ea; cbn [deref]; rewrite bind_ret_l; cbn [next key data].
  { by subst n. }
  destruct Hc as (-> & nb & Eb & Hc). rewrite Eb. cbn [deref]. rewrite bind_ret_l. cbn [key next].
  cbn [fmap list_fmap app fst] in HO.
  assert (NoDup (a :: b :: l.*1 ++ O)) as HN by apply HO.
  apply NoDup_cons in HN as [Hna HN]. apply NoDup_cons in HN as [Hnb HN].
  assert (a <> b) as Hab by (intros ->; apply Hna; left).
  destruct (streq kb k) eqn:Ek.
  - exists (delete b (<[a := Entry ka da nb]> m)), l. split; [done|]. split; [done|].
    assert (forall c, c ∈ l.*1 ++ O -> delete b (<[a := Entry ka da nb]> m) !! c = m !! c) as Hag.
    { intros c Hcc. rewrite lookup_delete_ne, lookup_insert_ne; [done|..]; intros <-; [|done].
      apply Hna. by right. }
    split_and!.
    + cbn [chain]. split; [done|]. exists nb. split.
      * by rewrite lookup_delete_ne, lookup_insert_eq by done.
      * eapply chain_agree; [|done]. intros c Hcc. apply Hag, elem_of_app. by left.
    + apply owns_delete. eapply owns_perm; [apply Permutation_swap|]. apply owns_update; [|done].
      apply elem_of_dom. by eexists.
    + intros c Hcc. apply Hag, elem_of_app. by right.
  - specialize (IH fuel m b (kb, db) (a :: O)).
    assert (chain m (Some b) ((b, (kb, db)) :: l)) as Hcb.
    { cbn [chain]. split; [done|]. by exists nb. }
    assert (owns m (b :: l.*1 ++ a :: O)) as HOb.
    { eapply owns_perm; [|exact HO]. cbn. solve_Permutation. }
    specialize (IH Hcb ltac:(cbn in Hf; lia) HOb).
    destruct (remove1 k l.*2) as [r|]; cbn [fmap option_fmap option_map]; [|done].
    destruct IH as (m' & l' & -> & Er & Hc' & HO' & Hag).
    exists m', ((b, (kb, db)) :: l'). split; [done|]. split; [cbn; by rewrite Er|]. split_and!.
    + cbn [chain] in *. split; [done|]. exists (Some b). split; [|done].
      rewrite Hag by left. done.
    + owned.
    + intros c Hcc. apply Hag. by right.
Qed.

Lemma remove1_app k l1 l2 :
  remove1 k (l1 ++ l2) =
  match remove1 k l1 with Some l => Some (l ++ l2) | None => app l1 <$> remove1 k l2 end.
Proof.
  induction l1 as [|[k' d] l1 IH]; cbn; [by destruct (remove1 k l2)|].
  destruct (streq k' k); [done|]. rewrite IH.
  destruct (remove1 k l1); [done|]. by destruct (remove1 k l2).
Qed.

Lemma remove1_None k l : remove1 k l = None <-> k ∉ l.*1.
Proof.
  induction l as [|[k' d] l IH]; cbn; [split; [intros _; apply not_elem_of_nil|done]|].
  rewrite not_elem_of_cons. destruct (streq k' k) eqn:E.
  - apply streq_true in E as ->. split; [done|tauto].
  - apply streq_false in E. rewrite <- IH. destruct (remove1 k l); cbn.
    + split; [done|]. by intros [_ ?].
    + split; [|done]. intros _. split; [congruence|done].
Qed.

Lemma remove1_Some k l r : remove1 k l = Some r -> exists d, l ≡ₚ (k, d) :: r.
Proof.
  revert r. induction l as [|[k' d] l IH]; intros r; cbn; [done|].
  destruct (streq k' k) eqn:E.
  - intros [= ->]. apply streq_true in E as ->. by exists d.
  - destruct (remove1 k l) as [r'|]; [|done]. intros [= <-].
    destruct (IH r' eq_refl) as [d' P]. exists d'. rewrite P. apply Permutation_swap.
Qed.

Lemma remove1_concat (bs : list (list item)) i l k :
  (forall j l', bs !! j = Some l' -> j <> i -> k ∉ l'.*1) -> bs !! i = Some l ->
  remove1 k (concat bs) = (fun r => concat (<[i := r]> bs)) <$> remove1 k l.
Proof.
  revert i. induction bs as [|b bs IH]; intros [|i] H E; cbn in *; [done|done|injection E as ->|].
  - rewrite remove1_app. assert (remove1 k (concat bs) = None) as ->; [|by destruct (remove1 k l)].
    apply remove1_None. intros (x & -> & Hx)%list_elem_of_fmap.
    apply list_elem_of_In, in_concat in Hx as (b & Hb & Hx).
    apply list_elem_of_In, list_elem_of_lookup in Hb as [j Ej].
    apply (H (S j) b Ej); [done|]. apply list_elem_of_fmap. exists x. split; [done|]. by apply list_elem_of_In.
  - rewrite remove1_app, (proj2 (remove1_None k b)) by (by apply (H 0)).
    rewrite (IH i); [|intros j l' Ej Hj; apply (H (S j)); [done|congruence]|done].
    by destruct (remove1 k l).
Qed.

Lemma concat_insert {A} (cs : list (list A)) i l l' :
  cs !! i = Some l -> concat (<[i := l']> cs) = concat (take i cs) ++ l' ++ concat (drop (S i) cs).
Proof.
  intros E. rewrite insert_take_drop by (by eapply lookup_lt_Some). by rewrite concat_app.
Qed.

Lemma other_slots {A B} (cs : list (list (A * B))) i j y b :
  j <> i -> cs !! j = Some y -> b ∈ y.*1 -> b ∈ (concat (take i cs ++ drop (S i) cs)).*1.
Proof.
  intros Hj Ey Hb. rewrite <- delete_take_drop.
  assert (y ∈ delete i cs) as Hy.
  { apply list_elem_of_lookup. destruct (decide (j < i)).
    - exists j. by rewrite list_lookup_delete_lt.
    - exists (j - 1). rewrite list_lookup_delete_ge by lia. by replace (S (j - 1)) with j by lia. }
  apply list_elem_of_fmap in Hb as (z & -> & Hz). apply list_elem_of_fmap. exists z. split; [done|].
  apply list_elem_of_In, in_concat. exists y. by split; apply list_elem_of_In.
Qed.

Lemma slots_replace m m' es cs i p l' :
  Forall2 (chain m) es cs -> chain m' p l' ->
  (forall j y b, j <> i -> cs !! j = Some y -> b ∈ y.*1 -> m' !! b = m !! b) ->
  Forall2 (chain m') (<[i := p]> es) (<[i := l']> cs).
Proof.
  intros HF Hc' Hag. apply Forall2_same_length_lookup_2.
  { rewrite !length_insert. by eapply Forall2_length. }
  intros j x y Ex Ey. destruct (decide (i = j)) as [<- | Hj].
  - apply list_lookup_insert_Some in Ex as [(_ & <- & _) | (? & _)]; [|done].
    apply list_lookup_insert_Some in Ey as [(_ & <- & _) | (? & _)]; done.
  - rewrite list_lookup_insert_ne in Ex by done. rewrite list_lookup_insert_ne in Ey by done.
    eapply chain_agree; [|exact (Forall2_lookup_lr _ _ _ _ _ _ HF Ex Ey)].
    intros b Hb. by eapply Hag.
Qed.

Lemma unlink_ok es i e l cs k m :
  es !! i = Some e -> cs !! i = Some l -> Forall2 (chain m) es cs -> owns m (addrs cs) ->
  match remove1 k l.*2 with
  | None => unlink es i k m = Ret (false, es, m)
  | Some r =>
      exists es' m' l', unlink es i k m = Ret (true, es', m') /\ l'.*2 = r /\
        Forall2 (chain m') es' (<[i := l']> cs) /\ owns m' (addrs (<[i := l']> cs))
  end.
Proof.
  intros Ee El HF HO. pose proof (Forall2_lookup_lr _ _ _ _ _ _ HF Ee El) as Hc.
  set (O := addrs (take i cs) ++ addrs (drop (S i) cs)).
  assert (forall l', addrs (<[i := l']> cs) ≡ₚ l'.*1 ++ O) as HP.
  { intros l'. rewrite (concat_insert _ _ l) by done. rewrite !fmap_app. unfold O. solve_Permutation. }
  assert (owns m (l.*1 ++ O)) as HOl.
  { eapply owns_perm; [apply HP|]. by rewrite list_insert_id. }
  assert (forall m' l' p, chain m' p l' -> (forall b, b ∈ O -> m' !! b = m !! b) ->
    Forall2 (chain m') (<[i := p]> es) (<[i := l']> cs)) as HF'.
  { intros m' l' p Hc' Hag. eapply slots_replace; [done|done|]. intros j y b Hj Ey Hb.
    apply Hag. unfold O. rewrite <- fmap_app, <- concat_app. by eapply other_slots. }
  unfold unlink. rewrite Ee. cbn [deref]. rewrite bind_ret_l.
  destruct l as [|[a [ka da]] l]; cbn [chain] in Hc; [by subst e|].
  destruct Hc as (-> & n & Ea & Hc). rewrite Ea. cbn [deref]. rewrite bind_ret_l.
  cbn [key next fmap list_fmap snd remove1 fst app] in *.
  destruct (streq ka k) eqn:Ek.
  - exists (<[i := n]> es), (delete a m), l. split; [done|]. split; [done|].
    assert (a ∉ l.*1 ++ O) as Ha by (destruct HOl as [HN _]; by apply NoDup_cons in HN as [? _]).
    split.
    + apply HF'.
      * eapply chain_agree; [|done]. intros b Hb. apply lookup_delete_ne. intros <-. apply Ha, elem_of_app. by left.
      * intros b Hb. apply lookup_delete_ne. intros <-. apply Ha, elem_of_app. by right.
    + eapply owns_perm; [symmetry; apply HP|]. by apply owns_delete.
  - pose proof (del_behind_ok k l (S (size m)) m a (ka, da) O) as HD.
    assert (chain m (Some a) ((a, (ka, da)) :: l)) as Hca by (cbn; split; [done|]; by exists n).
    specialize (HD Hca). rewrite (owns_size _ _ HOl) in *. cbn [length] in *. rewrite length_app, length_fmap in *.
    specialize (HD ltac:(lia) HOl).
    destruct (remove1 k l.*2) as [r|]; cbn [fmap option_fmap option_map].
    + destruct HD as (m' & l' & -> & Er & Hc' & HO' & Hag). rewrite bind_ret_l.
      exists es, m', ((a, (ka, da)) :: l'). split; [done|]. split; [cbn; by rewrite Er|]. split.
      * rewrite <- (list_insert_id es i (Some a)) by done. by apply HF'.
      * eapply owns_perm; [symmetry; apply HP|]. done.
    + by rewrite HD.
Qed.

(** Is the table under its load once it has lost an entry, and does it shrink? *)
Definition underloaded (tbl : hash_table) : bool :=
  Qltb (inject_Z (count tbl - 1) / inject_Z (size_ tbl)) (min_load tbl).
Definition shrinks (tbl : hash_table) : bool := underloaded tbl && calloc_ok (size_ tbl / 2).

Lemma del_absent tbl m cs k :
  wf tbl m cs -> remove1 k (concat (items cs)) = None -> hash_table_del tbl k m = Ret (false, tbl, m).
Proof.
  intros H Hr. destruct (wf_slot _ _ _ k H) as (i & e & l & Es & Ei & Ee & El & Hc & Hs).
  unfold hash_table_del. rewrite Es, bind_ret_l.
  pose proof (unlink_ok _ i e l cs k m Ee El (wf_slots _ _ _ H) (wf_owns _ _ _ H)) as HU.
  rewrite (remove1_concat (items cs) i l.*2) in Hr.
  - destruct (remove1 k l.*2); [done|]. rewrite HU, bind_ret_l. by destruct tbl.
  - intros j l' E Hj. eapply hashed_other; [by apply (wf_hashed _ _ _ H)|done|]. by rewrite <- Ei.
  - by apply items_lookup.
Qed.

(** Halving a table that is not the smallest, if there is memory for it. *)
Lemma shrink_ok (b : bool) tbl m cs :
  wf tbl m cs -> (b && calloc_ok (size_ tbl / 2) = true -> 1 < size_ tbl)%Z ->
  exists tbl' m' cs', (if b then hash_table_resize tbl (size_ tbl / 2) m else Ret (tbl, m)) = Ret (tbl', m') /\
    wf tbl' m' cs' /\ count tbl' = count tbl /\ max_load tbl' = max_load tbl /\ min_load tbl' = min_load tbl /\
    size_ tbl' = (if b && calloc_ok (size_ tbl / 2) then size_ tbl / 2 else size_ tbl)%Z /\
    concat (items cs') = (if b && calloc_ok (size_ tbl / 2)
                          then concat (rehash (size_ tbl / 2) (concat (items cs))) else concat (items cs)).
Proof.
  intros H Hsh. destruct (wf_pow _ _ _ H) as (p & Hpr & Ep). pose proof (wf_size_pos _ _ _ H) as Hp.
  destruct b; cbn [andb] in *; [|by exists tbl, m, cs].
  destruct (calloc_ok (size_ tbl / 2)) eqn:Ecal.
  2:{ unfold hash_table_resize. rewrite Ecal. by exists tbl, m, cs. }
  specialize (Hsh eq_refl).
  assert (0 < p)%Z as Hp0.
  { destruct (decide (p = 0))%Z as [-> |]; [rewrite Ep in Hsh; cbn in Hsh|]; lia. }
  assert (size_ tbl / 2 = 2 ^ (p - 1))%Z as E2.
  { rewrite Ep. replace p with (Z.succ (p - 1)) at 1 by lia. rewrite Z.pow_succ_r by lia.
    rewrite Z.mul_comm. by apply Z.div_mul. }
  rewrite E2 in *. pose proof (wf_count _ _ _ H) as Hcnt. pose proof (wf_count_range _ _ _ H) as Hcr.
  destruct (resize_ok tbl m cs (p - 1) ltac:(lia) Ecal (wf_slots _ _ _ H) ltac:(rewrite (wf_size _ _ _ H); lia)
    (wf_owns _ _ _ H) Hcnt Hcr) as (tbl' & m' & cs' & -> & Hwf' & Hit' & Hs' & Hc' & Hmx & Hmn).
  exists tbl', m', cs'. split_and!; try done. by rewrite Hit'.
Qed.

Lemma del_ok tbl m cs k r :
  wf tbl m cs -> remove1 k (concat (items cs)) = Some r -> (shrinks tbl = true -> 1 < size_ tbl)%Z ->
  exists tbl' m' cs', hash_table_del tbl k m = Ret (true, tbl', m') /\ wf tbl' m' cs' /\
    count tbl' = (count tbl - 1)%Z /\ max_load tbl' = max_load tbl /\ min_load tbl' = min_load tbl /\
    size_ tbl' = (if shrinks tbl then size_ tbl / 2 else size_ tbl)%Z /\
    concat (items cs') = (if shrinks tbl then concat (rehash (size_ tbl / 2) r) else r).
Proof.
  intros H Hr Hsh. destruct (wf_slot _ _ _ k H) as (i & e & l & Es & Ei & Ee & El & Hc & Hs).
  pose proof (wf_size_pos _ _ _ H) as Hp. unfold hash_table_del. rewrite Es, bind_ret_l.
  pose proof (unlink_ok _ i e l cs k m Ee El (wf_slots _ _ _ H) (wf_owns _ _ _ H)) as HU.
  assert (remove1 k (concat (items cs)) = Some r) as Hr' by done.
  rewrite (remove1_concat (items cs) i l.*2) in Hr.
  2:{ intros j l' E Hj. eapply hashed_other; [by apply (wf_hashed _ _ _ H)|done|]. by rewrite <- Ei. }
  2:{ by apply items_lookup. }
  destruct (remove1 k l.*2) as [rl|] eqn:Erl; cbn in Hr; [|done]. injection Hr as Hr.
  destruct HU as (es1 & m1 & l1 & -> & El1 & HF1 & HO1). rewrite bind_ret_l. cbn [count size_ max_load min_load].
  set (cs1 := <[i := l1]> cs) in *.
  assert (items cs1 = <[i := rl]> (items cs)) as Hit1.
  { unfold items, cs1. rewrite list_fmap_insert. by rewrite El1. }
  assert (concat (items cs1) = r) as Hcr by (by rewrite Hit1).
  destruct (remove1_Some _ _ _ Hr') as [d HP].
  pose proof (wf_count _ _ _ H) as Hcnt. pose proof (wf_count_range _ _ _ H) as Hcr2.
  assert (length (concat cs) = S (length r)) as Hlr.
  { rewrite <- (length_fmap snd (concat cs)), <- items_concat, HP. done. }
  assert (length (concat cs1) = length r) as Hl1.
  { by rewrite <- (length_fmap snd (concat cs1)), <- items_concat, Hcr. }
  rewrite u32_id by lia. unfold hash_table_get_load_factor. cbn [count size_]. fold (underloaded tbl).
  assert (wf (Table (size_ tbl) (count tbl - 1) (max_load tbl) (min_load tbl) es1) m1 cs1) as Hwf1.
  { split; cbn [size_ count entries]; try done; [|by apply (wf_pow _ _ _ H)|lia|lia|].
    - unfold cs1. rewrite length_insert. by apply (wf_size _ _ _ H).
    - rewrite Hit1. intros j b x E Hx. apply list_lookup_insert_Some in E as [(<- & <- & Hlt) | (Hj & E)].
      + apply (wf_hashed _ _ _ H i l.*2); [by apply items_lookup|].
        destruct (remove1_Some _ _ _ Erl) as [d' HP']. rewrite HP'. by right.
      + by eapply (wf_hashed _ _ _ H). }
  destruct (shrink_ok (underloaded tbl) _ m1 cs1 Hwf1 Hsh) as (tbl' & m' & cs' & E & Hwf' & Hc' & Hmx & Hmn & Hs' & Hit').
  cbn [size_] in E. rewrite E, bind_ret_l. exists tbl', m', cs'. rewrite Hcr in Hit'. by split_and!.
Qed.

(** ** The specification: a finite map *)

Abbreviation map := (gmap cstr (option D)).

(** A table that has each key of [M] once, with its data. *)
Definition rep (tbl : hash_table) (m : mem) (M : map) : Prop :=
  exists cs, wf tbl m cs /\ NoDup (concat (items cs)).*1 /\ list_to_map (concat (items cs)) = M.

Inductive op := Add (k : cstr) (d : option D) | Find (k : cstr) | Del (k : cstr).
Inductive result := Added | Found (d : option D) | Deleted (rc : bool).

Definition run_op (o : op) (tbl : hash_table) (m : mem) : outcome (result * hash_table * mem) :=
  match o with
  | Add k d => '(tbl, m) ← hash_table_add tbl k d m; Ret (Added, tbl, m)
  | Find k => d ← hash_table_find tbl k m; Ret (Found d, tbl, m)
  | Del k => '(rc, tbl, m) ← hash_table_del tbl k m; Ret (Deleted rc, tbl, m)
  end.

Fixpoint run (os : list op) (tbl : hash_table) (m : mem) : outcome (list result * hash_table * mem) :=
  match os with
  | [] => Ret ([], tbl, m)
  | o :: os =>
      '(r, tbl, m) ← run_op o tbl m;
      '(rs, tbl, m) ← run os tbl m;
      Ret (r :: rs, tbl, m)
  end.

Definition spec_op (o : op) (M : map) : result * map :=
  match o with
  | Add k d => (Added, <[k := d]> M)
  | Find k => (Found (default None (M !! k)), M)
  | Del k => (Deleted (bool_decide (is_Some (M !! k))), delete k M)
  end.

Fixpoint spec (os : list op) (M : map) : list result * map :=
  match os with
  | [] => ([], M)
  | o :: os => let '(r, M) := spec_op o M in let '(rs, M) := spec os M in (r :: rs, M)
  end.

(** Keys are added when they are not there. *)
Fixpoint fresh_adds (os : list op) (M : map) : Prop :=
  match os with
  | [] => True
  | o :: os => match o with Add k _ => M !! k = None | _ => True end /\ fresh_adds os (spec_op o M).2
  end.

Lemma assoc_map k l : NoDup l.*1 -> assoc k l = (list_to_map l : map) !! k.
Proof.
  induction l as [|[k' d] l IH]; cbn; [by rewrite lookup_empty|].
  intros [Hk HN]%NoDup_cons. destruct (streq k' k) eqn:E.
  - apply streq_true in E as ->. by rewrite lookup_insert_eq.
  - apply streq_false in E. rewrite lookup_insert_ne by done. by apply IH.
Qed.

(** The adds to come fit: the table does not reach 2^32 slots or entries. *)
Definition roomy (tbl : hash_table) (n : nat) : Prop :=
  (count tbl + Z.of_nat n < 2 ^ 32)%Z /\
  (inject_Z (count tbl + Z.of_nat n) <= max_load tbl * inject_Z (2 ^ 31))%Q.

(** The table does not shrink to no slots at all. *)
Definition stays (tbl : hash_table) : Prop := (min_load tbl <= 0)%Q \/ calloc_ok 0 = false.

Lemma inject_pos z : (0 < z)%Z -> (0 < inject_Z z)%Q.
Proof. intros H. change 0%Q with (inject_Z 0). by rewrite <- Zlt_Qlt. Qed.

Lemma load_above mx c s : (0 < s)%Z ->
  Qltb mx (inject_Z c / inject_Z s) = true <-> (mx * inject_Z s < inject_Z c)%Q.
Proof.
  intros Hs. pose proof (inject_pos _ Hs) as Hq. rewrite Qltb_true.
  rewrite <- (Qmult_lt_r _ _ _ Hq).
  assert (inject_Z c / inject_Z s * inject_Z s == inject_Z c)%Q as ->; [|done].
  rewrite Qmult_comm. apply Qmult_div_r. intros E. rewrite E in Hq. by apply Qlt_irrefl in Hq.
Qed.

Lemma load_below mn c s : (0 < s)%Z ->
  Qltb (inject_Z c / inject_Z s) mn = true <-> (inject_Z c < mn * inject_Z s)%Q.
Proof.
  intros Hs. pose proof (inject_pos _ Hs) as Hq. rewrite Qltb_true.
  rewrite <- (Qmult_lt_r _ _ _ Hq).
  assert (inject_Z c / inject_Z s * inject_Z s == inject_Z c)%Q as ->; [|done].
  rewrite Qmult_comm. apply Qmult_div_r. intros E. rewrite E in Hq. by apply Qlt_irrefl in Hq.
Qed.

Lemma roomy_size tbl m cs n :
  wf tbl m cs -> roomy tbl n -> 0 < n -> overloaded tbl = true -> (size_ tbl * 2 < 2 ^ 32)%Z.
Proof.
  intros H [_ Hr] Hn Ho. pose proof (wf_size_pos _ _ _ H) as Hp. unfold overloaded in Ho.
  rewrite load_above in Ho by done.
  assert (inject_Z (count tbl + 1) <= inject_Z (count tbl + Z.of_nat n))%Q as Hle.
  { rewrite <- Zle_Qle. lia. }
  assert (0 <= inject_Z (count tbl))%Q as Hc0.
  { change 0%Q with (inject_Z 0). rewrite <- Zle_Qle, (wf_count _ _ _ H). lia. }
  assert (1 <= inject_Z (count tbl + 1))%Q as Hc1 by (rewrite inject_Z_plus; change (inject_Z 1) with 1%Q; lra).
  assert (max_load tbl * inject_Z (size_ tbl) < max_load tbl * inject_Z (2 ^ 31))%Q as Hlt by lra.
  assert (0 < max_load tbl)%Q as Hmx.
  { apply Qnot_le_lt. intros Hneg. assert (max_load tbl * inject_Z (2 ^ 31) <= 0)%Q; [|lra].
    change (inject_Z (2 ^ 31)) with (2147483648 # 1)%Q. lra. }
  rewrite (Qmult_comm (max_load tbl) (inject_Z (size_ tbl))), (Qmult_comm (max_load tbl)) in Hlt.
  rewrite Qmult_lt_r, <- Zlt_Qlt in Hlt by done. lia.
Qed.

Lemma stays_size tbl m cs k r :
  wf tbl m cs -> remove1 k (concat (items cs)) = Some r -> stays tbl -> shrinks tbl = true -> (1 < size_ tbl)%Z.
Proof.
  intros H Hr Hst [Hu Hcal]%andb_true_iff. pose proof (wf_size_pos _ _ _ H) as Hp.
  destruct (decide (size_ tbl = 1)%Z) as [E1|]; [|lia].
  rewrite E1 in Hcal. change (1 / 2)%Z with 0%Z in Hcal. destruct Hst as [Hmin|]; [|congruence].
  unfold underloaded in Hu. rewrite load_below, E1 in Hu by lia. change (inject_Z 1) with 1%Q in Hu.
  destruct (remove1_Some _ _ _ Hr) as [d HP].
  assert (0 <= inject_Z (count tbl - 1))%Q as Hc; [|lra].
  change 0%Q with (inject_Z 0). rewrite <- Zle_Qle, (wf_count _ _ _ H).
  rewrite <- (length_fmap snd (concat cs)), <- items_concat, HP. cbn [length]. lia.
Qed.

(** ** The refinement, step by step *)

Lemma map_perm (l l' : list item) :
  NoDup l.*1 -> l' ≡ₚ l -> NoDup l'.*1 /\ (list_to_map l' : map) = list_to_map l.
Proof.
  intros HN HP. assert (NoDup l'.*1) as HN' by (by rewrite HP). split; [done|]. by apply list_to_map_proper.
Qed.

Lemma add_rep tbl m M k d n :
  rep tbl m M -> M !! k = None -> roomy tbl n -> 0 < n ->
  exists tbl' m', hash_table_add tbl k d m = Ret (tbl', m') /\ rep tbl' m' (<[k := d]> M) /\
    count tbl' = (count tbl + 1)%Z /\ max_load tbl' = max_load tbl /\ min_load tbl' = min_load tbl /\
    size_ tbl' = (if grows tbl then size_ tbl * 2 else size_ tbl)%Z.
Proof.
  intros (cs & H & HN & HM) Hk Hr Hn. pose proof (wf_size_pos _ _ _ H) as Hp.
  destruct (table_add_ok tbl m cs k d H) as (tbl' & m' & cs' & E & H' & Hc & Hmx & Hmn & Hs & Hit).
  { destruct Hr. lia. } { by eapply roomy_size. }
  exists tbl', m'. split; [done|]. split_and!; try done. exists cs'. split; [done|].
  assert (NoDup ((k, d) :: concat (items cs)).*1) as HN2.
  { cbn. constructor; [|done]. rewrite <- HM in Hk. by apply not_elem_of_list_to_map. }
  assert (concat (items cs') ≡ₚ (k, d) :: concat (items cs)) as HP.
  { assert (length (items cs) = Z.to_nat (size_ tbl)).
    { unfold items. rewrite length_fmap, (wf_size _ _ _ H). lia. }
    rewrite Hit. destruct (grows tbl); [rewrite rehash_concat by lia|]; by rewrite push_concat. }
  destruct (map_perm _ _ HN2 HP) as [HN' HM']. split; [done|]. rewrite HM'. cbn. by rewrite HM.
Qed.

Lemma find_rep tbl m M k :
  rep tbl m M -> hash_table_find tbl k m = Ret (default None (M !! k)).
Proof.
  intros (cs & H & HN & HM). rewrite (find_ok _ _ cs) by done. by rewrite assoc_map, HM.
Qed.

Lemma del_rep tbl m M k :
  rep tbl m M -> stays tbl ->
  exists tbl' m', hash_table_del tbl k m = Ret (bool_decide (is_Some (M !! k)), tbl', m') /\
    rep tbl' m' (delete k M) /\
    max_load tbl' = max_load tbl /\ min_load tbl' = min_load tbl /\
    count tbl' = (if bool_decide (is_Some (M !! k)) then count tbl - 1 else count tbl)%Z /\
    size_ tbl' = (if bool_decide (is_Some (M !! k)) && shrinks tbl then size_ tbl / 2 else size_ tbl)%Z.
Proof.
  intros (cs & H & HN & HM) Hst. pose proof (wf_size_pos _ _ _ H) as Hp.
  destruct (remove1 k (concat (items cs))) as [r|] eqn:Er.
  - destruct (del_ok tbl m cs k r H Er) as (tbl' & m' & cs' & E & H' & Hc & Hmx & Hmn & Hs & Hit).
    { by eapply stays_size. }
    destruct (remove1_Some _ _ _ Er) as [d HP].
    assert (NoDup ((k, d) :: r).*1 /\ (list_to_map ((k, d) :: r) : map) = M) as [HN2 HM2].
    { destruct (map_perm _ ((k, d) :: r) HN (symmetry HP)) as [? ->]. done. }
    cbn in HN2, HM2. apply NoDup_cons in HN2 as [Hk HN2].
    assert (is_Some (M !! k)) as HS by (rewrite <- HM2, lookup_insert_eq; by eexists).
    rewrite bool_decide_true by done. exists tbl', m'. split; [done|]. split_and!; try done.
    exists cs'. split; [done|].
    assert (concat (items cs') ≡ₚ r) as HP'.
    { rewrite Hit. destruct (shrinks tbl) eqn:Es; [|done]. apply rehash_concat.
      pose proof (stays_size _ _ _ _ _ H Er Hst Es) as H1.
      pose proof (Z.div_le_mono 2 (size_ tbl) 2 ltac:(lia) ltac:(lia)) as H2. change (2 / 2)%Z with 1%Z in H2. lia. }
    destruct (map_perm _ _ HN2 HP') as [HN' HM']. split; [done|]. rewrite HM', <- HM2.
    rewrite delete_insert_id; [done|]. by apply not_elem_of_list_to_map_1.
  - rewrite (del_absent tbl m cs) by done. apply remove1_None in Er.
    assert (M !! k = None) as Hk by (rewrite <- HM; by apply not_elem_of_list_to_map_1).
    rewrite Hk, bool_decide_false by (intros [? ?]; done). exists tbl, m. split; [done|].
    rewrite delete_id by done. split_and!; try done. by exists cs.
Qed.

(** How an operation changes the counters. *)
Definition moved (tbl tbl' : hash_table) : Prop :=
  max_load tbl' = max_load tbl /\ min_load tbl' = min_load tbl /\
  (count tbl' = count tbl /\ size_ tbl' = size_ tbl \/
   count tbl' = (count tbl + 1)%Z /\ size_ tbl' = (if grows tbl then size_ tbl * 2 else size_ tbl)%Z \/
   count tbl' = (count tbl - 1)%Z /\ size_ tbl' = (if shrinks tbl then size_ tbl / 2 else size_ tbl)%Z).

Lemma run_op_ok o tbl m M n :
  rep tbl m M -> fresh_adds [o] M -> roomy tbl n -> 0 < n -> stays tbl ->
  exists tbl' m', run_op o tbl m = Ret ((spec_op o M).1, tbl', m') /\ rep tbl' m' (spec_op o M).2 /\
    moved tbl tbl'.
Proof.
  intros H Hf Hr Hn Hst. destruct o as [k d|k|k]; cbn [run_op spec_op fst snd].
  - destruct Hf as [Hk _]. destruct (add_rep tbl m M k d n) as (tbl' & m' & -> & H' & Hc & Hmx & Hmn & Hs); [done..|].
    exists tbl', m'. split_and!; [done..|]. unfold moved. tauto.
  - rewrite (find_rep _ _ M) by done. exists tbl, m. split_and!; [done..|]. unfold moved. tauto.
  - destruct (del_rep tbl m M k) as (tbl' & m' & -> & H' & Hmx & Hmn & Hc & Hs); [done..|].
    exists tbl', m'. split_and!; [done..|]. unfold moved.
    destruct (bool_decide _); cbn [andb] in *; tauto.
Qed.

Lemma roomy_moved tbl tbl' n : moved tbl tbl' -> roomy tbl (S n) -> roomy tbl' n.
Proof.
  intros (Hmx & _ & Hc) [H1 H2]. unfold roomy. rewrite Hmx.
  assert (count tbl' + Z.of_nat n <= count tbl + Z.of_nat (S n))%Z as Hle.
  { destruct Hc as [[-> _] | [[-> _] | [-> _]]]; lia. }
  split; [lia|]. eapply Qle_trans; [|done]. by rewrite <- Zle_Qle.
Qed.

Lemma table_run_ok (P : hash_table -> Prop) os :
  (forall t t' m m' M M', rep t m M -> rep t' m' M' -> P t -> moved t t' -> P t') ->
  forall tbl m M, rep tbl m M -> fresh_adds os M -> roomy tbl (length os) -> stays tbl -> P tbl ->
  exists tbl' m', run os tbl m = Ret ((spec os M).1, tbl', m') /\ rep tbl' m' (spec os M).2 /\ P tbl'.
Proof.
  intros HP. induction os as [|o os IH]; intros tbl m M H Hf Hr Hst Ht; cbn [run spec]; [by exists tbl, m|].
  destruct Hf as [Hf1 Hf2].
  destruct (run_op_ok o tbl m M (S (length os))) as (t1 & m1 & -> & H1 & Hmv); [done| |done|lia|done|].
  { split; [done|]. done. }
  rewrite bind_ret_l. destruct (spec_op o M) as [r M1]; cbn [fst snd] in *.
  destruct (IH t1 m1 M1) as (t2 & m2 & -> & H2 & HP2); [done|done| | | |].
  { by eapply roomy_moved. }
  { destruct Hmv as (_ & Hmn & _). unfold stays. by rewrite Hmn. }
  { by eapply (HP tbl t1). }
  rewrite bind_ret_l. destruct (spec os M1) as [rs M2]. by exists t2, m2.
Qed.

Lemma rep_count tbl m M : rep tbl m M -> count tbl = Z.of_nat (size M) /\ size m = size M.
Proof.
  intros (cs & H & HN & <-).
  assert (size (list_to_map (concat (items cs)) : map) = length (concat cs)) as ->.
  { rewrite map_size_list_to_map by done. by rewrite items_concat, length_fmap. }
  split; [by apply (wf_count _ _ _ H)|]. by rewrite (owns_size _ _ (wf_owns _ _ _ H)), length_fmap.
Qed.

Lemma new_rep mx mn : rep (hash_table_new mx mn) ∅ ∅.
Proof. exists (replicate 16 []). split; [apply new_table_wf|]. cbn. split; [constructor|done]. Qed.

(** ** Properties *)

(** C28: from [hash_table_new] on, whatever adds of new keys, lookups and
    deletions follow, the table answers as a finite map does: [hash_table_find]
    gives the data of the key or NULL, [hash_table_del] says whether the key
    was there. No run reads a freed entry, loops for ever or fails an
    assertion, through all rehashing; the entries in memory are as many as the
    keys, so none is leaked, and [hash_table_delete] accepts exactly the empty
    table. The hypotheses are that the table cannot reach 2^32 slots and does
    not shrink to none. *)
Theorem hash_table_refines_map (mx mn : Q) (os : list op)
    (Hfresh : fresh_adds os ∅)
    (Hroom : roomy (hash_table_new mx mn) (length os))
    (Hstays : stays (hash_table_new mx mn)) :
  exists tbl m, run os (hash_table_new mx mn) ∅ = Ret ((spec os ∅).1, tbl, m) /\
    count tbl = Z.of_nat (size (spec os ∅).2) /\ size m = size (spec os ∅).2 /\
    (hash_table_delete tbl = Ret tt <-> (spec os ∅).2 = ∅).
Proof.
  destruct (table_run_ok (fun _ => True) os ltac:(done) _ _ _ (new_rep mx mn)) as (tbl & m & E & H & _); [done..|].
  destruct (rep_count _ _ _ H) as [Hc Hm]. exists tbl, m. split_and!; [done..|].
  unfold hash_table_delete. rewrite Hc, <- map_size_empty_iff.
  destruct (Z.of_nat (size (spec os ∅).2) =? 0)%Z eqn:E0; bool_hyps; cbn; split; (lia || done).
Qed.

(** The load after one operation. *)
Lemma moved_load t t' m m' M M' :
  rep t m M -> rep t' m' M' -> moved t t' ->
  (forall n, (0 < n)%Z -> calloc_ok n = true) ->
  (1 <= max_load t)%Q -> (2 * min_load t <= max_load t)%Q ->
  (inject_Z (count t) <= max_load t * inject_Z (size_ t))%Q ->
  (inject_Z (count t') <= max_load t' * inject_Z (size_ t'))%Q.
Proof.
  intros (cs & H & _) (cs' & H' & _) (Emx & _ & Hc) Hmem Hmx Hmn HB. rewrite Emx.
  pose proof (wf_size_pos _ _ _ H) as Hp. pose proof (wf_size_pos _ _ _ H') as Hp'.
  assert (1 <= inject_Z (size_ t))%Q as Hs1.
  { change 1%Q with (inject_Z 1). rewrite <- Zle_Qle. lia. }
  destruct Hc as [[-> ->] | [[Ec Es] | [Ec Es]]]; [done| |].
  - assert (inject_Z (count t') == inject_Z (count t) + 1)%Q as -> by (by rewrite Ec, inject_Z_plus).
    unfold grows in Es. rewrite Hmem, andb_true_r in Es by lia. destruct (overloaded t) eqn:Eo.
    + rewrite Es, inject_Z_mult. change (inject_Z 2) with 2%Q. nra.
    + rewrite Es. unfold overloaded in Eo. apply not_true_iff_false in Eo.
      rewrite load_above in Eo by done. apply Qnot_lt_le in Eo. rewrite inject_Z_plus in Eo. done.
  - assert (inject_Z (count t') == inject_Z (count t) - 1)%Q as ->.
    { rewrite Ec. unfold Z.sub. rewrite inject_Z_plus. reflexivity. }
    destruct (shrinks t) eqn:Esh; [|rewrite Es; lra].
    unfold shrinks, underloaded in Esh. apply andb_true_iff in Esh as [Hu _].
    rewrite load_below in Hu by done.
    assert (size_ t = 2 * size_ t')%Z as E2.
    { destruct (wf_pow _ _ _ H) as (p & Hpr & Ep).
      assert (0 < p)%Z as Hp0.
      { destruct (decide (p = 0))%Z as [-> |]; [|lia]. rewrite Ep in Es. change (2 ^ 0 / 2)%Z with 0%Z in Es. lia. }
      rewrite Es, Ep. replace p with (Z.succ (p - 1)) by lia.
      rewrite Z.pow_succ_r, (Z.mul_comm 2), Z.div_mul by lia. lia. }
    rewrite E2, inject_Z_mult in Hu. change (inject_Z 2) with 2%Q in Hu.
    assert (inject_Z (count t - 1) == inject_Z (count t) - 1)%Q as E1.
    { unfold Z.sub. rewrite inject_Z_plus. reflexivity. }
    rewrite E1 in Hu. pose proof (inject_pos _ Hp') as Hpq. nra.
Qed.

(** C34: the load never stays over its bound: where the thresholds are apart
    ([2 * min_load <= max_load], [1 <= max_load]) and memory does not run out,
    every table that adds and deletions lead to has at most [max_load] entries
    per slot, growing or shrinking by one rehash at a time. *)
Theorem hash_table_load_bounded (mx mn : Q) (os : list op)
    (Hfresh : fresh_adds os ∅)
    (Hroom : roomy (hash_table_new mx mn) (length os))
    (Hstays : stays (hash_table_new mx mn))
    (Hmem : forall n, (0 < n)%Z -> calloc_ok n = true)
    (Hmx : (1 <= mx)%Q) (Hmn : (2 * mn <= mx)%Q) :
  exists rs tbl m, run os (hash_table_new mx mn) ∅ = Ret (rs, tbl, m) /\
    (inject_Z (count tbl) <= mx * inject_Z (size_ tbl))%Q.
Proof.
  pose (P t := max_load t = mx /\ min_load t = mn /\
    (inject_Z (count t) <= max_load t * inject_Z (size_ t))%Q).
  destruct (table_run_ok P os) with (tbl := hash_table_new mx mn) (m := ∅ : mem) (M := ∅ : map)
    as (tbl & m & E & _ & Emx & _ & HB); try done.
  - intros t t' m m' M M' Ht Ht' (E1 & E2 & HB) Hmv.
    pose proof (moved_load t t' m m' M M' Ht Ht' Hmv Hmem) as HL.
    destruct Hmv as (F1 & F2 & _). unfold P. split_and!; [congruence..|].
    apply HL; [by rewrite E1|by rewrite E1, E2|done].
  - apply new_rep.
  - unfold P. split_and!; [done..|]. cbn. unfold c_initial_size.
    change (inject_Z 0) with 0%Q. change (inject_Z 16) with 16%Q. lra.
  - eexists _, tbl, m. split; [done|]. by rewrite <- Emx.
Qed.

(** ** Two keys the same *)

Lemma foldl_push_same n k l acc :
  (0 < n)%Z -> Forall (fun x => x.1 = k) l ->
  let i := Z.to_nat (hash k mod n) in
  foldl (push n) (<[i := acc]> (replicate (Z.to_nat n) [])) l
  = <[i := reverse l ++ acc]> (replicate (Z.to_nat n) []).
Proof.
  intros Hn HF i. revert acc. induction HF as [|x l Hx HF IH]; intros acc; cbn [foldl]; [done|].
  unfold push at 2. rewrite Hx. fold i.
  assert (alter (cons x) i (<[i := acc]> (replicate (Z.to_nat n) [])) = <[i := x :: acc]> (replicate (Z.to_nat n) [])) as ->.
  { rewrite !list_insert_alter. by rewrite list_alter_alter_eq. }
  rewrite IH, reverse_cons, <- app_assoc. done.
Qed.

(** Items with one key come out in the other order. *)
Lemma rehash_same n k l :
  (0 < n)%Z -> Forall (fun x => x.1 = k) l -> concat (rehash n l) = reverse l.
Proof.
  intros Hn HF. unfold rehash. set (i := Z.to_nat (hash k mod n)).
  assert (i < Z.to_nat n) as Hi by (by apply slot_lt).
  rewrite <- (list_insert_id (replicate (Z.to_nat n) []) i []) by (by apply lookup_replicate_2).
  unfold i. rewrite foldl_push_same by done. fold i. rewrite app_nil_r.
  rewrite (concat_insert _ _ []) by (by apply lookup_replicate_2).
  rewrite take_replicate, drop_replicate.
  assert (forall j, concat (replicate j (@nil item)) = []) as Hnil by (by induction j; cbn).
  rewrite !Hnil, app_nil_r. done.
Qed.

(** Rehashing turns the chains round, so which of two entries with one key
    is found depends on it: with a threshold that the second entry exceeds,
    adding data [d1] and then [d2] for a key leaves a table that finds [d1];
    with a higher one it finds [d2]. *)
Theorem duplicates_change_places (mx mn : Q) (k : cstr) (d1 d2 : option D)
    (Hmem : calloc_ok 32 = true) (Hmx : (1 # 16 <= mx)%Q) :
  exists tbl m, run [Add k d1; Add k d2; Find k] (hash_table_new mx mn) ∅ =
    Ret ([Added; Added; Found (if Qltb mx (2 # 16) then d1 else d2)], tbl, m).
Proof.
  pose proof (new_table_wf mx mn) as H0.
  destruct (table_add_ok _ _ _ k d1 H0) as (t1 & m1 & c1 & E1 & H1 & Hc1 & Hmx1 & Hmn1 & Hs1 & Hi1); [done|done|].
  assert (grows (hash_table_new mx mn) = false) as Hg1.
  { unfold grows, overloaded. apply andb_false_iff. left. apply Qltb_false. exact Hmx. }
  rewrite Hg1 in Hs1, Hi1. cbn [hash_table_new size_ count max_load] in Hs1, Hi1, Hc1, Hmx1.
  assert (items c1 = rehash 16 [(k, d1)]) as Hr1 by exact Hi1.
  destruct (table_add_ok _ _ _ k d2 H1) as (t2 & m2 & c2 & E2 & H2 & Hc2 & Hmx2 & Hmn2 & Hs2 & Hi2).
  { rewrite Hc1. done. } { intros _. by rewrite Hs1. }
  assert (grows t1 = Qltb mx (2 # 16)) as Hg2.
  { unfold grows, overloaded. rewrite Hs1, Hc1, Hmx1. change (c_initial_size * 2)%Z with 32%Z.
    by rewrite Hmem, andb_true_r. }
  rewrite Hg2, Hs1, Hr1 in Hi2.
  change (push c_initial_size (rehash 16 [(k, d1)]) (k, d2)) with (rehash 16 [(k, d1); (k, d2)]) in Hi2.
  exists t2, m2. cbn [run run_op]. rewrite E1, !bind_ret_l, E2, !bind_ret_l, (find_ok _ _ _ k H2), !bind_ret_l.
  do 5 f_equal. rewrite Hi2. cbn zeta. clear Hi2.
  assert (Forall (fun x : item => x.1 = k) [(k, d1); (k, d2)]) as HF by (repeat constructor).
  destruct (Qltb mx (2 # 16)).
  - rewrite (rehash_same 16 k) by done. rewrite (rehash_same _ k); [|done|by repeat constructor].
    cbn. by rewrite streq_refl.
  - rewrite (rehash_same 16 k) by done. cbn. by rewrite streq_refl.
Qed.

(** ** A table that has shrunk to nothing *)

Definition bare (n : Z) (mx mn : Q) : hash_table := Table n 0 mx mn (replicate (Z.to_nat n) None).

Lemma rehash_slots_bare n ns es : forall j i, i + j <= n ->
  rehash_slots j i (replicate n None) ns es ∅ 0%Z = Ret (es, (∅ : mem), 0%Z).
Proof.
  induction j as [|j IH]; intros i Hi; cbn [rehash_slots]; [done|].
  rewrite lookup_replicate_2 by lia. cbn [deref]. rewrite bind_ret_l.
  rewrite map_size_empty. cbn [rehash_chain free_entry]. rewrite !bind_ret_l. apply IH. lia.
Qed.

Lemma resize_bare n n' mx mn :
  calloc_ok n' = true -> hash_table_resize (bare n mx mn) n' ∅ = Ret (bare n' mx mn, ∅).
Proof.
  intros Hc. unfold hash_table_resize. rewrite Hc. cbn [bare size_ entries count max_load min_load].
  rewrite rehash_slots_bare by lia. by rewrite bind_ret_l.
Qed.

Lemma add_del_bare n mx mn k d :
  (0 < n)%Z -> (1 <= mx)%Q -> (0 < mn)%Q -> calloc_ok (n / 2) = true ->
  run [Add k d; Del k] (bare n mx mn) ∅ = Ret ([Added; Deleted true], bare (n / 2) mx mn, ∅).
Proof.
  intros Hn Hmx Hmn Hc. cbn [run run_op]. unfold hash_table_add, add_to_entries.
  cbn [bare size_ entries count max_load min_load]. rewrite slot_of_ok, bind_ret_l by done.
  pose proof (slot_lt (hash k) n Hn) as Hi. remember (Z.to_nat (hash k mod n)) as i eqn:Ei.
  rewrite lookup_replicate_2 by done. cbn [deref]. rewrite !bind_ret_l.
  set (a := stdpp.base.fresh (dom (∅ : mem))). clearbody a.
  unfold hash_table_get_load_factor. cbn [count size_]. change (u32 (0 + 1)) with 1%Z.
  assert (1 <= inject_Z n)%Q as Hn1 by (change 1%Q with (inject_Z 1); rewrite <- Zle_Qle; lia).
  assert (Qltb mx (inject_Z 1 / inject_Z n) = false) as ->.
  { apply not_true_iff_false. rewrite load_above by done. change (inject_Z 1) with 1%Q.
    apply Qle_not_lt. nra. }
  rewrite !bind_ret_l. unfold hash_table_del. cbn [size_ entries count max_load min_load].
  rewrite slot_of_ok, bind_ret_l by done. rewrite <- Ei. unfold unlink.
  rewrite list_lookup_insert_eq by (by rewrite length_replicate). cbn [deref]. rewrite bind_ret_l.
  rewrite lookup_insert_eq. cbn [deref]. rewrite bind_ret_l. cbn [key next]. rewrite streq_refl, bind_ret_l.
  rewrite list_insert_insert_eq, list_insert_id by (by apply lookup_replicate_2).
  rewrite delete_insert_id by apply lookup_empty.
  unfold hash_table_get_load_factor. cbn [count size_ max_load min_load entries]. change (u32 (1 - 1)) with 0%Z.
  assert (Qltb (inject_Z 0 / inject_Z n) mn = true) as ->.
  { apply load_below; [done|]. change (inject_Z 0) with 0%Q. nra. }
  change (Table n 0 mx mn (replicate (Z.to_nat n) None)) with (bare n mx mn).
  rewrite resize_bare by done. by rewrite !bind_ret_l.
Qed.

(** Nothing keeps a table from shrinking to no slots: with any positive
    [min_load] and a [max_load] of one or more, adding a key and deleting it
    five times halves the table from 16 slots to 1 and then to 0, and whatever
    operation comes next divides by zero. *)
Theorem emptied_table_divides_by_zero (mx mn : Q) (k : cstr) (d : option D) (o : op)
    (Hmem : forall n, (0 <= n <= 16)%Z -> calloc_ok n = true)
    (Hmx : (1 <= mx)%Q) (Hmn : (0 < mn)%Q) :
  run (concat (replicate 5 [Add k d; Del k])) (hash_table_new mx mn) ∅
    = Ret (concat (replicate 5 [Added; Deleted true]), bare 0 mx mn, ∅) /\
  run (concat (replicate 5 [Add k d; Del k]) ++ [o]) (hash_table_new mx mn) ∅ = Undef.
Proof.
  assert (forall os os' tbl m, run (os ++ os') tbl m =
    ('(rs, tbl, m) ← run os tbl m; '(rs', tbl, m) ← run os' tbl m; Ret (rs ++ rs', tbl, m))) as Happ.
  { induction os as [|o' os IH]; intros os' tbl m; cbn [app run].
    - rewrite bind_ret_l. by destruct (run os' tbl m) as [[[? ?] ?]| | |].
    - destruct (run_op o' tbl m) as [[[r t1] m1]| | |]; [|done..]. rewrite !bind_ret_l, IH.
      destruct (run os t1 m1) as [[[rs t2] m2]| | |]; [|done..]. rewrite !bind_ret_l.
      by destruct (run os' t2 m2) as [[[? ?] ?]| | |]. }
  assert (run (concat (replicate 5 [Add k d; Del k])) (hash_table_new mx mn) ∅
    = Ret (concat (replicate 5 [Added; Deleted true]), bare 0 mx mn, ∅)) as E5.
  { change (hash_table_new mx mn) with (bare 16 mx mn). cbn [replicate concat].
    repeat (rewrite Happ, add_del_bare by (done || (apply Hmem; split; vm_compute; discriminate)); rewrite bind_ret_l).
    done. }
  split; [done|]. rewrite Happ, E5, bind_ret_l. by destruct o.
Qed.

(** ** Iterating *)

(** The loop of a user: until the end, take the item and go on. *)
Fixpoint collect (fuel : nat) (tbl : hash_table) (m : mem) (iter : hash_table_iterator) : outcome (list item) :=
  match fuel with
  | 0 => Blocked
  | S fuel =>
      if hash_table_iterator_at_end iter then Ret [] else
      k ← hash_table_iterator_current_key iter m;
      k ← deref k;
      d ← hash_table_iterator_current_data iter m;
      '(_, iter) ← hash_table_iterator_next tbl iter m;
      l ← collect fuel tbl m iter;
      Ret ((k, d) :: l)
  end.

Lemma chain_suffix m p pre l : chain m p (pre ++ l) -> exists q, chain m q l.
Proof.
  revert p. induction pre as [|[a [k d]] pre IH]; intros p; cbn; [by eauto|].
  intros (_ & n & _ & H). by eapply IH.
Qed.

Lemma wf_entry tbl m cs s : wf tbl m cs -> s < length cs ->
  exists e l, entries tbl !! s = Some e /\ cs !! s = Some l /\ chain m e l.
Proof.
  intros H Hs. destruct (lookup_lt_is_Some_2 cs s Hs) as [l El].
  destruct (Forall2_lookup_r _ _ _ _ _ (wf_slots _ _ _ H) El) as (e & Ee & Hc). by exists e, l.
Qed.

(** The entries of the slots from [s] on, as a scan for the next one sees them. *)
Lemma next_from_ok tbl m cs : wf tbl m cs -> forall n s, s <= length cs -> length cs - s < n ->
  match concat (drop s cs) with
  | [] => next_from n s tbl = Ret (None, length cs)
  | (a, x) :: rest => exists j l, cs !! j = Some ((a, x) :: l) /\ rest = l ++ concat (drop (S j) cs) /\
      next_from n s tbl = Ret (Some a, j)
  end.
Proof.
  intros H. induction n as [|n IH]; intros s Hs Hn; [lia|]. cbn [next_from]. rewrite (wf_size _ _ _ H).
  destruct (decide (s = length cs)) as [-> | Hne].
  { rewrite drop_all. cbn [concat]. by rewrite Z.ltb_irrefl. }
  rewrite (proj2 (Z.ltb_lt _ _)) by lia.
  destruct (wf_entry tbl m cs s H) as (e & l & Ee & El & Hc); [lia|].
  rewrite Ee. cbn [deref]. rewrite bind_ret_l, (drop_S cs l s El). cbn [concat].
  destruct l as [|[a [k d]] l]; cbn [chain app] in *.
  - subst e. apply IH; lia.
  - destruct Hc as (-> & _). by exists s, l.
Qed.

Lemma first_from_ok tbl m cs : wf tbl m cs -> forall n s, s < length cs -> length cs - s < n ->
  match concat (drop s cs) with
  | [] => first_from n s tbl = Ret (None, length cs)
  | (a, x) :: rest => exists j l, s <= j /\ cs !! j = Some ((a, x) :: l) /\
      rest = l ++ concat (drop (S j) cs) /\ concat (take (j - s) (drop s cs)) = [] /\
      first_from n s tbl = Ret (Some a, S j)
  end.
Proof.
  intros H. induction n as [|n IH]; intros s Hs Hn; [lia|]. cbn [first_from]. rewrite (wf_size _ _ _ H).
  destruct (wf_entry tbl m cs s H) as (e & l & Ee & El & Hc); [lia|].
  rewrite Ee. cbn [deref]. rewrite bind_ret_l, (drop_S cs l s El). cbn [concat].
  destruct l as [|[a [k d]] l]; cbn [chain app] in *.
  - subst e. destruct (Z.of_nat (S s) <? Z.of_nat (length cs))%Z eqn:E; bool_hyps.
    + specialize (IH (S s) ltac:(lia) ltac:(lia)). destruct (concat (drop (S s) cs)) as [|[a x] rest]; [done|].
      destruct IH as (j & l & Hj & Ej & Er & Et & ->). exists j, l. split_and!; try done; [lia|].
      replace (j - s) with (S (j - S s)) by lia. cbn. done.
    + assert (S s = length cs) as Hl by lia. rewrite (drop_ge cs (S s)) by lia. cbn [concat]. by rewrite Hl.
  - destruct Hc as (-> & _). exists s, l. split_and!; try done. by rewrite Nat.sub_diag.
Qed.

Lemma collect_ok tbl m cs : wf tbl m cs -> forall fuel s pre a x l,
  cs !! s = Some (pre ++ (a, x) :: l) -> S (length (l ++ concat (drop (S s) cs))) < fuel ->
  collect fuel tbl m (Iterator s (Some a) false) = Ret (x :: (l ++ concat (drop (S s) cs)).*2).
Proof.
  intros H. induction fuel as [|fuel IH]; intros s pre a x l Ecs Hf; [lia|].
  cbn [collect hash_table_iterator_at_end end_].
  destruct (wf_entry tbl m cs s H) as (e & l0 & Ee & El & Hc); [by eapply lookup_lt_Some|].
  rewrite Ecs in El. injection El as <-. apply chain_suffix in Hc as [q Hc]. destruct x as [k d].
  cbn [chain] in Hc. destruct Hc as (_ & nx & Ea & Hc).
  unfold hash_table_iterator_current_key, hash_table_iterator_current_data. cbn [end_ entry deref].
  rewrite !bind_ret_l, Ea. cbn [deref]. rewrite !bind_ret_l. cbn [key data deref]. rewrite !bind_ret_l.
  unfold hash_table_iterator_next. cbn [entry slot end_]. rewrite bind_ret_l, Ea. cbn [deref].
  rewrite bind_ret_l. cbn [next].
  destruct l as [|[b y] l]; cbn [chain app length] in *.
  - subst nx. assert (s < length cs) as Hs by (by eapply lookup_lt_Some).
    pose proof (next_from_ok tbl m cs H (S (length (entries tbl))) (s + 1) ltac:(lia)) as HN.
    rewrite (Forall2_length _ _ _ (wf_slots _ _ _ H)) in HN |- *. specialize (HN ltac:(lia)).
    rewrite Nat.add_1_r in *. destruct (concat (drop (S s) cs)) as [|[b y] rest] eqn:Ed.
    + rewrite HN, !bind_ret_l, (wf_size _ _ _ H), Z.ltb_irrefl, bind_ret_l.
      destruct fuel as [|fuel]; [cbn in Hf; lia|]. done.
    + destruct HN as (j & l & Ej & Er & ->). rewrite !bind_ret_l, (wf_size _ _ _ H).
      rewrite (proj2 (Z.ltb_lt _ _)) by (apply lookup_lt_Some in Ej; lia). rewrite !bind_ret_l.
      subst rest. rewrite (IH j [] b y l Ej), bind_ret_l by (cbn [length] in Hf; lia). done.
  - destruct y as [kb db]. destruct Hc as (-> & _). rewrite !bind_ret_l.
    rewrite (IH s (pre ++ [(a, (k, d))]) b (kb, db) l), bind_ret_l by (rewrite <- ?app_assoc; done || lia). done.
Qed.

(** Everything but the last slot is empty. *)
Lemma last_slot_only tbl m cs : wf tbl m cs ->
  concat (take (length cs - 1) cs) = [] <->
  forall x, x ∈ concat (items cs) -> (hash x.1 mod size_ tbl = size_ tbl - 1)%Z.
Proof.
  intros H. pose proof (wf_size_pos _ _ _ H) as Hp. pose proof (wf_size _ _ _ H) as Hs. split.
  - intros E x Hx. rewrite items_concat in Hx. apply list_elem_of_fmap in Hx as ([a y] & -> & Hx). cbn [snd].
    apply list_elem_of_In, in_concat in Hx as (l & Hl & Hx).
    apply list_elem_of_In, list_elem_of_lookup in Hl as [i Ei].
    assert (i = length cs - 1) as ->.
    { pose proof (lookup_lt_Some _ _ _ Ei). destruct (decide (i < length cs - 1)); [|lia].
      assert (In (a, y) (concat (take (length cs - 1) cs))) as HIn; [|by rewrite E in HIn].
      apply in_concat. exists l. split; [|done]. apply list_elem_of_In, list_elem_of_lookup. exists i.
      by rewrite lookup_take_lt. }
    pose proof (wf_hashed _ _ _ H _ l.*2 y (items_lookup _ _ _ Ei)) as Hh.
    pose proof (Z.mod_pos_bound (hash y.1) _ Hp). cbv zeta in Hh.
    assert (y ∈ l.*2) as Hy by (apply list_elem_of_fmap; exists (a, y); split; [done|by apply list_elem_of_In]).
    specialize (Hh Hy). lia.
  - intros Hall. destruct (concat (take (length cs - 1) cs)) as [|[a y] r] eqn:E; [done|]. exfalso.
    assert (In (a, y) (concat (take (length cs - 1) cs))) as HIn by (rewrite E; by left).
    apply in_concat in HIn as (l & Hl & Hx). apply list_elem_of_In, list_elem_of_lookup in Hl as [i Ei].
    apply lookup_take_Some in Ei as [Ei Hi].
    assert (y ∈ l.*2) as Hy by (apply list_elem_of_fmap; exists (a, y); split; [done|by apply list_elem_of_In]).
    pose proof (wf_hashed _ _ _ H _ l.*2 y (items_lookup _ _ _ Ei) Hy) as Hh.
    assert (y ∈ concat (items cs)) as Hin.
    { apply list_elem_of_In, in_concat. exists l.*2. split; [|by apply list_elem_of_In].
      apply list_elem_of_In, list_elem_of_lookup. exists i. by apply items_lookup. }
    specialize (Hall _ Hin). lia.
Qed.

(** What a whole iteration sees, in the order of the slots. *)
Lemma iterate_ok tbl m cs fuel : wf tbl m cs -> S (length (concat cs)) < fuel ->
  (iter ← hash_table_iterator_new tbl; collect fuel tbl m iter) =
  Ret (if decide (concat (take (length cs - 1) cs) = []) then [] else concat (items cs)).
Proof.
  intros H Hf. pose proof (wf_size_pos _ _ _ H) as Hp. pose proof (wf_size _ _ _ H) as Hs.
  unfold hash_table_iterator_new, hash_table_iterator_find_first.
  pose proof (first_from_ok tbl m cs H (S (length (entries tbl))) 0 ltac:(lia)) as HF.
  rewrite (Forall2_length _ _ _ (wf_slots _ _ _ H)) in *. specialize (HF ltac:(lia)). rewrite drop_0 in HF.
  assert (forall it, end_ it = true -> collect fuel tbl m it = Ret []) as Hend.
  { intros it Hit. destruct fuel as [|fuel]; [lia|]. cbn. unfold hash_table_iterator_at_end. by rewrite Hit. }
  destruct (concat cs) as [|[a x] rest] eqn:Ec.
  - rewrite HF, bind_ret_l, Hs, Z.ltb_irrefl, bind_ret_l, Hend by done.
    rewrite items_concat, Ec. by destruct (decide _).
  - destruct HF as (j & l & _ & Ej & Er & Et & ->). rewrite Nat.sub_0_r in Et. rewrite bind_ret_l, Hs.
    pose proof (lookup_lt_Some _ _ _ Ej) as Hj.
    destruct (Z.of_nat (S j) <? Z.of_nat (length cs))%Z eqn:E; bool_hyps; rewrite bind_ret_l.
    + rewrite decide_False.
      * cbn [end_]. replace (S j - 1) with j by lia.
        rewrite (collect_ok tbl m cs H fuel j [] a x l) by (done || (subst rest; cbn in Hf; lia)).
        rewrite items_concat, Ec. by subst rest.
      * intros E0. assert (In (a, x) (concat (take (length cs - 1) cs))) as HIn; [|by rewrite E0 in HIn].
        apply in_concat. exists ((a, x) :: l). split; [|by left].
        apply list_elem_of_In, list_elem_of_lookup. exists j. rewrite lookup_take_lt by lia. done.
    + rewrite Hend by done. rewrite decide_True; [done|]. by replace (length cs - 1) with j by lia.
Qed.

(** An iterator gives every key of the table with its data, each once,
    unless all the keys are in the last slot: [find_first] leaves its loop with
    the slot's number already moved on and takes the last slot for the end, so
    then it gives nothing at all. The iteration ends after as many steps as
    there are entries. *)
Theorem iterator_visits (tbl : hash_table) (m : mem) (M : map) (fuel : nat)
    (H : rep tbl m M) (Hfuel : S (size M) < fuel) :
  exists l, (iter ← hash_table_iterator_new tbl; collect fuel tbl m iter) = Ret l /\
    ((forall k, k ∈ dom M -> (hash k mod size_ tbl = size_ tbl - 1)%Z) -> l = []) /\
    (~ (forall k, k ∈ dom M -> (hash k mod size_ tbl = size_ tbl - 1)%Z) -> l ≡ₚ map_to_list M).
Proof.
  pose proof (rep_count _ _ _ H) as [_ Hsz]. destruct H as (cs & H & HN & HM).
  pose proof (owns_size _ _ (wf_owns _ _ _ H)) as Hlen. rewrite length_fmap in Hlen.
  eexists. split; [apply iterate_ok; [done|lia]|].
  assert (concat (take (length cs - 1) cs) = [] <->
    (forall k, k ∈ dom M -> (hash k mod size_ tbl = size_ tbl - 1)%Z)) as Hiff.
  { rewrite (last_slot_only tbl m cs H), <- HM. rewrite dom_list_to_map_L. split.
    - intros Hx k Hk. apply elem_of_list_to_set, list_elem_of_fmap in Hk as (x & -> & Hk). by apply Hx.
    - intros Hk x Hx. apply Hk, elem_of_list_to_set, list_elem_of_fmap. by exists x. }
  split; intros Hk.
  - by rewrite decide_True by (by apply Hiff).
  - rewrite decide_False by (by rewrite Hiff). rewrite <- HM. by rewrite map_to_list_to_map.
Qed.

End HashTable.

(** ** Witnesses *)

(** An allocator that gives no block of no bytes. *)
Definition some_slots (n : Z) : bool := (0 <? n)%Z.

Definition add_find_del : list (@op nat) :=
  [Add (cs "/a") (Some 1); Add (cs "/b") (Some 2); Find (cs "/a"); Del (cs "/a"); Find (cs "/a")].

Lemma add_find_del_fresh : fresh_adds add_find_del ∅.
Proof.
  cbn. split; [apply lookup_empty|]. split; [|done]. rewrite lookup_insert_ne by done. apply lookup_empty.
Qed.

Lemma hash_table_refines_map_witness :
  exists tbl m, run some_slots add_find_del (hash_table_new (1 # 16) (1 # 16)) ∅
    = Ret ((spec add_find_del ∅).1, tbl, m) /\
    count tbl = Z.of_nat (size (spec add_find_del ∅).2) /\ size m = size (spec add_find_del ∅).2 /\
    (hash_table_delete tbl = Ret tt <-> (spec add_find_del ∅).2 = ∅).
Proof.
  apply (hash_table_refines_map some_slots (1 # 16) (1 # 16) add_find_del).
  - apply add_find_del_fresh.
  - split; [done|]. cbv. discriminate.
  - by right.
Defined.

Lemma hash_table_load_bounded_witness :
  exists rs tbl m, run some_slots add_find_del (hash_table_new 2 1) ∅ = Ret (rs, tbl, m) /\
    (inject_Z (count tbl) <= 2 * inject_Z (size_ tbl))%Q.
Proof.
  apply (hash_table_load_bounded some_slots 2 1 add_find_del).
  - apply add_find_del_fresh.
  - split; [done|]. cbv. discriminate.
  - by right.
  - intros n Hn. by apply Z.ltb_lt.
  - discriminate.
  - discriminate.
Defined.

Lemma duplicates_change_places_witness :
  exists tbl m, run some_slots [Add (cs "/a") (Some 1); Add (cs "/a") (Some 2); Find (cs "/a")]
      (hash_table_new (1 # 16) 0) ∅ = Ret ([Added; Added; Found (Some 1)], tbl, m).
Proof.
  apply (duplicates_change_places some_slots (1 # 16) 0 (cs "/a") (Some 1) (Some 2)); [done|]. discriminate.
Defined.

Lemma emptied_table_divides_by_zero_witness :
  run (fun _ => true) (concat (replicate 5 [Add (cs "/a") (Some 1); Del (cs "/a")]) ++ [Find (cs "/")])
    (hash_table_new 1 (1 # 2)) ∅ = Undef.
Proof.
  refine (proj2 (emptied_table_divides_by_zero (fun _ => true) 1 (1 # 2) (cs "/a") (Some 1) (Find (cs "/")) _ _ _)).
  - done.
  - discriminate.
  - done.
Defined.

(** "j" hashes to 15 modulo 16: the only key of a new table, in its last slot. *)
Lemma iterator_visits_witness :
  exists (tbl : hash_table) (m : gmap nat (@hash_table_entry nat)),
    hash_table_add some_slots (hash_table_new 2 0) (cs "j") (Some 1) ∅ = Ret (tbl, m) /\
    (iter ← hash_table_iterator_new tbl; collect 3 tbl m iter) = Ret [].
Proof.
  destruct (add_rep some_slots (hash_table_new 2 0) ∅ ∅ (cs "j") (Some 1) 1 (new_rep 2 0))
    as (tbl & m & E & H & _ & _ & _ & Hs).
  - done.
  - split; [done|]. cbv. discriminate.
  - lia.
  - exists tbl, m. split; [done|].
    assert (size (<[cs "j" := Some 1]> (∅ : gmap cstr (option nat))) = 1) as H1.
    { by rewrite insert_empty, map_size_singleton. }
    destruct (iterator_visits tbl m _ 3 H) as (l & -> & Hl & _); [rewrite H1; lia|].
    rewrite Hl; [done|]. intros k Hk. rewrite dom_insert_L, dom_empty_L, union_empty_r_L in Hk.
    apply elem_of_singleton in Hk as ->. rewrite Hs. reflexivity.
Defined.
