(* ===== verification/HashDump.v ===== *)
(** * scrap/hash_table.c: the dumps of the DEBUG build

    What is printed, as text. A table's address, its load factor and an entry's
    address are printed by "%p" and "%f": parameters. *)
From S2P Require Import Prelude CLib HashTable.
From stdpp Require Import pretty.
#[local] Open Scope nat_scope.

Section HashDump.
Context {D : Type}.
Context (print_ptr : option nat -> cstr) (print_data : option D -> cstr) (print_f : Q -> cstr).
Context (self : cstr).   (* the table's address *)

(** ** The code *)

(** "%03u" *)
Definition print_03u (n : nat) : cstr :=
  let s := cs (pretty (N.of_nat n)) in replicate (3 - length s) "0"%char ++ s.

(** [for ( ; e; e = e->next)]: the entries met. *)
Fixpoint walk (fuel : nat) (m : gmap nat (@hash_table_entry D)) (e : option nat)
  : outcome (list (nat * hash_table_entry)) :=
  match fuel with
  | 0 => Blocked
  | S fuel =>
      match e with
      | None => Ret []
      | Some a =>
          en ← deref (m !! a);
          l ← walk fuel m (next en);
          Ret ((a, en) :: l)
      end
  end.

(** [for (i = 0; i < tbl->size; ++i)], with a text for each slot. *)
Fixpoint over_slots (n i : nat) (text : nat -> list (nat * hash_table_entry) -> cstr)
    (tbl : hash_table) (m : gmap nat (@hash_table_entry D)) : outcome cstr :=
  match n with
  | 0 => Ret []
  | S n =>
      e ← deref (entries tbl !! i);
      l ← walk (S (size m)) m e;
      rest ← over_slots n (S i) text tbl m;
      Ret (text i l ++ rest)
  end.

Definition dump_header (tbl : hash_table) : cstr :=
  line (cs "hash table " ++ self ++ cs ". size: " ++ print_u64 (hash_table_get_size tbl) ++
        cs ", entries: " ++ print_u64 (hash_table_get_count tbl) ++ cs ", load factor: " ++
        print_f (hash_table_get_load_factor tbl)).

Definition slot_label (i : nat) : cstr := cs "[" ++ print_03u i ++ cs "]".

Definition hash_table_dump_histogram (tbl : hash_table) (m : gmap nat hash_table_entry) : outcome cstr :=
  slots ← over_slots (Z.to_nat (size_ tbl)) 0
    (fun i l => slot_label i ++ cs " " ++ line (replicate (length l) "*"%char)) tbl m;
  Ret (dump_header tbl ++ slots).

Definition hash_table_dump (tbl : hash_table) (m : gmap nat hash_table_entry) : outcome cstr :=
  slots ← over_slots (Z.to_nat (size_ tbl)) 0
    (fun i l => line (slot_label i) ++ concat ((fun x => line (cs "  " ++ key x.2)) <$> l)) tbl m;
  Ret (dump_header tbl ++ slots).

Definition hash_table_dump_row (e : option nat) (m : gmap nat hash_table_entry) : outcome cstr :=
  l ← walk (S (size m)) m e;
  Ret (concat ((fun x => line (cs "[entry " ++ print_ptr (Some x.1) ++ cs "] key: " ++ key x.2 ++
                               cs "; data: " ++ print_data (data x.2))) <$> l)).

Definition quoted (s : cstr) : cstr := dquote ++ s ++ dquote.

Definition hash_table_dump_dot (tbl : hash_table) (m : gmap nat hash_table_entry) : outcome cstr :=
  over_slots (Z.to_nat (size_ tbl)) 0
    (fun i l =>
      match l with [] => [] | _ => line (quoted (print_03u i) ++ cs " [color=red]") end ++
      concat ((fun x => line (quoted (print_03u i) ++ cs " -> " ++ quoted (key x.2) ++ cs " [color=red]")) <$> l))
    tbl m.

(** ** What is printed *)

(** The entry that an item of a chain is. *)
Definition is_item (x : nat * hash_table_entry) (y : nat * (cstr * option D)) : Prop :=
  x.1 = y.1 /\ key x.2 = y.2.1 /\ data x.2 = y.2.2.

Lemma row_walk_ok m l : forall e fuel, chain m e l -> length l < fuel ->
  exists es, walk fuel m e = Ret es /\ Forall2 is_item es l.
Proof.
  induction l as [|[a [k d]] l IH]; intros e fuel Hc Hf; (destruct fuel as [|fuel]; [lia|]); cbn [chain] in Hc.
  - subst e. by exists [].
  - destruct Hc as (-> & n & Ha & Hc). cbn [walk]. rewrite Ha. cbn [deref]. rewrite bind_ret_l.
    destruct (IH n fuel Hc) as (es & E & HF); [cbn in Hf; lia|]. cbn [next]. rewrite E, bind_ret_l.
    eexists. split; [done|]. by constructor.
Qed.

Lemma over_slots_ok text tbl m (es : list (list (nat * hash_table_entry))) : forall n i,
  (forall j l, es !! j = Some l -> exists e, entries tbl !! (i + j) = Some e /\ walk (S (size m)) m e = Ret l) ->
  n = length es -> over_slots n i text tbl m = Ret (concat (imap (fun j => text (i + j)) es)).
Proof.
  induction es as [|l es IH]; intros n i Hes ->; [done|]. cbn [length over_slots].
  destruct (Hes 0 l eq_refl) as (e & He & Hw). rewrite Nat.add_0_r in He. rewrite He. cbn [deref].
  rewrite bind_ret_l, Hw, bind_ret_l, (IH (length es) (S i)); [|intros j l' Hj|done].
  - rewrite bind_ret_l. cbn [imap concat]. rewrite Nat.add_0_r. do 3 f_equal. apply imap_ext.
    intros j l' _. cbn. by rewrite Nat.add_succ_r.
  - destruct (Hes (S j) l' Hj) as (e' & He' & Hw'). exists e'. by rewrite Nat.add_succ_r in He'.
Qed.

(** The slots of a well-formed table, each with its entries: all dumps print
    these, each entry of the table once. *)
Lemma slots_ok (tbl : hash_table) (m : gmap nat hash_table_entry) (chains : list (list (nat * (cstr * option D)))) :
  wf tbl m chains -> exists es, Forall2 (Forall2 is_item) es chains /\
    forall text, over_slots (Z.to_nat (size_ tbl)) 0 text tbl m = Ret (concat (imap text es)).
Proof.
  intros H. pose proof (wf_slots _ _ _ H) as Hs.
  assert (Forall (fun l => length l <= size m) chains) as Hlen.
  { apply Forall_forall. intros l Hl. rewrite (owns_size _ _ (wf_owns _ _ _ H)), length_fmap.
    apply list_elem_of_split in Hl as (c1 & c2 & ->). rewrite concat_app, length_app. cbn. rewrite length_app. lia. }
  assert (exists es, Forall2 (fun es l => Forall2 is_item es l) es chains /\
    Forall2 (fun e es => walk (S (size m)) m e = Ret es) (entries tbl) es) as (es & He & Hw).
  { clear H. induction Hs as [|e l ess chains Hc Hs IH]; [by exists []|].
    apply Forall_cons in Hlen as [Hl Hlen]. destruct (IH Hlen) as (es & ? & ?).
    destruct (row_walk_ok m l e (S (size m)) Hc ltac:(lia)) as (x & ? & ?).
    exists (x :: es). split; by constructor. }
  exists es. split; [done|]. intros text. rewrite (over_slots_ok text tbl m es).
  - done.
  - intros j l Hj. apply (Forall2_lookup_r _ _ _ _ _ Hw) in Hj as (e & ? & ?). by exists e.
  - rewrite <- (Forall2_length _ _ _ Hw). symmetry. by apply (wf_entries _ m chains).
Qed.

Lemma imap_items {B} (t1 : nat -> list (nat * hash_table_entry) -> B) t2 es chains :
  (forall i e l, Forall2 is_item e l -> t1 i e = t2 i l) -> Forall2 (Forall2 is_item) es chains ->
  imap t1 es = imap t2 chains.
Proof.
  intros Ht HF. revert t1 t2 Ht. induction HF as [|e l es chains He HF IH]; intros t1 t2 Ht; [done|].
  cbn [imap]. f_equal; [by apply Ht|]. apply IH. intros i. apply Ht.
Qed.

(** The histogram has a star for each key, in its slot. *)
Lemma histogram_ok tbl m chains : wf tbl m chains ->
  hash_table_dump_histogram tbl m = Ret (dump_header tbl ++
    concat (imap (fun i l => slot_label i ++ cs " " ++ line (replicate (length l) "*"%char)) chains)).
Proof.
  intros H. destruct (slots_ok tbl m chains H) as (es & He & Ho). unfold hash_table_dump_histogram.
  rewrite Ho, bind_ret_l. do 3 f_equal. eapply imap_items; [|exact He].
  intros i e l Hl. by rewrite (Forall2_length _ _ _ Hl).
Qed.

Lemma lines_of (f : cstr -> cstr) e l : Forall2 is_item e l ->
  (fun x => f (key x.2)) <$> e = (fun y => f y.2.1) <$> l.
Proof. induction 1 as [|x y e l (_ & Hk & _) HF IH]; cbn; [done|]. by rewrite Hk, IH. Qed.

(** The dump has a line for each key, below its slot's. *)
Lemma dump_ok tbl m chains : wf tbl m chains ->
  hash_table_dump tbl m = Ret (dump_header tbl ++
    concat (imap (fun i l => line (slot_label i) ++ concat ((fun y => line (cs "  " ++ y.2.1)) <$> l)) chains)).
Proof.
  intros H. destruct (slots_ok tbl m chains H) as (es & He & Ho). unfold hash_table_dump.
  rewrite Ho, bind_ret_l. do 3 f_equal. eapply imap_items; [|exact He].
  intros i e l Hl. do 2 f_equal. by apply (lines_of (fun k => line (cs "  " ++ k))).
Qed.

(** The graph has an edge to each key, from its slot. *)
Lemma dump_dot_ok tbl m chains : wf tbl m chains ->
  hash_table_dump_dot tbl m = Ret (concat (imap (fun i l =>
    match l with [] => [] | _ => line (quoted (print_03u i) ++ cs " [color=red]") end ++
    concat ((fun y => line (quoted (print_03u i) ++ cs " -> " ++ quoted y.2.1 ++ cs " [color=red]")) <$> l))
    chains)).
Proof.
  intros H. destruct (slots_ok tbl m chains H) as (es & He & Ho). unfold hash_table_dump_dot.
  rewrite Ho. do 2 f_equal. eapply imap_items; [|exact He]. intros i e l Hl.
  rewrite (lines_of (fun k => line (quoted (print_03u i) ++ cs " -> " ++ quoted k ++ cs " [color=red]")) _ _ Hl).
  by destruct Hl.
Qed.

End HashDump.

Example print_03u_ex : print_03u 7 = cs "007" /\ print_03u 1234 = cs "1234".
Proof. by vm_compute. Qed.
