(* ===== verification/HashTableTest.v ===== *)
(** * scrap/hash_table_test.c: the hash table's tests, run on the model

    Each test is a program over the model; it passes if it returns. The fixture
    asks for a load of at most one half and at least one, so every deletion
    halves the table: the tests pass, but a few more entries than they use leave
    it without slots. *)
From S2P Require Import Prelude CLib HashTable.

Abbreviation state := (hash_table * gmap nat (@hash_table_entry cstr))%type.

(** [calloc] does not fail. *)
Definition always (_ : Z) : bool := true.

(** [hash_table_new( 0.5f, 1.0f )] *)
Definition setup : state := (hash_table_new (1 # 2) 1, ∅).
Definition teardown (st : state) : outcome unit := hash_table_delete (fst st).

Definition add (k v : cstr) (st : state) : outcome state :=
  hash_table_add always (fst st) k (Some v) (snd st).
Definition finds (k : cstr) (v : option cstr) (st : state) : outcome state :=
  d ← hash_table_find (fst st) k (snd st); _ ← c_assert (bool_decide (d = v)); Ret st.
(** A deletion, and what it is checked to return. *)
Definition del (k : cstr) (rc : option bool) (st : state) : outcome state :=
  '(found, tbl, m) ← hash_table_del always (fst st) k (snd st);
  _ ← c_assert (from_option (Bool.eqb found) true rc);
  Ret (tbl, m).

Fixpoint steps (l : list (state -> outcome state)) (st : state) : outcome state :=
  match l with [] => Ret st | f :: l => st ← f st; steps l st end.

Definition key1 : cstr := cs "key one".
Definition key2 : cstr := cs "key two".
Definition key3 : cstr := cs "key three".
Definition value1 : cstr := cs "value one".
Definition value2 : cstr := cs "value two".
Definition value3 : cstr := cs "value three".

Definition add_three := [add key1 value1; add key2 value2; add key3 value3].
Definition find_three := [finds key1 (Some value1); finds key2 (Some value2); finds key3 (Some value3)].
Definition find_none := [finds key1 None; finds key2 None; finds key3 None].
Definition del_three (rc : option bool) := [del key1 rc; del key2 rc; del key3 rc].

(** Between [setup] and [teardown]. *)
Definition checked (l : list (state -> outcome state)) : outcome unit :=
  st ← steps l setup; teardown st.

Definition empty_table : outcome unit := checked [].

Definition can_add_and_find_entries : outcome unit :=
  checked (add_three ++ find_three ++ del_three None).

Definition can_remove_entries : outcome unit :=
  checked (add_three ++
    [del key1 (Some true);
     finds key1 None; finds key2 (Some value2); finds key3 (Some value3);
     del key1 (Some false); del key2 (Some true); del key3 (Some true)] ++
    find_none).

Definition can_remove_and_readd_entries : outcome unit :=
  checked (add_three ++ del_three (Some true) ++ find_none ++ add_three ++ find_three ++ del_three None).

Definition hash_table_tests : list (outcome unit) :=
  [empty_table; can_add_and_find_entries; can_remove_entries; can_remove_and_readd_entries].

Example hash_table_tests_pass : hash_table_tests = replicate 4 (Ret tt).
Proof. vm_compute. reflexivity. Qed.

(** With the fixture's loads a table of [n] entries, all deleted, has been
    halved [n] times: from five entries on it has no slots, and the next call
    divides by zero. The tests stop at three. *)
Definition keys (n : nat) : list cstr := map (fun i => [ascii_of_nat i]) (seq 97 n).
Definition come_and_go (n : nat) : outcome unit :=
  checked (map (fun k => add k value1) (keys n) ++ map (fun k => del k (Some true)) (keys n) ++
           [finds key1 None]).

Example four_keys_come_and_go : come_and_go 4 = Ret tt.
Proof. vm_compute. reflexivity. Qed.
Example five_keys_divide_by_zero : come_and_go 5 = Undef.
Proof. vm_compute. reflexivity. Qed.
