(* ===== verification/StrTable.v ===== *)
(** * A table of strings, as its users see it

    The number collapser and the directory cache keep their data in a hash table
    whose constructor, or whose whole interface, is not in the repository any
    more. They are written over the class [StrTable]: what they rely on. The
    hash table of scrap/hash_table.c is an instance. *)
From S2P Require Import Prelude CLib HashTable.
#[local] Open Scope nat_scope.

Class StrTable (T V : Type) := {
  tbl_find : T -> cstr -> outcome (option V);
  tbl_add : T -> cstr -> V -> outcome T;
  (** Whether the key was there. *)
  tbl_del : T -> cstr -> outcome (bool * T);
  tbl_delete : T -> outcome unit;
  (** What the table holds, and how many more adds it takes. *)
  tbl_rep : T -> gmap cstr V -> Prop;
  tbl_room : T -> nat -> Prop;
  tbl_find_spec t M k : tbl_rep t M -> tbl_find t k = Ret (M !! k);
  tbl_add_spec t M k v n : tbl_rep t M -> M !! k = None -> tbl_room t (S n) ->
    exists t', tbl_add t k v = Ret t' /\ tbl_rep t' (<[k := v]> M) /\ tbl_room t' n;
  tbl_del_spec t M k n : tbl_rep t M -> tbl_room t n ->
    exists t', tbl_del t k = Ret (bool_decide (is_Some (M !! k)), t') /\
      tbl_rep t' (delete k M) /\ tbl_room t' n;
  tbl_delete_spec t M : tbl_rep t M -> tbl_delete t = c_assert (bool_decide (M = ∅));
  tbl_room_le t n n' : n' <= n -> tbl_room t n -> tbl_room t n'
}.

(** ** The hash table of the repository *)

Section Instance.
Context {V : Type}.

Definition tables : Type := hash_table * gmap nat (@hash_table_entry V).

#[local] Obligation Tactic := idtac.

Definition tables_del (t : tables) (k : cstr) : outcome (bool * tables) :=
  '(rc, tbl, m) ← hash_table_del (fun _ => true) (fst t) k (snd t); Ret (rc, (tbl, m)).

#[export] Program Instance hash_table_strings : StrTable tables V := {|
  tbl_find t k := hash_table_find (fst t) k (snd t);
  tbl_add t k v := hash_table_add (fun _ => true) (fst t) k (Some v) (snd t);
  tbl_del := tables_del;
  tbl_delete t := hash_table_delete (fst t);
  tbl_rep t M := rep (fst t) (snd t) (Some <$> M);
  tbl_room t n := roomy (fst t) n /\ stays (fun _ => true) (fst t)
|}.
Next Obligation.
  intros [t m] M k H. rewrite (find_rep _ _ _ k H). rewrite lookup_fmap. by destruct (M !! k).
Qed.
Next Obligation.
  intros [t m] M k v n H Hk [Hr Hst].
  destruct (add_rep (fun _ => true) t m (Some <$> M) k (Some v) (S n) H) as (t' & m' & E & H' & Hc & Hmx & Hmn & Hs).
  { by rewrite lookup_fmap, Hk. } { done. } { lia. }
  exists (t', m'). split; [done|]. split; [by rewrite fmap_insert|]. split.
  - eapply (roomy_moved (fun _ => true)); [|done]. unfold moved. tauto.
  - unfold stays in *. cbn [fst] in *. by rewrite Hmn.
Qed.
Next Obligation.
  intros [t m] M k n H [[Hr1 Hr2] Hst].
  destruct (del_rep (fun _ => true) t m (Some <$> M) k H Hst) as (t' & m' & E & H' & Hmx & Hmn & Hc & Hs).
  cbn [fst snd] in *. exists (t', m'). unfold tables_del. cbn [fst snd]. rewrite E, bind_ret_l. split.
  { do 3 f_equal. apply bool_decide_ext. by rewrite lookup_fmap, fmap_is_Some. }
  split; [by rewrite fmap_delete|]. cbn [fst snd]. split; [|unfold stays in *; by rewrite Hmn].
  assert (count t' <= count t)%Z by (destruct (bool_decide _); lia).
  split; [lia|]. rewrite Hmx. eapply Qle_trans; [|exact Hr2]. rewrite <- Zle_Qle. lia.
Qed.
Next Obligation.
  intros [t m] M H. destruct (rep_count _ _ _ H) as [Hc _]. unfold hash_table_delete. cbn in *.
  rewrite Hc, map_size_fmap. f_equal. apply eq_true_iff_eq.
  rewrite Z.eqb_eq, bool_decide_eq_true, <- map_size_empty_iff. lia.
Qed.
Next Obligation.
  intros [t m] n n' Hle [[H1 H2] Hst]. split; [|done]. split; [cbn in *; lia|]. eapply Qle_trans; [|done].
  rewrite <- Zle_Qle. cbn. lia.
Qed.

End Instance.
