(* ===== verification/NumSpace.v ===== *)
(** * scrap/num_space_collapser.c: dense numbers for sparse ones

    The collapser keeps its numbers in a hash table of an interface that is not
    in the repository any more (hash.h), so it is written over the class
    [StrTable]: what it relies on of a table of strings. *)
From S2P Require Import Prelude CLib HashTable StrTable.
From stdpp Require Import pretty.
#[local] Open Scope nat_scope.

(** ** The code *)

Section NumSpace.
Context {T : Type} `{StrTable T Z}.

(** The collapser's table and the static [next_value]; the mutex serialises
    the calls. *)
Record num_space_collapser := Collapser { table : T; next_value : Z }.

(** [sprintf(key_str, "%u", key)] *)
Definition key_str (key : Z) : cstr := cs (pretty (Z.to_N key)).

(** [next_value] outlives a collapser: it is not reset here. *)
Definition num_space_collapser_new (table : T) (next_value : Z) : num_space_collapser :=
  Collapser table next_value.

Definition num_space_collapser_delete (nsc : num_space_collapser) : outcome unit :=
  tbl_delete (table nsc).

Definition num_space_collapser_get (nsc : num_space_collapser) (key : Z) : outcome (Z * num_space_collapser) :=
  found ← tbl_find (table nsc) (key_str key);
  match found with
  | Some val => Ret (val, nsc)
  | None =>
      let val := next_value nsc in
      t ← tbl_add (table nsc) (key_str key) val;
      Ret (val, Collapser t (u32 (next_value nsc + 1)))
  end.

Fixpoint get_all (nsc : num_space_collapser) (keys : list Z) : outcome (list Z * num_space_collapser) :=
  match keys with
  | [] => Ret ([], nsc)
  | key :: keys =>
      '(v, nsc) ← num_space_collapser_get nsc key;
      '(vs, nsc) ← get_all nsc keys;
      Ret (v :: vs, nsc)
  end.

(** ** The specification: the position of a number's first appearance *)

(** The keys seen, in order of first appearance. *)
Definition see (seen : list Z) (key : Z) : list Z :=
  if decide (key ∈ seen) then seen else seen ++ [key].

Fixpoint position (key : Z) (seen : list Z) : nat :=
  match seen with
  | [] => 0
  | k :: seen => if decide (k = key) then 0 else S (position key seen)
  end.

Lemma position_app key seen l : key ∈ seen -> position key (seen ++ l) = position key seen.
Proof.
  induction seen as [|k seen IH]; intros Hk; [by apply elem_of_nil in Hk|]. cbn.
  destruct (decide (k = key)); [done|]. rewrite IH; [done|].
  apply elem_of_cons in Hk as [-> |]; done.
Qed.

Lemma position_new key seen : key ∉ seen -> position key (seen ++ [key]) = length seen.
Proof.
  induction seen as [|k seen IH]; intros Hk; cbn; [by rewrite decide_True|].
  apply not_elem_of_cons in Hk as [Hk1 Hk2]. rewrite decide_False by congruence. by rewrite IH.
Qed.

Lemma position_lookup key seen : key ∈ seen -> seen !! position key seen = Some key.
Proof.
  induction seen as [|k seen IH]; intros Hk; [by apply elem_of_nil in Hk|]. cbn.
  destruct (decide (k = key)) as [-> |]; [done|]. apply IH.
  apply elem_of_cons in Hk as [-> |]; done.
Qed.

Lemma see_mono seen key k : k ∈ seen -> k ∈ see seen key.
Proof. unfold see. destruct (decide _); [done|]. intros. apply elem_of_app. by left. Qed.

Lemma foldl_see_mono keys seen k : k ∈ seen -> k ∈ foldl see seen keys /\
  position k (foldl see seen keys) = position k seen.
Proof.
  revert seen. induction keys as [|key keys IH]; intros seen Hk; cbn; [done|].
  destruct (IH (see seen key)) as [H1 H2]; [by apply see_mono|]. split; [done|]. rewrite H2.
  unfold see. destruct (decide _); [done|]. by apply position_app.
Qed.

Lemma cs_inj s s' : cs s = cs s' -> s = s'.
Proof.
  intros E. rewrite <- (String.string_of_list_ascii_of_string s), <- (String.string_of_list_ascii_of_string s').
  unfold cs in E. by rewrite E.
Qed.

Lemma key_str_inj a b : (0 <= a)%Z -> (0 <= b)%Z -> key_str a = key_str b -> a = b.
Proof. intros Ha Hb E%cs_inj. apply (inj pretty) in E. lia. Qed.

(** The table holds the numbers given to [seen], counted up from [base]. *)
Definition collapsed (nsc : num_space_collapser) (base : Z) (seen : list Z) : Prop :=
  next_value nsc = u32 (base + Z.of_nat (length seen)) /\
  exists M, tbl_rep (table nsc) M /\
    forall key, (0 <= key)%Z -> M !! key_str key =
      if decide (key ∈ seen) then Some (u32 (base + Z.of_nat (position key seen))) else None.

Lemma get_ok nsc base seen key n :
  collapsed nsc base seen -> Forall (fun k => (0 <= k)%Z) (key :: seen) -> tbl_room (table nsc) (S n) ->
  exists nsc', num_space_collapser_get nsc key
      = Ret (u32 (base + Z.of_nat (position key (see seen key))), nsc') /\
    collapsed nsc' base (see seen key) /\ tbl_room (table nsc') n.
Proof.
  intros (Hn & M & HM & Hk) [H0 HF]%Forall_cons Hr. unfold num_space_collapser_get, see.
  rewrite (tbl_find_spec _ M) by done. rewrite bind_ret_l, Hk by done.
  destruct (decide (key ∈ seen)) as [Hs | Hs].
  - exists nsc. split; [done|]. split; [split; [done|]; by exists M|]. eapply tbl_room_le; [|done]. lia.
  - destruct (tbl_add_spec (table nsc) M (key_str key) (next_value nsc) n) as (t' & -> & HM' & Hr'); [done| |done|].
    { rewrite Hk by done. by rewrite decide_False. }
    rewrite bind_ret_l, position_new, Hn by done. eexists; split; [done|]. split; [|done].
    split; cbn [next_value table].
    + unfold u32. rewrite Zplus_mod_idemp_l, length_app. cbn [length]. f_equal. lia.
    + eexists. split; [done|]. intros k Hk0. destruct (decide (k = key)) as [-> | Hne].
      * rewrite lookup_insert_eq, decide_True by (apply elem_of_app; right; left).
        by rewrite position_new, Hn.
      * rewrite lookup_insert_ne by (intros E%key_str_inj; congruence). rewrite Hk by done.
        destruct (decide (k ∈ seen)) as [Hks | Hks].
        -- rewrite decide_True by (apply elem_of_app; by left). by rewrite position_app.
        -- rewrite decide_False; [done|]. rewrite elem_of_app, list_elem_of_singleton. tauto.
Qed.

Lemma see_nonneg seen key :
  Forall (fun k => (0 <= k)%Z) (key :: seen) -> Forall (fun k => (0 <= k)%Z) (see seen key).
Proof.
  intros [H0 HF]%Forall_cons. unfold see. destruct (decide _); [done|]. apply Forall_app. split; [done|]. by repeat constructor.
Qed.

Lemma get_all_ok keys : forall nsc base seen,
  collapsed nsc base seen -> Forall (fun k => (0 <= k)%Z) (keys ++ seen) ->
  tbl_room (table nsc) (length keys) ->
  exists nsc', get_all nsc keys
      = Ret ((fun key => u32 (base + Z.of_nat (position key (foldl see seen keys)))) <$> keys, nsc') /\
    collapsed nsc' base (foldl see seen keys).
Proof.
  induction keys as [|key keys IH]; intros nsc base seen Hc HF Hr; cbn [get_all foldl]; [by exists nsc|].
  cbn [app] in HF. apply Forall_cons in HF as [H0 HF]. apply Forall_app in HF as [HFk HFs].
  destruct (get_ok nsc base seen key (length keys)) as (n1 & -> & Hc1 & Hr1); [done|by constructor|done|].
  rewrite bind_ret_l.
  destruct (IH n1 base (see seen key)) as (n2 & -> & Hc2); [done| |done|].
  { apply Forall_app. split; [done|]. apply see_nonneg. by constructor. }
  rewrite bind_ret_l. exists n2. split; [|done]. cbn [fmap list_fmap].
  assert (key ∈ see seen key) as Hin.
  { unfold see. destruct (decide _); [done|]. apply elem_of_app. right. left. }
  do 4 f_equal. symmetry. f_equal. f_equal. by apply foldl_see_mono.
Qed.

(** ** Properties *)

(** A new collapser numbers the keys it is asked for by first appearance,
    from where [next_value] was left on: asked again for a key it gives the
    same number, and as many numbers are used as there were different keys
    (modulo 2^32). *)
Theorem num_space_collapses (t : T) (next : Z) (keys : list Z)
    (Hempty : tbl_rep t ∅) (Hroom : tbl_room t (length keys))
    (Hkeys : Forall (fun k => (0 <= k < 2 ^ 32)%Z) keys) :
  exists nsc, get_all (num_space_collapser_new t (u32 next)) keys
      = Ret ((fun key => u32 (next + Z.of_nat (position key (foldl see [] keys)))) <$> keys, nsc) /\
    next_value nsc = u32 (next + Z.of_nat (length (foldl see [] keys))) /\
    (keys <> [] -> num_space_collapser_delete nsc = AssertFail).
Proof.
  destruct (get_all_ok keys (num_space_collapser_new t (u32 next)) next []) as (nsc & E & Hn & M & HM & Hk).
  - split; [cbn; by rewrite Z.add_0_r|]. exists ∅. split; [done|]. intros key _.
    rewrite decide_False by apply not_elem_of_nil. apply lookup_empty.
  - rewrite app_nil_r. eapply Forall_impl; [done|]. intros k [? ?]. done.
  - done.
  - exists nsc. split_and!; [done..|]. intros Hne. unfold num_space_collapser_delete.
    rewrite (tbl_delete_spec _ M), bool_decide_false; [done| |done]. destruct keys as [|key keys]; [done|].
    intros ->. apply Forall_cons in Hkeys as [[H0 _] _].
    specialize (Hk key H0). rewrite lookup_empty, decide_True in Hk; [done|].
    apply (foldl_see_mono keys (see [] key) key). cbn. left.
Qed.

End NumSpace.

Lemma num_space_collapses_witness :
  exists nsc, get_all (num_space_collapser_new ((hash_table_new 1 0, ∅) : tables) (u32 7)) [70; 5; 70]%Z
      = Ret ([7; 8; 7]%Z, nsc) /\
    next_value nsc = 9%Z /\ ([70; 5; 70]%Z <> [] -> num_space_collapser_delete nsc = AssertFail).
Proof.
  apply (num_space_collapses ((hash_table_new 1 0, ∅) : tables) 7 [70; 5; 70]%Z).
  - change (tbl_rep ((hash_table_new 1 0, ∅) : tables) ∅) with (rep (D := Z) (hash_table_new 1 0) ∅ (Some <$> ∅)).
    rewrite fmap_empty. apply new_rep.
  - split; [split; [done|cbv; discriminate]|]. by left.
  - repeat constructor; done.
Defined.
