(* ===== verification/OldAlarms.v ===== *)
(** * scrap/alarms_old.c: many alarms over one timer

    The alarms are a list in the order of their expiry; the interval timer is
    set for the first. [gettimeofday]'s results are a schedule; a callback is
    its data, and [cb] says what alarms it schedules when it runs. The three
    functions call each other, so they are one function over [todo] with fuel
    for the nesting. The locks are left out: the code is run by one thread. *)
From S2P Require Import Prelude.

(** ** Times (sys/time.h) *)

Record timeval := TimeVal { tv_sec : Z; tv_usec : Z }.

Definition timercmp_lt (a b : timeval) : bool :=
  if (tv_sec a =? tv_sec b)%Z then (tv_usec a <? tv_usec b)%Z else (tv_sec a <? tv_sec b)%Z.
Definition timeradd (a b : timeval) : timeval :=
  let s := (tv_sec a + tv_sec b)%Z in
  let u := (tv_usec a + tv_usec b)%Z in
  if (1000000 <=? u)%Z then TimeVal (s + 1) (u - 1000000) else TimeVal s u.
Definition timersub (a b : timeval) : timeval :=
  let s := (tv_sec a - tv_sec b)%Z in
  let u := (tv_usec a - tv_usec b)%Z in
  if (u <? 0)%Z then TimeVal (s - 1) (u + 1000000) else TimeVal s u.

Section Alarms.
Context {D : Type}.
(** What a callback schedules: seconds, microseconds and data, in turn. *)
Context (cb : D -> list (Z * Z * D)).

(** ** The code *)

(** An alarm, and the number that stands for its address. *)
Record alarm := Alarm { id : nat; expiry : timeval; cb_data : D }.

Record alarms := Alarms {
  alarms_list : list alarm;
  next_id : nat;
  clock : list timeval;            (* what gettimeofday will say *)
  timer : option timeval;          (* the interval timer; None: disarmed *)
  called : list D                  (* the callbacks run so far *)
}.

Definition alarms_init (clock : list timeval) : alarms := Alarms [] 0 clock None [].

Definition gettimeofday (s : alarms) : outcome (timeval * alarms) :=
  match clock s with
  | [] => Blocked
  | t :: ts => Ret (t, Alarms (alarms_list s) (next_id s) ts (timer s) (called s))
  end.

(** [setitimer]: a delay of zero disarms the timer. *)
Definition setitimer (d : timeval) (s : alarms) : alarms :=
  let armed := if ((tv_sec d =? 0) && (tv_usec d =? 0))%Z then None else Some d in
  Alarms (alarms_list s) (next_id s) (clock s) armed (called s).

Definition set_list (l : list alarm) (s : alarms) : alarms :=
  Alarms l (next_id s) (clock s) (timer s) (called s).

(** Before the first later alarm ([TAILQ_FOREACH], [TAILQ_INSERT_BEFORE],
    [TAILQ_INSERT_TAIL]). *)
Fixpoint insert_before (a : alarm) (l : list alarm) : list alarm :=
  match l with
  | [] => [a]
  | b :: l => if timercmp_lt (expiry a) (expiry b) then a :: b :: l else b :: insert_before a l
  end.

(** [TAILQ_REMOVE] and [free]; of an alarm that is not there any more, undefined. *)
Definition remove_alarm (i : nat) (l : list alarm) : outcome (list alarm) :=
  match list_find (fun a => id a = i) l with
  | Some (n, _) => Ret (delete n l)
  | None => Undef
  end.

Inductive todo := Schedule (seconds useconds : Z) (data : D) | Handler | Next.

(** [alarm_schedule], [sigalrm_h] and [schedule_next]. *)
Fixpoint exec (fuel : nat) (t : todo) (s : alarms) : outcome alarms :=
  match fuel with
  | 0 => Blocked
  | S fuel =>
      match t with
      | Schedule seconds useconds data =>
          '(tv_now, s) ← gettimeofday s;
          let tv_alarm := timeradd tv_now (TimeVal seconds useconds) in
          let a := Alarm (next_id s) tv_alarm data in
          let s := Alarms (alarms_list s) (S (next_id s)) (clock s) (timer s) (called s) in
          match alarms_list s with
          | [] => exec fuel Next (set_list [a] s)
          | b :: _ =>
              if timercmp_lt tv_alarm (expiry b)
              then exec fuel Next (set_list (a :: alarms_list s) s)
              else Ret (set_list (insert_before a (alarms_list s)) s)
          end
      | Handler =>
          match alarms_list s with
          | [] => Undef
          | a :: _ =>
              let s := Alarms (alarms_list s) (next_id s) (clock s) (timer s) (called s ++ [cb_data a]) in
              s ← foldl (fun s c => s ← s; exec fuel (Schedule c.1.1 c.1.2 c.2) s)
                    (Ret s) (cb (cb_data a));
              l ← remove_alarm (id a) (alarms_list s);
              match l with
              | [] => Ret (set_list [] s)
              | _ :: _ => exec fuel Next (set_list l s)
              end
          end
      | Next =>
          match alarms_list s with
          | [] => Undef
          | a :: _ =>
              '(tv_now, s) ← gettimeofday s;
              if timercmp_lt (expiry a) tv_now
              then exec fuel Handler s
              else Ret (setitimer (timersub (expiry a) tv_now) s)
          end
      end
  end.

Definition alarm_schedule (fuel : nat) (seconds useconds : Z) (data : D) (s : alarms) : outcome alarms :=
  exec fuel (Schedule seconds useconds data) s.
Definition sigalrm_h (fuel : nat) (s : alarms) : outcome alarms := exec fuel Handler s.
Definition schedule_next (fuel : nat) (s : alarms) : outcome alarms := exec fuel Next s.

(** The DEBUG build's dump: what is printed of each alarm, numbered; or that
    there is none. *)
Definition dump_alarms_list (s : alarms) : option (list (Z * timeval * D)) :=
  match alarms_list s with
  | [] => None
  | l => Some (imap (fun i a => (u32 (Z.of_nat i), expiry a, cb_data a)) l)
  end.

(** ** The order of times *)

Lemma timercmp_lt_irrefl a : timercmp_lt a a = false.
Proof. unfold timercmp_lt. rewrite Z.eqb_refl. apply Z.ltb_irrefl. Qed.

Definition tv_le (a b : timeval) : Prop := timercmp_lt b a = false.

Lemma tv_le_trans a b c : tv_le a b -> tv_le b c -> tv_le a c.
Proof.
  unfold tv_le, timercmp_lt. intros H1 H2.
  destruct (tv_sec b =? tv_sec a)%Z eqn:E1, (tv_sec c =? tv_sec b)%Z eqn:E2, (tv_sec c =? tv_sec a)%Z eqn:E3;
    bool_hyps; try apply Z.ltb_ge; lia.
Qed.

Lemma timercmp_lt_le a b : timercmp_lt a b = true -> tv_le a b.
Proof.
  unfold tv_le, timercmp_lt. intros H.
  destruct (tv_sec a =? tv_sec b)%Z eqn:E1, (tv_sec b =? tv_sec a)%Z eqn:E2; bool_hyps; try apply Z.ltb_ge; lia.
Qed.

Definition in_order (l : list alarm) : Prop := StronglySorted (fun a b => tv_le (expiry a) (expiry b)) l.

Lemma insert_before_perm a l : insert_before a l ≡ₚ a :: l.
Proof.
  induction l as [|b l IH]; cbn; [done|]. destruct (timercmp_lt _ _); [done|].
  rewrite IH. apply Permutation_swap.
Qed.

Lemma insert_before_order a l : in_order l -> in_order (insert_before a l).
Proof.
  induction 1 as [|b l Hl IH Hb]; cbn; [by repeat constructor|].
  destruct (timercmp_lt (expiry a) (expiry b)) eqn:E.
  - apply timercmp_lt_le in E. constructor; [by constructor|]. constructor; [done|].
    eapply Forall_impl; [exact Hb|]. intros c. by apply tv_le_trans.
  - constructor; [done|]. rewrite insert_before_perm. by constructor.
Qed.

(** The dump is in the order of expiry. *)
Lemma dump_in_order s l :
  in_order (alarms_list s) -> dump_alarms_list s = Some l ->
  StronglySorted tv_le ((fun x => x.1.2) <$> l) /\ length l = length (alarms_list s).
Proof.
  unfold dump_alarms_list, in_order. intros Hs Hl.
  assert (l = imap (fun i a => (u32 (Z.of_nat i), expiry a, cb_data a)) (alarms_list s)) as ->.
  { destruct (alarms_list s); [done|]. by injection Hl. }
  rewrite length_imap. split; [|done]. rewrite fmap_imap. clear Hl.
  assert (imap (fun n => (fun x : Z * timeval * D => x.1.2) ∘ (fun a => (u32 (Z.of_nat n), expiry a, cb_data a)))
    (alarms_list s) = expiry <$> alarms_list s) as ->.
  { apply list_eq. intros n. rewrite list_lookup_imap, list_lookup_fmap. by destruct (alarms_list s !! n). }
  induction Hs as [|a l Hs IH HF]; cbn [fmap list_fmap]; constructor; [done|].
  apply Forall_forall. intros x Hx. apply list_elem_of_fmap in Hx as (b & -> & Hb).
  rewrite Forall_forall in HF. by apply HF.
Qed.

Lemma delete_order n l : in_order l -> in_order (delete n l).
Proof.
  intros H. revert n. induction H as [|b l Hl IH Hb]; intros [|n]; cbn; [constructor..|done|].
  constructor; [apply IH|]. by apply Forall_delete.
Qed.

(** ** Properties of every run *)

Lemma gettimeofday_list s t s' : gettimeofday s = Ret (t, s') -> alarms_list s' = alarms_list s.
Proof. unfold gettimeofday. destruct (clock s); [done|]. by intros [= _ <-]. Qed.

(** What each step of a fold keeps. *)
Lemma foldl_bind_inv {A S} (P : S -> Prop) (f : S -> A -> outcome S) l : forall (m : outcome S) s',
  foldl (fun s x => s ← s; f s x) m l = Ret s' ->
  (forall s, m = Ret s -> P s) -> (forall s x s1, P s -> f s x = Ret s1 -> P s1) -> P s'.
Proof.
  induction l as [|x l IH]; intros m s' E Hm Hf; cbn in E; [by apply Hm|].
  apply (IH _ _ E); [|done]. intros s Es. apply bind_ret_inv in Es as (s0 & E0 & E1).
  eapply Hf; [|exact E1]. by apply Hm.
Qed.

Lemma exec_order fuel : forall t s s', exec fuel t s = Ret s' -> in_order (alarms_list s) -> in_order (alarms_list s').
Proof.
  induction fuel as [|fuel IH]; intros t s s' E H; [done|]. cbn [exec] in E. destruct t as [sec usec d| |].
  - apply bind_ret_inv in E as ([now s1] & E1 & E). apply gettimeofday_list in E1.
    cbn [alarms_list set_list] in E. destruct (alarms_list s1) as [|b l] eqn:El.
    + eapply IH; [exact E|]. cbn. by repeat constructor.
    + rewrite <- E1 in H. destruct (timercmp_lt _ (expiry b)) eqn:Et.
      * eapply IH; [exact E|]. cbn. pose proof (insert_before_order (Alarm (next_id s1)
          (timeradd now (TimeVal sec usec)) d) _ H) as HI. cbn in HI. by rewrite Et in HI.
      * injection E as <-. exact (insert_before_order (Alarm (next_id s1) _ d) (b :: l) H).
  - destruct (alarms_list s) as [|a l] eqn:El; [done|].
    apply bind_ret_inv in E as (s1 & E1 & E).
    assert (in_order (alarms_list s1)) as H1.
    { refine (foldl_bind_inv (fun s => in_order (alarms_list s)) _ _ _ _ E1 _ _); [by intros s0 [= <-]|].
      intros s0 c s2 H0 E2. by eapply IH. }
    apply bind_ret_inv in E as (l1 & E2 & E).
    assert (in_order l1) as H2.
    { unfold remove_alarm in E2. destruct (list_find _ _) as [[n ?]|]; [|done]. injection E2 as <-. by apply delete_order. }
    destruct l1 as [|b l1]; [by injection E as <-; constructor|]. by eapply IH.
  - destruct (alarms_list s) as [|a l] eqn:El; [done|].
    apply bind_ret_inv in E as ([now s1] & E1 & E). apply gettimeofday_list in E1.
    destruct (timercmp_lt _ _).
    + eapply IH; [exact E|]. by rewrite E1, El.
    + injection E as <-. cbn. by rewrite E1, El.
Qed.

(** ** Alarms whose callbacks schedule nothing *)

Context (Hquiet : forall d, cb d = []).

(** The delay for which the timer is set. *)
Definition armed (d : timeval) : option timeval :=
  if ((tv_sec d =? 0) && (tv_usec d =? 0))%Z then None else Some d.

(** How many alarms a run of [schedule_next] calls: one for each reading of the
    clock that is past the next expiry. *)
Fixpoint due (l : list alarm) (ts : list timeval) : nat :=
  match l, ts with
  | a :: l, t :: ts => if timercmp_lt (expiry a) t then S (due l ts) else 0
  | _, _ => 0
  end.

Lemma due_cons a l t ts : due (a :: l) (t :: ts) = if timercmp_lt (expiry a) t then S (due l ts) else 0.
Proof. done. Qed.

Lemma next_ok l : forall fuel a n ts tm cs,
  length l < length ts -> 2 * length (a :: l) < fuel -> NoDup (id <$> a :: l) ->
  let k := due (a :: l) ts in
  exec fuel Next (Alarms (a :: l) n ts tm cs) = Ret
    (match drop k (a :: l) with
     | [] => Alarms [] n (drop k ts) tm (cs ++ (cb_data <$> a :: l))
     | b :: r => Alarms (b :: r) n (drop (S k) ts)
                   (armed (timersub (expiry b) (nth k ts (TimeVal 0 0))))
                   (cs ++ (cb_data <$> take k (a :: l)))
     end).
Proof.
  induction l as [|b l IH]; intros fuel a n ts tm cs Hts Hf HN;
    (destruct fuel as [|[|fuel]]; [cbn in Hf; lia..|]); (destruct ts as [|t ts]; [cbn in Hts; lia|]);
    cbn zeta; rewrite due_cons; cbn [exec alarms_list gettimeofday clock]; rewrite bind_ret_l;
    cbn [alarms_list clock next_id timer called];
    (destruct (timercmp_lt (expiry a) t) eqn:Et; [|cbn [drop take nth fmap list_fmap]; by rewrite app_nil_r]);
    rewrite Hquiet; cbn [foldl]; rewrite bind_ret_l; unfold remove_alarm; cbn [alarms_list list_find];
    rewrite decide_True by done; rewrite bind_ret_l; cbn [delete list_delete set_list drop take nth alarms_list next_id clock timer called].
  - cbn. done.
  - cbn [fmap list_fmap] in HN. apply NoDup_cons in HN as [_ HN].
    unfold set_list. cbn [next_id clock timer called].
    rewrite IH; [|cbn in Hts; lia|cbn in Hf |- *; lia|done].
    destruct (drop (due (b :: l) ts) (b :: l)) as [|c r]; cbn [fmap list_fmap]; by rewrite <- app_assoc.
Qed.

(** ** Properties *)

(** The alarms stay in the order of their expiry, whatever the callbacks
    schedule while they run. *)
Theorem alarms_stay_in_order (fuel : nat) (t : todo) (s s' : alarms)
    (E : exec fuel t s = Ret s') (H : in_order (alarms_list s)) : in_order (alarms_list s').
Proof. by eapply exec_order. Qed.

(** Where the callbacks schedule nothing, [schedule_next] returns, has
    called exactly the alarms that each reading of the clock found past, in the
    order of their expiry, and has set the timer for the first that is left. *)
Theorem schedule_next_calls_due (fuel : nat) (a : alarm) (l : list alarm) (n : nat) (ts : list timeval)
    (tm : option timeval) (cs : list D)
    (Hts : length l < length ts) (Hfuel : 2 * length (a :: l) < fuel) (HN : NoDup (id <$> a :: l)) :
  let k := due (a :: l) ts in
  schedule_next fuel (Alarms (a :: l) n ts tm cs) = Ret
    (match drop k (a :: l) with
     | [] => Alarms [] n (drop k ts) tm (cs ++ (cb_data <$> a :: l))
     | b :: r => Alarms (b :: r) n (drop (S k) ts)
                   (armed (timersub (expiry b) (nth k ts (TimeVal 0 0))))
                   (cs ++ (cb_data <$> take k (a :: l)))
     end).
Proof. by apply next_ok. Qed.

End Alarms.

(** An alarm whose expiry is the very time [schedule_next] reads is never
    called: it is not past, so it is left to the timer, and a timer set to a
    delay of zero is disarmed. It stays in the list with nothing to wake it. *)
Theorem alarm_due_now_is_lost {D} (cb : D -> list (Z * Z * D)) (sec usec : Z) (d : D) (t : timeval)
    (n : nat) (ts : list timeval) (tm : option timeval) (cs : list D) (fuel : nat) :
  alarm_schedule cb (S (S fuel)) sec usec d (Alarms [] n (t :: timeradd t (TimeVal sec usec) :: ts) tm cs) =
    Ret (Alarms [Alarm n (timeradd t (TimeVal sec usec)) d] (S n) ts None cs).
Proof.
  unfold alarm_schedule. cbn [exec gettimeofday clock]. rewrite bind_ret_l. unfold set_list.
  cbn [alarms_list next_id clock timer called exec gettimeofday]. rewrite bind_ret_l. cbn [expiry].
  rewrite timercmp_lt_irrefl. unfold setitimer, timersub. rewrite !Z.sub_diag. done.
Qed.

(** ** Witnesses *)

Definition one_alarm : alarms := Alarms [Alarm 0 (TimeVal 5 0) "a"%string] 1 [TimeVal 3 0; TimeVal 7 0; TimeVal 7 1] None [].

Lemma alarms_stay_in_order_witness :
  exists s', exec (fun _ => []) 9 (Schedule 1 0 "b"%string) one_alarm = Ret s' /\ in_order (alarms_list s').
Proof.
  eexists. split; [reflexivity|].
  apply (alarms_stay_in_order (fun _ => []) 9 (Schedule 1 0 "b"%string) one_alarm); [reflexivity|].
  by repeat constructor.
Defined.

Lemma schedule_next_calls_due_witness :
  schedule_next (fun _ : string => []) 5
    (Alarms [Alarm 0 (TimeVal 5 0) "a"%string; Alarm 1 (TimeVal 9 0) "b"%string] 2
       [TimeVal 7 0; TimeVal 7 500] None [])
  = Ret (Alarms [Alarm 1 (TimeVal 9 0) "b"%string] 2 [] (Some (TimeVal 1 999500)) ["a"%string]).
Proof.
  apply (schedule_next_calls_due (fun _ : string => []) ltac:(done) 5 (Alarm 0 (TimeVal 5 0) "a"%string)
    [Alarm 1 (TimeVal 9 0) "b"%string] 2 [TimeVal 7 0; TimeVal 7 500] None []).
  - cbn. lia.
  - cbn. lia.
  - cbn. apply NoDup_cons. split; [by rewrite list_elem_of_singleton|]. apply NoDup_singleton.
Defined.
