(* ===== verification/Trace.v ===== *)
(** * trace.c, trace.h: debug output of the DEBUG build

    In a release build the macros are empty. In a DEBUG build every area has a
    flag and functions that print, indent and unindent; the indentation is
    shared by all areas and kept under a mutex. A line is given as its expanded
    text; [idx] is the number of the thread (fsfuse_get_thread_index). *)
From S2P Require Import Prelude CLib.

(** ** The code *)

(** What [printf] or the log file has been given, and [trace_dent]. *)
Record tracer := Tracer { trace_dent : Z; log : cstr }.

(** An area: its flag. *)
Record area := Area { trace_active : bool }.

Definition TAB_MAX : nat := 1024.

(** [emitter_flags_t] *)
Definition emitter_flag_NO_PREFIX : Z := 1.

Definition space : ascii := " "%char.

(** [for (i = 0; i < trace_dent; i++) c += sprintf(c, " ");]: each call writes
    the space and a NUL behind it. [n] are left, [c] is the offset. *)
Fixpoint put_tabs (n c : nat) (tabs : list (option ascii)) : outcome (list (option ascii)) :=
  match n with
  | 0 => Ret tabs
  | S n => tabs ← mem_write tabs c [Some space; Some NUL]; put_tabs n (S c) tabs
  end.

(** The block, and [trace_dent], which is cut to [TAB_MAX]. *)
Definition trace_get_tabs (t : tracer) : outcome (list (option ascii) * tracer) :=
  let tabs := replicate TAB_MAX None in
  let dent := Z.min (trace_dent t) (Z.of_nat TAB_MAX) in
  tabs ← mem_write tabs 0 [Some NUL];
  tabs ← put_tabs (Z.to_nat dent) 0 tabs;
  Ret (tabs, Tracer dent (log t)).

(** A block's text, as "%s" prints it. *)
Definition block_text (tabs : list (option ascii)) : cstr :=
  until_nul (default NUL <$> tabs).

(** "[%u] " *)
Definition thread_prefix (idx : Z) : cstr := cs "[" ++ print_u64 idx ++ cs "] ".

(** Both emitters do this, to standard output or to the log file; the areas'
    name is not used. *)
Definition emit (flags idx : Z) (text : cstr) (t : tracer) : outcome tracer :=
  '(tabs, t) ← trace_get_tabs t;
  let t := if (Z.land flags emitter_flag_NO_PREFIX =? 0)%Z
           then Tracer (trace_dent t) (log t ++ block_text tabs ++ thread_prefix idx)
           else t in
  Ret (Tracer (trace_dent t) (log t ++ text)).

Definition emitter_printf_emitter := emit.
Definition emitter_logfile_emitter := emit.

(** [fopen("fsfuse.log", "w+")], which may give NULL. *)
Definition emitter_logfile_init (opened : bool) : Z := if opened then 0 else 1.
Definition emitter_printf_init : Z := 0.
(** The active emitter is the log file's. *)
Definition trace_init (opened : bool) : Z := emitter_logfile_init opened.

(** [area_real_trace], [area_real_trace_np], [area_trace_on] and [_off],
    [area_real_trace_indent] and [_dedent] of [TRACE_DEFINE(area)]. *)
Definition real_trace (a : area) (idx : Z) (text : cstr) (t : tracer) : outcome tracer :=
  if trace_active a then emitter_logfile_emitter 0 idx text t else Ret t.
Definition real_trace_np (a : area) (idx : Z) (text : cstr) (t : tracer) : outcome tracer :=
  if trace_active a then emitter_logfile_emitter emitter_flag_NO_PREFIX idx text t else Ret t.
Definition trace_on (a : area) : area := Area true.
Definition trace_off (a : area) : area := Area false.
Definition real_trace_indent (a : area) (t : tracer) : tracer :=
  if trace_active a then Tracer (u32 (trace_dent t + 2)) (log t) else t.
Definition real_trace_dedent (a : area) (t : tracer) : tracer :=
  if trace_active a then
    if (trace_dent t =? 0)%Z then t else Tracer (u32 (trace_dent t - 2)) (log t)
  else t.

(** Printing of a release build, to standard error; [trace_error] ends the
    program with status 1. *)
Definition trace_print (prefix text : cstr) (err : cstr) : cstr := err ++ prefix ++ cs " | " ++ text.
Inductive ending := Continues (err : cstr) | Exit (status : Z) (err : cstr).
Definition trace_error (text err : cstr) : ending := Exit 1 (trace_print (cs "ERROR") text err).
Definition trace_warn (text err : cstr) : ending := Continues (trace_print (cs "WARN") text err).
Definition trace_info (text err : cstr) : ending := Continues (trace_print (cs "INFO") text err).

(** ** Tabs *)

(** The block after [c] spaces. *)
Definition tab_block (c : nat) : list (option ascii) :=
  replicate c (Some space) ++ Some NUL :: replicate (TAB_MAX - S c) None.

Lemma put_one c : S c < TAB_MAX ->
  mem_write (tab_block c) c [Some space; Some NUL] = Ret (tab_block (S c)).
Proof.
  intros H. unfold tab_block. rewrite mem_write_ok.
  - f_equal. rewrite take_app_length' by (by rewrite length_replicate).
    rewrite drop_app_ge by (rewrite length_replicate; lia). rewrite length_replicate.
    replace (c + length [Some space; Some NUL] - c) with 2 by (cbn; lia).
    replace (TAB_MAX - S c) with (S (TAB_MAX - S (S c))) by lia. cbn [replicate drop app].
    rewrite (app_comm_cons (replicate c (Some space))), replicate_cons_app, <- app_assoc. done.
  - rewrite length_app, length_replicate. cbn [length]. rewrite length_replicate. lia.
Qed.

Lemma put_tabs_ok n : forall c, c + n < TAB_MAX -> put_tabs n c (tab_block c) = Ret (tab_block (c + n)).
Proof.
  induction n as [|n IH]; intros c H; cbn [put_tabs]; [by rewrite Nat.add_0_r|].
  rewrite put_one, bind_ret_l, IH by lia. by rewrite Nat.add_succ_r.
Qed.

Lemma tab_block_length c : c < TAB_MAX -> length (tab_block c) = TAB_MAX.
Proof. intros H. unfold tab_block. rewrite length_app, length_replicate. cbn [length]. rewrite length_replicate. lia. Qed.

Lemma put_tabs_over n : forall c, c < TAB_MAX -> TAB_MAX <= c + n -> put_tabs n c (tab_block c) = Undef.
Proof.
  induction n as [|n IH]; intros c Hc H; [lia|]. cbn [put_tabs].
  destruct (decide (S c < TAB_MAX)).
  - rewrite put_one, bind_ret_l by done. apply IH; lia.
  - unfold mem_write. rewrite tab_block_length by done.
    rewrite (proj2 (Nat.leb_gt _ _)); [done|]. cbn [length]. lia.
Qed.

Lemma tab_block_text c : block_text (tab_block c) = replicate c space.
Proof.
  unfold block_text, tab_block. rewrite fmap_app, fmap_replicate. cbn [fmap list_fmap from_option default id].
  apply until_nul_app. apply Forall_replicate. discriminate.
Qed.

(** Up to 1023 columns the tabs are the indentation; from 1024 on the last NUL
    is written behind the block. *)
Lemma trace_get_tabs_cases t : (0 <= trace_dent t)%Z ->
  if decide (trace_dent t < Z.of_nat TAB_MAX)%Z
  then trace_get_tabs t = Ret (tab_block (Z.to_nat (trace_dent t)), t)
  else trace_get_tabs t = Undef.
Proof.
  intros H. unfold trace_get_tabs.
  change (mem_write (replicate TAB_MAX None) 0 [Some NUL]) with (Ret (tab_block 0)). rewrite bind_ret_l.
  destruct (decide _).
  - rewrite Z.min_l by lia. rewrite put_tabs_ok, bind_ret_l by lia. by destruct t.
  - rewrite Z.min_r, Nat2Z.id by lia. by rewrite put_tabs_over by (unfold TAB_MAX; lia).
Qed.

(** ** Sequences of calls *)

Inductive event := Say (a : area) (idx : Z) (text : cstr) | SayNp (a : area) (idx : Z) (text : cstr)
  | Indent (a : area) | Dedent (a : area).

Definition run_event (t : tracer) (e : event) : outcome tracer :=
  match e with
  | Say a idx text => real_trace a idx text t
  | SayNp a idx text => real_trace_np a idx text t
  | Indent a => Ret (real_trace_indent a t)
  | Dedent a => Ret (real_trace_dedent a t)
  end.
Definition run (es : list event) (t : tracer) : outcome tracer :=
  foldl (fun t e => t ← t; run_event t e) (Ret t) es.

(** ** The specification: a depth, and two columns for each level *)

Definition area_of (e : event) : area :=
  match e with Say a _ _ | SayNp a _ _ | Indent a | Dedent a => a end.

Definition deepen (depth : nat) (e : event) : nat :=
  if trace_active (area_of e) then
    match e with Indent _ => S depth | Dedent _ => Nat.pred depth | _ => depth end
  else depth.

Definition says (depth : nat) (e : event) : cstr :=
  if trace_active (area_of e) then
    match e with
    | Say _ idx text => replicate (2 * depth) space ++ thread_prefix idx ++ text
    | SayNp _ _ text => text
    | _ => []
    end
  else [].

(** Is there something printed at a depth of 512 or more? *)
Definition too_deep (depth : nat) (e : event) : bool :=
  trace_active (area_of e) && (512 <=? depth) &&
  match e with Say _ _ _ | SayNp _ _ _ => true | _ => false end.

Fixpoint render (depth : nat) (es : list event) : option cstr :=
  match es with
  | [] => Some []
  | e :: es =>
      if too_deep depth e then None
      else app (says depth e) <$> render (deepen depth e) es
  end.

Lemma emit_ok flags idx text depth l : depth < 512 ->
  emit flags idx text (Tracer (Z.of_nat (2 * depth)) l) =
  Ret (Tracer (Z.of_nat (2 * depth))
    (l ++ (if (Z.land flags emitter_flag_NO_PREFIX =? 0)%Z
           then replicate (2 * depth) space ++ thread_prefix idx else []) ++ text)).
Proof.
  intros H. unfold emit. pose proof (trace_get_tabs_cases (Tracer (Z.of_nat (2 * depth)) l)) as HT.
  cbn [trace_dent] in HT. rewrite decide_True in HT by (unfold TAB_MAX; lia). rewrite HT, bind_ret_l by lia.
  rewrite Nat2Z.id, tab_block_text. destruct (_ =? 0)%Z; cbn [trace_dent log]; rewrite <- ?app_assoc; done.
Qed.

Lemma emit_deep flags idx text depth l : 512 <= depth ->
  emit flags idx text (Tracer (Z.of_nat (2 * depth)) l) = Undef.
Proof.
  intros H. unfold emit. pose proof (trace_get_tabs_cases (Tracer (Z.of_nat (2 * depth)) l)) as HT.
  cbn [trace_dent] in HT. rewrite decide_False in HT by (unfold TAB_MAX; lia). by rewrite HT by lia.
Qed.

Lemma run_event_ok e depth l : (2 * Z.of_nat (S depth) < 2 ^ 32)%Z ->
  run_event (Tracer (Z.of_nat (2 * depth)) l) e =
  if too_deep depth e then Undef
  else Ret (Tracer (Z.of_nat (2 * deepen depth e)) (l ++ says depth e)).
Proof.
  intros Hd. unfold too_deep, deepen, says.
  destruct e as [a idx text|a idx text|a|a]; cbn [run_event area_of];
    unfold real_trace, real_trace_np, real_trace_indent, real_trace_dedent, emitter_logfile_emitter;
    destruct (trace_active a); cbn [andb]; rewrite ?andb_false_r, ?app_nil_r; try done.
  - destruct (512 <=? depth) eqn:E; cbn [andb]; bool_hyps; [by apply emit_deep|].
    rewrite emit_ok by lia. change (Z.land 0 emitter_flag_NO_PREFIX =? 0)%Z with true. cbn iota. by rewrite <- app_assoc.
  - destruct (512 <=? depth) eqn:E; cbn [andb]; bool_hyps; [by apply emit_deep|]. by rewrite emit_ok by lia.
  - cbn [trace_dent log]. rewrite u32_id by lia. do 2 f_equal. lia.
  - cbn [trace_dent log]. destruct depth as [|depth]; [done|].
    rewrite (proj2 (Z.eqb_neq _ _)) by lia. rewrite u32_id by lia. do 2 f_equal. cbn [Nat.pred]. lia.
Qed.

Lemma run_fail es m : (m = Undef \/ m = AssertFail \/ m = Blocked) ->
  foldl (fun t e => t ← t; run_event t e) m es = m.
Proof. intros H. induction es as [|e es IH]; cbn [foldl]; [done|]. destruct H as [-> | [-> | ->]]; apply IH; auto. Qed.

Lemma trace_run_ok es : forall depth l, (2 * Z.of_nat (depth + length es) < 2 ^ 32)%Z ->
  run es (Tracer (Z.of_nat (2 * depth)) l) =
  match render depth es with
  | Some out => Ret (Tracer (Z.of_nat (2 * foldl deepen depth es)) (l ++ out))
  | None => Undef
  end.
Proof.
  unfold run. induction es as [|e es IH]; intros depth l Hd; cbn [foldl render]; [by rewrite app_nil_r|].
  rewrite bind_ret_l. cbn [length] in Hd. rewrite run_event_ok by lia.
  destruct (too_deep depth e); [apply run_fail; auto|].
  assert (deepen depth e <= S depth) as Hle.
  { unfold deepen. destruct (trace_active _), e; lia. }
  rewrite IH by lia. destruct (render (deepen depth e) es); cbn [fmap option_fmap option_map]; [|done].
  by rewrite app_assoc.
Qed.

(** ** Properties *)

(** C33: the debug log is what a stack of indentations gives: each line of an
    active area comes after two spaces for every level open, and the number of
    its thread; areas that are off leave no trace, and an unindent at the left
    margin does nothing. A line at level 512 or deeper is out of bounds: the
    tabs fill their block and their NUL is written behind it, although the
    indentation has been cut to the block's size. *)
Theorem trace_renders (es : list event) (Hlen : (Z.of_nat (length es) < 2 ^ 31)%Z) :
  run es (Tracer 0 []) =
  match render 0 es with
  | Some out => Ret (Tracer (Z.of_nat (2 * foldl deepen 0 es)) out)
  | None => Undef
  end.
Proof. apply (trace_run_ok es 0 []). lia. Qed.

Lemma trace_renders_witness :
  run [Indent (Area true); Say (Area true) 1 (cs "hello"); Indent (Area false); Dedent (Area true);
       SayNp (Area true) 2 (cs "x")] (Tracer 0 []) = Ret (Tracer 0 (cs "  [1] hellox")).
Proof.
  apply (trace_renders [Indent (Area true); Say (Area true) 1 (cs "hello"); Indent (Area false);
    Dedent (Area true); SayNp (Area true) 2 (cs "x")]). done.
Defined.
