(* ===== verification/Utils.v ===== *)
(** * utils.c: path names and dotted version numbers

    [fsfuse_dirname], [fsfuse_basename] and [path_combine] on path strings,
    [compare_dotted_version] on protocol versions, [hash_equal], and the
    per-thread trace index. *)
From S2P Require Import Prelude CLib.

(** ** Path names *)

(** Lengths are stored in an [unsigned]. *)
Definition fsfuse_dirname (path : cstr) : cstr :=
  match strrchr "/" path with
  | None => []
  | Some loc =>
      let dir_len := Z.to_nat (u32 (Z.of_nat loc)) in
      if dir_len =? 0 then cs "/" else take dir_len path
  end.

(** [beyond] is what the object that holds [path] contains after its NUL: the
    copy asks for one character more than the string has. *)
Definition fsfuse_basename (path beyond : cstr) : outcome cstr :=
  match strrchr "/" path with
  | None => Ret path
  | Some loc =>
      let base_len := Z.to_nat (u32 (Z.of_nat (length path - loc + 1))) in
      if base_len =? 0 then Ret []
      else
        base ← mem_read (path ++ NUL :: beyond) (S loc) base_len;
        Ret (until_nul base)
  end.

(** [a[a_len - 1]] with [a_len = 0] reads before the string. *)
Definition path_combine (a b : cstr) : outcome cstr :=
  l ← deref (last a);
  let add_delimiter := negb (bool_decide (l = "/"%char)) in
  _ ← c_assert (negb (bool_decide (head b = Some "/"%char)));
  Ret (a ++ (if add_delimiter then cs "/" else []) ++ b).

(** [hash_equal] *)
Definition hash_equal (h1 h2 : cstr) : bool := streq h1 h2.

(** ** Dotted versions *)

Fixpoint compare_dotted_version_loop (fuel : nat) (ver cmp : cstr) : outcome Z :=
  match fuel with
  | 0 => Blocked
  | S fuel =>
      let '(l1, ver) := strtol 0 ver in
      let '(l2, cmp) := strtol 0 cmp in
      let n1 := i32 l1 in
      let n2 := i32 l2 in
      if (n1 <? n2)%Z then Ret (-1)%Z
      else if (n2 <? n1)%Z then Ret 1%Z
      else
        match ver, cmp with
        | [], [] => Ret 0%Z
        | _, _ => compare_dotted_version_loop fuel (tail ver) (tail cmp)
        end
  end.

(** Every round but the last drops at least one character of one string. *)
Definition compare_dotted_version (ver cmp : cstr) : outcome Z :=
  compare_dotted_version_loop (S (length ver + length cmp)) ver cmp.

(** ** Thread index *)

Record thread_indexes := ThreadIndexes {
  next_thread_index : Z;              (* the static counter, unsigned *)
  thread_index_key : gmap Z Z         (* each thread's value of the key *)
}.

(** [rc] is [pthread_key_create]'s. *)
Definition utils_init (rc : Z) : Z * thread_indexes := (rc, ThreadIndexes 1 ∅).

Definition fsfuse_get_thread_index (self : Z) (t : thread_indexes) : Z * thread_indexes :=
  match thread_index_key t !! self with
  | Some i => (i, t)
  | None =>
      let i := next_thread_index t in
      (i, ThreadIndexes (u32 (i + 1)) (<[self := i]> (thread_index_key t)))
  end.

(** The key's destructor, at thread exit. *)
Definition thread_index_destroy (self : Z) (t : thread_indexes) : thread_indexes :=
  ThreadIndexes (next_thread_index t) (delete self (thread_index_key t)).

(** The main thread's value is freed by hand and the key deleted: what other
    threads have is left, since their destructors are not called any more. *)
Definition utils_finalise (self : Z) (t : thread_indexes) : gmap Z Z :=
  thread_index_key (thread_index_destroy self t).

Example dirname_ex : fsfuse_dirname (cs "/foo/bar/baz") = cs "/foo/bar".
Proof. vm_compute. reflexivity. Qed.
Example dirname_ex2 : fsfuse_dirname (cs "/foo") = cs "/".
Proof. vm_compute. reflexivity. Qed.
Example basename_ex : fsfuse_basename (cs "/foo/bar/baz") [NUL] = Ret (cs "baz").
Proof. vm_compute. reflexivity. Qed.
Example combine_ex : path_combine (cs "/foo") (cs "bar") = Ret (cs "/foo/bar").
Proof. vm_compute. reflexivity. Qed.
Example compare_ex1 : compare_dotted_version (cs "0.2.0.0.1") (cs "0.2") = Ret 1%Z.
Proof. vm_compute. reflexivity. Qed.
Example compare_ex2 : compare_dotted_version (cs "0.10") (cs "0.10.0") = Ret 0%Z.
Proof. vm_compute. reflexivity. Qed.

(** ** Version strings and their order *)

(** A component: decimal, no sign, no leading zero (a leading 0 would make
    [strtol] read octal), below 2^31. *)
Definition is_dec (c : ascii) : bool := between "0" "9" c.
Definition dec_value (acc : Z) (ds : cstr) : Z :=
  fold_left (fun a c => a * 10 + digit_val c)%Z ds acc.
Definition component (ds : cstr) : Prop :=
  ds <> [] /\ forallb is_dec ds = true /\
  (head ds = Some "0"%char -> ds = cs "0") /\ (dec_value 0 ds < 2 ^ 31)%Z.

Definition well_formed_version (v : list cstr) : Prop := Forall component v.

(** ["1.2.3"]: the components separated by dots. *)
Fixpoint render (v : list cstr) : cstr :=
  match v with
  | [] => []
  | [d] => d
  | d :: v' => d ++ "."%char :: render v'
  end.

(** Lexicographic order, the shorter version padded with zeros. *)
Fixpoint sign_of (v : list Z) : Z :=
  match v with
  | [] => 0
  | x :: v' => if (x =? 0)%Z then sign_of v' else Z.sgn x
  end.
Fixpoint version_compare (a b : list Z) : Z :=
  match a, b with
  | [], _ => - sign_of b
  | _, [] => sign_of a
  | x :: a', y :: b' =>
      if (x <? y)%Z then -1 else if (y <? x)%Z then 1 else version_compare a' b'
  end.
Definition version_value (v : list cstr) : list Z := dec_value 0 <$> v.

Definition ends_number (rest : cstr) : Prop :=
  rest = [] \/ exists r, rest = "."%char :: r.

Ltac all_chars c := destruct c as [[] [] [] [] [] [] [] []].

Lemma dec_char c s :
  is_dec c = true ->
  isspace c = false /\ sign (c :: s) = (false, c :: s) /\ is_digit 10 c = true /\
  (c <> "0"%char -> detect_base 0 (c :: s) = (10%Z, c :: s)).
Proof. all_chars c; try discriminate; intros _; repeat split; try done. Qed.

Lemma dec_digit_val c : is_dec c = true -> (0 <= digit_val c <= 9)%Z.
Proof. all_chars c; try discriminate; intros _; vm_compute; split; discriminate. Qed.

Lemma dec_value_mono acc ds :
  forallb is_dec ds = true -> (0 <= acc)%Z -> (acc <= dec_value acc ds)%Z.
Proof.
  revert acc. induction ds as [|c ds IH]; simpl; intros acc H Hacc; [lia|].
  apply andb_true_iff in H as [Hc H]. pose proof (dec_digit_val c Hc).
  specialize (IH (acc * 10 + digit_val c)%Z H ltac:(lia)). lia.
Qed.

Lemma digits_dec acc ds rest :
  forallb is_dec ds = true -> ends_number rest ->
  digits 10 acc (ds ++ rest) = (dec_value acc ds, rest).
Proof.
  intros H Hr. revert acc H. induction ds as [|c ds IH]; simpl; intros acc H.
  - destruct Hr as [-> | [r ->]]; reflexivity.
  - apply andb_true_iff in H as [Hc H].
    rewrite (proj1 (proj2 (proj2 (dec_char c [] Hc)))). by apply IH.
Qed.

Lemma strtol_zero rest : ends_number rest -> strtol 0 ("0"%char :: rest) = (0%Z, rest).
Proof.
  intros [-> | [r ->]]; [reflexivity|]. unfold strtol; simpl.
  destruct r as [|d r]; reflexivity.
Qed.

(** [strtol] reads back a rendered component and stops at the dot. *)
Lemma strtol_component ds rest :
  component ds -> ends_number rest -> strtol 0 (ds ++ rest) = (dec_value 0 ds, rest).
Proof.
  intros (Hne & Hd & H0 & Hlt) Hr. destruct ds as [|c ds]; [done|].
  destruct (decide (c = "0"%char)) as [->|Hc].
  { injection (H0 eq_refl) as ->. by apply strtol_zero. }
  pose proof (dec_value_mono 0 _ Hd ltac:(lia)) as Hnn.
  pose proof (digits_dec 0 (c :: ds) rest Hd Hr) as HD. simpl in Hd.
  apply andb_true_iff in Hd as [Hd _].
  destruct (dec_char c (ds ++ rest) Hd) as (Hs & Hsg & Hdg & Hb).
  unfold strtol. simpl app in *. cbn [skip_spaces]. rewrite Hs, Hsg, (Hb Hc).
  cbv iota beta. rewrite Hdg, HD. f_equal.
  unfold clamp_long, LONG_MIN, LONG_MAX. lia.
Qed.

Lemma render_cons d v :
  exists rest, render (d :: v) = d ++ rest /\ ends_number rest /\ tail rest = render v
               /\ (rest = [] <-> v = []).
Proof.
  destruct v as [|d' v].
  - exists []. rewrite app_nil_r. unfold ends_number. naive_solver.
  - exists ("."%char :: render (d' :: v)). unfold ends_number. naive_solver.
Qed.

Lemma component_i32 d : component d -> i32 (dec_value 0 d) = dec_value 0 d.
Proof.
  intros (_ & H & _ & Hlt). apply i32_id.
  pose proof (dec_value_mono 0 _ H ltac:(lia)). lia.
Qed.

Lemma component_nonneg d : component d -> (0 <= dec_value 0 d)%Z.
Proof. intros (_ & H & _). by apply dec_value_mono. Qed.

Lemma component_length d : component d -> 1 <= length d.
Proof. intros (H & _). destruct d; [done|simpl; lia]. Qed.

(** One round of the loop on a rendered version: the value of its first
    component (0 when none is left) and the rendered rest. *)
Lemma version_round v :
  well_formed_version v ->
  let x := default 0%Z (head (version_value v)) in
  exists rest, strtol 0 (render v) = (x, rest) /\ i32 x = x /\ (0 <= x)%Z
    /\ tail rest = render (tail v) /\ (rest = [] <-> tail v = [])
    /\ length (render (tail v)) <= length (render v)
    /\ (v <> [] -> length (render (tail v)) < length (render v)).
Proof.
  intros Hv. destruct v as [|d v].
  { exists []. split_and!; first [done | cbn; lia]. }
  change (head (version_value (d :: v))) with (Some (dec_value 0 d)).
  cbn [default from_option tail]. cbn zeta.
  apply Forall_cons in Hv as [Hd Hv].
  pose proof (component_length d Hd).
  destruct (render_cons d v) as (rest & HR & Hr & Ht & He).
  exists rest. rewrite HR, strtol_component by done.
  assert (length (render v) <= length rest) by (rewrite <- Ht; destruct rest; simpl; lia).
  rewrite length_app.
  split_and!; [done|by apply component_i32|by apply component_nonneg|done|done|lia|lia].
Qed.

Lemma sign_of_nonneg v : Forall (fun x => 0 <= x)%Z v -> (0 <= sign_of v <= 1)%Z.
Proof. induction 1 as [|x v Hx Hv IH]; simpl; [lia|]. destruct (Z.eqb_spec x 0); lia. Qed.

(** The order in terms of the heads, a missing component counting as 0. *)
Lemma version_compare_step a b :
  Forall (fun x => 0 <= x)%Z a -> Forall (fun x => 0 <= x)%Z b ->
  version_compare a b =
  let x := default 0%Z (head a) in
  let y := default 0%Z (head b) in
  if (x <? y)%Z then (-1)%Z else if (y <? x)%Z then 1%Z
  else version_compare (tail a) (tail b).
Proof.
  intros Ha Hb. destruct Ha as [|x a Hx Ha], Hb as [|y b Hy Hb]; cbn.
  - done.
  - destruct (Z.eqb_spec y 0), (Z.ltb_spec 0 y), (Z.ltb_spec y 0); try lia.
  - destruct (Z.eqb_spec x 0), (Z.ltb_spec x 0), (Z.ltb_spec 0 x); try lia.
    by destruct a.
  - done.
Qed.

Lemma version_value_nonneg v :
  well_formed_version v -> Forall (fun x => 0 <= x)%Z (version_value v).
Proof.
  intros H. apply Forall_fmap. eapply Forall_impl; [exact H|].
  intros d. apply component_nonneg.
Qed.

Lemma loop_spec fuel a b :
  well_formed_version a -> well_formed_version b ->
  length (render a) + length (render b) < fuel ->
  compare_dotted_version_loop fuel (render a) (render b)
  = Ret (version_compare (version_value a) (version_value b)).
Proof.
  revert a b. induction fuel as [|fuel IH]; intros a b Ha Hb Hf; [lia|].
  destruct (version_round a Ha) as (ra & Ea & Hia & Hna & Hra & Hea & Hla & Hla').
  destruct (version_round b Hb) as (rb & Eb & Hib & Hnb & Hrb & Heb & Hlb & Hlb').
  rewrite (version_compare_step _ _ (version_value_nonneg a Ha) (version_value_nonneg b Hb)).
  cbn zeta in *. cbn [compare_dotted_version_loop]. rewrite Ea, Eb, Hia, Hib.
  case_match; [done|]. case_match; [done|].
  replace (tail (version_value a)) with (version_value (tail a)) by by destruct a.
  replace (tail (version_value b)) with (version_value (tail b)) by by destruct b.
  assert (Hta : well_formed_version (tail a)) by (destruct Ha; [constructor|done]).
  assert (Htb : well_formed_version (tail b)) by (destruct Hb; [constructor|done]).
  rewrite Hra, Hrb.
  assert (a = [] /\ b = [] \/ (a <> [] \/ b <> [])) as [[-> ->]|Hne]
    by (destruct a, b; naive_solver).
  { by rewrite (proj2 Hea eq_refl), (proj2 Heb eq_refl). }
  assert (length (render (tail a)) + length (render (tail b)) < fuel)
    by (destruct Hne as [Hne|Hne]; [specialize (Hla' Hne)|specialize (Hlb' Hne)]; lia).
  destruct ra, rb; try by apply IH.
  rewrite (proj1 Hea eq_refl), (proj1 Heb eq_refl). done.
Qed.

(** Every protocol version has a result: the loop ends on any two strings,
    well formed or not. *)
Lemma loop_total fuel ver cmp :
  length ver + length cmp < fuel ->
  exists r, compare_dotted_version_loop fuel ver cmp = Ret r /\ (-1 <= r <= 1)%Z.
Proof.
  revert ver cmp. induction fuel as [|fuel IH]; intros ver cmp Hf; [lia|]. simpl.
  pose proof (strtol_rest_len 0 ver) as H1. pose proof (strtol_rest_len 0 cmp) as H2.
  destruct (strtol 0 ver) as [l1 v], (strtol 0 cmp) as [l2 c]. simpl in H1, H2.
  case_match; [eexists; split; [done|lia]|].
  case_match; [eexists; split; [done|lia]|].
  destruct v, c; [eexists; split; [done|lia]|..]; apply IH; simpl in *; lia.
Qed.

(** ** Properties *)

(** C35: on protocol versions as indexnodes send them (decimal components below
    2^31 without leading zeros, separated by dots), [compare_dotted_version]
    returns the lexicographic order of the components, a missing component
    counting as 0; so "0.2" equals "0.2.0" and "0.10" is above "0.9". *)
Theorem compare_dotted_version_correct (a b : list cstr)
    (Ha : well_formed_version a) (Hb : well_formed_version b) :
  compare_dotted_version (render a) (render b)
  = Ret (version_compare (version_value a) (version_value b)).
Proof. apply loop_spec; [done|done|lia]. Qed.

Ltac solve_component :=
  split; [discriminate|split; [reflexivity|split; [|vm_compute; reflexivity]]];
  intros; first [reflexivity | discriminate].

Lemma compare_dotted_version_correct_witness :
  compare_dotted_version (cs "0.13") (cs "0.5.1") = Ret 1%Z.
Proof.
  change (cs "0.13") with (render [cs "0"; cs "13"]).
  change (cs "0.5.1") with (render [cs "0"; cs "5"; cs "1"]).
  rewrite (compare_dotted_version_correct [cs "0"; cs "13"] [cs "0"; cs "5"; cs "1"]).
  - reflexivity.
  - repeat first [apply List.Forall_nil | apply List.Forall_cons; [solve_component|]].
  - repeat first [apply List.Forall_nil | apply List.Forall_cons; [solve_component|]].
Defined.

(** The comparison loop ends on every pair of strings, versions or not, and
    its result is -1, 0 or 1. *)
Theorem compare_dotted_version_total (ver cmp : cstr) :
  exists r, compare_dotted_version ver cmp = Ret r /\ (-1 <= r <= 1)%Z.
Proof. apply loop_total. lia. Qed.

(** A path with a slash is its directory part, the slash and its base name. *)
Lemma path_split path i :
  strrchr "/" path = Some i ->
  exists base, path = take i path ++ ("/"%char :: base) /\ (("/"%char) ∉ base)
    /\ length path = i + S (length base).
Proof.
  intros (a & t & -> & -> & Ht)%strrchr_Some. exists t.
  rewrite take_app_length, length_app. naive_solver.
Qed.

Lemma basename_split a base beyond :
  no_nul (a ++ "/"%char :: base) -> "/"%char ∉ base -> beyond <> [] ->
  (Z.of_nat (length (a ++ "/"%char :: base)) < 2 ^ 31)%Z ->
  fsfuse_basename (a ++ "/"%char :: base) beyond = Ret base.
Proof.
  intros Hn Hb Hbey Hlen. apply no_nul_app in Hn as [_ Hn].
  apply Forall_cons in Hn as [_ Hn].
  unfold fsfuse_basename. rewrite strrchr_app by done.
  rewrite length_app in *. cbn [length] in *.
  rewrite u32_id by lia. rewrite Nat2Z.id.
  replace (length a + S (length base) - length a + 1) with (S (S (length base))) by lia.
  cbn [Nat.eqb]. destruct beyond as [|x beyond]; [done|].
  rewrite mem_read_ok by (rewrite !length_app; cbn [length]; lia).
  rewrite <- app_assoc. replace (S (length a)) with (length a + 1) by lia.
  rewrite drop_app_add. cbn [drop app]. change (Ret _ ≫= _) with (Ret (until_nul (take (S (S (length base))) (base ++ NUL :: x :: beyond)))).
  f_equal. replace (S (S (length base))) with (length base + 2) by lia.
  rewrite take_app_add. by apply until_nul_app.
Qed.

(** For an absolute or relative path with a slash and no doubled slash,
    splitting it with [fsfuse_dirname] and [fsfuse_basename] and joining the
    parts with [path_combine] gives the path back, provided the object that
    holds the path has at least one more character after the path's NUL. *)
Theorem path_split_combine (path beyond : cstr)
    (Hn : no_nul path) (Hlen : (Z.of_nat (length path) < 2 ^ 31)%Z)
    (Hslash : "/"%char ∈ path) (Hdouble : forall a b, path <> a ++ cs "//" ++ b)
    (Hbeyond : beyond <> []) :
  (b ← fsfuse_basename path beyond; path_combine (fsfuse_dirname path) b) = Ret path.
Proof.
  destruct (strrchr "/" path) as [i|] eqn:E; [|by apply strrchr_None in E].
  destruct (path_split path i E) as (base & Hp & Hb & Hl).
  remember (take i path) as a eqn:Ha.
  assert (length a = i) as Hi by (subst a; rewrite length_take; lia).
  assert (Hd : fsfuse_dirname path = if i =? 0 then cs "/" else a).
  { unfold fsfuse_dirname. rewrite E, u32_id, Nat2Z.id by lia. by subst. }
  rewrite Hd, Hp. rewrite basename_split by (rewrite <- ?Hp; done). rewrite bind_ret_l.
  assert (Hhd : head base <> Some "/"%char).
  { destruct base as [|c base]; [done|]. cbn. intros [= ->]. apply Hb. left. }
  unfold path_combine. rewrite (bool_decide_eq_false_2 _ Hhd).
  destruct (decide (a = [])) as [->|Hne].
  { by subst i. }
  destruct i; [by destruct a|]. cbn [Nat.eqb].
  destruct (exists_last Hne) as (a' & l & Hal). rewrite Hal, last_snoc.
  cbn [deref mbind outcome_bind]. rewrite bool_decide_eq_false_2; [done|].
  intros ->. apply (Hdouble a' base). rewrite Hp, Hal, <- app_assoc. done.
Qed.

Lemma path_split_combine_witness :
  (b ← fsfuse_basename (cs "/a/b") (cs "x");
   path_combine (fsfuse_dirname (cs "/a/b")) b) = Ret (cs "/a/b").
Proof.
  apply (path_split_combine (cs "/a/b") (cs "x")).
  - repeat constructor; discriminate.
  - reflexivity.
  - left.
  - intros [|? [|? [|? [|? a]]]] b H; cbn in H; try discriminate;
      apply (f_equal length) in H; cbn in H; rewrite ?length_app in H; cbn in H; lia.
  - discriminate.
Defined.

(** [fsfuse_basename] copies one character past the path's terminating NUL:
    when the path fills its object exactly, the copy reads out of bounds. *)
Theorem basename_overread (a base : cstr)
    (Hb : "/"%char ∉ base)
    (Hlen : (Z.of_nat (length (a ++ "/"%char :: base)) < 2 ^ 31)%Z) :
  fsfuse_basename (a ++ "/"%char :: base) [] = Undef.
Proof.
  unfold fsfuse_basename. rewrite strrchr_app by done.
  rewrite length_app in *. cbn [length] in *.
  rewrite u32_id by lia. rewrite Nat2Z.id.
  replace (length a + S (length base) - length a + 1) with (S (S (length base))) by lia.
  cbn [Nat.eqb]. unfold mem_read. rewrite !length_app. cbn [length].
  rewrite (proj2 (Nat.leb_gt _ _)); [done|lia].
Qed.

Lemma basename_overread_witness : fsfuse_basename (cs "/foo") [] = Undef.
Proof.
  apply (basename_overread [] (cs "foo")); [|reflexivity].
  apply (bool_decide_unpack _). vm_compute. exact I.
Defined.

(** ** Thread indexes *)

(** What threads do: ask for their index, as traces do, and exit. *)
Inductive thread_op := Asks (self : Z) | Exits (self : Z).
Definition thread_step (t : thread_indexes) (op : thread_op) : thread_indexes :=
  match op with
  | Asks self => snd (fsfuse_get_thread_index self t)
  | Exits self => thread_index_destroy self t
  end.

Record indexes_ok (n : nat) (t : thread_indexes) : Prop := {
  io_next : (1 <= next_thread_index t <= 1 + Z.of_nat n)%Z;
  io_below : map_Forall (fun _ i => (0 < i < next_thread_index t)%Z) (thread_index_key t);
  io_inj : forall a b i, thread_index_key t !! a = Some i -> thread_index_key t !! b = Some i -> a = b
}.

Lemma thread_step_ok n t op :
  indexes_ok n t -> (Z.of_nat (S n) < 2 ^ 32 - 1)%Z -> indexes_ok (S n) (thread_step t op).
Proof.
  intros [H1 H2 H3] Hn. destruct op as [self|self]; cbn [thread_step].
  2:{ split; cbn; [lia|by apply map_Forall_delete|]. intros a b i Ha Hb.
      apply lookup_delete_Some in Ha as [_ Ha], Hb as [_ Hb]. eauto. }
  unfold fsfuse_get_thread_index. destruct (thread_index_key t !! self) as [i|] eqn:E; cbn [snd].
  { split; [lia|done|done]. }
  split; cbn [next_thread_index thread_index_key]; rewrite ?u32_id by lia; [lia| |].
  - apply map_Forall_insert_2; [lia|]. eapply map_Forall_impl; [exact H2|]. cbn. intros; lia.
  - intros a b i. rewrite !lookup_insert_Some.
    intros [[-> <-]|[Ha Ha']] [[-> Hb]|[Hb Hb']]; [done| |subst i|by eauto].
    + specialize (H2 _ _ Hb'). cbn in H2. lia.
    + specialize (H2 _ _ Ha'). cbn in H2. lia.
Qed.

Lemma thread_steps_ok ops : forall n t,
  indexes_ok n t -> (Z.of_nat (n + length ops) < 2 ^ 32 - 1)%Z ->
  indexes_ok (n + length ops) (foldl thread_step t ops).
Proof.
  induction ops as [|op ops IH]; intros n t H Hn; cbn [foldl length] in *; [by rewrite Nat.add_0_r|].
  rewrite Nat.add_succ_r, <- Nat.add_succ_l in *. apply IH; [|done]. apply thread_step_ok; [done|lia].
Qed.

(** Threads that are alive have different indexes, unless the counter wraps. *)
Theorem thread_indexes_distinct (ops : list thread_op) (a b i : Z)
    (Hops : (Z.of_nat (length ops) < 2 ^ 32 - 1)%Z)
    (Ha : thread_index_key (foldl thread_step (snd (utils_init 0)) ops) !! a = Some i)
    (Hb : thread_index_key (foldl thread_step (snd (utils_init 0)) ops) !! b = Some i) :
  a = b.
Proof.
  refine (io_inj _ _ (thread_steps_ok ops 0 (snd (utils_init 0)) _ Hops) a b i Ha Hb).
  split; cbn; [lia|apply map_Forall_empty|]. by intros ? ? ? ?%lookup_empty_Some.
Qed.

(** A thread keeps its index until it exits. *)
Theorem thread_index_kept (ops : list thread_op) (self : Z) (t : thread_indexes)
    (Hops : Exits self ∉ ops) :
  fst (fsfuse_get_thread_index self (foldl thread_step (thread_step t (Asks self)) ops)) =
    fst (fsfuse_get_thread_index self t).
Proof.
  set (i := fst (fsfuse_get_thread_index self t)).
  enough (forall t', thread_index_key t' !! self = Some i ->
          thread_index_key (foldl thread_step t' ops) !! self = Some i) as H.
  { unfold fsfuse_get_thread_index at 1. rewrite H; [done|]. cbn [thread_step]. subst i.
    unfold fsfuse_get_thread_index. destruct (thread_index_key t !! self) as [j|] eqn:E; cbn; [done|].
    by rewrite lookup_insert_eq. }
  induction ops as [|op ops IH]; intros t' Ht; cbn [foldl]; [done|].
  apply not_elem_of_cons in Hops as [Hop Hops]. apply IH; [done|].
  destruct op as [b|b]; cbn [thread_step].
  - unfold fsfuse_get_thread_index. destruct (thread_index_key t' !! b) as [j|] eqn:E; [done|]. cbn.
    rewrite lookup_insert_ne; [done|]. intros ->. by rewrite Ht in E.
  - cbn. rewrite lookup_delete_ne; [done|]. intros ->. by destruct Hop.
Qed.

(** Tearing down leaves nothing only if no other thread still has an index. *)
Lemma finalise_frees self t :
  utils_finalise self t = ∅ <-> forall other i, thread_index_key t !! other = Some i -> other = self.
Proof.
  unfold utils_finalise. cbn. split.
  - intros H other i Hi. destruct (decide (other = self)) as [|Hne]; [done|].
    assert (delete self (thread_index_key t) !! other = Some i) as E by by rewrite lookup_delete_ne.
    by rewrite H, lookup_empty in E.
  - intros H. apply map_empty. intros other. apply lookup_delete_None.
    destruct (thread_index_key t !! other) as [i|] eqn:E; [left; symmetry; eauto|by right].
Qed.
