(* ===== verification/RefCount.v ===== *)
(** * ref_count.c: reference counts

    The object's mutex makes each operation one atomic step; a count is an
    [unsigned]. *)
From S2P Require Import Prelude.

Record ref_count := RefCount { count : Z }.

Definition ref_count_new : ref_count := RefCount 1.

(** Both return the new count; a count of 0 is a freed object. *)
Definition ref_count_inc (r : ref_count) : outcome (Z * ref_count) :=
  _ ← c_assert (negb (count r =? 0)%Z);
  let n := u32 (count r + 1) in Ret (n, RefCount n).

Definition ref_count_dec (r : ref_count) : outcome (Z * ref_count) :=
  _ ← c_assert (negb (count r =? 0)%Z);
  let n := u32 (count r - 1) in Ret (n, RefCount n).

(** A live object's count. *)
Definition live (r : ref_count) : Prop := (0 < count r < 2 ^ 32)%Z.

Lemma inc_live r :
  live r -> (count r < 2 ^ 32 - 1)%Z ->
  ref_count_inc r = Ret (count r + 1, RefCount (count r + 1))%Z /\ live (RefCount (count r + 1)).
Proof.
  unfold live, ref_count_inc. cbn [count]. intros H Hlt.
  rewrite (proj2 (Z.eqb_neq _ _)) by lia. cbn. rewrite u32_id by lia. split; [done|lia].
Qed.

Lemma dec_live r :
  live r -> ref_count_dec r = Ret (count r - 1, RefCount (count r - 1))%Z.
Proof.
  unfold live, ref_count_dec. intros H.
  rewrite (proj2 (Z.eqb_neq _ _)) by lia. cbn. by rewrite u32_id by lia.
Qed.

Lemma dec_dead r : count r = 0%Z -> ref_count_dec r = AssertFail.
Proof. unfold ref_count_dec. by intros ->. Qed.
