(* ===== verification/Locks.v ===== *)
(** * locks.c: the reader/writer lock

    Each operation is one or two steps: the test of [locking_thread], made
    without the mutex, and the section run under the mutex, which is retried
    while the condition variable is waited for.  Threads are a step relation
    over these, for clients that never take the lock again while they hold it. *)
From S2P Require Import Prelude.

(** ** The code *)

(** A [pthread_t]; 0 stands for no thread. *)
Abbreviation tid := Z.

Record rw_lock := RWLock {
  readers_reading : Z;
  writer_writing : Z;
  locking_thread : tid
}.

Definition rw_lock_new : rw_lock := RWLock 0 0 0.

(** The test at the top of both lock functions: this thread locked last, so
    the call returns 0 at once. *)
Definition already_locking (self : tid) (m : rw_lock) : bool :=
  negb (locking_thread m =? 0)%Z && (locking_thread m =? self)%Z.

(** [rw_lock_rlock] under the mutex: [None] is a wait on the condition. *)
Definition rw_lock_rlock (self : tid) (m : rw_lock) : option rw_lock :=
  if negb (writer_writing m =? 0)%Z then None
  else Some (RWLock (readers_reading m + 1) (writer_writing m) self).

Definition rw_lock_runlock (m : rw_lock) : Z * rw_lock :=
  if (readers_reading m =? 0)%Z then ((-1)%Z, m)
  else
    let r := (readers_reading m - 1)%Z in
    (0%Z, RWLock r (writer_writing m) (if (r =? 0)%Z then 0%Z else locking_thread m)).

(** [rw_lock_wlock] under the mutex. *)
Definition rw_lock_wlock (self : tid) (m : rw_lock) : option rw_lock :=
  if negb (writer_writing m =? 0)%Z || negb (readers_reading m =? 0)%Z then None
  else Some (RWLock (readers_reading m) (writer_writing m + 1) self).

Definition rw_lock_wunlock (m : rw_lock) : Z * rw_lock :=
  if (writer_writing m =? 0)%Z then ((-1)%Z, m)
  else (0%Z, RWLock (readers_reading m) 0 0).

(** ** Threads *)

(** Where a thread is: outside, past the [locking_thread] test and waiting, or
    returned from a lock call. *)
Inductive thread_state := Idle | WantR | WantW | HoldR | HoldW.
#[export] Instance thread_state_eq_dec : EqDecision thread_state.
Proof. solve_decision. Defined.

Record system := System {
  lock : rw_lock;
  thread : tid -> thread_state
}.

Definition set_thread (f : tid -> thread_state) (t : tid) (s : thread_state)
  : tid -> thread_state := fun u => if (u =? t)%Z then s else f u.

Definition start : system := System rw_lock_new (fun _ => Idle).

(** [reads t]: the client lets thread [t] take the lock for reading. *)
Section Clients.
Variable reads : tid -> Prop.

Inductive step : system -> system -> Prop :=
| step_rlock_fast m f t : t <> 0%Z -> reads t -> f t = Idle -> already_locking t m = true ->
    step (System m f) (System m (set_thread f t HoldR))
| step_rlock_test m f t : t <> 0%Z -> reads t -> f t = Idle -> already_locking t m = false ->
    step (System m f) (System m (set_thread f t WantR))
| step_rlock m m' f t : f t = WantR -> rw_lock_rlock t m = Some m' ->
    step (System m f) (System m' (set_thread f t HoldR))
| step_runlock m f t : f t = HoldR ->
    step (System m f) (System (snd (rw_lock_runlock m)) (set_thread f t Idle))
| step_wlock_fast m f t : t <> 0%Z -> f t = Idle -> already_locking t m = true ->
    step (System m f) (System m (set_thread f t HoldW))
| step_wlock_test m f t : t <> 0%Z -> f t = Idle -> already_locking t m = false ->
    step (System m f) (System m (set_thread f t WantW))
| step_wlock m m' f t : f t = WantW -> rw_lock_wlock t m = Some m' ->
    step (System m f) (System m' (set_thread f t HoldW))
| step_wunlock m f t : f t = HoldW ->
    step (System m f) (System (snd (rw_lock_wunlock m)) (set_thread f t Idle)).

Definition reachable (s : system) : Prop := rtc step start s.

End Clients.

(** Two threads that must not hold the lock together. *)
Definition conflict (s : system) : Prop :=
  exists t u, t <> u /\ thread s t = HoldW /\ (thread s u = HoldW \/ thread s u = HoldR).

(** ** Invariants *)

Definition counters_ok (m : rw_lock) : Prop :=
  (0 <= readers_reading m)%Z /\ (0 <= writer_writing m <= 1)%Z /\
  (writer_writing m = 0 \/ readers_reading m = 0)%Z.

Ltac lock_cases :=
  unfold rw_lock_rlock, rw_lock_wlock, rw_lock_runlock, rw_lock_wunlock, already_locking in *;
  repeat match goal with
  | H : context [if ?b then _ else _] |- _ => destruct b eqn:?; cbn [snd fst] in *
  | |- context [if ?b then _ else _] => destruct b eqn:?; cbn [snd fst] in *
  end; bool_hyps; simplify_eq; cbn in *.

Lemma counters_step reads s s' :
  step reads s s' -> counters_ok (lock s) -> counters_ok (lock s').
Proof.
  destruct 1; unfold counters_ok; cbn [lock]; intros (? & ? & ?); lock_cases; lia.
Qed.

(** What the lock must look like when exactly [h] holds it, in state [st]. *)
Definition held_by (h : tid) (st : thread_state) : rw_lock :=
  match st with
  | HoldR => RWLock 1 0 h
  | HoldW => RWLock 0 1 h
  | _ => rw_lock_new
  end.
Definition holding (s : thread_state) : Prop := s = HoldR \/ s = HoldW.

(** The invariant when only thread [R] reads: the counters and
    [locking_thread] describe the single holder, if there is one. *)
Definition one_holder (R : tid) (s : system) : Prop :=
  (forall t, thread s t = WantR \/ thread s t = HoldR -> t = R) /\
  (thread s 0%Z = Idle) /\
  ((lock s = rw_lock_new /\ forall t, ~ holding (thread s t)) \/
   (exists h, holding (thread s h) /\ lock s = held_by h (thread s h)
     /\ forall t, holding (thread s t) -> t = h)).

Lemma set_thread_eq f t st : set_thread f t st t = st.
Proof. unfold set_thread. by rewrite Z.eqb_refl. Qed.
Lemma set_thread_ne f t st u : u <> t -> set_thread f t st u = f u.
Proof. intros H. unfold set_thread. by rewrite (proj2 (Z.eqb_neq _ _)). Qed.

(** Setting [t]'s state keeps the part of the invariant about readers. *)
Lemma readers_set (R : tid) f t st :
  (forall u, f u = WantR \/ f u = HoldR -> u = R) -> f 0%Z = Idle ->
  (st = WantR \/ st = HoldR -> t = R) -> (t <> 0%Z \/ st = Idle) ->
  (forall u, set_thread f t st u = WantR \/ set_thread f t st u = HoldR -> u = R)
  /\ set_thread f t st 0%Z = Idle.
Proof.
  intros HR H0 Ht Hz. split.
  - intros u. destruct (decide (u = t)) as [->|Hu].
    + by rewrite set_thread_eq.
    + rewrite set_thread_ne by done. apply HR.
  - destruct (decide (t = 0%Z)) as [->|Hu].
    + rewrite set_thread_eq. naive_solver.
    + by rewrite set_thread_ne.
Qed.

(** The lock test and the fast path cannot fire: the last locker still holds. *)
Lemma no_fast_path R m f t :
  one_holder R (System m f) -> t <> 0%Z -> f t = Idle -> already_locking t m = false.
Proof.
  intros (_ & _ & H) Ht Hi. unfold already_locking. cbn [lock thread] in H.
  destruct H as [[-> _]|(h & Hh & -> & _)]; [done|].
  apply andb_false_iff. right. apply Z.eqb_neq. intros E.
  destruct Hh as [Hh|Hh]; rewrite Hh in E; cbn in E; congruence.
Qed.

(** From a free lock, [t] becomes the holder. *)
Lemma one_holder_acquire R f t st :
  one_holder R (System rw_lock_new f) -> t <> 0%Z -> holding st -> (st = HoldR -> t = R) ->
  one_holder R (System (held_by t st) (set_thread f t st)).
Proof.
  intros (HR & H0 & H) Ht Hst Hr.
  assert (Hno : forall u, ~ holding (f u)).
  { destruct H as [[_ H]|(h & Hh & E & _)]; [done|]. cbn in *.
    destruct Hh as [Hh|Hh]; rewrite Hh in E; cbn in E; unfold rw_lock_new in E; congruence. }
  destruct (readers_set R f t st HR H0) as [HR' H0']; [destruct Hst; naive_solver|by left|].
  split_and!; [done..|]. right. exists t. cbn [lock thread]. rewrite set_thread_eq.
  split_and!; [done..|]. intros u Hu. destruct (decide (u = t)) as [|Hne]; [done|].
  rewrite set_thread_ne in Hu by done. by destruct (Hno u).
Qed.

(** The holder leaves. *)
Lemma one_holder_release R m f t :
  one_holder R (System m f) -> holding (f t) ->
  m = held_by t (f t) /\ one_holder R (System rw_lock_new (set_thread f t Idle)).
Proof.
  intros (HR & H0 & H) Ht. destruct H as [[_ H]|(h & Hh & E & Hu)].
  { by destruct (H t). }
  cbn in *. pose proof (Hu t Ht) as ->. split; [done|].
  destruct (readers_set R f h Idle HR H0) as [HR' H0']; [naive_solver|by right|].
  split_and!; [done..|]. left. split; [done|]. intros u. cbn [thread].
  destruct (decide (u = h)) as [->|Hne].
  - rewrite set_thread_eq. by intros [?|?].
  - rewrite set_thread_ne by done. intros ?%Hu. done.
Qed.

(** A thread that waits or leaves without holding changes nothing. *)
Lemma one_holder_wait R m f t st :
  one_holder R (System m f) -> t <> 0%Z -> f t = Idle -> ~ holding st ->
  (st = WantR -> t = R) -> one_holder R (System m (set_thread f t st)).
Proof.
  intros (HR & H0 & H) Ht Hi Hst Hr.
  destruct (readers_set R f t st HR H0) as [HR' H0'];
    [unfold holding in Hst; naive_solver|by left|].
  split_and!; [done..|]. cbn [lock thread] in *.
  assert (Hsame : forall u, holding (set_thread f t st u) <-> holding (f u)).
  { intros u. destruct (decide (u = t)) as [->|Hne].
    - rewrite set_thread_eq, Hi. unfold holding in *. naive_solver.
    - by rewrite set_thread_ne. }
  destruct H as [[-> H]|(h & Hh & E & Hu)]; [left|right].
  - split; [done|]. intros u. by rewrite Hsame.
  - exists h. rewrite Hsame. assert (h <> t) by (intros ->; rewrite Hi in Hh; by destruct Hh).
    rewrite set_thread_ne by done. split_and!; [done..|]. intros u. rewrite Hsame. apply Hu.
Qed.

(** A section only succeeds on a free lock, unless a reader joins readers. *)
Lemma one_holder_free R m f t :
  one_holder R (System m f) -> ~ holding (f t) ->
  (f t = WantR /\ is_Some (rw_lock_rlock t m)) \/ is_Some (rw_lock_wlock t m) ->
  m = rw_lock_new.
Proof.
  intros (HR & _ & H) Ht HS. cbn in *. destruct H as [[-> _]|(h & [Hh|Hh] & -> & Hu)]; [done|..];
    rewrite Hh in HS; cbn in HS.
  - destruct HS as [[Hw _]|[? ?]]; [|done].
    pose proof (HR t (or_introl Hw)). pose proof (HR h (or_intror Hh)). congruence.
  - destruct HS as [[_ [? ?]]|[? ?]]; done.
Qed.

(** Only where the threads are counts. *)
Lemma one_holder_ext R m f g :
  (forall t, f t = g t) -> one_holder R (System m f) -> one_holder R (System m g).
Proof.
  intros E (HR & H0 & H). unfold one_holder. cbn [lock thread] in *. split; [|split].
  - intros t. rewrite <- E. apply HR.
  - by rewrite <- E.
  - destruct H as [[Hm H]|(h & Hh & Hm & H)]; [left|right].
    + split; [done|]. intros t. rewrite <- E. apply H.
    + exists h. rewrite <- !E. split_and!; [done..|]. intros t. rewrite <- E. apply H.
Qed.

Lemma one_holder_step R s s' :
  step (eq R) s s' -> one_holder R s -> one_holder R s'.
Proof.
  destruct 1 as [m f t Ht Hr Hi Ha|m f t Ht Hr Hi Ha|m m' f t Hw Hs|m f t Hh
                |m f t Ht Hi Ha|m f t Ht Hi Ha|m m' f t Hw Hs|m f t Hh]; intros HI;
    try (pose proof (no_fast_path R m f t HI Ht Hi); congruence).
  - apply one_holder_wait; [done..|by intros [?|?]|congruence].
  - assert (m = rw_lock_new) as ->
      by (eapply one_holder_free; [done|by rewrite Hw; intros [?|?]|left; eauto]).
    cbn in Hs. injection Hs as <-. apply (one_holder_acquire R f t HoldR); [done| |by left|].
    + intros ->. destruct HI as (_ & H0 & _). cbn in H0. congruence.
    + intros _. destruct HI as (HR & _). apply HR. by left.
  - destruct (one_holder_release R m f t HI) as [-> H]; [unfold holding; auto|]. by rewrite Hh.
  - apply one_holder_wait; [done..|by intros [?|?]|congruence].
  - assert (m = rw_lock_new) as ->
      by (eapply one_holder_free; [done|by rewrite Hw; intros [?|?]|right; eauto]).
    cbn in Hs. injection Hs as <-. apply (one_holder_acquire R f t HoldW); [done| |by right|done].
    intros ->. destruct HI as (_ & H0 & _). cbn in H0. congruence.
  - destruct (one_holder_release R m f t HI) as [-> H]; [unfold holding; auto|]. by rewrite Hh.
Qed.

Lemma one_holder_start R : one_holder R start.
Proof.
  split_and!; [by intros t [?|?]|done|]. left. split; [done|]. by intros t [?|?].
Qed.

Lemma one_holder_exclusive R s : one_holder R s -> ~ conflict s.
Proof.
  intros (_ & _ & H) (t & u & Hne & Ht & Hu). destruct H as [[_ H]|(h & _ & _ & H)].
  - apply (H t). by right.
  - apply Hne. rewrite (H t), (H u); [done|..]; unfold holding; naive_solver.
Qed.

Lemma reachable_ind reads (P : system -> Prop) :
  P start -> (forall s s', step reads s s' -> P s -> P s') ->
  forall s, reachable reads s -> P s.
Proof.
  intros H0 HS s. unfold reachable. generalize dependent start. intros s0 H0.
  induction 1; eauto.
Qed.

(** ** Properties *)

(** Whatever the threads do, the lock's own counters never record a writer
    together with another writer or a reader. *)
Theorem lock_counters_exclusive (reads : tid -> Prop) (s : system)
    (Hs : reachable reads s) :
  (0 <= readers_reading (lock s))%Z /\ (0 <= writer_writing (lock s) <= 1)%Z /\
  (writer_writing (lock s) = 0 \/ readers_reading (lock s) = 0)%Z.
Proof.
  revert s Hs. apply (reachable_ind reads (fun s => counters_ok (lock s))).
  - unfold counters_ok. cbn. lia.
  - intros s s'. apply counters_step.
Qed.

(** C18: if one thread only takes the lock for reading (any number of threads
    may write) and no thread takes the lock again while it holds it, then a
    writer excludes every other holder. This is how the listener threads and a
    single-threaded FUSE session use the indexnode list's lock. *)
Theorem one_reader_mutual_exclusion (R : tid) (s : system) (Hs : reachable (eq R) s) :
  ~ conflict s.
Proof.
  apply (one_holder_exclusive R). revert s Hs. apply reachable_ind.
  - apply one_holder_start.
  - intros s s'. apply one_holder_step.
Qed.

Lemma one_reader_run :
  reachable (eq 7%Z) (System (RWLock 1 0 7) (set_thread (set_thread (fun _ => Idle) 7 WantR) 7 HoldR)).
Proof.
  unfold reachable, start.
  eapply rtc_l; [by apply (step_rlock_test _ _ _ 7%Z)|].
  eapply rtc_l; [by apply (step_rlock _ _ (RWLock 1 0 7) _ 7%Z)|]. apply rtc_refl.
Qed.

Lemma lock_counters_exclusive_witness :
  (0 <= 1)%Z /\ (0 <= 0 <= 1)%Z /\ ((0 = 0)%Z \/ (1 = 0)%Z).
Proof. exact (lock_counters_exclusive (eq 7%Z) _ one_reader_run). Defined.

Lemma one_reader_mutual_exclusion_witness :
  ~ conflict (System (RWLock 1 0 7) (set_thread (set_thread (fun _ => Idle) 7 WantR) 7 HoldR)).
Proof. exact (one_reader_mutual_exclusion 7 _ one_reader_run). Defined.

(** With two reading threads the lock does not exclude, even for clients
    that never nest: threads 1 and 2 read, 2 last; 2 unlocks, which leaves
    [locking_thread] at 2 because 1 still reads; 2's next [rw_lock_wlock]
    returns 0 at once, so 2 writes while 1 reads. *)
Theorem two_readers_conflict :
  exists s, reachable (fun _ => True) s /\ conflict s.
Proof.
  eexists. split.
  - unfold reachable, start.
    eapply rtc_l; [by apply (step_rlock_test _ _ _ 1%Z)|].
    eapply rtc_l; [by apply (step_rlock _ _ (RWLock 1 0 1) _ 1%Z)|].
    eapply rtc_l; [by apply (step_rlock_test _ _ _ 2%Z)|].
    eapply rtc_l; [by apply (step_rlock _ _ (RWLock 2 0 2) _ 2%Z)|].
    eapply rtc_l; [by apply (step_runlock _ _ _ 2%Z)|].
    eapply rtc_l; [by apply (step_wlock_fast _ _ _ 2%Z)|]. apply rtc_refl.
  - exists 2%Z, 1%Z. split; [done|]. split; [done|]. right. done.
Qed.
