(* ===== verification/BinaryHeap.v ===== *)
(** * kvp.c and binary_heap.c: the min-heap behind the downloader's chunk queue

    The heap's array is modelled as the block [realloc] gives: [allocated]
    cells, each a pointer or uninitialised.  Positions go through the [int]
    parameters of [parent], [left_child] and [right_child].  [move_down] reads
    the cell after the last live one; the proofs below show why that read is
    in bounds and harmless. *)
From S2P Require Import Prelude.

(** ** The code *)

Record kvp (V : Type) := Kvp { kvp_key : Z; kvp_value : V }.
Arguments Kvp {V} _ _.
Arguments kvp_key {V} _.
Arguments kvp_value {V} _.

Record binary_heap (V : Type) := Heap {
  allocated : nat;
  used : nat;
  array : list (option (kvp V))
}.
Arguments Heap {V} _ _ _.
Arguments allocated {V} _.
Arguments used {V} _.
Arguments array {V} _.

Section Code.
Context {V : Type}.
Implicit Types h : binary_heap V.

Definition kvp_new (key : Z) (value : V) : kvp V := Kvp key value.

Definition set_array h (a : list (option (kvp V))) : binary_heap V :=
  Heap (allocated h) (used h) a.
Definition set_used h (n : nat) : binary_heap V := Heap (allocated h) n (array h).

Definition binary_heap_new : binary_heap V := Heap 0 0 [].

Definition binary_heap_delete h : outcome unit := c_assert (used h =? 0).

Definition ensure_space h (space : nat) : binary_heap V :=
  if allocated h <? space then
    let new_space := Nat.max (allocated h * 2) space in
    Heap new_space (used h) (array h ++ replicate (new_space - allocated h) None)
  else h.

(** A [size_t] position passed as an [int], the [int] result back as a
    [size_t]. *)
Definition int_arg (pos : nat) : Z := i32 (Z.of_nat pos).
Definition size_of_int (z : Z) : nat := Z.to_nat (u64 z).

Definition parent (node : nat) : outcome nat :=
  n ← int_op (int_arg node - 1); Ret (size_of_int (Z.quot n 2)).
Definition left_child (node : nat) : outcome nat :=
  n ← int_op (2 * int_arg node); n ← int_op (n + 1); Ret (size_of_int n).
Definition right_child (node : nat) : outcome nat :=
  n ← int_op (2 * int_arg node); n ← int_op (n + 2); Ret (size_of_int n).

(** [heap->array[i]], a pointer that may be uninitialised; and its key. *)
Definition slot h (i : nat) : outcome (option (kvp V)) := deref (array h !! i).
Definition key_of (p : option (kvp V)) : outcome Z := deref (kvp_key <$> p).

(** [SWAP(heap->array[i], heap->array[j])] on the two pointers read before. *)
Definition swap h (i j : nat) (x y : option (kvp V)) : binary_heap V :=
  set_array h (<[i := y]> (<[j := x]> (array h))).

Fixpoint move_up (fuel : nat) h (target_pos : nat) : outcome (binary_heap V) :=
  match fuel with
  | 0 => Blocked
  | S fuel =>
      if 0 <? target_pos then
        target_node ← slot h target_pos;
        parent_pos ← parent target_pos;
        parent_node ← slot h parent_pos;
        kt ← key_of target_node;
        kp ← key_of parent_node;
        if (kp <=? kt)%Z then Ret h
        else move_up fuel (swap h target_pos parent_pos target_node parent_node) parent_pos
      else Ret h
  end.

Definition binary_heap_add h (key : Z) (value : V) : outcome (binary_heap V) :=
  let h := ensure_space h (used h + 1) in
  a ← mem_write (array h) (used h) [Some (kvp_new key value)];
  h ← move_up (S (used h)) (set_array h a) (used h);
  Ret (set_used h (used h + 1)).

Fixpoint move_down (fuel : nat) h (target_pos : nat) : outcome (binary_heap V) :=
  match fuel with
  | 0 => Blocked
  | S fuel =>
      if target_pos <? Nat.div2 (used h) then
        target_node ← slot h target_pos;
        child_left_pos ← left_child target_pos;
        child_left_node ← slot h child_left_pos;
        child_right_pos ← right_child target_pos;
        child_right_node ← slot h child_right_pos;
        right ← (if used h - 1 <? child_left_pos then Ret true
                 else kl ← key_of child_left_node;
                      kr ← key_of child_right_node;
                      Ret (kr <? kl)%Z);
        let child_pos := if right : bool then child_right_pos else child_left_pos in
        let child_node := if right then child_right_node else child_left_node in
        kt ← key_of target_node;
        kc ← key_of child_node;
        if (kt <=? kc)%Z then Ret h
        else move_down fuel (swap h target_pos child_pos target_node child_node) child_pos
      else Ret h
  end.

(** [rc == 1] with the key and value read, or [rc == 0]. *)
Definition binary_heap_trypop h : outcome (option (Z * V) * binary_heap V) :=
  if 0 <? used h then
    target_node ← slot h 0;
    kv ← deref target_node;
    let h := set_used h (used h - 1) in
    h ← (if 0 <? used h then
           last_node ← slot h (used h);
           a ← mem_write (array h) 0 [last_node];
           move_down (S (used h)) (set_array h a) 0
         else Ret h);
    Ret (Some (kvp_key kv, kvp_value kv), h)
  else Ret (None, h).

(** The live nodes, in array order. *)
Definition contents h : list (kvp V) := omap id (take (used h) (array h)).

End Code.

(** [downloader] code drains a queue with [while (trypop(...))]; [fuel] bounds
    the rounds. *)
Fixpoint drain {V} (fuel : nat) (h : binary_heap V) : outcome (list (Z * V) * binary_heap V) :=
  match fuel with
  | 0 => Blocked
  | S fuel =>
      '(r, h) ← binary_heap_trypop h;
      match r with
      | None => Ret ([], h)
      | Some kv => '(l, h) ← drain fuel h; Ret (kv :: l, h)
      end
  end.

Definition add_all {V} (l : list (Z * V)) (h : binary_heap V) : outcome (binary_heap V) :=
  foldl (fun m kv => h ← m; binary_heap_add h (fst kv) (snd kv)) (Ret h) l.

Example heap_run :
  (h ← add_all [(5, 1); (3, 2); (4, 3); (1, 4)]%Z binary_heap_new; fst <$> drain 5 h)
  = Ret [(1, 4); (3, 2); (4, 3); (5, 1)]%Z.
Proof. vm_compute. reflexivity. Qed.

(** ** Index arithmetic *)

Definition par (i : nat) : nat := Nat.div2 (i - 1).
(** Positions stay clear of [int] overflow. *)
Definition max_nodes : Z := 2 ^ 30 - 1.

Lemma par_spec i : 0 < i -> i = 2 * par i + 1 \/ i = 2 * par i + 2.
Proof.
  intros H. unfold par. pose proof (Nat.div2_odd (i - 1)) as E.
  destruct (Nat.odd (i - 1)); simpl in E; lia.
Qed.
Lemma par_lt i : 0 < i -> par i < i.
Proof. intros H. destruct (par_spec i H); lia. Qed.
Lemma par_left i : par (2 * i + 1) = i.
Proof. destruct (par_spec (2 * i + 1)); lia. Qed.
Lemma par_right i : par (2 * i + 2) = i.
Proof. destruct (par_spec (2 * i + 2)); lia. Qed.

Lemma int_arg_ok n : (Z.of_nat n <= max_nodes)%Z -> int_arg n = Z.of_nat n.
Proof. unfold max_nodes. intros H. apply i32_id. lia. Qed.
Lemma size_of_int_ok n : (Z.of_nat n < 2 ^ 64)%Z -> size_of_int (Z.of_nat n) = n.
Proof. intros H. unfold size_of_int. rewrite u64_id; lia. Qed.

Lemma parent_ok n : 0 < n -> (Z.of_nat n <= max_nodes)%Z -> parent n = Ret (par n).
Proof.
  intros H0 H. unfold parent. rewrite int_arg_ok by done. unfold max_nodes in H.
  rewrite int_op_ok by lia. rewrite bind_ret_l. f_equal.
  destruct (par_spec n H0) as [E|E];
    rewrite Z.quot_div_nonneg by lia;
    rewrite <- (size_of_int_ok (par n)) by lia; f_equal;
    symmetry; [apply Z.div_unique with 0%Z|apply Z.div_unique with 1%Z]; lia.
Qed.
Lemma left_child_ok n :
  (Z.of_nat n <= max_nodes)%Z -> left_child n = Ret (2 * n + 1).
Proof.
  intros H. unfold left_child. rewrite int_arg_ok by done. unfold max_nodes in H.
  do 2 (rewrite int_op_ok by lia; rewrite bind_ret_l). f_equal.
  replace (2 * Z.of_nat n + 1)%Z with (Z.of_nat (2 * n + 1)) by lia.
  apply size_of_int_ok. lia.
Qed.
Lemma right_child_ok n :
  (Z.of_nat n < max_nodes)%Z -> right_child n = Ret (2 * n + 2).
Proof.
  intros H. unfold right_child. rewrite int_arg_ok by lia. unfold max_nodes in H.
  do 2 (rewrite int_op_ok by lia; rewrite bind_ret_l). f_equal.
  replace (2 * Z.of_nat n + 2)%Z with (Z.of_nat (2 * n + 2)) by lia.
  apply size_of_int_ok. lia.
Qed.

(** ** Exchanging two elements of a list *)

Lemma swap_lookup {A} (l : list A) i j x y k :
  l !! i = Some x -> l !! j = Some y ->
  <[i := y]> (<[j := x]> l) !! k =
    if decide (k = i) then Some y else if decide (k = j) then Some x else l !! k.
Proof.
  intros Hi Hj. pose proof (lookup_lt_Some _ _ _ Hi). pose proof (lookup_lt_Some _ _ _ Hj).
  destruct (decide (k = i)) as [->|Hki].
  { apply list_lookup_insert_eq. by rewrite length_insert. }
  rewrite list_lookup_insert_ne by done.
  destruct (decide (k = j)) as [->|Hkj]; [by apply list_lookup_insert_eq|].
  by rewrite list_lookup_insert_ne.
Qed.

Lemma swap_perm {A} (l : list A) i j x y :
  l !! i = Some x -> l !! j = Some y -> <[i := y]> (<[j := x]> l) ≡ₚ l.
Proof.
  intros Hi Hj. apply Permutation_inj. split; [by rewrite !length_insert|].
  exists (fun k => if decide (k = i) then j else if decide (k = j) then i else k).
  split.
  - intros a b; repeat case_decide; congruence.
  - intros k. rewrite (swap_lookup l i j x y k Hi Hj).
    repeat case_decide; congruence.
Qed.

(** ** The heap order on the list of live nodes *)

Section Proofs.
Context {V : Type}.
Implicit Types (h : binary_heap V) (L : list (kvp V)) (x c p : kvp V).

Definition ordered_at L (i : nat) : Prop :=
  forall c p, L !! i = Some c -> L !! par i = Some p -> (kvp_key p <= kvp_key c)%Z.
Definition heap_ordered L : Prop := forall i, 0 < i -> ordered_at L i.

(** A well-formed heap: the first [used] cells hold nodes in heap order. *)
Definition heap_wf h : Prop :=
  exists L rest, array h = (Some <$> L) ++ rest /\ length L = used h /\
    length (array h) = allocated h /\ heap_ordered L.

Lemma contents_shape h L rest :
  array h = (Some <$> L) ++ rest -> length L = used h -> contents h = L.
Proof.
  intros HA HL. unfold contents. rewrite HA, <- HL.
  rewrite take_app_length' by by rewrite length_fmap.
  clear. induction L as [|a L IH]; cbn; [done|]. by f_equal.
Qed.

Lemma live_slot a u L rest i x :
  L !! i = Some x -> slot (Heap a u ((Some <$> L) ++ rest)) i = Ret (Some x).
Proof.
  intros H. unfold slot. cbn.
  rewrite lookup_app_l by (rewrite length_fmap; by eapply lookup_lt_Some).
  by rewrite list_lookup_fmap, H.
Qed.

Lemma live_swap a u L rest i j x y :
  L !! i = Some x -> L !! j = Some y ->
  swap (Heap a u ((Some <$> L) ++ rest)) i j (Some x) (Some y)
  = Heap a u ((Some <$> <[i := y]> (<[j := x]> L)) ++ rest).
Proof.
  intros Hi Hj. pose proof (lookup_lt_Some _ _ _ Hi). pose proof (lookup_lt_Some _ _ _ Hj).
  unfold swap, set_array. cbn. f_equal.
  rewrite !list_fmap_insert, insert_app_l, insert_app_l;
    rewrite ?length_insert, ?length_fmap; done.
Qed.

(** Order everywhere except between [t] and its parent, [t]'s children already
    above its parent: the state of [move_up]. *)
Definition up_inv L (t : nat) : Prop :=
  (forall i, 0 < i -> i <> t -> ordered_at L i) /\
  (forall i c g, 0 < t -> 0 < i -> par i = t -> L !! i = Some c -> L !! par t = Some g ->
     (kvp_key g <= kvp_key c)%Z).

Lemma up_inv_step L t x p :
  up_inv L t -> 0 < t -> L !! t = Some x -> L !! par t = Some p ->
  (kvp_key x < kvp_key p)%Z ->
  up_inv (<[t := p]> (<[par t := x]> L)) (par t).
Proof.
  intros [H1 H2] Ht Hx Hp Hlt. pose proof (par_lt t Ht).
  pose proof (fun k => swap_lookup L t (par t) x p k Hx Hp) as HS.
  split.
  - intros i Hi Hne c g Hc Hg. rewrite HS in Hc, Hg.
    pose proof (par_lt i Hi).
    destruct (decide (i = t)) as [->|Hit].
    { rewrite decide_False, decide_True in Hg by lia. simplify_eq. lia. }
    rewrite decide_False in Hc by done.
    destruct (decide (par i = t)) as [E|Hpt].
    { injection Hg as <-. by eapply (H2 i). }
    destruct (decide (par i = par t)) as [E|Hpp].
    { injection Hg as <-.
      pose proof (H1 i Hi Hit c p Hc ltac:(by rewrite E)). lia. }
    by eapply (H1 i).
  - intros i c g Ht' Hi Hpi Hc Hg. rewrite HS in Hc, Hg.
    pose proof (par_lt (par t) Ht'). pose proof (par_lt i Hi).
    rewrite !decide_False in Hg by lia.
    pose proof (H1 (par t) Ht' ltac:(lia) p g Hp Hg) as Hgp.
    destruct (decide (i = t)) as [->|Hit]; [by simplify_eq|].
    rewrite decide_False in Hc by lia.
    pose proof (H1 i Hi Hit c p Hc ltac:(by rewrite Hpi)). lia.
Qed.

Lemma up_inv_done L t x p :
  up_inv L t -> L !! t = Some x -> L !! par t = Some p ->
  (kvp_key p <= kvp_key x)%Z -> heap_ordered L.
Proof.
  intros [H1 _] Hx Hp Hle i Hi. destruct (decide (i = t)) as [->|]; [|by apply H1].
  intros c g Hc Hg. by simplify_eq.
Qed.

Lemma move_up_correct fuel a u L rest t :
  up_inv L t -> t < length L -> t < fuel -> (Z.of_nat t <= max_nodes)%Z ->
  exists L', move_up fuel (Heap a u ((Some <$> L) ++ rest)) t
             = Ret (Heap a u ((Some <$> L') ++ rest))
    /\ L' ≡ₚ L /\ heap_ordered L'.
Proof.
  revert L t. induction fuel as [|fuel IH]; intros L t Hinv Hlen Hf Hmax; [lia|].
  cbn [move_up]. destruct (Nat.ltb_spec 0 t) as [Ht|Ht].
  2:{ exists L. split_and!; [done..|]. intros i Hi. apply Hinv; lia. }
  pose proof (par_lt t Ht) as Hpt.
  destruct (lookup_lt_is_Some_2 L t Hlen) as [x Hx].
  destruct (lookup_lt_is_Some_2 L (par t) ltac:(lia)) as [p Hp].
  rewrite (live_slot _ _ _ _ _ x Hx), bind_ret_l, (parent_ok t Ht Hmax), bind_ret_l.
  rewrite (live_slot _ _ _ _ _ p Hp), bind_ret_l. cbn [key_of fmap option_fmap option_map deref].
  rewrite !bind_ret_l. destruct (Z.leb_spec (kvp_key p) (kvp_key x)) as [Hle|Hlt].
  { exists L. split_and!; [done..|]. by eapply up_inv_done. }
  rewrite (live_swap _ _ _ _ _ _ x p Hx Hp).
  destruct (IH (<[t := p]> (<[par t := x]> L)) (par t)) as (L' & E & HP & HO).
  - by apply up_inv_step.
  - rewrite !length_insert. lia.
  - lia.
  - lia.
  - exists L'. split_and!; [done| |done]. by rewrite HP, (swap_perm L t (par t) x p).
Qed.

Lemma ensure_space_shape h L rest :
  array h = (Some <$> L) ++ rest -> length L = used h -> length (array h) = allocated h ->
  exists al cell rest',
    ensure_space h (used h + 1) = Heap al (used h) ((Some <$> L) ++ cell :: rest')
    /\ length ((Some <$> L) ++ cell :: rest') = al.
Proof.
  intros HA HL Hal. rewrite HA, length_app, length_fmap in Hal.
  assert (Hlen : forall (c : option (kvp V)) (r : list (option (kvp V))), length ((Some <$> L) ++ c :: r) = length L + S (length r))
    by (intros c r; rewrite length_app, length_fmap; done).
  unfold ensure_space. destruct (Nat.ltb_spec (allocated h) (used h + 1)) as [Hlt|Hge].
  - set (n := Nat.max _ _). destruct (n - allocated h) as [|k] eqn:E; [lia|].
    destruct rest as [|c rest]; cbn [length] in Hal; [|lia].
    exists n, None, (replicate k None). rewrite HA, app_nil_r. split; [done|].
    rewrite Hlen, length_replicate. lia.
  - destruct rest as [|c rest]; cbn [length] in Hal; [lia|]. exists (allocated h), c, rest.
    rewrite <- HA. split; [by destruct h|]. rewrite HA, Hlen. lia.
Qed.

Lemma heap_wf_max h : heap_wf h -> length (contents h) = used h.
Proof.
  intros (L & rest & HA & HL & _). by rewrite (contents_shape h L rest).
Qed.

Lemma up_inv_snoc L x : heap_ordered L -> up_inv (L ++ [x]) (length L).
Proof.
  intros HO. split.
  - intros i Hi Hne c p Hc Hp.
    pose proof (lookup_lt_Some _ _ _ Hc) as Hl. rewrite length_app in Hl. cbn in Hl.
    pose proof (par_lt i Hi).
    rewrite lookup_app_l in Hc by lia. rewrite lookup_app_l in Hp by lia. by eapply HO.
  - intros i c g Ht Hi Hpi Hc _. pose proof (par_lt i Hi).
    pose proof (lookup_lt_Some _ _ _ Hc) as Hl. rewrite length_app in Hl. cbn in Hl. lia.
Qed.

(** [binary_heap_add] on a well-formed heap. *)
Lemma add_correct h k v :
  heap_wf h -> (Z.of_nat (used h) < max_nodes)%Z ->
  exists h', binary_heap_add h k v = Ret h' /\ heap_wf h'
    /\ contents h' ≡ₚ Kvp k v :: contents h /\ used h' = used h + 1.
Proof.
  intros (L & rest & HA & HL & Hal & HO) Hmax.
  destruct (ensure_space_shape h L rest HA HL Hal) as (al & cell & rest' & E & Hlen).
  unfold binary_heap_add. rewrite E. cbn [array used allocated]. rewrite mem_write_ok
    by (rewrite length_app, length_fmap, HL; cbn; lia).
  rewrite bind_ret_l. unfold set_array. cbn [array used allocated].
  assert (HW : take (used h) ((Some <$> L) ++ cell :: rest') ++ [Some (kvp_new k v)] ++
               drop (used h + length [Some (kvp_new k v)]) ((Some <$> L) ++ cell :: rest')
             = (Some <$> (L ++ [Kvp k v])) ++ rest').
  { rewrite <- HL at 1 2. rewrite take_app_length' by by rewrite length_fmap.
    rewrite <- (length_fmap Some L) at 1. cbn [length]. rewrite drop_app_add.
    rewrite fmap_app, <- app_assoc. done. }
  rewrite HW.
  destruct (move_up_correct (S (used h)) al (used h) (L ++ [Kvp k v]) rest' (used h))
    as (L' & E2 & HP & HO').
  - rewrite <- HL. by apply up_inv_snoc.
  - rewrite length_app. cbn. lia.
  - lia.
  - lia.
  - rewrite E2, bind_ret_l. eexists. split; [done|].
    pose proof (Permutation_length HP) as HPL. rewrite length_app in HPL. cbn in HPL.
    unfold set_used. cbn [array used allocated].
    split_and!.
    + exists L', rest'. split_and!; [done|cbn; lia| |done].
      cbn [array allocated]. rewrite <- Hlen.
      rewrite !length_app, !length_fmap. cbn [length]. lia.
    + rewrite (contents_shape _ L' rest') by (cbn; first [done|lia]).
      rewrite (contents_shape h L rest) by done. rewrite HP. by rewrite Permutation_app_comm.
    + done.
Qed.

(** Order everywhere except below [t], [t]'s children already above [t]'s
    parent: the state of [move_down]. *)
Definition down_inv L (t : nat) : Prop :=
  (forall i, 0 < i -> par i <> t -> ordered_at L i) /\
  (forall i c g, 0 < t -> 0 < i -> par i = t -> L !! i = Some c -> L !! par t = Some g ->
     (kvp_key g <= kvp_key c)%Z).

(** No child of [t] has a smaller key. *)
Definition below_ok L (t : nat) (k : Z) : Prop :=
  forall i c, 0 < i -> par i = t -> L !! i = Some c -> (k <= kvp_key c)%Z.

Lemma down_inv_done L t x :
  down_inv L t -> L !! t = Some x -> below_ok L t (kvp_key x) -> heap_ordered L.
Proof.
  intros [H1 _] Hx Hb i Hi. destruct (decide (par i = t)) as [E|]; [|by apply H1].
  intros c g Hc Hg. rewrite E in Hg. simplify_eq. by eapply Hb.
Qed.

Lemma down_inv_step L t m x y :
  down_inv L t -> par m = t -> 0 < m -> L !! t = Some x -> L !! m = Some y ->
  (kvp_key y < kvp_key x)%Z -> below_ok L t (kvp_key y) ->
  down_inv (<[t := y]> (<[m := x]> L)) m.
Proof.
  intros [H1 H2] Hpm Hm Hx Hy Hlt Hb. pose proof (par_lt m Hm).
  pose proof (fun k => swap_lookup L t m x y k Hx Hy) as HS.
  split.
  - intros i Hi Hne c g Hc Hg. rewrite HS in Hc, Hg. pose proof (par_lt i Hi).
    destruct (decide (i = t)) as [->|Hit].
    { rewrite decide_False in Hg by lia. rewrite decide_False in Hg by lia.
      injection Hc as <-. by eapply (H2 m). }
    destruct (decide (par i = t)) as [E|Hpt].
    { injection Hg as <-. destruct (decide (i = m)); [by simplify_eq; lia|].
      by eapply (Hb i). }
    rewrite decide_False in Hc by (intros ->; done). rewrite decide_False in Hg by done.
    by eapply (H1 i).
  - intros i c g _ Hi Hpi Hc Hg. rewrite HS in Hc, Hg. pose proof (par_lt i Hi).
    rewrite Hpm, decide_True in Hg by done. injection Hg as <-.
    rewrite !decide_False in Hc by lia.
    eapply (H1 i Hi); [lia|done|]. by rewrite Hpi.
Qed.

(** The two children of [t] are the only ones. *)
Lemma below_ok_children L t k :
  (forall c, L !! (2 * t + 1) = Some c -> (k <= kvp_key c)%Z) ->
  (forall c, L !! (2 * t + 2) = Some c -> (k <= kvp_key c)%Z) ->
  below_ok L t k.
Proof. intros Hl Hr i c Hi <- Hc. destruct (par_spec i Hi) as [E|E]; rewrite E in Hc; auto. Qed.

(** [move_down] of the last node [x], whose old cell, just past the live ones,
    still holds it: that stale cell is what the right-child read meets when the
    last parent has a left child only. *)
(** The right child's slot holds a node, or the sinking node's old copy behind
    the last one. *)
Lemma right_slot a L x rest t :
  2 * t + 1 < length L ->
  exists r, slot (Heap a (length L) ((Some <$> L) ++ Some x :: rest)) (2 * t + 2) = Ret (Some r)
    /\ (L !! (2 * t + 2) = Some r \/ length L = 2 * t + 2 /\ r = x).
Proof.
  intros Hl. destruct (decide (2 * t + 2 < length L)) as [Hlt|Hge].
  - destruct (lookup_lt_is_Some_2 L _ Hlt) as [r Hr]. exists r.
    split; [by apply live_slot|auto].
  - exists x. split; [|right; split; [lia|done]]. unfold slot. cbn [array].
    rewrite list_lookup_middle; [done|]. rewrite length_fmap. lia.
Qed.

Lemma move_down_correct fuel a L x rest t :
  down_inv L t -> L !! t = Some x -> length L < t + fuel ->
  (Z.of_nat (length L) <= max_nodes)%Z ->
  exists L', move_down fuel (Heap a (length L) ((Some <$> L) ++ Some x :: rest)) t
             = Ret (Heap a (length L) ((Some <$> L') ++ Some x :: rest))
    /\ L' ≡ₚ L /\ heap_ordered L'.
Proof.
  revert L t. induction fuel as [|fuel IH]; intros L t Hinv Hx Hf Hmax.
  { pose proof (lookup_lt_Some _ _ _ Hx). lia. }
  cbn [move_down]. cbn [used].
  pose proof (Nat.div2_odd (length L)) as Hd.
  destruct (Nat.ltb_spec t (Nat.div2 (length L))) as [Ht|Ht].
  2:{ exists L. split_and!; [done..|]. eapply down_inv_done; [done..|].
      destruct (Nat.odd (length L)); cbn in Hd;
      apply below_ok_children; intros c Hc%lookup_lt_Some; lia. }
  assert (2 * t + 1 < length L) as Hl by (destruct (Nat.odd (length L)); cbn in Hd; lia).
  destruct (lookup_lt_is_Some_2 L (2 * t + 1) Hl) as [l Hlk].
  rewrite (live_slot _ _ _ _ _ x Hx), bind_ret_l, left_child_ok by lia.
  rewrite bind_ret_l, (live_slot _ _ _ _ _ l Hlk), bind_ret_l, right_child_ok by lia.
  rewrite bind_ret_l.
  destruct (right_slot a L x rest t Hl) as (r & Er & Hr).
  rewrite Er, bind_ret_l. rewrite (proj2 (Nat.ltb_ge _ _)) by lia.
  cbn [key_of fmap option_fmap option_map deref]. rewrite !bind_ret_l.
  assert (forall c m, L !! m = Some c -> par m = t -> 0 < m -> below_ok L t (kvp_key c) ->
    exists L', (if (kvp_key x <=? kvp_key c)%Z
      then Ret (Heap a (length L) ((Some <$> L) ++ Some x :: rest))
      else move_down fuel (swap (Heap a (length L) ((Some <$> L) ++ Some x :: rest)) t m
             (Some x) (Some c)) m) = Ret (Heap a (length L) ((Some <$> L') ++ Some x :: rest))
      /\ L' ≡ₚ L /\ heap_ordered L') as Hgo.
  { intros c m Hc Hpm Hm Hb. destruct (Z.leb_spec (kvp_key x) (kvp_key c)) as [Hle|Hlt].
    - exists L. split_and!; [done..|]. eapply down_inv_done; [done..|].
      intros i d Hi Hpi Hd'. pose proof (Hb i d Hi Hpi Hd'). lia.
    - rewrite (live_swap _ _ _ _ _ _ x c Hx Hc). pose proof (par_lt m Hm).
      destruct (IH (<[t := c]> (<[m := x]> L)) m) as (L' & E & HP & HO).
      + by apply down_inv_step.
      + rewrite (swap_lookup L t m x c m Hx Hc). rewrite decide_False, decide_True by lia. done.
      + rewrite !length_insert. lia.
      + rewrite !length_insert. lia.
      + rewrite !length_insert in E. exists L'. split_and!; [done| |done].
        by rewrite HP, (swap_perm L t m x c). }
  destruct (Z.ltb_spec (kvp_key r) (kvp_key l)) as [Hrl|Hrl].
  - destruct Hr as [Hr|[Hlen ->]].
    + apply Hgo; [done|apply par_right|lia|].
      apply below_ok_children; intros c Hc; simplify_eq; lia.
    + cbn. rewrite Z.leb_refl. exists L. split_and!; [done..|].
      eapply down_inv_done; [done..|]. apply below_ok_children; intros c Hc; simplify_eq; try lia.
      apply lookup_lt_Some in Hc. lia.
  - apply Hgo; [done|apply par_left|lia|].
    apply below_ok_children; intros c Hc; simplify_eq; try lia.
    destruct Hr as [Hr|[Hlen _]]; [by simplify_eq|]. apply lookup_lt_Some in Hc. lia.
Qed.

(** The root of an ordered heap is minimal. *)
Lemma root_minimal L x i c :
  heap_ordered L -> L !! 0 = Some x -> L !! i = Some c -> (kvp_key x <= kvp_key c)%Z.
Proof.
  intros HO Hx. revert c. induction i as [i IH] using lt_wf_ind. intros c Hc.
  destruct (decide (i = 0)) as [->|Hi]; [by simplify_eq|].
  pose proof (par_lt i ltac:(lia)) as Hlt.
  pose proof (lookup_lt_Some _ _ _ Hc).
  destruct (lookup_lt_is_Some_2 L (par i) ltac:(lia)) as [g Hg].
  pose proof (IH _ Hlt g Hg). pose proof (HO i ltac:(lia) c g Hc Hg). lia.
Qed.

Lemma root_minimal_all L x :
  heap_ordered L -> L !! 0 = Some x -> Forall (fun c => kvp_key x <= kvp_key c)%Z L.
Proof.
  intros HO Hx. apply Forall_lookup. intros i c Hc. by eapply root_minimal.
Qed.

(** Moving the last node to the root leaves only the root out of place. *)
Lemma down_inv_root x mid y :
  heap_ordered ((x :: mid) ++ [y]) -> down_inv (y :: mid) 0.
Proof.
  intros HO. split; [|lia].
  assert (Hsame : forall j, 0 < j -> j < length (y :: mid) ->
            (y :: mid) !! j = ((x :: mid) ++ [y]) !! j).
  { intros [|j] H0 Hlt; [lia|]. rewrite lookup_app_l by (cbn in *; lia). done. }
  intros i Hi Hp c p Hc Hq. pose proof (lookup_lt_Some _ _ _ Hc).
  pose proof (par_lt i Hi). rewrite Hsame in Hc by lia. rewrite Hsame in Hq by lia.
  by eapply HO.
Qed.

Lemma heap_ordered_nil : heap_ordered [].
Proof. intros i Hi c p Hc. done. Qed.

(** [binary_heap_trypop] on a heap with a node. *)
Lemma trypop_correct h :
  heap_wf h -> 0 < used h -> (Z.of_nat (used h) <= max_nodes)%Z ->
  exists k v h', binary_heap_trypop h = Ret (Some (k, v), h') /\ heap_wf h'
    /\ contents h ≡ₚ Kvp k v :: contents h'
    /\ Forall (fun c => k <= kvp_key c)%Z (contents h) /\ used h = S (used h').
Proof.
  intros (L & rest & HA & HL & Hal & HO) Hu Hmax.
  destruct h as [al u ar]. cbn [array used allocated] in *. subst ar.
  rewrite (contents_shape _ L rest) by done.
  destruct L as [|x L]; cbn [length] in HL; [lia|].
  assert (Hmin : Forall (fun c => kvp_key x <= kvp_key c)%Z (x :: L))
    by by apply root_minimal_all.
  exists (kvp_key x), (kvp_value x). replace (Kvp (kvp_key x) (kvp_value x)) with x by by destruct x.
  unfold binary_heap_trypop. cbn [used]. rewrite (proj2 (Nat.ltb_lt _ _) Hu).
  rewrite (live_slot _ _ _ _ 0 x), bind_ret_l by done. cbn [deref]. rewrite bind_ret_l.
  unfold set_used. cbn [array used allocated]. subst u. cbn [Nat.sub]. rewrite Nat.sub_0_r.
  destruct (Nat.ltb_spec 0 (length L)) as [HL0|HL0].
  - destruct (exists_last (l := L)) as (mid & y & ->); [by destruct L; cbn in HL0; [lia|]|].
    rewrite length_app in *. cbn [length] in *.
    assert (Hlast : (x :: mid ++ [y]) !! (length mid + 1) = Some y)
      by (apply (list_lookup_middle (x :: mid) [] y); cbn; lia).
    rewrite (live_slot _ _ _ _ _ y Hlast), bind_ret_l.
    rewrite mem_write_ok by (cbn; lia). rewrite bind_ret_l. unfold set_array.
    cbn [array used allocated take drop app length Nat.add].
    rewrite fmap_cons, fmap_app. cbn [fmap list_fmap app drop].
    rewrite <- app_assoc. cbn [app]. rewrite take_0, drop_0. cbn [app].
    change (Some y :: (Some <$> mid) ++ Some y :: rest)
      with ((Some <$> (y :: mid)) ++ Some y :: rest).
    replace (length mid + 1) with (length (y :: mid)) by (cbn; lia).
    destruct (move_down_correct (S (length (y :: mid))) al (y :: mid) y rest 0)
      as (L' & E & HP & HO').
    + by apply down_inv_root with x.
    + done.
    + lia.
    + cbn in *; lia.
    + rewrite E, bind_ret_l. eexists. split; [done|].
      pose proof (Permutation_length HP) as HPL. split_and!; [|..|done].
      * exists L', (Some y :: rest). split_and!; [done..| |done]. cbn [array allocated].
        rewrite <- Hal. rewrite !length_app, !length_fmap, HPL. cbn. rewrite !length_app. cbn. lia.
      * rewrite (contents_shape _ L' (Some y :: rest)) by done.
        rewrite HP. by rewrite (Permutation_app_comm mid [y]).
      * done.
  - destruct L; [|cbn in HL0; lia]. cbn [length]. rewrite bind_ret_l.
    eexists. split; [done|]. split_and!; [|done|done|done].
    exists [], (Some x :: rest). split_and!; [done..|apply heap_ordered_nil].
Qed.

Lemma trypop_empty h : used h = 0 -> binary_heap_trypop h = Ret (None, h).
Proof. intros H. unfold binary_heap_trypop. by rewrite H. Qed.

Lemma new_wf : heap_wf (@binary_heap_new V).
Proof. exists [], []. split_and!; [done..|apply heap_ordered_nil]. Qed.

End Proofs.

(** ** The interface clients rely on *)

(** A priority queue: its items as a multiset, [add] inserts, [trypop] removes
    an item with the smallest key. [pq_max] bounds the number of items. *)
Class PriQ (V Q : Type) := {
  pq_new : Q;
  pq_add : Q -> Z -> V -> outcome Q;
  pq_trypop : Q -> outcome (option (Z * V) * Q);
  pq_delete : Q -> outcome unit;
  pq_wf : Q -> Prop;
  pq_items : Q -> list (Z * V);
  pq_max : Z;
  pq_new_law : pq_wf pq_new /\ pq_items pq_new = [];
  pq_add_law : forall q k v, pq_wf q -> (Z.of_nat (length (pq_items q)) < pq_max)%Z ->
    exists q', pq_add q k v = Ret q' /\ pq_wf q' /\ pq_items q' ≡ₚ (k, v) :: pq_items q;
  pq_pop_empty_law : forall q, pq_wf q -> pq_items q = [] -> pq_trypop q = Ret (None, q);
  pq_pop_law : forall q, pq_wf q -> pq_items q <> [] ->
    (Z.of_nat (length (pq_items q)) <= pq_max)%Z ->
    exists k v q', pq_trypop q = Ret (Some (k, v), q') /\ pq_wf q'
      /\ pq_items q ≡ₚ (k, v) :: pq_items q' /\ Forall (fun kv => k <= fst kv)%Z (pq_items q);
  pq_delete_law : forall q, pq_wf q -> pq_delete q = c_assert (length (pq_items q) =? 0)
}.

Definition items {V} (h : binary_heap V) : list (Z * V) :=
  (fun kv => (kvp_key kv, kvp_value kv)) <$> contents h.

Lemma items_length {V} (h : binary_heap V) : heap_wf h -> length (items h) = used h.
Proof. intros H. unfold items. rewrite length_fmap. by apply heap_wf_max. Qed.

Lemma items_add_law {V} (h : binary_heap V) k v :
  heap_wf h -> (Z.of_nat (length (items h)) < max_nodes)%Z ->
  exists h', binary_heap_add h k v = Ret h' /\ heap_wf h' /\ items h' ≡ₚ (k, v) :: items h.
Proof.
  intros Hwf Hm. rewrite items_length in Hm by done.
  destruct (add_correct h k v Hwf Hm) as (h' & E & Hwf' & HP & _).
  exists h'. split_and!; [done..|]. unfold items. by rewrite HP.
Qed.

Lemma items_pop_law {V} (h : binary_heap V) :
  heap_wf h -> items h <> [] -> (Z.of_nat (length (items h)) <= max_nodes)%Z ->
  exists k v h', binary_heap_trypop h = Ret (Some (k, v), h') /\ heap_wf h'
    /\ items h ≡ₚ (k, v) :: items h' /\ Forall (fun kv => k <= fst kv)%Z (items h).
Proof.
  intros Hwf Hne Hm. rewrite items_length in Hm by done.
  destruct (trypop_correct h Hwf) as (k & v & h' & E & Hwf' & HP & HF & _); [|done|].
  { rewrite <- items_length by done. destruct (items h); [done|cbn; lia]. }
  exists k, v, h'. split_and!; [done..| |].
  - unfold items. by rewrite HP.
  - unfold items. by apply Forall_fmap.
Qed.

#[export] Instance binary_heap_priq (V : Type) : PriQ V (binary_heap V).
Proof.
  refine {| pq_new := binary_heap_new; pq_add := binary_heap_add;
            pq_trypop := binary_heap_trypop; pq_delete := binary_heap_delete; pq_wf := heap_wf; pq_items := items;
            pq_max := max_nodes |}.
  - split; [apply new_wf|done].
  - intros q k v. apply items_add_law.
  - intros q Hwf E. apply trypop_empty. rewrite <- items_length by done. by rewrite E.
  - intros q. apply items_pop_law.
  - intros q Hwf. unfold binary_heap_delete. by rewrite items_length.
Defined.

(** ** Properties *)

(** C6: [binary_heap_add] on any well-formed heap below 2^30 - 1 nodes returns a
    well-formed heap that holds exactly the old nodes and the new one; none of
    its array accesses is out of bounds, before or after the array grows. *)
Theorem binary_heap_add_correct {V} (h : binary_heap V) (key : Z) (value : V)
    (Hwf : heap_wf h) (Hmax : (Z.of_nat (used h) < max_nodes)%Z) :
  exists h', binary_heap_add h key value = Ret h' /\ heap_wf h'
    /\ used h' = used h + 1 /\ contents h' ≡ₚ Kvp key value :: contents h.
Proof. destruct (add_correct h key value Hwf Hmax) as (h' & ? & ? & ? & ?). eauto. Qed.

Lemma binary_heap_add_correct_witness :
  exists h', binary_heap_add (@binary_heap_new nat) 7 42 = Ret h' /\ heap_wf h'
    /\ used h' = 1 /\ contents h' ≡ₚ [Kvp 7 42].
Proof. apply (binary_heap_add_correct (@binary_heap_new nat) 7 42); [apply new_wf|reflexivity]. Defined.

(** C5: [binary_heap_trypop] on any well-formed heap with a node removes a node
    of smallest key and leaves the rest in a well-formed heap. In particular
    the right-child read of [move_down] stays inside the array, although for an
    even number of nodes it is one past the last live node: the vacated cell
    still holds the node being moved down. *)
Theorem binary_heap_trypop_correct {V} (h : binary_heap V)
    (Hwf : heap_wf h) (Hused : 0 < used h) (Hmax : (Z.of_nat (used h) <= max_nodes)%Z) :
  exists key value h', binary_heap_trypop h = Ret (Some (key, value), h') /\ heap_wf h'
    /\ contents h ≡ₚ Kvp key value :: contents h'
    /\ Forall (fun c => key <= kvp_key c)%Z (contents h).
Proof.
  destruct (trypop_correct h Hwf Hused Hmax) as (k & v & h' & ? & ? & ? & ? & _).
  exists k, v, h'. auto.
Qed.

(** A heap of three nodes in a full array of four cells, the last uninitialised. *)
Definition three_nodes : binary_heap nat :=
  Heap 4 3 [Some (Kvp 1 10); Some (Kvp 5 20); Some (Kvp 3 30); None].

Lemma three_nodes_wf : heap_wf three_nodes.
Proof.
  exists [Kvp 1 10; Kvp 5 20; Kvp 3 30], [None]. split_and!; [done..|].
  intros [|[|[|i]]] Hi c p Hc Hp; cbn in *; simplify_eq; cbn; lia.
Qed.

Lemma binary_heap_trypop_correct_witness :
  exists key value h', binary_heap_trypop three_nodes = Ret (Some (key, value), h')
    /\ heap_wf h' /\ contents three_nodes ≡ₚ Kvp key value :: contents h'
    /\ Forall (fun c => key <= kvp_key c)%Z (contents three_nodes).
Proof.
  apply (binary_heap_trypop_correct three_nodes).
  - apply three_nodes_wf.
  - cbn. lia.
  - vm_compute. discriminate.
Defined.

Lemma add_all_correct {V} (l : list (Z * V)) (h : binary_heap V) :
  heap_wf h -> (Z.of_nat (used h + length l) <= max_nodes)%Z ->
  exists h', add_all l h = Ret h' /\ heap_wf h' /\ items h' ≡ₚ l ++ items h.
Proof.
  unfold add_all. revert h. induction l as [|[k v] l IH]; intros h Hwf Hm; cbn [foldl].
  { by exists h. }
  cbn [length] in Hm. change (Ret h ≫= _) with (binary_heap_add h k v).
  destruct (add_correct h k v Hwf ltac:(lia)) as (h1 & -> & Hwf1 & HP1 & Hu1).
  destruct (IH h1 Hwf1 ltac:(lia)) as (h' & E & Hwf' & HP').
  exists h'. split_and!; [done..|]. rewrite HP'. unfold items at 1. rewrite HP1.
  by rewrite fmap_cons, <- Permutation_middle.
Qed.

Lemma drain_correct {V} fuel (h : binary_heap V) :
  heap_wf h -> used h < fuel -> (Z.of_nat (used h) <= max_nodes)%Z ->
  exists l h', drain fuel h = Ret (l, h') /\ used h' = 0 /\ l ≡ₚ items h
    /\ StronglySorted (fun a b => fst a <= fst b)%Z l.
Proof.
  revert h. induction fuel as [|fuel IH]; intros h Hwf Hf Hm; [lia|]. cbn [drain].
  destruct (decide (used h = 0)) as [H0|H0].
  { rewrite trypop_empty, bind_ret_l by done. exists [], h.
    split_and!; [done..| |constructor]. rewrite <- items_length in H0 by done.
    by destruct (items h). }
  destruct (trypop_correct h Hwf ltac:(lia) Hm) as (k & v & h1 & -> & Hwf1 & HP & HF & Hu).
  rewrite bind_ret_l. destruct (IH h1 Hwf1 ltac:(lia) ltac:(lia)) as (l & h' & -> & Hu' & HPl & HS).
  rewrite bind_ret_l. exists ((k, v) :: l), h'.
  assert (HPi : items h ≡ₚ (k, v) :: items h1) by (unfold items; by rewrite HP).
  split_and!; [done..| |].
  - by rewrite HPi, HPl.
  - constructor; [done|]. assert (HF2 : Forall (fun a => k <= fst a)%Z (items h)).
    { unfold items. by apply Forall_fmap. }
    rewrite HPi in HF2. apply Forall_cons in HF2 as [_ HF2]. by rewrite HPl.
Qed.

(** C7: a queue that chunks were added to in any order, below 2^30 - 1 of them,
    gives them all back exactly once in order of their keys, and is then empty,
    so that [binary_heap_delete]'s assertion holds. *)
Theorem binary_heap_drains_sorted {V} (l : list (Z * V))
    (Hmax : (Z.of_nat (length l) <= max_nodes)%Z) :
  exists h l' h', add_all l binary_heap_new = Ret h
    /\ drain (S (length l)) h = Ret (l', h')
    /\ l' ≡ₚ l /\ StronglySorted (fun a b => fst a <= fst b)%Z l'
    /\ binary_heap_delete h' = Ret tt.
Proof.
  destruct (add_all_correct l binary_heap_new new_wf Hmax) as (h & E & Hwf & HP).
  cbn in HP. rewrite app_nil_r in HP.
  assert (used h = length l) as Hu by (rewrite <- items_length, HP; done).
  destruct (drain_correct (S (length l)) h Hwf ltac:(lia) ltac:(lia)) as (l' & h' & E2 & H0 & HP2 & HS).
  exists h, l', h'. split_and!; [done..| |done|].
  - by rewrite HP2.
  - unfold binary_heap_delete. by rewrite H0.
Qed.

Lemma binary_heap_drains_sorted_witness :
  exists h l' h', add_all [(5, 1); (3, 2); (4, 3); (1, 4)]%Z binary_heap_new = Ret h
    /\ drain 5 h = Ret (l', h')
    /\ l' ≡ₚ [(5, 1); (3, 2); (4, 3); (1, 4)]%Z
    /\ StronglySorted (fun a b => fst a <= fst b)%Z l' /\ binary_heap_delete h' = Ret tt.
Proof.
  apply (binary_heap_drains_sorted [(5, 1); (3, 2); (4, 3); (1, 4)]%Z).
  vm_compute. discriminate.
Defined.
