(* ===== verification/ReadContext.v ===== *)
(** * read.c: what a read request leaves behind for its completion

    [fsfuse_read] allocates a buffer and a [read_context_t] per request and
    hands them to the downloader; [chunk_done] runs when the downloader is done
    with the request: it answers FUSE, drops a reference to the direntry and
    frees both.  The state here is the memory these share. *)
From S2P Require Import Prelude RefCount.

(** A buffer: its cells, uninitialised until copied to. *)
Abbreviation cells := (list (option ascii)).

Record read_context := ReadContext {
  rc_req : Z;      (* the fuse_req_t to answer *)
  rc_size : Z;     (* bytes requested *)
  rc_buf : nat     (* the buffer's block *)
}.

(** What FUSE is told; [fuse_reply_*] are taken to succeed. *)
Inductive reply :=
| ReplyBuf (req : Z) (data : cells)
| ReplyErr (req : Z) (err : Z).

Record io := IO {
  blocks : gmap nat cells;             (* malloc()ed read buffers *)
  ctxts : gmap Z read_context;         (* malloc()ed read contexts, by address *)
  de_refs : option ref_count;          (* the open file's direntry; None once freed *)
  replies : list reply                 (* oldest first *)
}.

Definition ENOENT : Z := 2.
Definition EIO : Z := 5.
Definition EACCES : Z := 13.
Definition EBUSY : Z := 16.
Definition ENOTDIR : Z := 20.
Definition EISDIR : Z := 21.
Definition EROFS : Z := 30.
Definition ETIMEDOUT : Z := 110.

(** [direntry_copy] on the open file's direntry. *)
Definition add_ref (r : option ref_count) : outcome (option ref_count) :=
  r ← deref r;
  '(_, r) ← ref_count_inc r;
  Ret (Some r).

(** [direntry_delete] on the open file's direntry. *)
Definition drop_ref (r : option ref_count) : outcome (option ref_count) :=
  r ← deref r;
  '(n, r) ← ref_count_dec r;
  Ret (if (n =? 0)%Z then None else Some r).

(** [chunk_done(read_ctxt, rc, size)]; [direntry_still_exists] and
    [direntry_no_longer_exists] do nothing. *)
Definition chunk_done (read_ctxt : Z) (rc : Z) (size : Z) (w : io) : outcome io :=
  c ← deref (ctxts w !! read_ctxt);
  b ← deref (blocks w !! rc_buf c);
  r ← (if (rc =? 0)%Z
       then data ← mem_read b 0 (Z.to_nat size); Ret (ReplyBuf (rc_req c) data)
       else Ret (ReplyErr (rc_req c) rc));
  refs ← drop_ref (de_refs w);
  Ret (IO (delete (rc_buf c) (blocks w)) (delete read_ctxt (ctxts w)) refs
          (replies w ++ [r])).
