(* ===== verification/StringBuffer.v ===== *)
(** * string_buffer.c: growable strings

    A buffer is a block of [capacity] characters that holds a string of
    [length] characters and its NUL. The functions that take a string free it
    afterwards, so the model keeps whether an argument came from [malloc].
    [printf]-style calls are given the formatted output: what the format and
    its arguments expand to. *)
From S2P Require Import Prelude.

(** ** The code *)

(** A [const char *] argument: its text, from [malloc] or from a literal or
    another block that [free] does not know. *)
Inductive string_arg := Malloced (text : cstr) | Static (text : cstr).

Definition text_of (a : string_arg) : cstr :=
  match a with Malloced s | Static s => s end.
Definition free_const (a : string_arg) : outcome unit :=
  match a with Malloced _ => Ret tt | Static _ => Undef end.

Record string_buffer := StringBuffer {
  capacity : nat;                (* cells allocated for s *)
  length_ : nat;                 (* not including the NUL *)
  s : list (option ascii)        (* None: not written yet *)
}.

(** A C string in memory, with its NUL. *)
Definition stored (t : cstr) : list (option ascii) := Some <$> (t ++ [NUL]).

Definition string_buffer_from_chars (string : string_arg) : outcome string_buffer :=
  let t := text_of string in
  let len := length t in
  s ← mem_write (replicate (len + 1) None) 0 (stored t);
  _ ← free_const string;
  Ret (StringBuffer (len + 1) len s).

Definition string_buffer_new : outcome string_buffer :=
  string_buffer_from_chars (Malloced []).

Definition string_buffer_ensure_capacity (sb : string_buffer) (cap : nat) : string_buffer :=
  let cap := cap + 1 in
  if capacity sb <? cap
  then StringBuffer cap (length_ sb) (s sb ++ replicate (cap - length (s sb)) None)
  else sb.

Definition string_buffer_append (sb : string_buffer) (string : string_arg) : outcome string_buffer :=
  let t := text_of string in
  let len := length t in
  let sb := string_buffer_ensure_capacity sb (length_ sb + len) in
  s' ← mem_write (s sb) (length_ sb) (stored t);
  _ ← free_const string;
  Ret (StringBuffer (capacity sb) (length_ sb + len) s').

(** [vsnprintf(s, size, ...)] for the output [out]: the memory and the result,
    an [int] that is negative for an output it cannot count. *)
Definition vsnprintf (mem : list (option ascii)) (size : nat) (out : cstr)
  : outcome (list (option ascii) * Z) :=
  mem' ← (if size =? 0 then Ret mem else mem_write mem 0 (stored (take (size - 1) out)));
  Ret (mem', if (Z.of_nat (length out) <=? INT_MAX)%Z then Z.of_nat (length out) else (-1)%Z).

Definition string_buffer_printf (sb : string_buffer) (out : cstr) : outcome string_buffer :=
  '(mem, output_size) ← vsnprintf (s sb) (capacity sb) out;
  _ ← c_assert (0 <=? output_size)%Z;
  let sb := StringBuffer (capacity sb) (length_ sb) mem in
  '(sb, output_size) ←
    (if (Z.of_nat (capacity sb) <=? output_size)%Z then
       let sb := string_buffer_ensure_capacity sb (Z.to_nat output_size) in
       '(mem, output_size) ← vsnprintf (s sb) (capacity sb) out;
       _ ← c_assert ((0 <=? output_size)%Z && (output_size <? Z.of_nat (capacity sb))%Z);
       Ret (StringBuffer (capacity sb) (length_ sb) mem, output_size)
     else Ret (sb, output_size));
  Ret (StringBuffer (capacity sb) (Z.to_nat output_size) (s sb)).

Definition string_buffer_peek (sb : string_buffer) : list (option ascii) := s sb.

(** The block returned; the buffer is freed. *)
Definition string_buffer_commit (sb : string_buffer) : outcome (list (option ascii)) :=
  mem_read (s sb) 0 (length_ sb + 1).

(** Callers build strings with sequences of these. *)
Inductive op := Append (a : string_arg) | Printf (out : cstr).

Definition run_op (sb : string_buffer) (o : op) : outcome string_buffer :=
  match o with
  | Append a => string_buffer_append sb a
  | Printf out => string_buffer_printf sb out
  end.
Definition run (sb : string_buffer) (os : list op) : outcome string_buffer :=
  foldl (fun m o => sb ← m; run_op sb o) (Ret sb) os.

(** ** What a buffer holds *)

Record holds (sb : string_buffer) (t : cstr) : Prop := {
  holds_block : length (s sb) = capacity sb;
  holds_length : length_ sb = length t;
  holds_text : exists rest, s sb = stored t ++ rest
}.

(** The C string in a block. *)
Lemma stored_text t : no_nul t -> until_nul (default NUL <$> stored t) = t.
Proof.
  intros H. unfold stored. rewrite <- list_fmap_compose.
  change (default NUL ∘ Some) with (fun c : ascii => c). rewrite list_fmap_id.
  by apply until_nul_app.
Qed.

Lemma stored_length t : length (stored t) = S (length t).
Proof. unfold stored. rewrite length_fmap, length_app. cbn. lia. Qed.

Lemma stored_app t u : stored (t ++ u) = (Some <$> t) ++ stored u.
Proof. unfold stored. by rewrite <- app_assoc, fmap_app. Qed.

Lemma holds_capacity sb t : holds sb t -> length t < capacity sb.
Proof.
  intros [H1 H2 [rest H3]]. rewrite <- H1, H3, length_app, stored_length. lia.
Qed.

Lemma from_chars_ok t :
  exists sb, string_buffer_from_chars (Malloced t) = Ret sb /\ holds sb t.
Proof.
  unfold string_buffer_from_chars. cbn [text_of].
  rewrite mem_write_ok by (rewrite stored_length, length_replicate; lia).
  rewrite bind_ret_l. cbn [free_const]. rewrite bind_ret_l. eexists. split; [done|].
  rewrite take_0, stored_length. split; cbn [capacity length_ s]; [|done|].
  - rewrite !length_app, stored_length, length_drop, length_replicate. cbn. lia.
  - eexists. done.
Qed.

Lemma ensure_ok sb t cap :
  holds sb t -> holds (string_buffer_ensure_capacity sb cap) t /\
    cap < capacity (string_buffer_ensure_capacity sb cap) /\
    length_ (string_buffer_ensure_capacity sb cap) = length_ sb.
Proof.
  intros [H1 H2 [rest H3]]. unfold string_buffer_ensure_capacity.
  destruct (Nat.ltb_spec (capacity sb) (cap + 1)).
  - cbn. split_and!; [|lia|done]. split; cbn; [|done|].
    + rewrite length_app, length_replicate. lia.
    + rewrite H3, <- app_assoc. eauto.
  - split_and!; [split; eauto|lia|done].
Qed.

Lemma append_ok sb t u :
  holds sb t ->
  exists sb', string_buffer_append sb (Malloced u) = Ret sb' /\ holds sb' (t ++ u).
Proof.
  intros H. unfold string_buffer_append. cbn [text_of].
  destruct (ensure_ok sb t (length_ sb + length u) H) as (H' & Hc & Hl).
  set (sb1 := string_buffer_ensure_capacity sb (length_ sb + length u)) in *.
  destruct H' as [H1 H2 [rest H3]].
  rewrite mem_write_ok by (rewrite stored_length, H1; lia).
  rewrite bind_ret_l. cbn [free_const]. rewrite bind_ret_l. eexists. split; [done|].
  assert (Ht : take (length_ sb1) (s sb1) = Some <$> t).
  { rewrite H2, H3. unfold stored. rewrite fmap_app, <- app_assoc.
    apply take_app_length'. by rewrite length_fmap. }
  split; cbn [capacity length_ s].
  - rewrite Ht, !length_app, length_fmap, stored_length, length_drop. lia.
  - by rewrite H2, length_app.
  - rewrite Ht, stored_app, app_assoc. eauto.
Qed.

Lemma vsnprintf_ok mem size out :
  size = length mem -> 0 < size -> (Z.of_nat (length out) <= INT_MAX)%Z ->
  exists mem', vsnprintf mem size out = Ret (mem', Z.of_nat (length out)) /\
    length mem' = length mem /\ exists rest, mem' = stored (take (size - 1) out) ++ rest.
Proof.
  intros -> H0 Hm. unfold vsnprintf. rewrite (proj2 (Nat.eqb_neq _ _)) by lia.
  rewrite mem_write_ok by (rewrite stored_length, length_take; lia). rewrite bind_ret_l.
  rewrite (proj2 (Z.leb_le _ _)) by done. eexists. split; [done|]. split.
  - rewrite !length_app, take_0, length_drop, stored_length, length_take. cbn. lia.
  - rewrite take_0. eauto.
Qed.

Lemma printf_ok sb t out :
  holds sb t -> (Z.of_nat (length out) <= INT_MAX)%Z ->
  exists sb', string_buffer_printf sb out = Ret sb' /\ holds sb' out.
Proof.
  intros H Hm. pose proof (holds_capacity _ _ H) as Hcap. pose proof H as [H1 H2 [rest H3]].
  unfold string_buffer_printf.
  destruct (vsnprintf_ok (s sb) (capacity sb) out) as (mem & E & Hl & r & Hr); [done|lia|done|].
  rewrite E, bind_ret_l. rewrite (proj2 (Z.leb_le 0 _)) by lia. cbn [c_assert]. rewrite bind_ret_l.
  cbn [capacity]. destruct (Z.leb_spec (Z.of_nat (capacity sb)) (Z.of_nat (length out))) as [Hle|Hlt].
  - rewrite Nat2Z.id. set (sb1 := string_buffer_ensure_capacity _ _).
    assert (length (s sb1) = length out + 1 /\ capacity sb1 = length out + 1) as [Hs1 Hc1].
    { unfold sb1, string_buffer_ensure_capacity. cbn [capacity length_ s].
      rewrite (proj2 (Nat.ltb_lt _ _)) by lia. cbn [s capacity].
      rewrite length_app, length_replicate. lia. }
    destruct (vsnprintf_ok (s sb1) (capacity sb1) out) as (mem' & E' & Hl' & r' & Hr'); [lia|lia|done|].
    rewrite E', bind_ret_l. rewrite (proj2 (Z.leb_le _ _)), (proj2 (Z.ltb_lt _ _)) by lia.
    cbn [c_assert andb]. rewrite !bind_ret_l. rewrite Nat2Z.id. eexists. split; [done|].
    split; cbn [capacity length_ s]; [lia|done|].
    rewrite Hr', take_ge by lia. eauto.
  - rewrite bind_ret_l, Nat2Z.id. eexists. split; [done|].
    split; cbn [capacity length_ s]; [lia|done|]. rewrite Hr, take_ge by lia. eauto.
Qed.

Lemma commit_ok sb t : holds sb t -> string_buffer_commit sb = Ret (stored t).
Proof.
  intros [H1 H2 [rest H3]]. unfold string_buffer_commit. rewrite H3, H2.
  rewrite mem_read_ok by (rewrite length_app, stored_length; lia).
  rewrite drop_0, take_app_length' by (rewrite stored_length; lia). done.
Qed.

(** ** The specification: a string that grows or is replaced *)

Definition spec_op (t : cstr) (o : op) : cstr :=
  match o with Append a => t ++ text_of a | Printf out => out end.

(** The caller gives up its string, and outputs are countable. *)
Definition good_op (o : op) : Prop :=
  match o with
  | Append (Malloced _) => True
  | Append (Static _) => False
  | Printf out => (Z.of_nat (length out) <= INT_MAX)%Z
  end.

Lemma run_ok os sb t :
  Forall good_op os -> holds sb t ->
  exists sb', run sb os = Ret sb' /\ holds sb' (foldl spec_op t os).
Proof.
  intros HF. revert sb t. unfold run. induction HF as [|o os Ho HF IH]; intros sb t H; cbn [foldl].
  { eauto. }
  change (Ret sb ≫= _) with (run_op sb o).
  assert (exists sb', run_op sb o = Ret sb' /\ holds sb' (spec_op t o)) as (sb' & -> & H').
  { destruct o as [[u|u]|out]; cbn in *; [by apply append_ok|done|by eapply printf_ok]. }
  by apply IH.
Qed.

(** ** Properties *)

(** C15: a buffer refines a string: whatever sequence of appends (of strings the
    caller gives up) and printfs it goes through, no write leaves its block, no
    assertion fails, and [string_buffer_commit] gives a block that holds exactly
    the string the specification has, with its NUL. In particular printf
    replaces the contents and append adds to them. *)
Theorem string_buffer_refines (os : list op) (Hops : Forall good_op os) :
  exists sb, (sb ← string_buffer_new; run sb os) = Ret sb /\
    string_buffer_commit sb = Ret (stored (foldl spec_op [] os)).
Proof.
  destruct (from_chars_ok []) as (sb0 & E & H). unfold string_buffer_new. rewrite E, bind_ret_l.
  destruct (run_ok os sb0 [] Hops H) as (sb & E' & H'). exists sb. split; [done|].
  by apply commit_ok.
Qed.

Lemma string_buffer_refines_witness :
  exists sb, (sb ← string_buffer_new;
      run sb [Append (Malloced (cs "ab")); Printf (cs "1048576-"); Append (Malloced (cs "x"))]) = Ret sb /\
    string_buffer_commit sb = Ret (stored (cs "1048576-x")).
Proof.
  apply (string_buffer_refines
    [Append (Malloced (cs "ab")); Printf (cs "1048576-"); Append (Malloced (cs "x"))]).
  repeat constructor. vm_compute. discriminate.
Defined.

(** [string_buffer_append] takes ownership of its argument: appending a
    string that [malloc] did not give, such as a literal, is undefined
    behaviour after the copy, on every buffer. *)
Theorem string_buffer_append_literal (sb : string_buffer) (t u : cstr) (H : holds sb t) :
  string_buffer_append sb (Static u) = Undef.
Proof.
  unfold string_buffer_append. cbn [text_of].
  destruct (ensure_ok sb t (length_ sb + length u) H) as (H' & Hc & Hl).
  destruct H' as [H1 _ _]. by rewrite mem_write_ok by (rewrite stored_length, H1; lia).
Qed.

Lemma string_buffer_append_literal_witness :
  string_buffer_append (StringBuffer 1 0 (stored [])) (Static (cs "http://")) = Undef.
Proof.
  apply (string_buffer_append_literal _ []). split; [done|done|by exists []].
Defined.
