(* ===== verification/Uri.v ===== *)
(** * uri.c: uniform resource identifiers

    A URI keeps its components as allocated strings. Its text is composed with
    string_buffer.c, whose [string_buffer_append] frees what it is given: here
    with the blocks in use, [append_arg]. *)
From S2P Require Import Prelude CLib StringBuffer.

(** ** The code *)

Inductive component := Scheme | Userinfo | Host | Port | Path | Query | Fragment.

#[export] Instance component_eq_dec : EqDecision component.
Proof. solve_decision. Defined.

Record uri := Uri {
  scheme : option str;
  userinfo : option str;
  host : option str;
  port : option str;
  path : option str;
  query : option str;
  fragment : option str
}.

Definition uri_new : uri := Uri None None None None None None None.

(** Parsing is not there: [assert(0)]. *)
Definition uri_from_string (s : cstr) : outcome uri := AssertFail.

(** A member of the structure, and its assignment. *)
Definition field (c : component) (u : uri) : option str :=
  match c with
  | Scheme => scheme u | Userinfo => userinfo u | Host => host u | Port => port u
  | Path => path u | Query => query u | Fragment => fragment u
  end.
Definition set_member (c : component) (s : option str) (u : uri) : uri :=
  let '(Uri sc ui h p pa q f) := u in
  match c with
  | Scheme => Uri s ui h p pa q f
  | Userinfo => Uri sc s h p pa q f
  | Host => Uri sc ui s p pa q f
  | Port => Uri sc ui h s pa q f
  | Path => Uri sc ui h p s q f
  | Query => Uri sc ui h p pa s f
  | Fragment => Uri sc ui h p pa q s
  end.

(** [if (f) free(f);] *)
Definition free_field (s : option str) (live : gset nat) : outcome (gset nat) :=
  match s with Some s => str_free s live | None => Ret live end.

Definition uri_delete (u : uri) (live : gset nat) : outcome (gset nat) :=
  live ← free_field (scheme u) live;
  live ← free_field (userinfo u) live;
  live ← free_field (host u) live;
  live ← free_field (port u) live;
  live ← free_field (path u) live;
  live ← free_field (query u) live;
  free_field (fragment u) live.

(** The body of each setter: the old string is freed, the new one copied. *)
Definition uri_set (c : component) (u : uri) (s : cstr) (live : gset nat) : outcome (uri * gset nat) :=
  live ← free_field (field c u) live;
  let '(s, live) := str_new s live in
  Ret (set_member c (Some s) u, live).

Definition uri_set_scheme := uri_set Scheme.
Definition uri_set_userinfo := uri_set Userinfo.
Definition uri_set_host := uri_set Host.
Definition uri_set_port := uri_set Port.
Definition uri_set_path := uri_set Path.
Definition uri_set_query := uri_set Query.
Definition uri_set_fragment := uri_set Fragment.

(** The body of each getter: [strdup], of NULL where nothing is set; reading a
    freed string is undefined too. *)
Definition uri_dup (c : component) (u : uri) (live : gset nat) : outcome (str * gset nat) :=
  s ← deref (field c u);
  if bool_decide (addr s ∈ live) then Ret (str_new (text s) live) else Undef.

Definition uri_get_scheme := uri_dup Scheme.
Definition uri_get_userinfo := uri_dup Userinfo.
Definition uri_get_host := uri_dup Host.
Definition uri_get_port := uri_dup Port.
Definition uri_get_path := uri_dup Path.
Definition uri_get_query := uri_dup Query.
Definition uri_get_fragment := uri_dup Fragment.

(** What is given to [string_buffer_append]: a literal, or a string in a block. *)
Inductive arg := Lit (t : cstr) | Block (s : str).
Definition arg_text (a : arg) : cstr := match a with Lit t => t | Block s => text s end.

(** [string_buffer_append] among the blocks in use: it frees its argument. *)
Definition append_arg (sb : string_buffer) (a : arg) (live : gset nat) : outcome (string_buffer * gset nat) :=
  match a with
  | Lit t => sb ← string_buffer_append sb (Static t); Ret (sb, live)
  | Block s =>
      if bool_decide (addr s ∈ live) then
        sb ← string_buffer_append sb (Malloced (text s));
        live ← str_free s live;
        Ret (sb, live)
      else Undef
  end.

(** [string_buffer_commit], and the C string in the block it returns. *)
Definition commit (sb : string_buffer) (live : gset nat) : outcome (str * gset nat) :=
  mem ← string_buffer_commit sb;
  match mapM id mem with
  | Some cells => Ret (str_new (until_nul cells) live)
  | None => Undef
  end.

(** The members that are set are appended with their separators. *)
Definition append_all (sb : string_buffer) (l : list arg) (live : gset nat)
  : outcome (string_buffer * gset nat) :=
  foldl (fun acc a => '(sb, live) ← acc; append_arg sb a live) (Ret (sb, live)) l.

Definition uri_get_authority (u : uri) (live : gset nat) : outcome (str * gset nat) :=
  sb ← string_buffer_new;
  '(sb, live) ← match userinfo u with
                | Some s => append_all sb [Block s; Lit (cs "@")] live
                | None => Ret (sb, live)
                end;
  '(sb, live) ← match host u with
                | Some s => append_all sb [Block s] live
                | None => Ret (sb, live)
                end;
  '(sb, live) ← match port u with
                | Some s => append_all sb [Lit (cs ":"); Block s] live
                | None => Ret (sb, live)
                end;
  commit sb live.

(** [auth] is never NULL, so the "//" is always there. *)
Definition uri_get (u : uri) (live : gset nat) : outcome (str * gset nat) :=
  sb ← string_buffer_new;
  '(sb, live) ← match scheme u with
                | Some s => append_all sb [Block s; Lit (cs ":")] live
                | None => Ret (sb, live)
                end;
  '(auth, live) ← uri_get_authority u live;
  '(sb, live) ← append_all sb [Lit (cs "//"); Block auth] live;
  live ← str_free auth live;
  p ← (match path u with Some p => Ret p | None => AssertFail end);
  '(sb, live) ← append_all sb [Block p] live;
  '(sb, live) ← match query u with
                | Some s => append_all sb [Lit (cs "?"); Block s] live
                | None => Ret (sb, live)
                end;
  '(sb, live) ← match fragment u with
                | Some s => append_all sb [Lit (cs "#"); Block s] live
                | None => Ret (sb, live)
                end;
  commit sb live.

(** ** Components and their blocks *)

Lemma member_set_eq c s u : field c (set_member c s u) = s.
Proof. by destruct c, u. Qed.
Lemma member_set_ne c c' s u : c <> c' -> field c' (set_member c s u) = field c' u.
Proof. by destruct c, c', u. Qed.
Lemma set_set_eq c s s' u : set_member c s (set_member c s' u) = set_member c s u.
Proof. by destruct c, u. Qed.

(** The blocks of a URI. *)
Definition blocks (u : uri) : list nat :=
  addr <$> omap id [scheme u; userinfo u; host u; port u; path u; query u; fragment u].

Lemma blocks_field c u :
  blocks u ≡ₚ option_list (addr <$> field c u) ++ blocks (set_member c None u).
Proof.
  destruct u as [sc ui h p pa q f]. unfold blocks.
  destruct c; cbn [field set_member scheme userinfo host port path query fragment];
    destruct sc, ui, h, p, pa, q, f; cbn; solve_Permutation.
Qed.

(** [live] is what was in use before, and the URI's own blocks. *)
Record owned (u : uri) (base live : gset nat) : Prop := {
  owned_nodup : NoDup (blocks u);
  owned_live a : a ∈ live <-> a ∈ blocks u \/ a ∈ base;
  owned_new a : a ∈ blocks u -> a ∉ base
}.

Lemma new_owned live : owned uri_new live live.
Proof. split; [constructor| |]; intros a; cbn; set_solver. Qed.

Lemma owned_field u base live c s : owned u base live -> field c u = Some s -> addr s ∈ live.
Proof.
  intros H E. apply (owned_live _ _ _ H). left. rewrite (blocks_field c), E. left.
Qed.

Lemma free_field_ok u base live c :
  owned u base live ->
  exists live', free_field (field c u) live = Ret live' /\ owned (set_member c None u) base live'.
Proof.
  intros H. pose proof (blocks_field c u) as HP. destruct H as [H1 H2 H3].
  destruct (field c u) as [s|] eqn:E; cbn [free_field].
  - assert (addr s ∈ live) as Hs by (apply H2; left; rewrite HP; left).
    rewrite str_free_ok by done. eexists; split; [done|].
    rewrite HP in H1. cbn in H1. apply NoDup_cons in H1 as [Hn H1]. split; [done| |].
    + intros a. rewrite elem_of_difference, elem_of_singleton, H2, HP. cbn. rewrite elem_of_cons. split; [tauto|].
      intros Ha. split.
      * destruct Ha; [left; by right|by right].
      * intros ->. destruct Ha as [Ha | Ha]; [done|]. apply (H3 (addr s)); [|done]. rewrite HP. left.
    + intros a Ha. apply H3. rewrite HP. cbn. by right.
  - exists live. split; [done|]. rewrite HP in H1. split; [done| |]; intros a.
    + by rewrite H2, HP.
    + intros Ha. apply H3. by rewrite HP.
Qed.

Lemma uri_set_ok u base live c t :
  owned u base live ->
  exists s live', uri_set c u t live = Ret (set_member c (Some s) u, live') /\ text s = t /\
    owned (set_member c (Some s) u) base live'.
Proof.
  intros H. destruct (free_field_ok u base live c H) as (live1 & E & [H1 H2 H3]).
  unfold uri_set. rewrite E, bind_ret_l. destruct (str_new t live1) as [s live2] eqn:En.
  unfold str_new in En. injection En as <- <-. eexists _, _. split; [done|]. split; [done|].
  set (s := Str (stdpp.base.fresh live1) t).
  assert (stdpp.base.fresh live1 ∉ live1) as Hf by apply is_fresh.
  assert (blocks (set_member c (Some s) u) ≡ₚ addr s :: blocks (set_member c None u)) as HP.
  { rewrite (blocks_field c), member_set_eq, set_set_eq. done. }
  split.
  - rewrite HP. constructor; [|done]. intros Ha. apply Hf, H2. by left.
  - intros a. rewrite HP, elem_of_union, elem_of_singleton, H2, elem_of_cons. tauto.
  - intros a. rewrite HP, elem_of_cons. intros [-> | Ha]; [|by apply H3].
    intros Hb. apply Hf, H2. by right.
Qed.

Lemma uri_delete_ok u base live : owned u base live -> uri_delete u live = Ret base.
Proof.
  intros H. unfold uri_delete.
  destruct (free_field_ok u base live Scheme H) as (l1 & E1 & H1). cbn [field] in E1. rewrite E1, bind_ret_l.
  destruct (free_field_ok _ _ _ Userinfo H1) as (l2 & E2 & H2).
  destruct (free_field_ok _ _ _ Host H2) as (l3 & E3 & H3).
  destruct (free_field_ok _ _ _ Port H3) as (l4 & E4 & H4).
  destruct (free_field_ok _ _ _ Path H4) as (l5 & E5 & H5).
  destruct (free_field_ok _ _ _ Query H5) as (l6 & E6 & H6).
  destruct (free_field_ok _ _ _ Fragment H6) as (l7 & E7 & H7).
  destruct u as [sc ui h p pa q f]. cbn in *.
  rewrite E2, bind_ret_l, E3, bind_ret_l, E4, bind_ret_l, E5, bind_ret_l, E6, bind_ret_l, E7.
  f_equal. apply set_eq. intros a. rewrite (owned_live _ _ _ H7). cbn. rewrite elem_of_nil. tauto.
Qed.

(** Setters in a row. *)
Fixpoint set_all (u : uri) (sets : list (component * cstr)) (live : gset nat) : outcome (uri * gset nat) :=
  match sets with
  | [] => Ret (u, live)
  | (c, t) :: sets => '(u, live) ← uri_set c u t live; set_all u sets live
  end.

(** The last value each component was given. *)
Definition last_set (sets : list (component * cstr)) (c : component) : option cstr :=
  snd <$> last (filter (fun x => x.1 = c) sets).

Lemma set_all_ok sets u base live :
  owned u base live ->
  exists u' live', set_all u sets live = Ret (u', live') /\ owned u' base live' /\
    forall c, text <$> field c u' =
      match last_set sets c with Some t => Some t | None => text <$> field c u end.
Proof.
  revert u live. induction sets as [|[c t] sets IH] using rev_ind; intros u live H.
  { by exists u, live. }
  assert (forall u live, set_all u (sets ++ [(c, t)]) live =
    ('(u, live) ← set_all u sets live; uri_set c u t live)) as Happ.
  { clear. induction sets as [|[c' t'] sets IH]; intros u live; cbn [app set_all].
    - rewrite bind_ret_l. by destruct (uri_set c u t live) as [[? ?]| | |].
    - destruct (uri_set c' u t' live) as [[u1 l1]| | |]; [|done..]. rewrite !bind_ret_l. apply IH. }
  destruct (IH u live H) as (u1 & l1 & E1 & H1 & Hf). rewrite Happ, E1, bind_ret_l.
  destruct (uri_set_ok u1 base l1 c t H1) as (s & l2 & E2 & Es & H2). exists (set_member c (Some s) u1), l2.
  split; [done|]. split; [done|]. intros c'. unfold last_set in *.
  rewrite filter_app, filter_cons, filter_nil. cbn [fst]. destruct (decide (c = c')) as [-> | Hne].
  - rewrite last_snoc, member_set_eq. cbn. by rewrite Es.
  - rewrite app_nil_r, member_set_ne by done. apply Hf.
Qed.

(** ** Composition *)

Lemma new_buffer : exists sb, string_buffer_new = Ret sb /\ holds sb [].
Proof. apply (from_chars_ok []). Qed.

Lemma append_literal sb t u live : holds sb t -> append_arg sb (Lit u) live = Undef.
Proof. intros H. cbn. by rewrite (string_buffer_append_literal sb t). Qed.

Lemma append_block sb t s live : holds sb t -> addr s ∈ live ->
  exists sb' live', append_arg sb (Block s) live = Ret (sb', live') /\ holds sb' (t ++ text s).
Proof.
  intros H Hs. cbn. rewrite bool_decide_true by done.
  destruct (append_ok sb t (text s) H) as (sb' & -> & H'). rewrite bind_ret_l, str_free_ok by done.
  eexists sb', _. split; [|done]. reflexivity.
Qed.

Lemma append_cons sb a l live :
  append_all sb (a :: l) live =
  ('(sb, live) ← append_arg sb a live; append_all sb l live).
Proof.
  unfold append_all. cbn [foldl]. change (Ret (sb, live) ≫= _) with (append_arg sb a live).
  destruct (append_arg sb a live) as [[sb1 l1]| | |]; [done|..]; cbn; induction l; cbn; auto.
Qed.

(** A literal among what is appended is fatal. *)
Lemma append_fatal sb t a x l live :
  holds sb t -> (forall s, a = Block s -> addr s ∈ live) ->
  append_all sb (a :: Lit x :: l) live = Undef.
Proof.
  intros H Ha. rewrite append_cons. destruct a as [y|s].
  - by rewrite (append_literal sb t).
  - destruct (append_block sb t s live H) as (sb1 & l1 & E & H1); [by apply Ha|].
    rewrite E, bind_ret_l, append_cons. by rewrite (append_literal sb1 _ _ _ H1).
Qed.

(** The "//" at least is a literal. *)
Lemma uri_get_undefined u base live :
  owned u base live ->
  uri_get u live = Undef.
Proof.
  intros H. unfold uri_get. destruct new_buffer as (sb0 & E0 & H0). rewrite E0, bind_ret_l.
  destruct (scheme u) as [sc|] eqn:Es.
  { rewrite (append_fatal sb0 []); [done|done|]. intros s [= <-]. by apply (owned_field u base live Scheme). }
  rewrite bind_ret_l. unfold uri_get_authority. rewrite E0, bind_ret_l.
  destruct (userinfo u) as [ui|] eqn:Eu.
  { rewrite (append_fatal sb0 []); [done|done|]. intros s [= <-]. by apply (owned_field u base live Userinfo). }
  rewrite bind_ret_l.
  assert (exists sb1 t1 live1, match host u with Some s => append_all sb0 [Block s] live
    | None => Ret (sb0, live) end = Ret (sb1, live1) /\ holds sb1 t1) as (sb1 & t1 & live1 & -> & H1).
  { destruct (host u) as [h|] eqn:Eh; [|by exists sb0, [], live].
    destruct (append_block sb0 [] h live H0) as (sb1 & l1 & E1 & H1).
    { by apply (owned_field u base live Host). }
    exists sb1, (text h), l1. by rewrite append_cons, E1. }
  rewrite bind_ret_l.
  assert (forall sb t x l live, holds sb t -> append_all sb (Lit x :: l) live = Undef) as Hlit.
  { intros sb t x l lv Hh. rewrite append_cons. by rewrite (append_literal sb t). }
  destruct (port u) as [p|]; [by rewrite (Hlit sb1 t1)|]. rewrite bind_ret_l.
  unfold commit. rewrite (commit_ok sb1 t1) by done. rewrite bind_ret_l.
  destruct (mapM id (stored t1)) as [cells|]; [|done].
  destruct (str_new (until_nul cells) live1) as [auth live2]. rewrite bind_ret_l.
  by rewrite (Hlit sb0 []).
Qed.

(** A getter copies what is set. *)
Lemma uri_dup_ok u base live c s :
  owned u base live -> field c u = Some s ->
  exists s' live', uri_dup c u live = Ret (s', live') /\ text s' = text s /\ (addr s' ∉ live) /\
    str_free s' live' = Ret live.
Proof.
  intros H Hc. unfold uri_dup. rewrite Hc. cbn [deref]. rewrite bind_ret_l.
  rewrite bool_decide_true by (by eapply owned_field). assert (stdpp.base.fresh live ∉ live) as Hf by apply is_fresh.
  eexists _, _. split; [reflexivity|]. split; [done|]. split; [exact Hf|]. cbn [str_new fst snd].
  unfold str_new. cbn [fst snd]. rewrite str_free_ok by (cbn; set_solver). f_equal. cbn. set_solver.
Qed.

(** ** Properties *)

(** C30: whatever components are set, in whatever order and how often: each
    getter returns a copy of the text its component was given last, in a block of
    its own, and is undefined ([strdup] of NULL) for one that was not set; no
    string is freed twice, and deleting the URI gives back exactly the memory it
    took. Its text is never had: [uri_get] is undefined for every URI, because
    [string_buffer_append] frees what it is given, the "//" is always appended
    and is a literal. *)
Theorem uri_set_get_roundtrip (sets : list (component * cstr)) (live : gset nat) :
  exists u live1, set_all uri_new sets live = Ret (u, live1) /\
    (forall c, match last_set sets c with
               | Some t => exists s live2, uri_dup c u live1 = Ret (s, live2) /\ text s = t /\
                   (addr s ∉ live1) /\ str_free s live2 = Ret live1
               | None => uri_dup c u live1 = Undef
               end) /\
    uri_get u live1 = Undef /\ uri_delete u live1 = Ret live.
Proof.
  destruct (set_all_ok sets uri_new live live (new_owned live)) as (u & live1 & E & H & Hf).
  exists u, live1. split; [done|]. split; [|split; [by eapply uri_get_undefined|by apply uri_delete_ok]].
  intros c. specialize (Hf c). destruct (last_set sets c) as [t|].
  - apply fmap_Some in Hf as (s & Hc & ->). by apply (uri_dup_ok u live).
  - unfold uri_dup. destruct (field c u); [by destruct c|done].
Qed.
