(* ===== verification/Http.v ===== *)
(** * http.c: simple HTTP requests

    A request keeps its headers as a flat array, key and value in turn. The
    system's side of a request is a schedule: the addresses [getaddrinfo] found
    with what [socket] and [connect] did for each, the results of [write], and
    the bytes of the reply with how many of them each [read] finds. The
    request's text is composed with the program's string buffers, as in [Uri]. *)
From S2P Require Import Prelude CLib StringBuffer Uri.

(** ** The code *)

Inductive http_req_state :=
| NEW | CONNECTING | CONNECTED | SENDING | WAITING_HEADERS | WAITING_DATA | DONE.

#[export] Instance http_req_state_eq_dec : EqDecision http_req_state.
Proof. solve_decision. Defined.

Record http_req := Req {
  req_uri : option uri;
  state : http_req_state;
  headers : list (option str);     (* cells: None is not written *)
  header_count : Z
}.

(** [calloc]: no URI, no headers. *)
Definition http_req_new : outcome http_req :=
  let req := Req None NEW [] 0 in
  _ ← c_assert (bool_decide (state req = NEW));
  Ret req.

(** The headers are not freed. *)
Definition http_req_delete (req : http_req) (live : gset nat) : outcome (gset nat) :=
  u ← (match req_uri req with Some u => Ret u | None => AssertFail end);
  uri_delete u live.

Definition http_req_set_uri (req : http_req) (uri_str : cstr) : outcome http_req :=
  u ← uri_from_string uri_str;
  Ret (Req (Some u) (state req) (headers req) (header_count req)).

(** A URI the request had is not freed. *)
Definition http_req_set_components (req : http_req) (host port path : cstr) (live : gset nat)
  : outcome (http_req * gset nat) :=
  let u := uri_new in
  '(u, live) ← uri_set_scheme u (cs "http") live;
  '(u, live) ← uri_set_host u host live;
  '(u, live) ← uri_set_port u port live;
  '(u, live) ← uri_set_path u path live;
  Ret (Req (Some u) (state req) (headers req) (header_count req), live).

(** The index of the first header with the key, from [i] on; [n] are left. *)
Fixpoint header_find_from (n i : nat) (hs : list (option str)) (key : cstr) : outcome (option nat) :=
  match n with
  | 0 => Ret None
  | S n =>
      cell ← deref (hs !! (i * 2));
      header ← deref cell;
      if streq (text header) key then Ret (Some i) else header_find_from n (S i) hs key
  end.
Definition header_find (hs : list (option str)) (count : Z) (key : cstr) : outcome (option nat) :=
  header_find_from (Z.to_nat count) 0 hs key.

(** [*p = s] *)
Definition cell_write (hs : list (option str)) (i : nat) (s : str) : outcome (list (option str)) :=
  if decide (i < length hs) then Ret (<[i := Some s]> hs) else Undef.

(** The array is grown to hold one more pair; the count is an [unsigned]. *)
Definition http_req_set_header (req : http_req) (key value : cstr) (live : gset nat)
  : outcome (http_req * gset nat) :=
  header ← header_find (headers req) (header_count req) key;
  match header with
  | Some i =>
      let '(v, live) := str_new value live in
      hs ← cell_write (headers req) (i * 2 + 1) v;
      Ret (Req (req_uri req) (state req) hs (header_count req), live)
  | None =>
      let n := Z.to_nat (u32 (u32 (header_count req + 1) * 2)) in
      let hs := resize n None (headers req) in
      let i := Z.to_nat (u32 (header_count req * 2)) in
      let '(k, live) := str_new key live in
      hs ← cell_write hs i k;
      let '(v, live) := str_new value live in
      hs ← cell_write hs (i + 1) v;
      Ret (Req (req_uri req) (state req) hs (u32 (header_count req + 1)), live)
  end.

(** A header as the loops read it: both cells, as arguments for the buffer. *)
Definition header_at (hs : list (option str)) (i : nat) : outcome (str * str) :=
  k ← deref (hs !! (i * 2));
  k ← deref k;
  v ← deref (hs !! (i * 2 + 1));
  v ← deref v;
  Ret (k, v).

(** [http_req_dump_headers]: what it prints. *)
Fixpoint dump_headers_from (n i : nat) (hs : list (option str)) : outcome cstr :=
  match n with
  | 0 => Ret []
  | S n =>
      '(k, v) ← header_at hs i;
      rest ← dump_headers_from n (S i) hs;
      Ret (line (cs "header " ++ print_int (Z.of_nat i) ++ cs " | " ++ text k ++ cs ": " ++ text v) ++ rest)
  end.
Definition http_req_dump_headers (req : http_req) : outcome cstr :=
  dump_headers_from (Z.to_nat (header_count req)) 0 (headers req).

(** *** The request's text *)

Fixpoint append_headers (n i : nat) (hs : list (option str)) (buf : string_buffer) (live : gset nat)
  : outcome (string_buffer * gset nat) :=
  match n with
  | 0 => Ret (buf, live)
  | S n =>
      '(k, v) ← header_at hs i;
      '(buf, live) ← append_all buf [Block k; Lit (cs ": "); Block v; Lit [ascii_of_nat 10]] live;
      append_headers n (S i) hs buf live
  end.

Definition version_line : cstr := cs " HTTP/1.1" ++ [ascii_of_nat 10; ascii_of_nat 10].

(** The blank line is sent before the headers. *)
Definition make_req_string (req : http_req) (live : gset nat) : outcome (str * gset nat) :=
  buf ← string_buffer_new;
  u ← deref (req_uri req);
  '(path, live) ← uri_get_path u live;
  '(buf, live) ← append_all buf [Lit (cs "GET "); Block path; Lit version_line] live;
  live ← str_free path live;
  '(buf, live) ← append_headers (Z.to_nat (header_count req)) 0 (headers req) buf live;
  commit buf live.

(** *** Connecting *)

(** A result of [getaddrinfo]: whether it is an IPv4 or IPv6 address of a
    stream socket, what [socket] returned for it and whether [connect] worked. *)
Record addrinfo := AddrInfo { inet : bool; stream_ : bool; sock : Z; connects : bool }.

(** The loop over the results: [s], and whether it was left with [break]. *)
Fixpoint connect_loop (ais : list addrinfo) (s : option Z) : outcome (option Z * bool) :=
  match ais with
  | [] => Ret (s, false)
  | ai :: ais =>
      _ ← c_assert (inet ai);
      _ ← c_assert (stream_ ai);
      if (sock ai =? -1)%Z then connect_loop ais (Some (sock ai))
      else if connects ai then Ret (Some (sock ai), true)
      else connect_loop ais (Some (sock ai))     (* close(s) *)
  end.

Definition set_state (s : http_req_state) (req : http_req) : http_req :=
  Req (req_uri req) s (headers req) (header_count req).

(** [rc] of [getaddrinfo]: on an error its results are not set, and read all
    the same. The socket is returned whatever became of it. *)
Definition establish_connection (req : http_req) (rc : Z) (ais : list addrinfo) (live : gset nat)
  : outcome (Z * http_req * gset nat) :=
  let req := set_state CONNECTING req in
  u ← deref (req_uri req);
  '(h, live) ← uri_get_host u live;
  '(p, live) ← uri_get_port u live;
  if (rc =? 0)%Z then
    '(s, ok) ← connect_loop ais None;
    let req := if ok : bool then set_state CONNECTED req else req in
    live ← str_free p live;
    live ← str_free h live;
    s ← deref s;
    Ret (s, req, live)
  else Undef.

(** *** Sending and receiving *)

(** A return of [write]: interrupted, another error, or so many bytes taken, at
    most what it was given. *)
Inductive write_result := EINTR | WriteError | Wrote (n : nat).

(** [while (len)]: the bytes the peer has been sent, [out] those before.
    [written] is an [int]. *)
Fixpoint send_loop (rs : list write_result) (buf out : cstr) : outcome cstr :=
  if decide (buf = []) then Ret out else
  match rs with
  | [] => Blocked
  | EINTR :: rs => send_loop rs buf out
  | WriteError :: rs => AssertFail
  | Wrote n :: rs =>
      let n := Nat.min n (length buf) in
      let written := i32 (Z.of_nat n) in
      if (written =? -1)%Z then AssertFail else
      _ ← c_assert (u64 written <=? Z.of_nat (length buf))%Z;
      send_loop rs (drop (Z.to_nat (u64 written)) buf) (out ++ take n buf)
  end.

Definition sock_send_buf (s : Z) (buf : cstr) (rs : list write_result) : outcome cstr :=
  _ ← c_assert (0 <=? s)%Z;
  send_loop rs buf [].

Definition BUF_SIZE : nat := 1024.

(** A return of [read]: an error, or so many bytes there (one or more) unless
    the stream has ended. *)
Inductive read_result := ReadError | Ready (n : nat).

(** The inner loop. The block, the cursor's offset in it and the sizes are
    updated by [red], a [size_t]: for an error it is 2^64 - 1, which moves the
    cursor back. Returns the block, [buf_valid], the last [red], and what is
    left of stream and schedule. *)
Fixpoint fill_loop (rs : list read_result) (input : cstr) (mem : list (option ascii)) (cur valid remain : Z)
  : outcome (list (option ascii) * Z * Z * cstr * list read_result) :=
  match rs with
  | [] => Blocked
  | r :: rs =>
      '(red, mem, input) ←
        match r with
        | ReadError => Ret (u64 (-1), mem, input)
        | Ready n =>
            let n := Nat.min (Nat.min (S (n - 1)) (Z.to_nat remain)) (length input) in
            if (cur <? 0)%Z && negb (n =? 0) then Undef else
            mem ← mem_write mem (Z.to_nat cur) (Some <$> take n input);
            Ret (Z.of_nat n, mem, drop n input)
        end;
      let cur := (if (red =? u64 (-1))%Z then cur - 1 else cur + red)%Z in
      let valid := u64 (valid + red) in
      let remain := u64 (remain - red) in
      if negb (red =? 0)%Z && negb (remain =? 0)%Z
      then fill_loop rs input mem cur valid remain
      else Ret (mem, valid, red, input, rs)
  end.

(** The outer loop: [data_cb]'s calls, each with the block and [buf_valid].
    [fuel] bounds the blocks. *)
Fixpoint slurp_loop (fuel : nat) (rs : list read_result) (input : cstr)
  : outcome (list (list (option ascii) * Z)) :=
  match fuel with
  | 0 => Blocked
  | S fuel =>
      '(mem, valid, red, input, rs) ←
        fill_loop rs input (replicate BUF_SIZE None) 0%Z 0%Z (Z.of_nat BUF_SIZE);
      if (red =? 0)%Z then Ret [(mem, valid)] else
      calls ← slurp_loop fuel rs input;
      Ret ((mem, valid) :: calls)
  end.

Definition sock_slurp (req : http_req) (s : Z) (rs : list read_result) (input : cstr)
  : outcome (http_req * list (list (option ascii) * Z)) :=
  _ ← c_assert (negb (s =? -1))%Z;
  let req := set_state WAITING_DATA (set_state WAITING_HEADERS req) in
  calls ← slurp_loop (S (length rs)) rs input;
  Ret (set_state DONE req, calls).

(** What the system does during a request. *)
Record network := Network {
  gai_rc : Z; gai_results : list addrinfo;
  writes : list write_result; reads : list read_result; reply : cstr
}.

(** [req_str] is freed after it is sent. Returns 0, the request, what was sent
    and the calls of [data_cb]. *)
Definition http_req_send (req : http_req) (net : network) (live : gset nat)
  : outcome (Z * http_req * cstr * list (list (option ascii) * Z) * gset nat) :=
  '(sock, req, live) ← establish_connection req (gai_rc net) (gai_results net) live;
  '(req_str, live) ← make_req_string req live;
  let req := set_state SENDING req in
  sent ← sock_send_buf sock (text req_str) (writes net);
  live ← str_free req_str live;
  '(req, calls) ← sock_slurp req sock (reads net) (reply net);
  Ret (0%Z, req, sent, calls, live).

(** ** Sending *)

(** The schedule has no error and takes at least a byte each time. *)
Definition taking (r : write_result) : Prop := r = EINTR \/ exists n, r = Wrote (S n).
Definition took (r : write_result) : nat := match r with Wrote _ => 1 | _ => 0 end.

Lemma send_loop_ok rs : forall buf out,
  Forall taking rs -> length buf <= list_sum (took <$> rs) -> (Z.of_nat (length buf) < 2 ^ 31)%Z ->
  send_loop rs buf out = Ret (out ++ buf).
Proof.
  induction rs as [|r rs IH]; intros buf out HF Hl Hb; cbn [send_loop];
    (destruct (decide (buf = [])) as [-> | Hne]; [by rewrite app_nil_r|]).
  { cbn in Hl. destruct buf; [done|cbn in Hl; lia]. }
  apply Forall_cons in HF as [Hr HF]. destruct Hr as [-> | [n ->]]; [by apply IH|].
  assert (0 < length buf) as Hpos by (destruct buf; [done|cbn; lia]).
  set (k := Nat.min (S n) (length buf)). assert (0 < k <= length buf) as Hk by lia. clearbody k.
  rewrite i32_id by lia. rewrite (proj2 (Z.eqb_neq _ _)) by lia. rewrite u64_id by lia.
  rewrite (proj2 (Z.leb_le _ _)) by lia. cbn [c_assert]. rewrite bind_ret_l, Nat2Z.id.
  rewrite IH; [by rewrite <- app_assoc, take_drop|done| |]; rewrite length_drop; [|lia].
  cbn in Hl. unfold list_sum in *. lia.
Qed.

(** ** Receiving *)

Definition ready (r : read_result) : Prop := r <> ReadError.

(** A block that has the bytes of [p], as [data_cb] is given it. *)
Definition block_of (p : cstr) : list (option ascii) * Z :=
  ((Some <$> p) ++ replicate (BUF_SIZE - length p) None, Z.of_nat (length p)).

(** The stream in pieces of [BUF_SIZE]; the last one is shorter. *)
Fixpoint pieces (fuel : nat) (s : cstr) : list cstr :=
  match fuel with
  | 0 => []
  | S fuel => if decide (length s < BUF_SIZE) then [s] else take BUF_SIZE s :: pieces fuel (drop BUF_SIZE s)
  end.

Lemma fill_step (w p : cstr) :
  length w + length p <= BUF_SIZE ->
  mem_write (fst (block_of w)) (length w) (Some <$> p) = Ret (fst (block_of (w ++ p))).
Proof.
  intros H. rewrite mem_write_ok.
  - cbn [block_of fst]. rewrite take_app_length' by (by rewrite length_fmap).
    rewrite fmap_app, <- app_assoc, length_fmap, drop_app_ge by (rewrite length_fmap; lia).
    rewrite length_fmap, drop_replicate, length_app.
    replace (BUF_SIZE - length w - (length w + length p - length w)) with (BUF_SIZE - (length w + length p)) by lia.
    done.
  - cbn [block_of fst]. rewrite length_app, !length_fmap, length_replicate. lia.
Qed.

Lemma fill_loop_ok rs : forall input w,
  Forall ready rs -> length input < length rs -> length w < BUF_SIZE ->
  exists red rs', fill_loop rs input (fst (block_of w)) (Z.of_nat (length w)) (Z.of_nat (length w))
      (Z.of_nat (BUF_SIZE - length w))
    = Ret (fst (block_of (w ++ take (BUF_SIZE - length w) input)),
           snd (block_of (w ++ take (BUF_SIZE - length w) input)), red,
           drop (BUF_SIZE - length w) input, rs') /\
    Forall ready rs' /\ length rs' < length rs /\
    (red = 0%Z <-> length input < BUF_SIZE - length w) /\
    (red <> 0%Z -> length (drop (BUF_SIZE - length w) input) < length rs').
Proof.
  assert (2 * Z.of_nat BUF_SIZE < 2 ^ 64)%Z as HB by done. assert (BUF_SIZE <> 0) as HB0 by done.
  remember BUF_SIZE as B eqn:EB.
  induction rs as [|r rs IH]; intros input w HF Hl Hw; [cbn in Hl; lia|].
  apply Forall_cons in HF as [Hr HF]. destruct r as [|n]; [done|]. cbn [fill_loop].
  set (k := Nat.min (Nat.min (S (n - 1)) (Z.to_nat (Z.of_nat (B - length w)))) (length input)).
  assert (k <= B - length w /\ k <= length input /\ (k = 0 -> input = [])) as (Hk1 & Hk2 & Hk3).
  { split_and!; [lia|lia|]. intros Hk. destruct input; [done|]. cbn [length] in *. lia. }
  clearbody k. rewrite (proj2 (Z.ltb_ge _ _)) by lia. cbn [andb]. rewrite Nat2Z.id.
  rewrite fill_step by (rewrite length_take; lia). rewrite !bind_ret_l.
  rewrite (proj2 (Z.eqb_neq (Z.of_nat k) (u64 (-1)))) by (change (u64 (-1)) with (2 ^ 64 - 1)%Z; lia).
  rewrite !u64_id by lia.
  destruct (decide (k = 0)) as [Hz | Hnz].
  { specialize (Hk3 Hz). subst k input. cbn [Z.eqb negb andb Z.of_nat]. exists 0%Z, rs.
    rewrite !take_nil, !drop_nil, !app_nil_r. cbn [length block_of snd fst]. rewrite Z.add_0_r.
    split; [done|]. split; [done|]. cbn. split_and!; try done; lia. }
  rewrite (proj2 (Z.eqb_neq (Z.of_nat k) 0)) by lia. cbn [negb andb].
  assert (Z.of_nat (B - length w) - Z.of_nat k = Z.of_nat (B - length (w ++ take k input)))%Z as E1.
  { rewrite length_app, length_take. lia. }
  assert (Z.of_nat (length w) + Z.of_nat k = Z.of_nat (length (w ++ take k input)))%Z as E2.
  { rewrite length_app, length_take. lia. }
  rewrite E1, E2.
  destruct (decide (B - length (w ++ take k input) = 0)) as [Hfull | Hmore].
  - rewrite Hfull. cbn [Z.of_nat Z.eqb negb].
    assert (k = B - length w) as -> by (rewrite length_app, length_take in Hfull; lia).
    exists (Z.of_nat (B - length w)), rs. split; [done|]. split; [done|]. cbn [length]. split; [lia|]. split; [lia|].
    rewrite length_drop. cbn [length] in Hl. lia.
  - rewrite (proj2 (Z.eqb_neq _ _)) by lia. cbn [negb].
    destruct (IH (drop k input) (w ++ take k input)) as (red & rs' & E & HF' & Hlen & Hred & Hd); [done| | |].
    { rewrite length_drop. cbn [length] in Hl. lia. } { lia. }
    exists red, rs'. rewrite E.
    assert (B - length w = k + (B - length (w ++ take k input))) as Ek by (rewrite length_app, length_take in *; lia).
    rewrite <- app_assoc, (take_take_drop input k), <- Ek, drop_drop, <- Ek.
    split; [done|]. split; [done|]. cbn [length]. split; [lia|]. rewrite drop_drop, <- Ek in Hd. split; [|done].
    rewrite Hred, length_drop, Ek. lia.
Qed.

Lemma slurp_loop_ok fuel : forall rs input,
  Forall ready rs -> length input < length rs -> length rs < fuel ->
  slurp_loop fuel rs input = Ret (block_of <$> pieces fuel input).
Proof.
  induction fuel as [|fuel IH]; intros rs input HF Hl Hf; [lia|]. cbn [slurp_loop pieces].
  destruct (fill_loop_ok rs input [] HF Hl) as (red & rs' & E & HF' & Hlen & Hred & Hd); [cbn; unfold BUF_SIZE; lia|].
  cbn [length app] in *. rewrite Nat.sub_0_r in *.
  change (fst (block_of [])) with (replicate BUF_SIZE (@None ascii)) in E.
  change (Z.of_nat 0) with 0%Z in E. rewrite E, bind_ret_l.
  destruct (decide (length input < BUF_SIZE)) as [Hs | Hs].
  - rewrite (proj2 Hred Hs). cbn [Z.eqb]. rewrite take_ge by lia. done.
  - rewrite (proj2 (Z.eqb_neq _ _)) by (rewrite Hred; done).
    rewrite IH; [done|done| |lia]. apply Hd. by rewrite Hred.
Qed.

Lemma pieces_fuel f1 : forall f2 s, length s < f1 -> length s < f2 -> pieces f1 s = pieces f2 s.
Proof.
  induction f1 as [|f1 IH]; intros [|f2] s H1 H2; [lia..|]. cbn [pieces].
  destruct (decide (length s < BUF_SIZE)); [done|]. f_equal.
  assert (length (drop BUF_SIZE s) < length s) as Hd.
  { rewrite length_drop. unfold BUF_SIZE in *. lia. }
  apply IH; lia.
Qed.

Lemma pieces_concat f : forall s, length s < f -> concat (pieces f s) = s.
Proof.
  induction f as [|f IH]; intros s H; [lia|]. cbn [pieces].
  destruct (decide (length s < BUF_SIZE)); cbn [concat]; [by rewrite app_nil_r|].
  rewrite IH; [by rewrite take_drop|]. rewrite length_drop. unfold BUF_SIZE in *. lia.
Qed.

(** ** Headers *)

(** The headers as a list of pairs: a key keeps the place it got first. *)
Fixpoint upsert (l : list (cstr * cstr)) (key value : cstr) : list (cstr * cstr) :=
  match l with
  | [] => [(key, value)]
  | (k, v) :: l => if streq k key then (k, value) :: l else (k, v) :: upsert l key value
  end.

(** The cells that hold [l]; the strings' blocks are whatever they are. *)
Definition pair_texts (p : str * str) : cstr * cstr := (text p.1, text p.2).
Definition cells (ps : list (str * str)) : list (option str) := concat ((fun p => [Some p.1; Some p.2]) <$> ps).

Record holds_headers (req : http_req) (ps : list (str * str)) : Prop := {
  hh_cells : headers req = cells ps;
  hh_count : header_count req = Z.of_nat (length ps)
}.

Lemma cells_length ps : length (cells ps) = length ps * 2.
Proof. unfold cells. induction ps as [|p ps IH]; cbn in *; [done|]. by rewrite IH. Qed.

Lemma cells_lookup ps i : 
  cells ps !! (i * 2) = (fun p => Some p.1) <$> ps !! i /\
  cells ps !! (i * 2 + 1) = (fun p => Some p.2) <$> ps !! i.
Proof.
  unfold cells. revert i. induction ps as [|p ps IH]; intros [|i]; cbn; [done..|]. apply IH.
Qed.

Lemma cells_app ps ps' : cells (ps ++ ps') = cells ps ++ cells ps'.
Proof. unfold cells. by rewrite fmap_app, concat_app. Qed.

Lemma header_find_ok key ps : forall n i,
  n = length ps - i -> i <= length ps ->
  header_find_from n i (cells ps) key =
    Ret (match list_find (fun p => text p.1 = key) (drop i ps) with Some (j, _) => Some (i + j) | None => None end).
Proof.
  induction n as [|n IH]; intros i Hn Hi; cbn [header_find_from].
  { rewrite drop_ge by lia. done. }
  destruct (lookup_lt_is_Some_2 ps i) as [p Ep]; [lia|].
  destruct (cells_lookup ps i) as [E1 _]. rewrite E1, Ep. cbn [fmap option_fmap option_map deref].
  rewrite !bind_ret_l. cbn [deref]. rewrite bind_ret_l. rewrite (drop_S ps p i Ep). cbn [list_find].
  destruct (decide (text p.1 = key)) as [Ek | Ek].
  - rewrite (proj2 (streq_true _ _) Ek). by rewrite Nat.add_0_r.
  - rewrite (proj2 (streq_false _ _) Ek). rewrite IH by lia.
    destruct (list_find _ (drop (S i) ps)) as [[j q]|]; cbn; [|done]. by rewrite Nat.add_succ_r.
Qed.

Lemma upsert_find ps key value v :
  text v = value ->
  match list_find (fun p => text p.1 = key) ps with
  | Some (i, p) => pair_texts <$> <[i := (p.1, v)]> ps = upsert (pair_texts <$> ps) key value
  | None => upsert (pair_texts <$> ps) key value = (pair_texts <$> ps) ++ [(key, value)]
  end.
Proof.
  intros Hv. induction ps as [|p ps IH]; cbn; [done|].
  destruct (decide (text p.1 = key)) as [Ek | Ek].
  - rewrite (proj2 (streq_true _ _) Ek). cbn. unfold pair_texts at 1. cbn. by rewrite Hv.
  - rewrite (proj2 (streq_false _ _) Ek).
    destruct (list_find _ ps) as [[i q]|]; cbn; by f_equal.
Qed.

Lemma cells_set ps i p v : ps !! i = Some p -> cells (<[i := (p.1, v)]> ps) = <[i * 2 + 1 := Some v]> (cells ps).
Proof.
  unfold cells. revert i. induction ps as [|q ps IH]; intros [|i] E; cbn in *; [done|done| |].
  - injection E as ->. done.
  - do 2 f_equal. by apply IH.
Qed.

(** The blocks of the headers are in use. *)
Definition headers_live (ps : list (str * str)) (live : gset nat) : Prop :=
  Forall (fun p => addr p.1 ∈ live /\ addr p.2 ∈ live) ps.

Lemma headers_live_sub ps live live' : live ⊆ live' -> headers_live ps live -> headers_live ps live'.
Proof. intros Hs H. eapply Forall_impl; [exact H|]. set_solver. Qed.

Lemma owned_extend u base live a :
  owned u base live -> a ∉ live -> owned u ({[ a ]} ∪ base) ({[ a ]} ∪ live).
Proof.
  intros [H1 H2 H3] Ha. split; [done| |].
  - intros b. rewrite !elem_of_union, H2. tauto.
  - intros b Hb. rewrite not_elem_of_union, not_elem_of_singleton. split; [|by apply H3].
    intros ->. apply Ha, H2. by left.
Qed.

Lemma str_new_eq s live : str_new s live = (Str (stdpp.base.fresh live) s, {[ stdpp.base.fresh live ]} ∪ live).
Proof. done. Qed.

Lemma cell_write_ok hs i s : i < length hs -> cell_write hs i s = Ret (<[i := Some s]> hs).
Proof. intros H. unfold cell_write. by rewrite decide_True. Qed.

Lemma set_header_ok req ps u base live key value :
  holds_headers req ps -> headers_live ps live -> owned u base live -> (Z.of_nat (length ps) < 2 ^ 30)%Z ->
  exists req' ps' base' live', http_req_set_header req key value live = Ret (req', live') /\
    holds_headers req' ps' /\ headers_live ps' live' /\ owned u base' live' /\
    pair_texts <$> ps' = upsert (pair_texts <$> ps) key value /\
    req_uri req' = req_uri req /\ state req' = state req.
Proof.
  intros [Hc Hn] Hl Ho Hlen. unfold http_req_set_header, header_find. rewrite Hc, Hn, Nat2Z.id.
  rewrite (header_find_ok key ps (length ps) 0) by lia. rewrite drop_0, bind_ret_l.
  pose proof (upsert_find ps key value (Str (stdpp.base.fresh live) value) eq_refl) as HU.
  destruct (list_find _ ps) as [[i p]|] eqn:Ef.
  - apply list_find_Some in Ef as (Ep & _ & _). rewrite str_new_eq, Nat.add_0_l.
    pose proof (lookup_lt_Some _ _ _ Ep) as Hi.
    rewrite cell_write_ok by (rewrite cells_length; lia). rewrite bind_ret_l.
    set (v := Str (stdpp.base.fresh live) value) in *.
    exists (Req (req_uri req) (state req) (<[i * 2 + 1 := Some v]> (cells ps)) (header_count req)),
      (<[i := (p.1, v)]> ps), ({[ addr v ]} ∪ base), ({[ addr v ]} ∪ live).
    rewrite Hn. split; [done|]. split_and!; try done.
    + split; cbn [headers header_count]; [by rewrite cells_set|by rewrite length_insert].
    + apply Forall_insert; [eapply headers_live_sub; [|done]; set_solver|].
      pose proof (Forall_lookup_1 _ _ _ _ Hl Ep) as [? ?]. cbn. set_solver.
    + apply owned_extend; [done|]. apply is_fresh.
  - rewrite !str_new_eq. set (k := Str (stdpp.base.fresh live) key). set (live1 := {[ addr k ]} ∪ live).
    set (v := Str (stdpp.base.fresh live1) value).
    change (2 ^ 30)%Z with 1073741824%Z in Hlen.
    rewrite (u32_id (Z.of_nat (length ps) + 1)), (u32_id ((Z.of_nat (length ps) + 1) * 2)),
      (u32_id (Z.of_nat (length ps) * 2)) by lia.
    replace (Z.to_nat ((Z.of_nat (length ps) + 1) * 2)) with (length ps * 2 + 2) by lia.
    replace (Z.to_nat (Z.of_nat (length ps) * 2)) with (length ps * 2) by lia.
    rewrite resize_ge by (rewrite cells_length; lia). rewrite cells_length.
    replace (length ps * 2 + 2 - length ps * 2) with 2 by lia. cbn [replicate].
    rewrite cell_write_ok by (rewrite length_app, cells_length; cbn; lia). rewrite bind_ret_l.
    rewrite cell_write_ok by (rewrite length_insert, length_app, cells_length; cbn; lia). rewrite bind_ret_l.
    exists (Req (req_uri req) (state req) (cells (ps ++ [(k, v)])) (Z.of_nat (length ps) + 1)), (ps ++ [(k, v)]),
      ({[ addr v ]} ∪ ({[ addr k ]} ∪ base)), ({[ addr v ]} ∪ live1).
    split.
    { do 3 f_equal. rewrite cells_app. rewrite <- (cells_length ps).
      rewrite insert_app_r_alt by lia. rewrite Nat.sub_diag. cbn [list_insert insert].
      rewrite insert_app_r_alt by lia. by replace (length (cells ps) + 1 - length (cells ps)) with 1 by lia. }
    split_and!; try done.
    + split; cbn [headers header_count]; [done|]. rewrite length_app. cbn. lia.
    + apply Forall_app. split; [eapply headers_live_sub; [|done]; set_solver|].
      repeat constructor; cbn; set_solver.
    + apply owned_extend; [|apply is_fresh]. apply owned_extend; [done|apply is_fresh].
    + rewrite fmap_app. cbn. by rewrite HU.
Qed.

(** Headers set in a row. *)
Fixpoint set_headers (req : http_req) (kvs : list (cstr * cstr)) (live : gset nat) : outcome (http_req * gset nat) :=
  match kvs with
  | [] => Ret (req, live)
  | (k, v) :: kvs => '(req, live) ← http_req_set_header req k v live; set_headers req kvs live
  end.

Definition header_table (kvs : list (cstr * cstr)) : list (cstr * cstr) :=
  foldl (fun l kv => upsert l kv.1 kv.2) [] kvs.

Lemma upsert_length l k v : length (upsert l k v) <= S (length l).
Proof. induction l as [|[k' v'] l IH]; cbn; [done|]. destruct (streq k' k); cbn; lia. Qed.

Lemma set_headers_ok kvs : forall req ps u base live,
  holds_headers req ps -> headers_live ps live -> owned u base live ->
  (Z.of_nat (length ps + length kvs) < 2 ^ 30)%Z ->
  exists req' ps' base' live', set_headers req kvs live = Ret (req', live') /\
    holds_headers req' ps' /\ headers_live ps' live' /\ owned u base' live' /\
    pair_texts <$> ps' = foldl (fun l kv => upsert l kv.1 kv.2) (pair_texts <$> ps) kvs /\
    req_uri req' = req_uri req /\ state req' = state req.
Proof.
  induction kvs as [|[k v] kvs IH]; intros req ps u base live Hh Hl Ho Hlen; cbn [set_headers foldl].
  { by exists req, ps, base, live. }
  cbn [length] in Hlen.
  destruct (set_header_ok req ps u base live k v Hh Hl Ho) as (r1 & p1 & b1 & l1 & -> & Hh1 & Hl1 & Ho1 & Et1 & Eu1 & Es1); [lia|].
  rewrite bind_ret_l.
  assert (length p1 <= S (length ps)) as Hp1.
  { rewrite <- (length_fmap pair_texts p1), Et1. etransitivity; [apply upsert_length|]. by rewrite length_fmap. }
  destruct (IH r1 p1 u b1 l1 Hh1 Hl1 Ho1) as (r2 & p2 & b2 & l2 & -> & Hh2 & Hl2 & Ho2 & Et2 & Eu2 & Es2); [lia|].
  exists r2, p2, b2, l2. split; [done|]. split_and!; try done; [by rewrite Et2, Et1|congruence|congruence].
Qed.

(** ** The dump of the headers *)

Lemma header_at_ok ps i k v : ps !! i = Some (k, v) -> header_at (cells ps) i = Ret (k, v).
Proof.
  intros E. destruct (cells_lookup ps i) as [E1 E2]. unfold header_at.
  rewrite E1, E2, E. cbn. done.
Qed.

Definition header_line (i : nat) (kv : cstr * cstr) : cstr :=
  line (cs "header " ++ print_int (Z.of_nat i) ++ cs " | " ++ kv.1 ++ cs ": " ++ kv.2).

Lemma dump_headers_from_ok ps n : forall i,
  n = length ps - i ->
  dump_headers_from n i (cells ps) =
    Ret (concat (imap (fun j kv => header_line (i + j) kv) (pair_texts <$> drop i ps))).
Proof.
  induction n as [|n IH]; intros i Hn; cbn [dump_headers_from]; [by rewrite drop_ge by lia|].
  destruct (lookup_lt_is_Some_2 ps i) as [[k v] Ep]; [lia|].
  rewrite (header_at_ok ps i k v Ep), bind_ret_l, IH, bind_ret_l by lia.
  rewrite (drop_S ps _ i Ep). cbn [fmap list_fmap imap concat]. rewrite Nat.add_0_r.
  do 3 f_equal. apply imap_ext. intros j kv _. cbn. by rewrite Nat.add_succ_r.
Qed.

(** The dump has a line for each header, in the order they were first set. *)
Lemma dump_headers_ok req ps :
  holds_headers req ps ->
  http_req_dump_headers req = Ret (concat (imap header_line (pair_texts <$> ps))).
Proof.
  intros [Hc Hn]. unfold http_req_dump_headers. rewrite Hc, Hn, Nat2Z.id.
  by rewrite (dump_headers_from_ok ps (length ps) 0) by lia.
Qed.

(** ** Connecting *)

(** No connection comes of these; then one does. *)
Definition hopeless (ai : addrinfo) : Prop := inet ai = true /\ stream_ ai = true /\ (sock ai = -1 \/ connects ai = false)%Z.
Definition promising (ai : addrinfo) : Prop := inet ai = true /\ stream_ ai = true /\ (sock ai <> -1)%Z /\ connects ai = true.

Lemma connect_loop_ok failed ai rest : forall s,
  Forall hopeless failed -> promising ai -> connect_loop (failed ++ ai :: rest) s = Ret (Some (sock ai), true).
Proof.
  intros s HF (Hi & Hst & Hs & Hc). revert s. induction HF as [|f failed (Hfi & Hfs & Hf) HF IH]; intros s; cbn [app connect_loop].
  - rewrite Hi, Hst. cbn [c_assert]. rewrite !bind_ret_l, Hc. by rewrite (proj2 (Z.eqb_neq _ _)).
  - rewrite Hfi, Hfs. cbn [c_assert]. rewrite !bind_ret_l.
    destruct (sock f =? -1)%Z eqn:E; [apply IH|]. destruct Hf as [Hf | ->]; [|apply IH].
    apply Z.eqb_neq in E. done.
Qed.

Lemma establish_ok req u base live h p failed ai rest :
  req_uri req = Some u -> owned u base live -> host u = Some h -> port u = Some p ->
  Forall hopeless failed -> promising ai ->
  establish_connection req 0 (failed ++ ai :: rest) live = Ret (sock ai, set_state CONNECTED req, live).
Proof.
  intros Eu Ho Eh Ep HF Hai. unfold establish_connection. cbn [set_state req_uri]. rewrite Eu. cbn [deref].
  rewrite bind_ret_l. unfold uri_get_host, uri_get_port, uri_dup. cbn [field]. rewrite Eh, Ep. cbn [deref].
  rewrite !bind_ret_l. rewrite bool_decide_true by (by apply (owned_field u base live Host)).
  rewrite str_new_eq, !bind_ret_l.
  rewrite bool_decide_true by (apply elem_of_union; right; by apply (owned_field u base live Port)).
  rewrite str_new_eq, bind_ret_l. cbn [Z.eqb]. rewrite connect_loop_ok, bind_ret_l by done.
  set (a := stdpp.base.fresh live). assert (a ∉ live) as Ha by apply is_fresh.
  set (b := stdpp.base.fresh ({[ a ]} ∪ live)). assert (b ∉ {[ a ]} ∪ live) as Hb by apply is_fresh.
  clearbody b. clearbody a. rewrite str_free_ok, bind_ret_l by (cbn; set_solver). cbn [addr].
  rewrite str_free_ok, bind_ret_l by (cbn; set_solver). cbn [addr deref]. rewrite bind_ret_l.
  replace (({[ b ]} ∪ ({[ a ]} ∪ live)) ∖ {[ b ]} ∖ {[ a ]}) with live by set_solver. by destruct req.
Qed.

Definition usable (ai : addrinfo) : Prop := inet ai = true /\ stream_ ai = true.

Lemma connect_loop_returns ais : forall s, Forall usable ais -> returns (connect_loop ais s).
Proof.
  intros s HF. revert s. induction HF as [|ai ais [Hi Hs] HF IH]; intros s; cbn [connect_loop]; [by eexists|].
  rewrite Hi, Hs. cbn [c_assert]. rewrite !bind_ret_l.
  destruct (_ =? _)%Z; [apply IH|]. destruct (connects ai); [by eexists|apply IH].
Qed.

(** What can become of connecting: a socket, or undefined behaviour. *)
Lemma establish_cases req rc ais live :
  Forall usable ais ->
  returns (establish_connection req rc ais live) \/ establish_connection req rc ais live = Undef.
Proof.
  intros HF. unfold establish_connection. cbn [set_state req_uri].
  destruct (req_uri req) as [u|]; [cbn [deref]; rewrite bind_ret_l|by right].
  unfold uri_get_host, uri_get_port, uri_dup. destruct (field Host u) as [h|]; [cbn [deref]; rewrite bind_ret_l|by right].
  destruct (bool_decide _); [|by right]. rewrite str_new_eq, bind_ret_l.
  destruct (field Port u) as [p|]; [cbn [deref]; rewrite bind_ret_l|by right].
  destruct (bool_decide _); [|by right]. rewrite str_new_eq, bind_ret_l.
  destruct (rc =? 0)%Z; [|by right]. destruct (connect_loop_returns ais None HF) as [[s ok] ->]. rewrite bind_ret_l.
  unfold str_free. destruct (bool_decide _); [rewrite bind_ret_l|by right].
  destruct (bool_decide _); [rewrite bind_ret_l|by right].
  destruct s as [s|]; [|by right]. left. cbn [deref]. rewrite bind_ret_l. by eexists.
Qed.

(** ** A whole request *)

Lemma sock_send_ok s buf rs :
  (0 <= s)%Z -> Forall taking rs -> length buf <= list_sum (took <$> rs) ->
  (Z.of_nat (length buf) < 2 ^ 31)%Z -> sock_send_buf s buf rs = Ret buf.
Proof.
  intros Hs Hrs Hn Hbuf. unfold sock_send_buf. rewrite (proj2 (Z.leb_le _ _)) by done.
  cbn [c_assert]. rewrite bind_ret_l. by rewrite send_loop_ok.
Qed.

Lemma sock_slurp_ok req s rs input :
  s <> (-1)%Z -> Forall ready rs -> length input < length rs ->
  sock_slurp req s rs input = Ret (set_state DONE req, block_of <$> pieces (S (length input)) input).
Proof.
  intros Hs Hrs Hn. unfold sock_slurp. rewrite (proj2 (Z.eqb_neq _ _)) by done.
  cbn [negb c_assert]. rewrite bind_ret_l, slurp_loop_ok, bind_ret_l by (done || lia).
  rewrite (pieces_fuel (S (length rs)) (S (length input))) by lia. by destruct req.
Qed.

Definition make_request (host port path : cstr) (kvs : list (cstr * cstr)) (live : gset nat)
  : outcome (http_req * gset nat) :=
  req ← http_req_new;
  '(req, live) ← http_req_set_components req host port path live;
  set_headers req kvs live.

Lemma make_request_ok h p pa kvs live :
  (Z.of_nat (length kvs) < 2 ^ 30)%Z ->
  exists req ps u base live' hs ps' pas, make_request h p pa kvs live = Ret (req, live') /\
    holds_headers req ps /\ headers_live ps live' /\ owned u base live' /\ req_uri req = Some u /\
    (host u = Some hs /\ port u = Some ps' /\ path u = Some pas /\ text pas = pa) /\
    pair_texts <$> ps = header_table kvs.
Proof.
  intros Hlen. unfold make_request, http_req_new. cbn [state]. rewrite bool_decide_true by done. cbn [c_assert].
  rewrite !bind_ret_l. unfold http_req_set_components, uri_set_scheme, uri_set_host, uri_set_port, uri_set_path.
  destruct (uri_set_ok uri_new live live Scheme (cs "http") (new_owned live)) as (s1 & l1 & -> & T1 & O1). rewrite bind_ret_l.
  destruct (uri_set_ok _ _ _ Host h O1) as (s2 & l2 & -> & T2 & O2). rewrite bind_ret_l.
  destruct (uri_set_ok _ _ _ Port p O2) as (s3 & l3 & -> & T3 & O3). rewrite bind_ret_l.
  destruct (uri_set_ok _ _ _ Path pa O3) as (s4 & l4 & -> & T4 & O4). rewrite !bind_ret_l.
  cbn [state headers header_count].
  set (u := set_member Path (Some s4) _) in *.
  destruct (set_headers_ok kvs (Req (Some u) NEW [] 0) [] u live l4) as (req & ps & base & l5 & E & Hh & Hl & Ho & Et & Eu & _).
  { by split. } { constructor. } { done. } { cbn. lia. }
  exists req, ps, u, base, l5, s2, s3, s4. split; [done|]. split_and!; try done.
Qed.

(** ** Properties *)

(** C32: [sock_send_buf] ends and the peer has been sent exactly the buffer,
    however the writes are interrupted and however little each takes. *)
Theorem sock_send_buf_sends_all (s : Z) (buf : cstr) (rs : list write_result)
    (Hs : (0 <= s)%Z) (Hrs : Forall taking rs) (Hn : length buf <= list_sum (took <$> rs))
    (Hbuf : (Z.of_nat (length buf) < 2 ^ 31)%Z) :
  sock_send_buf s buf rs = Ret buf.
Proof. by apply sock_send_ok. Qed.

(** C29: [sock_slurp] ends when the stream does, if no read fails, and its
    callback has been given the whole stream, in order, in blocks of 1024 bytes
    of which only the last one is not full (it may be empty), however the bytes
    come in. *)
Theorem sock_slurp_delivers (req : http_req) (s : Z) (rs : list read_result) (input : cstr)
    (Hs : s <> (-1)%Z) (Hrs : Forall ready rs) (Hn : length input < length rs) :
  exists ps, sock_slurp req s rs input = Ret (set_state DONE req, block_of <$> ps) /\
    concat ps = input /\ ps = pieces (S (length input)) input.
Proof.
  exists (pieces (S (length input)) input). split; [by apply sock_slurp_ok|].
  split; [apply pieces_concat; lia|done].
Qed.

(** However headers are set, a request keeps one of each key, in the order they
    were first set, with the value it was given last: so its dump shows. *)
Theorem last_header_wins (h p pa : cstr) (kvs : list (cstr * cstr)) (live : gset nat)
    (Hlen : (Z.of_nat (length kvs) < 2 ^ 30)%Z) :
  exists req live', make_request h p pa kvs live = Ret (req, live') /\
    header_count req = Z.of_nat (length (header_table kvs)) /\
    http_req_dump_headers req = Ret (concat (imap header_line (header_table kvs))).
Proof.
  destruct (make_request_ok h p pa kvs live Hlen) as (req & ps & u & base & live' & hs & ps' & pas & E & Hh & _ & _ & _ & _ & Et).
  exists req, live'. split; [done|]. rewrite <- Et. split; [|by apply dump_headers_ok].
  rewrite length_fmap. by destruct Hh.
Qed.

Lemma last_header_wins_witness :
  exists req live', make_request (cs "h") (cs "80") (cs "/") [(cs "a", cs "0"); (cs "b", cs "2"); (cs "a", cs "1")] ∅ =
      Ret (req, live') /\
    header_count req = 2%Z /\
    http_req_dump_headers req = Ret (line (cs "header 0 | a: 1") ++ line (cs "header 1 | b: 2")).
Proof.
  apply (last_header_wins (cs "h") (cs "80") (cs "/") [(cs "a", cs "0"); (cs "b", cs "2"); (cs "a", cs "1")] ∅).
  reflexivity.
Defined.

(** With the string buffers of this program no request is ever sent: once
    the request is made, whatever the system does about its addresses,
    [http_req_send] runs into undefined behaviour before it writes a byte. *)
Theorem http_req_send_frees_literals (h p pa : cstr) (kvs : list (cstr * cstr)) (live : gset nat) (net : network)
    (Hlen : (Z.of_nat (length kvs) < 2 ^ 30)%Z)
    (Hai : Forall usable (gai_results net)) :
  exists req live1, make_request h p pa kvs live = Ret (req, live1) /\
    http_req_send req net live1 = Undef.
Proof.
  destruct (make_request_ok h p pa kvs live Hlen)
    as (req & ps & u & base & live1 & hs & ps' & pas & E & Hh & Hl & Ho & Eu & (Eh & Ep & Epa & Et) & Etab).
  exists req, live1. split; [done|]. unfold http_req_send.
  destruct (establish_cases req (gai_rc net) (gai_results net) live1 Hai) as [[[[s req1] live2] ->] | ->]; [|done].
  rewrite bind_ret_l. unfold make_req_string. destruct new_buffer as (sb0 & -> & H0). rewrite bind_ret_l.
  destruct (req_uri req1) as [u1|]; [|done]. cbn [deref]. rewrite bind_ret_l.
  unfold uri_get_path, uri_dup. destruct (field Path u1) as [q|]; [|done]. cbn [deref]. rewrite bind_ret_l.
  destruct (bool_decide _); [|done]. rewrite str_new_eq, bind_ret_l, append_cons.
  by rewrite (append_literal sb0 []).
Qed.

(** ** Witnesses *)

Lemma sock_send_buf_sends_all_witness :
  sock_send_buf 3 (cs "GET") [EINTR; Wrote 1; EINTR; Wrote 5; Wrote 1] = Ret (cs "GET").
Proof.
  apply (sock_send_buf_sends_all 3 (cs "GET") [EINTR; Wrote 1; EINTR; Wrote 5; Wrote 1]).
  - lia.
  - repeat (apply Forall_cons; split; [by (left + (right; eexists))|]). constructor.
  - cbn. lia.
  - done.
Defined.

Lemma sock_slurp_delivers_witness :
  exists ps, sock_slurp (Req None SENDING [] 0) 3 [Ready 2; Ready 1; Ready 7; Ready 1] (cs "abc")
      = Ret (set_state DONE (Req None SENDING [] 0), block_of <$> ps) /\
    concat ps = cs "abc" /\ ps = pieces 4 (cs "abc").
Proof.
  apply (sock_slurp_delivers (Req None SENDING [] 0) 3 [Ready 2; Ready 1; Ready 7; Ready 1] (cs "abc")).
  - done.
  - by repeat constructor.
  - cbn. lia.
Defined.

Lemma http_req_send_frees_literals_witness :
  exists req live1, make_request (cs "h") (cs "80") (cs "/") [] ∅ = Ret (req, live1) /\
    http_req_send req (Network 0 [AddrInfo true true 4 true] [] [] []) live1 = Undef.
Proof.
  apply (http_req_send_frees_literals (cs "h") (cs "80") (cs "/") [] ∅
    (Network 0 [AddrInfo true true 4 true] [] [] [])); [done|]. by repeat constructor.
Defined.
