(* ===== verification/Fetcher.v ===== *)
(** * fetcher.c: HTTP transfers through libcurl

    libcurl is the parameter [Curl]: a transfer is what the server side does,
    pieces handed to the write or header function, then a result. The
    callbacks reach libcurl as [void *] pointers, so the model says what object
    each points to: [fetcher_fetch_headers] and [fetcher_fetch_body] build the
    wrapper object the callbacks expect but register the client's own. *)
From S2P Require Import Prelude CLib Constants StringBuffer ReadContext.

(** ** libcurl *)

Definition CURLE_OK : Z := 0.
Definition CURLE_COULDNT_CONNECT : Z := 7.
Definition CURLE_PARTIAL_FILE : Z := 18.
Definition CURLE_HTTP_RETURNED_ERROR : Z := 22.
Definition CURLE_WRITE_ERROR : Z := 23.

Record transfer := Transfer {
  pieces : list (list ascii);   (* body buffers, or header lines *)
  code : Z;                     (* the result if the callback takes them all *)
  response : Z                  (* CURLINFO_RESPONSE_CODE *)
}.

(** [curl_easy_perform] calls the function registered on each piece until it
    takes fewer bytes than it was given, which is [CURLE_WRITE_ERROR]. *)
Class Curl := {
  curl_easy_perform {S} : transfer -> (list ascii -> S -> outcome (Z * S)) -> S -> outcome (Z * S);
  curl_done {S} t (cb : list ascii -> S -> outcome (Z * S)) s :
    pieces t = [] -> curl_easy_perform t cb s = Ret (code t, s);
  curl_piece {S} t (cb : list ascii -> S -> outcome (Z * S)) s d ds :
    pieces t = d :: ds ->
    curl_easy_perform t cb s =
      ('(n, s) ← cb d s;
       if (n =? Z.of_nat (length d))%Z
       then curl_easy_perform (Transfer ds (code t) (response t)) cb s
       else Ret (CURLE_WRITE_ERROR, s))
}.

(** A libcurl that follows a script. *)
Fixpoint perform_script {S} (ps : list (list ascii)) (code : Z)
    (cb : list ascii -> S -> outcome (Z * S)) (s : S) : outcome (Z * S) :=
  match ps with
  | [] => Ret (code, s)
  | d :: ds =>
      '(n, s) ← cb d s;
      if (n =? Z.of_nat (length d))%Z then perform_script ds code cb s
      else Ret (CURLE_WRITE_ERROR, s)
  end.

Definition script_curl : Curl.
Proof.
  refine {| curl_easy_perform S t cb s := perform_script (pieces t) (code t) cb s |}.
  - by intros S t cb s ->.
  - by intros S t cb s d ds ->.
Defined.

(** ** The code *)

(** What [curl_global_init] returns is not looked at. *)
Definition fetcher_init : Z := 0.

Record fetcher := Fetcher { url : cstr; slist : list cstr }.

(** The configured alias goes out as a header. *)
Definition fetcher_new (url : cstr) (config_alias : cstr) : outcome fetcher :=
  alias ← string_buffer_new;
  alias ← string_buffer_append alias (Malloced fs2_alias_header_key);
  alias ← string_buffer_append alias (Malloced config_alias);
  Ret (Fetcher url [until_nul (default NUL <$> string_buffer_peek alias)]).

Definition http2errno (http_code : Z) : Z :=
  if bool_decide (http_code ∈ [200%Z; 206%Z]) then 0
  else if (http_code =? 404)%Z then ENOENT
  else if (http_code =? 503)%Z then EBUSY
  else EIO.

(** [response] is read with [curl_easy_getinfo] as a [long] and passed as an
    [int]. *)
Definition process_curl_response (response : Z) (curl_rc : Z) : Z :=
  if (curl_rc =? CURLE_OK)%Z || (curl_rc =? CURLE_HTTP_RETURNED_ERROR)%Z
  then http2errno (i32 response)
  else if (curl_rc =? CURLE_WRITE_ERROR)%Z then 0
  else if (curl_rc =? CURLE_PARTIAL_FILE)%Z then 0
  else if (curl_rc =? CURLE_COULDNT_CONNECT)%Z then ENOENT
  else EIO.

(** What a callback's [void *] points to: the wrapper context with the client's
    callback and its context, or some other object. *)
Inductive pointee (F : Type) := WrapperCtxt (cb : F) | OtherObject.
Arguments WrapperCtxt {F} _.
Arguments OtherObject {F}.

(** [wrapper_ctxt->cb], a call through a field of whatever [ctxt] points to. *)
Definition wrapper_cb {F} (ctxt : pointee F) : outcome F :=
  match ctxt with WrapperCtxt cb => Ret cb | OtherObject => Undef end.

Section Code.
Context {S : Type}.

(** [strncpy] into a fresh block of [n + 1] characters, then [block[n] = 0]:
    the string it holds. A [size_t] [n] that wrapped round is past any block. *)
Definition strncpy_terminated (src : list ascii) (n : Z) : outcome cstr :=
  if (n <? 0)%Z then Undef else Ret (until_nul (take (Z.to_nat n) src)).

(** A header line of [len] characters; the result is the bytes taken. *)
Definition header_cb_wrapper (ctxt : pointee (cstr -> cstr -> S -> outcome (Z * S)))
    (header : list ascii) (w : S) : outcome (Z * S) :=
  let len := Z.of_nat (length header) in
  match strchr ":" header with
  | None => Ret (len, w)
  | Some colon =>
      let key_len := Z.of_nat colon in
      key ← strncpy_terminated header key_len;
      value ← strncpy_terminated (drop colon header) (len - key_len - 2);
      cb ← wrapper_cb ctxt;
      '(rc, w) ← cb key value w;
      Ret (if (rc =? 0)%Z then len else 0%Z, w)
  end.

Definition body_cb_wrapper (ctxt : pointee (list ascii -> S -> outcome (Z * S)))
    (data : list ascii) (w : S) : outcome (Z * S) :=
  cb ← wrapper_cb ctxt;
  '(rc, w) ← cb data w;
  Ret (if (rc =? 0)%Z then Z.of_nat (length data) else 0%Z, w).

Context `{Curl}.

(** [t] is what the server does for the fetcher's URL (and range). The object
    registered as the callback's data is [header_cb_ctxt], the client's, and not
    the wrapper context that was filled in for the client's callback and
    context: [w] is what the client's context is to that callback. *)
Definition fetcher_fetch_headers (t : transfer) (header_cb : cstr -> cstr -> S -> outcome (Z * S))
    (header_cb_ctxt : pointee (cstr -> cstr -> S -> outcome (Z * S))) (w : S) : outcome (Z * S) :=
  let header_cb_wrapper_ctxt := WrapperCtxt header_cb in
  '(curl_rc, w) ← curl_easy_perform t (header_cb_wrapper header_cb_ctxt) w;
  Ret (process_curl_response (response t) curl_rc, w).

Definition fetcher_fetch_body (t : transfer) (body_cb : list ascii -> S -> outcome (Z * S))
    (body_cb_ctxt : pointee (list ascii -> S -> outcome (Z * S))) (w : S) : outcome (Z * S) :=
  let body_cb_wrapper_ctxt := WrapperCtxt body_cb in
  '(curl_rc, w) ← curl_easy_perform t (body_cb_wrapper body_cb_ctxt) w;
  Ret (process_curl_response (response t) curl_rc, w).

End Code.

Definition is_ip4_address (s : cstr) : bool := strspn (cs "0123456789.") s =? length s.
Definition is_ip6_address (s : cstr) : bool :=
  strspn (cs "0123456789abcdefABCDEF:") s =? length s.

(** The strings that are passed are never null here. *)
Definition fetcher_make_http_url (host port path : cstr) : outcome cstr :=
  sb ← string_buffer_new;
  _ ← c_assert (negb (length host =? 0));
  _ ← c_assert (negb (length port =? 0));
  let out := if is_ip4_address host || is_ip6_address host
             then cs "http://[" ++ host ++ cs "]:" ++ port ++ cs "/" ++ path
             else cs "http://" ++ host ++ cs ":" ++ port ++ cs "/" ++ path in
  sb ← string_buffer_printf sb out;
  block ← string_buffer_commit sb;
  Ret (until_nul (default NUL <$> block)).

(** ** Facts *)

Lemma http2errno_range c : http2errno c ∈ [0; ENOENT; EBUSY; EIO]%Z.
Proof.
  unfold http2errno. repeat case_match; set_solver.
Qed.

Lemma fetcher_new_ok u config_alias : exists f, fetcher_new u config_alias = Ret f /\ url f = u.
Proof.
  unfold fetcher_new, string_buffer_new. destruct (from_chars_ok []) as (sb & -> & H). rewrite bind_ret_l.
  destruct (append_ok _ _ fs2_alias_header_key H) as (sb1 & -> & H1). rewrite bind_ret_l.
  destruct (append_ok _ _ config_alias H1) as (sb2 & -> & H2). rewrite bind_ret_l. by eexists.
Qed.

(** A fetch through a client's own context: an empty body ends with the verdict on
    libcurl's result, any other body with a wild call. *)
Lemma fetch_body_outcome `{Curl} {S} (t : transfer) cb (w : S) :
  fetcher_fetch_body t cb OtherObject w =
    match pieces t with
    | [] => Ret (process_curl_response (response t) (code t), w)
    | _ :: _ => Undef
    end.
Proof.
  unfold fetcher_fetch_body. destruct (pieces t) as [|d ds] eqn:E; [by rewrite curl_done|].
  by rewrite (curl_piece _ _ _ d ds).
Qed.

(** ** Properties *)

(** C37: [fetcher_fetch_body] registers its client's context in place of the
    wrapper context it has filled in, and the first byte of any body makes
    [body_cb_wrapper] call through whatever that context starts with. *)
Theorem fetch_body_wild_call `{Curl} {S} (t : transfer) (cb : list ascii -> S -> outcome (Z * S))
    (w : S) (d : list ascii) (ds : list (list ascii)) (Hbody : pieces t = d :: ds) :
  fetcher_fetch_body t cb OtherObject w = Undef.
Proof. by rewrite fetch_body_outcome, Hbody. Qed.

Lemma fetch_body_wild_call_witness :
  @fetcher_fetch_body nat script_curl (Transfer [cs "<html>"] CURLE_OK 200)
    (fun _ n => Ret (0%Z, n)) OtherObject 0 = Undef.
Proof. apply (@fetch_body_wild_call script_curl nat _ _ 0 (cs "<html>") []). reflexivity. Defined.

(** [header_cb_wrapper] splits the header line ["key: value\r\n"] before its
    colon: the callback is given the key alone and a value that starts with the
    colon; a line without a colon is skipped. *)
Theorem header_split {S} (key value : cstr) (cb : cstr -> cstr -> S -> outcome (Z * S))
    (w : S) (Hkey : no_nul key) (Hvalue : no_nul value) (Hcolon : ":"%char ∉ key) :
  header_cb_wrapper (WrapperCtxt cb) (key ++ cs ":" ++ value ++ ["013"; "010"]%char) w =
    ('(rc, w) ← cb key (":"%char :: value) w;
     Ret (if (rc =? 0)%Z then Z.of_nat (length key + length value + 3) else 0%Z, w)) /\
  header_cb_wrapper (WrapperCtxt cb) key w = Ret (Z.of_nat (length key), w).
Proof.
  split.
  - unfold header_cb_wrapper. cbn [cs String.list_ascii_of_string app].
    rewrite strchr_app by done. unfold strncpy_terminated.
    rewrite (proj2 (Z.ltb_ge (Z.of_nat (length key)) 0)) by lia.
    rewrite (proj2 (Z.ltb_ge _ _)) by (rewrite length_app; cbn [length]; rewrite length_app; cbn; lia).
    rewrite Nat2Z.id, take_app_length, drop_app_length, !bind_ret_l. cbn [wrapper_cb].
    rewrite bind_ret_l.
    rewrite until_nul_id by done.
    replace (Z.to_nat _) with (1 + length value)
      by (rewrite length_app; cbn [length]; rewrite length_app; cbn; lia).
    cbn [Nat.add take]. rewrite take_app_length. rewrite (until_nul_id (":"%char :: value))
      by (constructor; done).
    destruct (cb key _ w) as [[rc w']| | |]; try done. rewrite !bind_ret_l. case_match; [|done].
    do 3 f_equal. rewrite length_app. cbn [length]. rewrite length_app. cbn. lia.
  - unfold header_cb_wrapper. by rewrite (proj2 (strchr_None _ _)).
Qed.

Lemma header_split_witness :
  @header_cb_wrapper (list (cstr * cstr)) (WrapperCtxt (fun k v w => Ret (0%Z, (k, v) :: w)))
    (cs "fs2-version" ++ cs ":" ++ cs " 0.13" ++ ["013"; "010"]%char) [] =
    Ret (19%Z, [(cs "fs2-version", cs ": 0.13")]) /\
  @header_cb_wrapper (list (cstr * cstr)) (WrapperCtxt (fun k v w => Ret (0%Z, (k, v) :: w)))
    (cs "fs2-version") [] = Ret (11%Z, []).
Proof.
  apply (@header_split (list (cstr * cstr)) (cs "fs2-version") (cs " 0.13")
    (fun k v w => Ret (0%Z, (k, v) :: w)) []).
  - repeat constructor; discriminate.
  - repeat constructor; discriminate.
  - apply (bool_decide_unpack _). vm_compute. reflexivity.
Defined.

(** [fetcher_make_http_url] gives a URL of host, port and path; a host made
    only of digits and dots, or only of hexadecimal digits and colons, is put
    in brackets, so IPv4 addresses and names like "cafe" are too. *)
Theorem make_http_url_correct (host port path : cstr)
    (Hhost : host <> []) (Hport : port <> [])
    (Hnul : no_nul (host ++ port ++ path))
    (Hsize : (Z.of_nat (length (host ++ port ++ path)) + 11 <= INT_MAX)%Z) :
  fetcher_make_http_url host port path = Ret
    (if bool_decide (Forall (.∈ cs "0123456789.") host)
        || bool_decide (Forall (.∈ cs "0123456789abcdefABCDEF:") host)
     then cs "http://[" ++ host ++ cs "]:" ++ port ++ cs "/" ++ path
     else cs "http://" ++ host ++ cs ":" ++ port ++ cs "/" ++ path).
Proof.
  assert (Ha : forall l : cstr, l <> [] -> c_assert (negb (length l =? 0)) = Ret tt)
    by (by intros []).
  assert (Hb : forall set l, (strspn set l =? length l) = bool_decide (Forall (.∈ set) l)).
  { intros set l. apply eq_bool_prop_intro. rewrite bool_decide_spec, <- strspn_full.
    by rewrite Is_true_true, Nat.eqb_eq. }
  apply no_nul_app in Hnul as [Hh Hnul]. apply no_nul_app in Hnul as [Hp Hn].
  rewrite !length_app in Hsize.
  unfold fetcher_make_http_url, is_ip4_address, is_ip6_address. rewrite !Ha, !Hb by done.
  destruct (from_chars_ok []) as (sb & E & H). unfold string_buffer_new. rewrite E, !bind_ret_l.
  cbn zeta. set (out := if _ || _ then _ else _) in *.
  assert (Ho : (Z.of_nat (length out) <= INT_MAX)%Z /\ no_nul out).
  { subst out. destruct (_ || _); rewrite !length_app; cbn [cs String.list_ascii_of_string length];
      (split; [lia|]); repeat (apply no_nul_app; split); try done;
      repeat constructor; discriminate. }
  destruct (printf_ok sb [] out H (proj1 Ho)) as (sb' & -> & H').
  rewrite bind_ret_l, (commit_ok _ _ H'), bind_ret_l. by rewrite stored_text by apply Ho.
Qed.

Lemma make_http_url_correct_witness :
  fetcher_make_http_url (cs "10.0.0.1") (cs "8080") (cs "browse/") =
    Ret (cs "http://[10.0.0.1]:8080/browse/").
Proof.
  apply (make_http_url_correct (cs "10.0.0.1") (cs "8080") (cs "browse/"));
    [discriminate|discriminate|repeat constructor; discriminate|vm_compute; discriminate].
Defined.
