(* ===== verification/Parsers.v ===== *)
(** * parser_xml.c, parser_filelist.c, parser_stats.c: reading an indexnode's pages

    libxml2 is a stream of SAX callbacks. [parser_xml.c] turns each into events
    for a client; the file list and statistics parsers are state machines over
    events. A string a parser keeps is a block it allocated, so it has an
    address: whoever is given it must free it once. *)
From S2P Require Import Prelude CLib Constants.

(** ** parser_xml.c *)

Inductive parser_xml_event :=
| TAG_START | TEXT | TAG_END | ATTRIBUTE.

(** The callback's arguments: [name] and [value], the second may be NULL. *)
Record event := Event {
  ev : parser_xml_event;
  name : cstr;
  value : option cstr
}.

(** libxml2's calls. Attributes are a local name and a value; [Characters]
    gives the memory from [ch] on and [len]. *)
Inductive sax :=
| StartElementNs (localname : cstr) (attributes : list (cstr * cstr))
| EndElementNs (localname : cstr)
| Characters (ch : list ascii) (len : Z).

Fixpoint find_id (attributes : list (cstr * cstr)) (id : option cstr) : option cstr :=
  match attributes with
  | [] => id
  | (localname, v) :: rest =>
      find_id rest (if streq localname (cs "id") then Some v else id)
  end.

Definition on_start_element_ns (localname : cstr) (attributes : list (cstr * cstr)) : list event :=
  Event TAG_START localname (find_id attributes None)
  :: ((fun a => Event ATTRIBUTE (fst a) (Some (snd a)))
        <$> filter (fun a => fst a <> cs "id") attributes).

Definition on_end_element_ns (localname : cstr) : list event :=
  [Event TAG_END localname None].

(** [strspn] runs until the first character that is not white space, wherever
    [len] is; off the end of the memory it is undefined. *)
Definition on_characters (ch : list ascii) (len : Z) : outcome (list event) :=
  let n := strspn [" "; "009"; "010"; "013"]%char ch in
  if length ch <=? n then Undef
  else if (i32 (Z.of_nat n) =? len)%Z then Ret []
  else
    chars ← mem_read ch 0 (Z.to_nat len);
    Ret [Event TEXT (until_nul chars) None].

Definition on_sax (x : sax) : outcome (list event) :=
  match x with
  | StartElementNs localname attributes => Ret (on_start_element_ns localname attributes)
  | EndElementNs localname => Ret (on_end_element_ns localname)
  | Characters ch len => on_characters ch len
  end.

(** [parser_xml_consume] with a client's callback: the calls libxml2 makes for
    the data, in order. *)
Fixpoint parser_xml_consume {S} (cb : event -> S -> outcome S) (xs : list sax) (s : S) : outcome S :=
  match xs with
  | [] => Ret s
  | x :: xs =>
      es ← on_sax x;
      s ← foldl (fun m e => s ← m; cb e s) (Ret s) es;
      parser_xml_consume cb xs s
  end.

(** [parser_xml_delete]: the last call of [xmlParseChunk] gives what libxml2
    still [held] back; then its memory is freed. *)
Definition parser_xml_delete {S} (cb : event -> S -> outcome S) (held : list sax) (s : S) : outcome S :=
  parser_xml_consume cb held s.

(** A parser's life: the buffers of a page as they come, then the end. *)
Definition parse {S} (cb : event -> S -> outcome S) (bufs : list (list sax)) (held : list sax) (s : S)
  : outcome S :=
  s ← foldl (fun m xs => s ← m; parser_xml_consume cb xs s) (Ret s) bufs;
  parser_xml_delete cb held s.

Lemma foldl_blocked {S E} (cb : E -> S -> outcome S) es m :
  (forall s, m <> Ret s) -> foldl (fun m e => s ← m; cb e s) m es = m.
Proof.
  revert m. induction es as [|e es IH]; intros m Hm; cbn [foldl]; [done|].
  destruct m as [s| | |]; [by destruct (Hm s)|..]; by rewrite IH.
Qed.

Lemma foldl_ret_app {S E} (cb : E -> S -> outcome S) es es' s :
  foldl (fun m e => s ← m; cb e s) (Ret s) (es ++ es') =
    (s ← foldl (fun m e => s ← m; cb e s) (Ret s) es; foldl (fun m e => s ← m; cb e s) (Ret s) es').
Proof.
  rewrite foldl_app. destruct (foldl _ (Ret s) es); [done|..]; by rewrite foldl_blocked.
Qed.

Lemma consume_app {S} (cb : event -> S -> outcome S) xs ys s :
  parser_xml_consume cb (xs ++ ys) s = (s ← parser_xml_consume cb xs s; parser_xml_consume cb ys s).
Proof.
  revert s. induction xs as [|x xs IH]; intros s; cbn [app parser_xml_consume]; [done|].
  destruct (on_sax x) as [es| | |]; [|done..]. rewrite !bind_ret_l.
  destruct (foldl _ _ es) as [s'| | |]; [|done..]. rewrite !bind_ret_l. apply IH.
Qed.

(** However a page is cut, its callbacks are the whole's. *)
Lemma parse_cut {S} (cb : event -> S -> outcome S) bufs held s :
  parse cb bufs held s = parser_xml_consume cb (concat bufs ++ held) s.
Proof.
  unfold parse, parser_xml_delete. rewrite consume_app. f_equal.
  revert s. induction bufs as [|xs bufs IH]; intros s; cbn [foldl concat]; [done|].
  rewrite bind_ret_l, consume_app.
  destruct (parser_xml_consume cb xs s) as [s'| | |]; [apply IH|by rewrite foldl_blocked..].
Qed.

(** ** parser_filelist.c *)

Module Filelist.

Inductive state_t :=
| WAITING_FOR_DIV_FILELIST | WAITING_FOR_A | CONSUMING_A.

(** The arguments of [nativefs_entry_found_cb_t]. *)
Record entry := Entry {
  e_hash : option str;
  e_name : option str;
  e_type : option str;
  e_size : Z;
  e_link_count : Z;
  e_href : option str;
  e_client : option str
}.

Record parser := Parser {
  state : state_t;
  fields : entry;              (* what the next call will be given *)
  next : nat;                  (* the next address [strdup] gives *)
  calls : list entry           (* the calls of cb, oldest first *)
}.

Definition parser_filelist_new : parser :=
  Parser WAITING_FOR_DIV_FILELIST (Entry None None None 0 0 None None) 0 [].

Definition set_state (p : parser) (st : state_t) : parser :=
  Parser st (fields p) (next p) (calls p).

(** One attribute of an [<a>]. *)
Definition set_field (f : entry) (n : nat) (name value : cstr) : entry * nat :=
  let v := Some (Str n value) in
  if streq name fs2_name_attribute_key then
    (Entry (e_hash f) v (e_type f) (e_size f) (e_link_count f) (e_href f) (e_client f), S n)
  else if streq name fs2_hash_attribute_key then
    (Entry v (e_name f) (e_type f) (e_size f) (e_link_count f) (e_href f) (e_client f), S n)
  else if streq name fs2_type_attribute_key then
    (Entry (e_hash f) (e_name f) v (e_size f) (e_link_count f) (e_href f) (e_client f), S n)
  else if streq name fs2_size_attribute_key then
    (Entry (e_hash f) (e_name f) (e_type f) (atol value) (e_link_count f) (e_href f) (e_client f), n)
  else if streq name fs2_linkcount_attribute_key || streq name fs2_alternativescount_attribute_key then
    (Entry (e_hash f) (e_name f) (e_type f) (e_size f) (u64 (atol value)) (e_href f) (e_client f), n)
  else if streq name fs2_href_attribute_key then
    (Entry (e_hash f) (e_name f) (e_type f) (e_size f) (e_link_count f) v (e_client f), S n)
  else if streq name fs2_clientalias_attribute_key then
    (Entry (e_hash f) (e_name f) (e_type f) (e_size f) (e_link_count f) (e_href f) v, S n)
  else (f, n).

(** [state_CONSUMING_A]: an attribute, then possibly the end of the element. *)
Definition consuming_a (e : event) (p : parser) : outcome parser :=
  p ← (match ev e with
       | ATTRIBUTE =>
           v ← deref (value e);
           let '(f, n) := set_field (fields p) (next p) (name e) v in
           Ret (Parser (state p) f n (calls p))
       | _ => Ret p
       end);
  match ev e with
  | TAG_END =>
      if streq (name e) (cs "a")
      then Ret (Parser WAITING_FOR_A (fields p) (next p) (calls p ++ [fields p]))
      else Ret p
  | _ => Ret p
  end.

Definition filelist_xml_cb (e : event) (p : parser) : outcome parser :=
  match state p with
  | WAITING_FOR_DIV_FILELIST =>
      match ev e, value e with
      | TAG_START, Some v =>
          if streq (name e) (cs "div") && streq v fs2_filelist_node_id
          then Ret (set_state p WAITING_FOR_A) else Ret p
      | _, _ => Ret p
      end
  | WAITING_FOR_A =>
      match ev e with
      | TAG_START => if streq (name e) (cs "a") then Ret (set_state p CONSUMING_A) else Ret p
      | _ => Ret p
      end
  | CONSUMING_A => consuming_a e p
  end.

Definition parser_filelist_consume (xs : list sax) (p : parser) : outcome parser :=
  parser_xml_consume filelist_xml_cb xs p.

(** The calls it has made. *)
Definition parser_filelist_delete (held : list sax) (p : parser) : outcome (list entry) :=
  p ← parser_xml_delete filelist_xml_cb held p; Ret (calls p).

End Filelist.

(** ** parser_stats.c *)

Module Stats.

Inductive state_t :=
| WAITING_FOR_DIV_GENERAL | WAITING_FOR_SPAN_WITH_ID | CONSUMING_FILE_COUNT | CONSUMING_TOTAL_SIZE.

Record parser := Parser {
  state : state_t;
  files : Z;
  bytes : Z;
  calls : list (Z * Z)        (* the calls of cb, oldest first *)
}.

Definition parser_stats_new : parser := Parser WAITING_FOR_DIV_GENERAL 0 0 [].

Definition set_state (p : parser) (st : state_t) : parser :=
  Parser st (files p) (bytes p) (calls p).

Definition raise_cb_if_done (p : parser) : parser :=
  if negb (bytes p =? 0)%Z && negb (files p =? 0)%Z
  then Parser (state p) (files p) (bytes p) (calls p ++ [(files p, bytes p)])
  else p.

(** The [value] attribute, if that is what the event is. *)
Definition value_attribute (e : event) : outcome (option Z) :=
  match ev e with
  | ATTRIBUTE =>
      if streq (name e) (cs "value") then v ← deref (value e); Ret (Some (u64 (atol v)))
      else Ret None
  | _ => Ret None
  end.

Definition stats_xml_cb (e : event) (p : parser) : outcome parser :=
  match state p with
  | WAITING_FOR_DIV_GENERAL =>
      match ev e with
      | TAG_START =>
          if streq (name e) (cs "div") then
            v ← deref (value e);
            if streq v (cs "general") then Ret (set_state p WAITING_FOR_SPAN_WITH_ID) else Ret p
          else Ret p
      | _ => Ret p
      end
  | WAITING_FOR_SPAN_WITH_ID =>
      match ev e, value e with
      | TAG_START, Some v =>
          if streq (name e) (cs "span") then
            if streq v (cs "file-count") then Ret (set_state p CONSUMING_FILE_COUNT)
            else if streq v (cs "total-size") then Ret (set_state p CONSUMING_TOTAL_SIZE)
            else Ret p
          else Ret p
      | _, _ => Ret p
      end
  | CONSUMING_FILE_COUNT =>
      v ← value_attribute e;
      let p := match v with
               | Some n => raise_cb_if_done (Parser (state p) n (bytes p) (calls p))
               | None => p
               end in
      Ret (set_state p WAITING_FOR_SPAN_WITH_ID)
  | CONSUMING_TOTAL_SIZE =>
      v ← value_attribute e;
      let p := match v with
               | Some n => raise_cb_if_done (Parser (state p) (files p) n (calls p))
               | None => p
               end in
      Ret (set_state p WAITING_FOR_SPAN_WITH_ID)
  end.

Definition parser_stats_consume (xs : list sax) (p : parser) : outcome parser :=
  parser_xml_consume stats_xml_cb xs p.

Definition parser_stats_delete (held : list sax) (p : parser) : outcome (list (Z * Z)) :=
  p ← parser_xml_delete stats_xml_cb held p; Ret (calls p).

End Stats.

(** ** The file list *)

Module FilelistFacts.
Import Filelist.

Definition attribute_step (p : entry * nat) (a : cstr * cstr) : entry * nat :=
  set_field (fst p) (snd p) (fst a) (snd a).
Definition set_fields (f : entry) (n : nat) (attributes : list (cstr * cstr)) : entry * nat :=
  foldl attribute_step (f, n) attributes.

(** The attributes of an element, in [CONSUMING_A]. *)
Lemma attributes_step f n cl attributes :
  foldl (fun m e => p ← m; filelist_xml_cb e p) (Ret (Parser CONSUMING_A f n cl))
      ((fun a => Event ATTRIBUTE (fst a) (Some (snd a))) <$> attributes) =
    Ret (Parser CONSUMING_A (fst (set_fields f n attributes)) (snd (set_fields f n attributes)) cl).
Proof.
  unfold set_fields. revert f n. induction attributes as [|[k v] l IH]; intros f n; [done|].
  cbn [fmap list_fmap foldl fst snd]. rewrite bind_ret_l.
  assert (filelist_xml_cb (Event ATTRIBUTE k (Some v)) (Parser CONSUMING_A f n cl) =
    let '(f', n') := set_field f n k v in Ret (Parser CONSUMING_A f' n' cl)) as ->.
  { unfold filelist_xml_cb, consuming_a. cbn. by destruct (set_field f n k v). }
  change (attribute_step (f, n) (k, v)) with (set_field f n k v).
  destruct (set_field f n k v) as [f' n']. apply IH.
Qed.

(** A field is given by the last attribute with one of its names. *)
Definition field_law {A} (proj : entry -> A) (K : cstr -> bool) (val : cstr -> A) (n0 : nat) : Prop :=
  forall f n k v, n0 <= n ->
    proj (fst (set_field f n k v)) = if K k then val v else proj f.

Ltac set_field_cases :=
  unfold set_field; repeat (case_match; bool_hyps; subst; try done).

Lemma next_mono f n k v : n <= snd (set_field f n k v) <= S n.
Proof. unfold set_field. repeat case_match; cbn; lia. Qed.

Lemma set_fields_mono f n l : n <= snd (set_fields f n l).
Proof.
  unfold set_fields. revert f n. induction l as [|[k v] l IH]; intros f n; [done|].
  cbn [foldl]. pose proof (next_mono f n k v).
  change (attribute_step (f, n) (k, v)) with (set_field f n k v).
  destruct (set_field f n k v) as [f' n']. cbn in *. specialize (IH f' n'). lia.
Qed.

Lemma set_fields_field {A} (proj : entry -> A) K val n0 f n l :
  field_law proj K val n0 -> n0 <= n ->
  proj (fst (set_fields f n l)) =
    foldl (fun a kv => if K (fst kv) then val (snd kv) else a) (proj f) l.
Proof.
  intros HL. unfold set_fields. revert f n. induction l as [|[k v] l IH]; intros f n Hn; [done|].
  cbn [foldl fst snd]. rewrite <- (HL f n k v) by done. pose proof (next_mono f n k v).
  change (attribute_step (f, n) (k, v)) with (set_field f n k v).
  destruct (set_field f n k v) as [f' n']. cbn in *. apply IH. lia.
Qed.

Lemma fold_unique {A} (K : cstr -> bool) (val : cstr -> A) a l k v :
  (k, v) ∈ l -> K k = true -> (forall k' v', (k', v') ∈ l -> K k' = true -> v' = v) ->
  foldl (fun a kv => if K (fst kv) then val (snd kv) else a) a l = val v.
Proof.
  intros Hin HK. induction l as [|[k1 v1] l IH] using rev_ind; intros Hu; [by apply elem_of_nil in Hin|].
  rewrite foldl_snoc. cbn [fst snd]. destruct (K k1) eqn:E1.
  - f_equal. apply (Hu k1); [apply elem_of_app; right; by apply list_elem_of_singleton|done].
  - apply IH.
    + apply elem_of_app in Hin as [Hin|Hin]; [done|].
      apply list_elem_of_singleton in Hin. injection Hin as -> ->. by rewrite HK in E1.
    + intros k' v' H. apply Hu, elem_of_app. by left.
Qed.

Lemma name_law n0 : field_law (fun f => text <$> e_name f) (fun k => streq k fs2_name_attribute_key) Some n0.
Proof. intros f n k v _. set_field_cases. Qed.
Lemma hash_law n0 : field_law (fun f => text <$> e_hash f) (fun k => streq k fs2_hash_attribute_key) Some n0.
Proof. intros f n k v _. set_field_cases. Qed.
Lemma type_law n0 : field_law (fun f => text <$> e_type f) (fun k => streq k fs2_type_attribute_key) Some n0.
Proof. intros f n k v _. set_field_cases. Qed.
Lemma href_law n0 : field_law (fun f => text <$> e_href f) (fun k => streq k fs2_href_attribute_key) Some n0.
Proof. intros f n k v _. set_field_cases. Qed.
Lemma client_law n0 :
  field_law (fun f => text <$> e_client f) (fun k => streq k fs2_clientalias_attribute_key) Some n0.
Proof. intros f n k v _. set_field_cases. Qed.
Lemma size_law n0 : field_law e_size (fun k => streq k fs2_size_attribute_key) atol n0.
Proof. intros f n k v _. set_field_cases. Qed.
Lemma link_law n0 : field_law e_link_count
  (fun k => streq k fs2_linkcount_attribute_key || streq k fs2_alternativescount_attribute_key)
  (fun v => u64 (atol v)) n0.
Proof. intros f n k v _. set_field_cases. Qed.

(** The blocks an entry hands over. *)
Definition blocks_of (l : list (option str)) : list nat := addr <$> omap id l.
Definition slots (f : entry) : list (option str) :=
  [e_name f; e_hash f; e_type f; e_href f; e_client f].
Definition blocks (f : entry) : list nat := blocks_of (slots f).

Definition blocks_ok (n : nat) (l : list (option str)) : Prop :=
  NoDup (blocks_of l) /\ Forall (fun a => a < n) (blocks_of l).

Lemma blocks_ok_weaken n m l : n <= m -> blocks_ok n l -> blocks_ok m l.
Proof. intros Hnm [H1 H2]. split; [done|]. eapply Forall_impl; [exact H2|]. intros a Ha. cbn in *. lia. Qed.

Lemma blocks_of_insert i l s a : a ∈ blocks_of (<[i := Some s]> l) -> a = addr s \/ a ∈ blocks_of l.
Proof.
  unfold blocks_of. revert i. induction l as [|o l IH]; intros i; [by auto|].
  destruct i as [|i]; destruct o as [o|]; cbn; rewrite ?elem_of_cons; naive_solver.
Qed.

Lemma insert_blocks_ok i l n v : blocks_ok n l -> blocks_ok (S n) (<[i := Some (Str n v)]> l).
Proof.
  intros [HN HF]. split.
  2:{ apply Forall_forall. intros a Ha. apply blocks_of_insert in Ha as [->|Ha]; [cbn; lia|].
      rewrite Forall_forall in HF. specialize (HF a Ha). cbn in HF. lia. }
  revert i HN HF. unfold blocks_of. induction l as [|o l IH]; intros i HN HF; [done|].
  assert (HN' : NoDup (addr <$> omap id l) /\ Forall (fun a => a < n) (addr <$> omap id l)).
  { destruct o; cbn in *; [|done]. apply NoDup_cons in HN as [_ ?]. by apply Forall_cons in HF as [_ ?]. }
  destruct HN' as [HN' HF']. destruct i as [|i]; cbn.
  - apply NoDup_cons. split; [|done]. intros Hin. rewrite Forall_forall in HF'.
    specialize (HF' _ Hin). cbn in HF'. lia.
  - destruct o as [o|]; cbn in *; [|by apply IH]. apply NoDup_cons in HN as [Ho _].
    apply Forall_cons in HF as [Hn _]. apply NoDup_cons. split; [|by apply IH].
    intros Hin. apply (blocks_of_insert i l (Str n v)) in Hin as [Hin|Hin]; [cbn in *; lia|done].
Qed.

Lemma set_field_blocks f n k v :
  blocks_ok n (slots f) -> blocks_ok (snd (set_field f n k v)) (slots (fst (set_field f n k v))).
Proof.
  intros H. unfold set_field.
  repeat case_match; try done; subst; cbn [fst snd];
    first [apply (insert_blocks_ok 0 (slots f) n v H)|apply (insert_blocks_ok 1 (slots f) n v H)
          |apply (insert_blocks_ok 2 (slots f) n v H)|apply (insert_blocks_ok 3 (slots f) n v H)
          |apply (insert_blocks_ok 4 (slots f) n v H)].
Qed.

Lemma set_fields_blocks f n l :
  blocks_ok n (slots f) -> blocks_ok (snd (set_fields f n l)) (slots (fst (set_fields f n l))).
Proof.
  unfold set_fields. revert f n. induction l as [|[k v] l IH]; intros f n H; [done|]. cbn [foldl].
  pose proof (set_field_blocks f n k v H).
  change (attribute_step (f, n) (k, v)) with (set_field f n k v).
  destruct (set_field f n k v) as [f' n']. by apply IH.
Qed.

(** A block allocated since [n0]. *)
Definition fresh (n0 : nat) (s : option str) : bool :=
  match s with Some s => n0 <=? addr s | None => true end.

Ltac fresh_law :=
  intros f n k v Hn; unfold set_field; repeat case_match; bool_hyps; subst; try done; cbn;
  by apply Nat.leb_le.

Lemma name_fresh n0 : field_law (fun f => fresh n0 (e_name f)) (fun k => streq k fs2_name_attribute_key)
  (fun _ => true) n0.
Proof. fresh_law. Qed.
Lemma hash_fresh n0 : field_law (fun f => fresh n0 (e_hash f)) (fun k => streq k fs2_hash_attribute_key)
  (fun _ => true) n0.
Proof. fresh_law. Qed.
Lemma type_fresh n0 : field_law (fun f => fresh n0 (e_type f)) (fun k => streq k fs2_type_attribute_key)
  (fun _ => true) n0.
Proof. fresh_law. Qed.
Lemma href_fresh n0 : field_law (fun f => fresh n0 (e_href f)) (fun k => streq k fs2_href_attribute_key)
  (fun _ => true) n0.
Proof. fresh_law. Qed.
Lemma client_fresh n0 :
  field_law (fun f => fresh n0 (e_client f)) (fun k => streq k fs2_clientalias_attribute_key)
  (fun _ => true) n0.
Proof. fresh_law. Qed.

(** A file or directory as the indexnode describes it. *)
Record item := Item {
  i_name : cstr; i_hash : cstr; i_type : cstr; i_size : cstr; i_links : cstr;
  i_href : cstr; i_client : cstr
}.

Definition attributes_of (i : item) : list (cstr * cstr) :=
  [(fs2_name_attribute_key, i_name i); (fs2_hash_attribute_key, i_hash i); (fs2_type_attribute_key, i_type i);
   (fs2_size_attribute_key, i_size i); (fs2_linkcount_attribute_key, i_links i); (fs2_href_attribute_key, i_href i);
   (fs2_clientalias_attribute_key, i_client i)].

(** The arguments of the call for it. *)
Definition describes (e : entry) (i : item) : Prop :=
  text <$> e_name e = Some (i_name i) /\ text <$> e_hash e = Some (i_hash i) /\
  text <$> e_type e = Some (i_type i) /\ e_size e = atol (i_size i) /\
  e_link_count e = u64 (atol (i_links i)) /\ text <$> e_href e = Some (i_href i) /\
  text <$> e_client e = Some (i_client i).

(** With each attribute given once, in any order, a field gets its value. *)
Lemma attribute_value i (l : list (cstr * cstr)) (K : cstr -> bool) A (val : cstr -> A) a k v :
  l ≡ₚ attributes_of i -> filter (fun kv => K (fst kv) = true) (attributes_of i) = [(k, v)] ->
  foldl (fun a kv => if K (fst kv) then val (snd kv) else a) a l = val v.
Proof.
  intros HP Hu.
  assert (H : forall kv, kv ∈ l -> K (fst kv) = true -> kv = (k, v)).
  { intros kv Hin HK. rewrite HP in Hin. apply list_elem_of_singleton. rewrite <- Hu.
    by apply list_elem_of_filter. }
  assert (Hin : (k, v) ∈ filter (fun kv => K (fst kv) = true) (attributes_of i))
    by (rewrite Hu; by apply list_elem_of_singleton).
  apply list_elem_of_filter in Hin as [HK Hin].
  apply (fold_unique K val a l k v); [by rewrite HP|done|].
  intros k' v' Hin' HK'. specialize (H _ Hin' HK'). by simplify_eq.
Qed.

(** A field after all the attributes, by its law. *)
Ltac by_attribute law HP :=
  rewrite (set_fields_field _ _ _ _ _ _ _ law) by done;
  match type of law with
  | field_law _ ?K ?val _ => eapply (attribute_value _ _ K _ val); [exact HP|reflexivity]
  end.

Lemma set_fields_describes i l f n :
  l ≡ₚ attributes_of i -> describes (fst (set_fields f n l)) i.
Proof.
  intros HP. unfold describes. split_and!.
  - by_attribute (name_law n) HP.
  - by_attribute (hash_law n) HP.
  - by_attribute (type_law n) HP.
  - by_attribute (size_law n) HP.
  - by_attribute (link_law n) HP.
  - by_attribute (href_law n) HP.
  - by_attribute (client_law n) HP.
Qed.

Lemma set_fields_fresh i l f n :
  l ≡ₚ attributes_of i -> Forall (fun a => n <= a) (blocks (fst (set_fields f n l))).
Proof.
  intros HP. set (f' := fst (set_fields f n l)).
  assert (H1 : fresh n (e_name f') = true) by (unfold f'; by_attribute (name_fresh n) HP).
  assert (H2 : fresh n (e_hash f') = true) by (unfold f'; by_attribute (hash_fresh n) HP).
  assert (H3 : fresh n (e_type f') = true) by (unfold f'; by_attribute (type_fresh n) HP).
  assert (H4 : fresh n (e_href f') = true) by (unfold f'; by_attribute (href_fresh n) HP).
  assert (H5 : fresh n (e_client f') = true) by (unfold f'; by_attribute (client_fresh n) HP).
  unfold blocks, blocks_of, slots.
  destruct (e_name f'), (e_hash f'), (e_type f'), (e_href f'), (e_client f'); cbn in *;
    repeat (constructor; [by apply Nat.leb_le|]); constructor.
Qed.

(** Markup that a state does not react to. *)
Definition ignored (st : state_t) (x : sax) : Prop :=
  exists es, on_sax x = Ret es /\ Forall (fun e => forall f n cl,
    filelist_xml_cb e (Parser st f n cl) = Ret (Parser st f n cl)) es.

Lemma consume_ignored st xs f n cl :
  Forall (ignored st) xs ->
  parser_filelist_consume xs (Parser st f n cl) = Ret (Parser st f n cl).
Proof.
  unfold parser_filelist_consume. induction 1 as [|x xs (es & E & He) HF IH]; [done|].
  cbn [parser_xml_consume]. rewrite E, bind_ret_l.
  replace (foldl _ _ es) with (Ret (Parser st f n cl)); [by rewrite bind_ret_l|].
  clear E. induction He as [|e es He _ IHe]; [done|]. cbn [foldl]. by rewrite bind_ret_l, He.
Qed.

(** An [<a>] element: its attributes, what is inside it, what follows it. *)
Record element := Element {
  el_item : item;
  el_attributes : list (cstr * cstr);
  el_inside : list sax;
  el_after : list sax
}.
Definition element_ok (el : element) : Prop :=
  el_attributes el ≡ₚ attributes_of (el_item el) /\
  Forall (ignored CONSUMING_A) (el_inside el) /\ Forall (ignored WAITING_FOR_A) (el_after el).
Definition element_sax (el : element) : list sax :=
  StartElementNs (cs "a") (el_attributes el) :: el_inside el ++ [EndElementNs (cs "a")] ++ el_after el.

Lemma start_attributes i l :
  l ≡ₚ attributes_of i ->
  on_start_element_ns (cs "a") l =
    Event TAG_START (cs "a") None :: ((fun a => Event ATTRIBUTE (fst a) (Some (snd a))) <$> l).
Proof.
  intros HP. unfold on_start_element_ns.
  assert (Hid : Forall (fun a => fst a <> cs "id") l).
  { rewrite HP. repeat constructor; discriminate. }
  f_equal.
  - f_equal. clear HP. induction Hid as [|[k v] l Hk Hl IH]; [done|]. cbn in *.
    by rewrite (proj2 (streq_false _ _) Hk).
  - f_equal. clear HP. induction Hid as [|[k v] l Hk Hl IH]; [done|].
    rewrite filter_cons_True by done. by rewrite IH.
Qed.

Lemma element_step el f n cl :
  element_ok el -> blocks_ok n (slots f) ->
  exists f' n', parser_filelist_consume (element_sax el) (Parser WAITING_FOR_A f n cl) =
      Ret (Parser WAITING_FOR_A f' n' (cl ++ [f'])) /\
    describes f' (el_item el) /\ n <= n' /\ blocks_ok n' (slots f') /\
    Forall (fun a => n <= a) (blocks f').
Proof.
  intros (HP & Hin & Haf) Hb. set (l := el_attributes el) in *.
  exists (fst (set_fields f n l)), (snd (set_fields f n l)). split_and!;
    [|by apply set_fields_describes|apply set_fields_mono|by apply set_fields_blocks
     |by eapply set_fields_fresh].
  unfold parser_filelist_consume, element_sax. cbn [parser_xml_consume on_sax]. fold l.
  rewrite bind_ret_l, (start_attributes (el_item el)) by done. cbn [foldl]. rewrite bind_ret_l.
  change (filelist_xml_cb (Event TAG_START (cs "a") None) (Parser WAITING_FOR_A f n cl))
    with (Ret (Parser CONSUMING_A f n cl)).
  rewrite attributes_step, bind_ret_l, consume_app.
  pose proof (consume_ignored CONSUMING_A _ (fst (set_fields f n l)) (snd (set_fields f n l)) cl Hin)
    as Ei. unfold parser_filelist_consume in Ei. rewrite Ei, bind_ret_l.
  cbn [app parser_xml_consume on_sax on_end_element_ns foldl]. rewrite !bind_ret_l.
  change (filelist_xml_cb (Event TAG_END (cs "a") None)
      (Parser CONSUMING_A (fst (set_fields f n l)) (snd (set_fields f n l)) cl)) with
    (Ret (Parser WAITING_FOR_A (fst (set_fields f n l)) (snd (set_fields f n l))
      (cl ++ [fst (set_fields f n l)]))).
  by apply consume_ignored.
Qed.

Lemma elements_step els f n cl :
  Forall element_ok els -> blocks_ok n (slots f) ->
  exists f' n' new, parser_filelist_consume (concat (element_sax <$> els)) (Parser WAITING_FOR_A f n cl) =
      Ret (Parser WAITING_FOR_A f' n' (cl ++ new)) /\
    Forall2 describes new (el_item <$> els) /\ n <= n' /\
    NoDup (concat (blocks <$> new)) /\ Forall (fun a => n <= a < n') (concat (blocks <$> new)).
Proof.
  intros HF. revert f n cl. induction HF as [|el els Hel HF IH]; intros f n cl Hb.
  { exists f, n, []. rewrite app_nil_r. split_and!; [done|constructor|done|constructor|constructor]. }
  destruct (element_step el f n cl Hel Hb) as (f1 & n1 & E1 & Hd & Hn & Hb1 & Hf1).
  destruct (IH f1 n1 (cl ++ [f1]) Hb1) as (f2 & n2 & new & E2 & Hd2 & Hn2 & HN & HB).
  exists f2, n2, (f1 :: new). cbn [fmap list_fmap concat].
  unfold parser_filelist_consume in *. rewrite consume_app, E1, bind_ret_l, E2, <- app_assoc.
  destruct Hb1 as [Hb1 Hb1']. rewrite Forall_forall in HB, Hf1, Hb1'.
  split_and!; [done|by constructor|lia| |].
  - apply NoDup_app. split_and!; [done| |done]. intros a Ha Ha'. specialize (HB a Ha').
    specialize (Hb1' a Ha). cbn in *. lia.
  - apply Forall_app. split; apply Forall_forall; intros a Ha.
    + specialize (Hf1 a Ha). specialize (Hb1' a Ha). cbn in *. lia.
    + specialize (HB a Ha). cbn in HB. lia.
Qed.

End FilelistFacts.

(** ** Properties *)

(** C8: from a page with a [<div id="fs2-filelist">] of [<a>] elements, each
    with its seven attributes in any order and any content and spacing the
    parser ignores, the file list parser makes one call per element, in order,
    with that element's values, and no two calls share a block, nor do two
    arguments of one; however the page is cut into buffers and whatever of it
    libxml2 holds back until the parser is deleted. *)
Theorem filelist_page (before : list sax) (div_attributes : list (cstr * cstr)) (inside : list sax)
    (els : list FilelistFacts.element) (bufs : list (list sax)) (held : list sax)
    (Hbefore : Forall (FilelistFacts.ignored Filelist.WAITING_FOR_DIV_FILELIST) before)
    (Hdiv : find_id div_attributes None = Some (cs "fs2-filelist"))
    (Hinside : Forall (FilelistFacts.ignored Filelist.WAITING_FOR_A) inside)
    (Hels : Forall FilelistFacts.element_ok els)
    (Hcut : concat bufs ++ held = before ++ [StartElementNs (cs "div") div_attributes] ++ inside ++
      concat (FilelistFacts.element_sax <$> els)) :
  exists calls,
    (p ← foldl (fun (m : outcome Filelist.parser) xs => p ← m; Filelist.parser_filelist_consume xs p)
           (Ret Filelist.parser_filelist_new) bufs;
     Filelist.parser_filelist_delete held p) = Ret calls /\
    Forall2 FilelistFacts.describes calls (FilelistFacts.el_item <$> els) /\
    NoDup (concat (FilelistFacts.blocks <$> calls)).
Proof.
  set (f0 := Filelist.Entry None None None 0 0 None None).
  destruct (FilelistFacts.elements_step els f0 0 [] Hels) as (f & n & new & E & Hd & _ & HN & _).
  { split; constructor. }
  exists new. split; [|done].
  transitivity (p ← parse Filelist.filelist_xml_cb bufs held Filelist.parser_filelist_new;
                Ret (Filelist.calls p)).
  { unfold parse, Filelist.parser_filelist_delete, Filelist.parser_filelist_consume.
    by destruct (foldl _ _ bufs). }
  rewrite parse_cut, Hcut, consume_app.
  unfold Filelist.parser_filelist_consume in *.
  pose proof (FilelistFacts.consume_ignored _ before f0 0 [] Hbefore) as E1.
  unfold Filelist.parser_filelist_consume in E1. unfold Filelist.parser_filelist_new. fold f0.
  rewrite E1, bind_ret_l. cbn [app parser_xml_consume on_sax]. rewrite bind_ret_l.
  unfold on_start_element_ns. rewrite Hdiv. cbn [foldl]. rewrite bind_ret_l.
  change (Filelist.filelist_xml_cb (Event TAG_START (cs "div") (Some (cs "fs2-filelist"))) _)
    with (Ret (Filelist.Parser Filelist.WAITING_FOR_A f0 0 [])).
  replace (foldl _ _ _) with (Ret (Filelist.Parser Filelist.WAITING_FOR_A f0 0 [])).
  2:{ induction (filter _ div_attributes) as [|a l IH]; [done|]. cbn [fmap list_fmap foldl].
      rewrite bind_ret_l. exact IH. }
  rewrite bind_ret_l, consume_app.
  pose proof (FilelistFacts.consume_ignored _ inside f0 0 [] Hinside) as E2.
  unfold Filelist.parser_filelist_consume in E2. by rewrite E2, bind_ret_l, E.
Qed.

Definition demo_item : FilelistFacts.item :=
  FilelistFacts.Item (cs "a.txt") (cs "d41d") (cs "file") (cs "4096") (cs "2")
    (cs "http://peer/a.txt") (cs "alice").
(** Its attributes in another order, some text inside, white space after. *)
Definition demo_element : FilelistFacts.element :=
  FilelistFacts.Element demo_item (rev (FilelistFacts.attributes_of demo_item))
    [Characters (cs "a.txt</a>") 5] [Characters ("010"%char :: cs "</div>") 1].

Lemma demo_element_ok : FilelistFacts.element_ok demo_element.
Proof.
  split_and!.
  - apply Permutation_sym, Permutation_rev.
  - repeat constructor. eexists. split; [reflexivity|]. repeat constructor.
  - repeat constructor. eexists. split; [reflexivity|]. repeat constructor.
Qed.

(** Two buffers and a rest, cut in the middle of an element. *)
Definition demo_page : list sax :=
  [StartElementNs (cs "body") []] ++
  [StartElementNs (cs "div") [(cs "class", cs "x"); (cs "id", cs "fs2-filelist")]] ++ [] ++
  concat (FilelistFacts.element_sax <$> [demo_element; demo_element]).

Lemma filelist_page_witness :
  exists calls,
    (p ← foldl (fun (m : outcome Filelist.parser) xs => p ← m; Filelist.parser_filelist_consume xs p)
           (Ret Filelist.parser_filelist_new) [take 3 demo_page; take 2 (drop 3 demo_page)];
     Filelist.parser_filelist_delete (drop 5 demo_page) p) = Ret calls /\
    Forall2 FilelistFacts.describes calls [demo_item; demo_item] /\
    NoDup (concat (FilelistFacts.blocks <$> calls)).
Proof.
  apply (filelist_page [StartElementNs (cs "body") []]
    [(cs "class", cs "x"); (cs "id", cs "fs2-filelist")] [] [demo_element; demo_element]).
  - constructor; [|constructor]. eexists. split; [reflexivity|]. repeat constructor.
  - reflexivity.
  - constructor.
  - constructor; [exact demo_element_ok|constructor; [exact demo_element_ok|constructor]].
  - reflexivity.
Defined.

(** An [<a>] element without attributes, after one with all of them, makes a
    call with the previous call's very blocks: both listings then own them,
    and each is freed twice. *)
Theorem filelist_shares_blocks (el : FilelistFacts.element) (f : Filelist.entry) (n : nat)
    (cl : list Filelist.entry)
    (Hel : FilelistFacts.element_ok el) (Hf : FilelistFacts.blocks_ok n (FilelistFacts.slots f)) :
  exists e n', Filelist.parser_filelist_consume
      (FilelistFacts.element_sax el ++ [StartElementNs (cs "a") []; EndElementNs (cs "a")])
      (Filelist.Parser Filelist.WAITING_FOR_A f n cl) =
      Ret (Filelist.Parser Filelist.WAITING_FOR_A e n' (cl ++ [e; e])) /\
    FilelistFacts.describes e (FilelistFacts.el_item el).
Proof.
  destruct (FilelistFacts.element_step el f n cl Hel Hf) as (e & n' & E & Hd & _).
  exists e, n'. split; [|done]. unfold Filelist.parser_filelist_consume in *.
  rewrite consume_app, E, bind_ret_l. transitivity (Ret (Filelist.Parser Filelist.WAITING_FOR_A e n' ((cl ++ [e]) ++ [e])));
    [reflexivity|by rewrite <- app_assoc].
Qed.

Lemma filelist_shares_blocks_witness :
  exists e n', Filelist.parser_filelist_consume
      (FilelistFacts.element_sax demo_element ++ [StartElementNs (cs "a") []; EndElementNs (cs "a")])
      (Filelist.Parser Filelist.WAITING_FOR_A (Filelist.Entry None None None 0 0 None None) 0 []) =
      Ret (Filelist.Parser Filelist.WAITING_FOR_A e n' [e; e]) /\
    FilelistFacts.describes e demo_item.
Proof.
  apply (filelist_shares_blocks demo_element (Filelist.Entry None None None 0 0 None None) 0 []).
  - exact demo_element_ok.
  - split; constructor.
Defined.

(** ** The statistics *)

Module StatsFacts.
Import Stats.

Definition ignored (st : state_t) (x : sax) : Prop :=
  exists es, on_sax x = Ret es /\ Forall (fun e => forall f b cl,
    stats_xml_cb e (Parser st f b cl) = Ret (Parser st f b cl)) es.

Lemma stats_ignored st xs f b cl :
  Forall (ignored st) xs -> parser_stats_consume xs (Parser st f b cl) = Ret (Parser st f b cl).
Proof.
  unfold parser_stats_consume. induction 1 as [|x xs (es & E & He) HF IH]; [done|].
  cbn [parser_xml_consume]. rewrite E, bind_ret_l.
  replace (foldl _ _ es) with (Ret (Parser st f b cl)); [by rewrite bind_ret_l|].
  clear E. induction He as [|e es He _ IHe]; [done|]. cbn [foldl]. by rewrite bind_ret_l, He.
Qed.

(** [<span id="..." value="...">], the value the only other attribute. *)
Definition span (id value : cstr) : sax :=
  StartElementNs (cs "span") [(cs "id", id); (cs "value", value)].
Definition div_general : sax := StartElementNs (cs "div") [(cs "id", cs "general")].

Definition raised (f b : Z) : list (Z * Z) :=
  if negb (b =? 0)%Z && negb (f =? 0)%Z then [(f, b)] else [].

Lemma raise_raised st f b cl :
  set_state (raise_cb_if_done (Parser st f b cl)) WAITING_FOR_SPAN_WITH_ID =
  Parser WAITING_FOR_SPAN_WITH_ID f b (cl ++ raised f b).
Proof.
  unfold raised, raise_cb_if_done. cbn [bytes files state calls].
  destruct (_ && _); unfold set_state; cbn [bytes files state calls]; [done|by rewrite app_nil_r].
Qed.

Lemma count_step v f b cl xs :
  parser_stats_consume (span (cs "file-count") v :: xs) (Parser WAITING_FOR_SPAN_WITH_ID f b cl) =
  parser_stats_consume xs (Parser WAITING_FOR_SPAN_WITH_ID (u64 (atol v)) b
    (cl ++ raised (u64 (atol v)) b)).
Proof. by rewrite <- (raise_raised CONSUMING_FILE_COUNT). Qed.
Lemma size_step v f b cl xs :
  parser_stats_consume (span (cs "total-size") v :: xs) (Parser WAITING_FOR_SPAN_WITH_ID f b cl) =
  parser_stats_consume xs (Parser WAITING_FOR_SPAN_WITH_ID f (u64 (atol v))
    (cl ++ raised f (u64 (atol v)))).
Proof. by rewrite <- (raise_raised CONSUMING_TOTAL_SIZE). Qed.

End StatsFacts.

(** From a page with both spans in a [<div id="general">] the statistics
    parser reports the two values once if neither is zero, and never reports
    an indexnode that has no files or no bytes. *)
Theorem stats_page (before between after : list sax) (files bytes : cstr)
    (Hbefore : Forall (StatsFacts.ignored Stats.WAITING_FOR_DIV_GENERAL) before)
    (Hbetween : Forall (StatsFacts.ignored Stats.WAITING_FOR_SPAN_WITH_ID) between)
    (Hafter : Forall (StatsFacts.ignored Stats.WAITING_FOR_SPAN_WITH_ID) after) :
  exists p, Stats.parser_stats_consume
      (before ++ [StatsFacts.div_general] ++ between ++ [StatsFacts.span (cs "file-count") files] ++
       between ++ [StatsFacts.span (cs "total-size") bytes] ++ after) Stats.parser_stats_new = Ret p /\
    Stats.calls p =
      (if (u64 (atol files) =? 0)%Z || (u64 (atol bytes) =? 0)%Z then []
       else [(u64 (atol files), u64 (atol bytes))]).
Proof.
  unfold Stats.parser_stats_new. eexists. split.
  - unfold Stats.parser_stats_consume. rewrite consume_app.
    pose proof (StatsFacts.stats_ignored _ _ 0 0 [] Hbefore) as E.
    unfold Stats.parser_stats_consume in E. rewrite E, bind_ret_l. clear E.
    cbn [app parser_xml_consume on_sax StatsFacts.div_general]. rewrite bind_ret_l.
    change (foldl _ _ _) with (Ret (Stats.Parser Stats.WAITING_FOR_SPAN_WITH_ID 0 0 [])).
    rewrite bind_ret_l, consume_app.
    pose proof (StatsFacts.stats_ignored _ _ 0 0 [] Hbetween) as E.
    unfold Stats.parser_stats_consume in E. rewrite E, bind_ret_l. clear E.
    pose proof (StatsFacts.count_step files 0 0 []) as E. unfold Stats.parser_stats_consume in E.
    rewrite E. clear E. rewrite consume_app.
    pose proof (StatsFacts.stats_ignored _ _ (u64 (atol files)) 0
      ([] ++ StatsFacts.raised (u64 (atol files)) 0) Hbetween) as E.
    unfold Stats.parser_stats_consume in E. rewrite E, bind_ret_l. clear E.
    pose proof (StatsFacts.size_step bytes (u64 (atol files)) 0) as E.
    unfold Stats.parser_stats_consume in E. rewrite E. clear E.
    exact (StatsFacts.stats_ignored _ _ _ _ _ Hafter).
  - cbn [Stats.calls]. unfold StatsFacts.raised. cbn [Z.eqb negb andb app].
    destruct (u64 (atol files) =? 0)%Z, (u64 (atol bytes) =? 0)%Z; done.
Qed.

Lemma stats_page_witness :
  exists p, Stats.parser_stats_consume
      ([StartElementNs (cs "body") []] ++ [StatsFacts.div_general] ++ [EndElementNs (cs "p")] ++
       [StatsFacts.span (cs "file-count") (cs "12")] ++ [EndElementNs (cs "p")] ++
       [StatsFacts.span (cs "total-size") (cs "40960")] ++ []) Stats.parser_stats_new = Ret p /\
    Stats.calls p = [(12%Z, 40960%Z)].
Proof.
  apply (stats_page [StartElementNs (cs "body") []] [EndElementNs (cs "p")] [] (cs "12") (cs "40960")).
  - constructor; [|constructor]. eexists. split; [reflexivity|]. repeat constructor.
  - constructor; [|constructor]. eexists. split; [reflexivity|]. repeat constructor.
  - constructor.
Defined.

(** But a [<div>] with no id before that one makes the statistics parser
    compare a null string, which the file list parser checks for. *)
Theorem stats_div_without_id (before after : list sax) (attributes : list (cstr * cstr))
    (Hbefore : Forall (StatsFacts.ignored Stats.WAITING_FOR_DIV_GENERAL) before)
    (Hid : find_id attributes None = None) :
  Stats.parser_stats_consume (before ++ [StartElementNs (cs "div") attributes] ++ after)
    Stats.parser_stats_new = Undef.
Proof.
  unfold Stats.parser_stats_consume. rewrite consume_app.
  pose proof (StatsFacts.stats_ignored _ _ 0 0 [] Hbefore) as E.
  unfold Stats.parser_stats_consume in E. unfold Stats.parser_stats_new. rewrite E, bind_ret_l.
  cbn [app parser_xml_consume on_sax]. rewrite bind_ret_l. unfold on_start_element_ns. rewrite Hid.
  cbn [foldl]. rewrite bind_ret_l. rewrite foldl_blocked; [done|].
  intros s. vm_compute. discriminate.
Qed.

Lemma stats_div_without_id_witness :
  Stats.parser_stats_consume ([] ++ [StartElementNs (cs "div") [(cs "class", cs "menu")]] ++
    [StatsFacts.div_general]) Stats.parser_stats_new = Undef.
Proof.
  apply (stats_div_without_id [] [StatsFacts.div_general] [(cs "class", cs "menu")]);
    [constructor|reflexivity].
Defined.
