(* ===== verification/Counted.v ===== *)
(** * Heaps of reference-counted objects

    Listings, indexnodes and direntries share a discipline: an object is born
    with one reference, [_copy] adds one, [_delete] drops one and frees the
    object with the last. A [heap] holds the live ones; [adds] says how a run of
    copies and deletes changed the counts. *)
From S2P Require Import Prelude RefCount.

Abbreviation heap V := (gmap nat (ref_count * V)).

Section Counted.
Context {V : Type}.
Implicit Types (h : heap V) (p : nat) (d : nat -> Z).

(** ** The operations *)

Definition obj_new (v : V) h : nat * heap V :=
  let p := stdpp.base.fresh (dom h) in (p, <[p := (ref_count_new, v)]> h).

Definition obj_copy p h : outcome (heap V) :=
  '(r, v) ← deref (h !! p);
  '(_, r) ← ref_count_inc r;
  Ret (<[p := (r, v)]> h).

(** The object, if this freed it. *)
Definition obj_delete p h : outcome (option V * heap V) :=
  '(r, v) ← deref (h !! p);
  '(n, r) ← ref_count_dec r;
  if (n =? 0)%Z then Ret (Some v, delete p h) else Ret (None, <[p := (r, v)]> h).

Definition obj_get p h : outcome V := snd <$> deref (h !! p).

(** ** Counts *)

Definition adds h d : heap V :=
  map_imap (fun p '(r, v) => Some (RefCount (count r + d p), v)) h.

Definition refs_of h p : Z := match h !! p with Some (r, _) => count r | None => 0 end.

(** Every count is positive and at least [n] from overflow. *)
Definition counts_ok (n : nat) h : Prop :=
  map_Forall (fun _ '(r, _) => (0 < count r /\ count r + Z.of_nat n < 2 ^ 32)%Z) h.

Lemma counts_ok_le k k' h : k' <= k -> counts_ok k h -> counts_ok k' h.
Proof. intros Hk Hc. eapply map_Forall_impl; [exact Hc|]. intros p [r v]. cbn. lia. Qed.

Lemma lookup_adds h d p : adds h d !! p = (fun '(r, v) => (RefCount (count r + d p), v)) <$> h !! p.
Proof. unfold adds. rewrite map_lookup_imap. by destruct (h !! p) as [[]|]. Qed.

Lemma adds_ext h d d' : (forall p, is_Some (h !! p) -> d p = d' p) -> adds h d = adds h d'.
Proof.
  intros H. apply map_eq. intros p. rewrite !lookup_adds. specialize (H p).
  destruct (h !! p) as [[r v]|]; [|done]. cbn. by rewrite H.
Qed.

Lemma adds_0 h d : (forall p, is_Some (h !! p) -> d p = 0%Z) -> adds h d = h.
Proof.
  intros H. apply map_eq. intros p. rewrite lookup_adds. specialize (H p).
  destruct (h !! p) as [[[c] v]|]; [|done]. cbn. rewrite H by done. by rewrite Z.add_0_r.
Qed.

Lemma adds_adds h d d' : adds (adds h d) d' = adds h (fun p => d p + d' p)%Z.
Proof.
  apply map_eq. intros p. rewrite !lookup_adds. destruct (h !! p) as [[r v]|]; [|done].
  cbn. by rewrite Z.add_assoc.
Qed.

(** One more reference to [p]; one for each of [ps]. *)
Definition one p : nat -> Z := fun q => if decide (q = p) then 1%Z else 0%Z.
Definition each (ps : list nat) : nat -> Z := fun q => Z.of_nat (count_occ Nat.eq_dec ps q).

Lemma each_cons p ps q : each (p :: ps) q = (one p q + each ps q)%Z.
Proof. unfold each, one. cbn. destruct (Nat.eq_dec p q), (decide (q = p)); try congruence; lia. Qed.

Lemma each_app ps qs q : each (ps ++ qs) q = (each ps q + each qs q)%Z.
Proof. unfold each. rewrite count_occ_app. lia. Qed.

Lemma each_perm ps qs q : ps ≡ₚ qs -> each ps q = each qs q.
Proof. unfold each. intros H. f_equal. revert q. by apply Permutation_count_occ. Qed.

Lemma each_none ps p : p ∉ ps -> each ps p = 0%Z.
Proof.
  intros Hp. unfold each. rewrite (proj1 (count_occ_not_In Nat.eq_dec _ _)); [done|].
  by rewrite <- list_elem_of_In.
Qed.

Lemma each_bounds ps q : (0 <= each ps q <= Z.of_nat (length ps))%Z.
Proof. unfold each. pose proof (count_occ_bound Nat.eq_dec q ps). lia. Qed.

Lemma each_elem ps q : q ∈ ps -> (1 <= each ps q)%Z.
Proof.
  intros H. unfold each. apply list_elem_of_In, (count_occ_In Nat.eq_dec) in H. lia.
Qed.

Lemma obj_copy_ok h d p :
  is_Some (h !! p) -> (0 < refs_of h p + d p < 2 ^ 32 - 1)%Z ->
  obj_copy p (adds h d) = Ret (adds h (fun q => d q + one p q)%Z).
Proof.
  intros [[r v] Hp] Hd. unfold refs_of in Hd. rewrite Hp in Hd.
  unfold obj_copy. rewrite lookup_adds, Hp. cbn [fmap option_fmap option_map deref]. rewrite bind_ret_l.
  destruct (inc_live (RefCount (count r + d p))) as [E _]; [unfold live; cbn; lia|cbn; lia|].
  rewrite E, bind_ret_l. cbn [count]. f_equal. apply map_eq. intros q.
  rewrite lookup_adds. destruct (decide (q = p)) as [->|Hne].
  - rewrite lookup_insert_eq, Hp. cbn. unfold one. rewrite decide_True by done. by rewrite Z.add_assoc.
  - rewrite lookup_insert_ne, lookup_adds by done. unfold one. rewrite decide_False by done.
    by rewrite Z.add_0_r.
Qed.

(** A delete that is not the last one. *)
Lemma obj_delete_ok h d p :
  is_Some (h !! p) -> (1 < refs_of h p + d p < 2 ^ 32)%Z ->
  obj_delete p (adds h d) = Ret (None, adds h (fun q => d q - one p q)%Z).
Proof.
  intros [[r v] Hp] Hd. unfold refs_of in Hd. rewrite Hp in Hd.
  unfold obj_delete. rewrite lookup_adds, Hp. cbn [fmap option_fmap option_map deref]. rewrite bind_ret_l.
  rewrite dec_live, bind_ret_l by (unfold live; cbn; lia). cbn [count].
  rewrite (proj2 (Z.eqb_neq _ _)) by lia. do 2 f_equal. apply map_eq. intros q.
  rewrite lookup_adds. destruct (decide (q = p)) as [->|Hne].
  - rewrite lookup_insert_eq, Hp. cbn. unfold one. rewrite decide_True by done.
    do 3 f_equal. lia.
  - rewrite lookup_insert_ne, lookup_adds by done. unfold one. rewrite decide_False by done.
    by rewrite Z.sub_0_r.
Qed.

(** The last delete. *)
Lemma obj_delete_last h p v :
  h !! p = Some (RefCount 1, v) -> obj_delete p h = Ret (Some v, delete p h).
Proof. intros Hp. unfold obj_delete. rewrite Hp. cbn [deref]. rewrite bind_ret_l. done. Qed.

Lemma obj_new_fresh v h : h !! fst (obj_new v h) = None.
Proof. unfold obj_new. cbn. apply not_elem_of_dom, is_fresh. Qed.

Lemma obj_get_adds h d p r v : h !! p = Some (r, v) -> obj_get p (adds h d) = Ret v.
Proof. intros H. unfold obj_get. by rewrite lookup_adds, H. Qed.

Lemma counts_ok_refs n h p :
  counts_ok n h -> is_Some (h !! p) -> (0 < refs_of h p /\ refs_of h p + Z.of_nat n < 2 ^ 32)%Z.
Proof.
  intros Hc [[r v] Hp]. unfold refs_of. rewrite Hp. exact (Hc p (r, v) Hp).
Qed.

(** Deleting a whole list of references taken before. *)
Fixpoint delete_all (ps : list nat) h : outcome (heap V) :=
  match ps with
  | [] => Ret h
  | p :: ps => '(_, h) ← obj_delete p h; delete_all ps h
  end.

Lemma delete_all_ok ps h d :
  Forall (fun p => is_Some (h !! p)) ps ->
  (forall p, p ∈ ps -> (each ps p < refs_of h p + d p < 2 ^ 32)%Z) ->
  delete_all ps (adds h d) = Ret (adds h (fun q => d q - each ps q)%Z).
Proof.
  intros HF. revert d. induction HF as [|p ps Hp HF IH]; intros d Hd; cbn [delete_all].
  { f_equal. apply adds_ext. intros. unfold each. cbn. lia. }
  pose proof (Hd p (list_elem_of_here _ _)) as Hdp. rewrite each_cons in Hdp.
  pose proof (each_bounds ps p). unfold one in Hdp. rewrite decide_True in Hdp by done.
  rewrite obj_delete_ok, bind_ret_l by (done || lia).
  rewrite IH.
  - f_equal. apply adds_ext. intros q _. rewrite each_cons. lia.
  - intros q Hq. specialize (Hd q ltac:(by apply list_elem_of_further)).
    rewrite each_cons in Hd. unfold one in *. case_decide; lia.
Qed.

(** ** Counts that may reach zero *)

(** After [d], with the objects gone whose last reference that took. *)
Definition settles h d : heap V :=
  map_imap (fun p '(r, v) =>
    if (0 <? count r + d p)%Z then Some (RefCount (count r + d p), v) else None) h.

(** A field of an object, written. *)
Definition obj_set p (v : V) h : outcome (heap V) :=
  '(r, _) ← deref (h !! p); Ret (<[p := (r, v)]> h).

Lemma lookup_settles h d p : settles h d !! p =
  ('(r, v) ← h !! p; if (0 <? count r + d p)%Z then Some (RefCount (count r + d p), v) else None).
Proof. unfold settles. rewrite map_lookup_imap. by destruct (h !! p) as [[]|]. Qed.

Lemma settles_live h d p r v :
  h !! p = Some (r, v) -> (0 < count r + d p)%Z ->
  settles h d !! p = Some (RefCount (count r + d p), v).
Proof. intros Hp Hd. rewrite lookup_settles, Hp. cbn. by rewrite (proj2 (Z.ltb_lt _ _)). Qed.

Lemma settles_dead h d p : (refs_of h p + d p <= 0)%Z -> settles h d !! p = None.
Proof.
  unfold refs_of. intros Hd. rewrite lookup_settles. destruct (h !! p) as [[r v]|]; [|done]. cbn.
  by rewrite (proj2 (Z.ltb_ge _ _)).
Qed.

Lemma settles_ext h d d' : (forall p, is_Some (h !! p) -> d p = d' p) -> settles h d = settles h d'.
Proof.
  intros H. apply map_eq. intros p. rewrite !lookup_settles. specialize (H p).
  destruct (h !! p) as [[r v]|]; [|done]. cbn. by rewrite H.
Qed.

Lemma settles_0 h d :
  map_Forall (fun _ '(r, _) => (0 < count r)%Z) h -> (forall p, is_Some (h !! p) -> d p = 0%Z) ->
  settles h d = h.
Proof.
  intros Hc Hd. apply map_eq. intros p. rewrite lookup_settles.
  destruct (h !! p) as [[[c] v]|] eqn:Hp; [|done]. cbn. rewrite Hd, Z.add_0_r by by eexists.
  by rewrite (proj2 (Z.ltb_lt _ _)) by exact (Hc p _ Hp).
Qed.

Lemma settles_insert h d p r v v' :
  h !! p = Some (r, v) -> (0 < count r + d p)%Z ->
  <[p := (RefCount (count r + d p), v')]> (settles h d) = settles (<[p := (r, v')]> h) d.
Proof.
  intros Hp Hd. apply map_eq. intros q. rewrite lookup_settles. destruct (decide (q = p)) as [->|Hq].
  - rewrite !lookup_insert_eq. cbn. by rewrite (proj2 (Z.ltb_lt _ _)).
  - rewrite !lookup_insert_ne, lookup_settles by done. done.
Qed.

Lemma obj_get_settles h d p r v :
  h !! p = Some (r, v) -> (0 < count r + d p)%Z -> obj_get p (settles h d) = Ret v.
Proof. intros Hp Hd. unfold obj_get. by rewrite (settles_live _ _ _ _ _ Hp Hd). Qed.

Lemma obj_set_settles h d p r v v' :
  h !! p = Some (r, v) -> (0 < count r + d p)%Z ->
  obj_set p v' (settles h d) = Ret (settles (<[p := (r, v')]> h) d).
Proof.
  intros Hp Hd. unfold obj_set. rewrite (settles_live _ _ _ _ _ Hp Hd). cbn [deref]. rewrite bind_ret_l.
  by rewrite (settles_insert _ _ _ _ _ _ Hp).
Qed.

(** Both operations move the count by one, whatever becomes of the object. *)
Lemma settles_one h d p r v (n : Z) :
  h !! p = Some (r, v) -> (0 < count r + d p + n)%Z ->
  <[p := (RefCount (count r + d p + n), v)]> (settles h d) = settles h (fun q => d q + n * one p q)%Z.
Proof.
  intros Hp Hd. apply map_eq. intros q. rewrite lookup_settles. unfold one.
  destruct (decide (q = p)) as [->|Hq].
  - rewrite lookup_insert_eq, Hp. cbn. rewrite Z.mul_1_r, Z.add_assoc. by rewrite (proj2 (Z.ltb_lt _ _)).
  - rewrite lookup_insert_ne, lookup_settles by done. by rewrite Z.mul_0_r, Z.add_0_r.
Qed.

Lemma obj_copy_settles h d p r v :
  h !! p = Some (r, v) -> (0 < count r + d p < 2 ^ 32 - 1)%Z ->
  obj_copy p (settles h d) = Ret (settles h (fun q => d q + one p q)%Z).
Proof.
  intros Hp Hd. unfold obj_copy. rewrite (settles_live _ _ _ _ _ Hp) by lia. cbn [deref]. rewrite bind_ret_l.
  destruct (inc_live (RefCount (count r + d p))) as [E _]; [unfold live; cbn; lia|cbn; lia|].
  rewrite E, bind_ret_l. cbn [count]. rewrite (settles_one _ _ _ _ _ 1 Hp) by lia. f_equal.
  apply settles_ext. intros. lia.
Qed.

Lemma obj_delete_settles h d p r v :
  h !! p = Some (r, v) -> (0 < count r + d p < 2 ^ 32)%Z ->
  exists freed, obj_delete p (settles h d) = Ret (freed, settles h (fun q => d q - one p q)%Z).
Proof.
  intros Hp Hd. unfold obj_delete. rewrite (settles_live _ _ _ _ _ Hp) by lia. cbn [deref].
  rewrite bind_ret_l, dec_live, bind_ret_l by (unfold live; cbn; lia). cbn [count].
  destruct (_ =? 0)%Z eqn:E; bool_hyps.
  - exists (Some v). do 2 f_equal. apply map_eq. intros q. unfold one. destruct (decide (q = p)) as [->|Hq].
    + rewrite lookup_delete_eq. symmetry. apply settles_dead. unfold refs_of. rewrite Hp.
      rewrite decide_True by done. lia.
    + rewrite lookup_delete_ne, !lookup_settles, decide_False, Z.sub_0_r by done. done.
  - exists None. do 2 f_equal. replace (count r + d p - 1)%Z with (count r + d p + -1)%Z by lia.
    rewrite (settles_one _ _ _ _ _ (-1) Hp) by lia. apply settles_ext. intros. lia.
Qed.

End Counted.
