(* ===== verification/DirentryCache.v ===== *)
(** * scrap/direntry_cache.c: the directory cache

    Directory entries by path, in a table, and the tree they make: parents,
    children, siblings. The file is written against members of [direntry_t]
    that direntry.c does not have any more, so the record here has what the file
    uses, and against a table whose constructor has changed, so it is written
    over the class [StrTable]. It is a thread's own run: the lock of locks.c
    blocks it only if it blocks itself. What the cache calls outside this file
    are parameters: the time, [parser_fetch_listing], [path_get_direntry] and
    the configured timeout. *)
From S2P Require Import Prelude CLib Constants HashTable StrTable Utils RefCount Locks Counted.
#[local] Open Scope nat_scope.

(** ** The data *)

Record direntry_t := Direntry {
  path : cstr;
  inode : Z;
  parent : option nat;
  children : option nat;
  next : option nat;
  looked_for_children : bool;
  cache_last_valid : Z
}.

Definition set_parent (q : option nat) (v : direntry_t) : direntry_t :=
  Direntry (path v) (inode v) q (children v) (next v) (looked_for_children v) (cache_last_valid v).
Definition set_children (q : option nat) (v : direntry_t) : direntry_t :=
  Direntry (path v) (inode v) (parent v) q (next v) (looked_for_children v) (cache_last_valid v).
Definition set_looked (b : bool) (v : direntry_t) : direntry_t :=
  Direntry (path v) (inode v) (parent v) (children v) (next v) b (cache_last_valid v).
Definition set_valid (t : Z) (v : direntry_t) : direntry_t :=
  Direntry (path v) (inode v) (parent v) (children v) (next v) (looked_for_children v) t.

Inductive direntry_cache_status_t :=
| direntry_cache_status_HIT | direntry_cache_status_NOENT | direntry_cache_status_UNKNOWN.
#[export] Instance direntry_cache_status_eq_dec : EqDecision direntry_cache_status_t.
Proof. solve_decision. Defined.

Section Cache.
Context {T : Type} `{StrTable T nat}.
(** Whether direntry.c's getters of other direntries give a new reference, as
    they do now, or the pointer alone, as this file, which gives none back, was
    written for. *)
Context (copies : bool).
(** What the n-th call of [time] or [parser_fetch_listing] returns. *)
Context (time : nat -> Z) (parser_fetch_listing : nat -> cstr -> Z).
Context (config_timeout_cache : Z) (self : tid).

(** The statics, the direntries in memory, and how many calls were made. *)
Record cache := Cache {
  des : heap direntry_t;
  direntry_cache : T;
  direntry_cache_lock : rw_lock;
  calls : nat
}.

Definition set_des (h : heap direntry_t) (st : cache) : cache :=
  Cache h (direntry_cache st) (direntry_cache_lock st) (calls st).
Definition set_table (t : T) (st : cache) : cache :=
  Cache (des st) t (direntry_cache_lock st) (calls st).
Definition set_lock (m : rw_lock) (st : cache) : cache :=
  Cache (des st) (direntry_cache st) m (calls st).
Definition called (st : cache) : cache :=
  Cache (des st) (direntry_cache st) (direntry_cache_lock st) (S (calls st)).

(** ** The code: what the cache uses *)

(** [de->...], and a field written. *)
Definition de_read (de : nat) (st : cache) : outcome direntry_t := obj_get de (des st).
Definition de_write (f : direntry_t -> direntry_t) (de : nat) (st : cache) : outcome cache :=
  v ← de_read de st;
  h ← obj_set de (f v) (des st);
  Ret (set_des h st).

(** [direntry_post], which [direntry_copy] was called, and [direntry_delete]. *)
Definition direntry_post (de : nat) (st : cache) : outcome cache :=
  h ← obj_copy de (des st); Ret (set_des h st).
Definition direntry_delete (de : nat) (st : cache) : outcome cache :=
  '(_, h) ← obj_delete de (des st); Ret (set_des h st).

Definition hand_out (q : option nat) (st : cache) : outcome (option nat * cache) :=
  match q with
  | Some de => st ← (if copies then direntry_post de st else Ret st); Ret (q, st)
  | None => Ret (q, st)
  end.
Definition direntry_get_parent (de : nat) (st : cache) := v ← de_read de st; hand_out (parent v) st.
Definition direntry_get_first_child (de : nat) (st : cache) := v ← de_read de st; hand_out (children v) st.
Definition direntry_get_next_sibling (de : nat) (st : cache) := v ← de_read de st; hand_out (next v) st.
Definition direntry_is_root (de : nat) (st : cache) : outcome bool :=
  v ← de_read de st; Ret (inode v =? FSFUSE_ROOT_INODE)%Z.

(** The lock's calls by the one thread; their results are not looked at. *)
Definition wlock (st : cache) : outcome cache :=
  if already_locking self (direntry_cache_lock st) then Ret st
  else match rw_lock_wlock self (direntry_cache_lock st) with
       | Some m => Ret (set_lock m st)
       | None => Blocked
       end.
Definition rlock (st : cache) : outcome cache :=
  if already_locking self (direntry_cache_lock st) then Ret st
  else match rw_lock_rlock self (direntry_cache_lock st) with
       | Some m => Ret (set_lock m st)
       | None => Blocked
       end.
Definition wunlock (st : cache) : cache := set_lock (snd (rw_lock_wunlock (direntry_cache_lock st))) st.
Definition runlock (st : cache) : cache := set_lock (snd (rw_lock_runlock (direntry_cache_lock st))) st.

(** [hash_table_find] under the read lock. *)
Definition find_locked (k : cstr) (st : cache) : outcome (option nat * cache) :=
  st ← rlock st;
  de ← tbl_find (direntry_cache st) k;
  Ret (de, runlock st).

(** ** The code: expiry *)

Definition direntry_cache_is_expired (de : nat) (st : cache) : outcome (bool * cache) :=
  root ← direntry_is_root de st;
  if root : bool then Ret (false, st)
  else
    v ← de_read de st;
    Ret (bool_decide (cache_last_valid v < time (calls st) - config_timeout_cache)%Z, called st).

Definition direntry_cache_is_stale (de : nat) (st : cache) : outcome (bool * cache) :=
  '(expired, st) ← direntry_cache_is_expired de st;
  if expired : bool then Ret (true, st)
  else
    v ← de_read de st;
    Ret (negb (parser_fetch_listing (calls st) (path v) =? 0)%Z, called st).

Definition direntry_cache_notify_still_valid (de : nat) (st : cache) : outcome cache :=
  de_write (set_valid (time (calls st))) de (called st).

(** The loop of [direntry_cache_notify_stale]: up to the root or something that
    is not stale. *)
Fixpoint stale_up (fuel : nat) (p : option nat) (st : cache) : outcome (nat * cache) :=
  match fuel with
  | 0 => Blocked
  | S fuel =>
      p ← deref p;
      root ← direntry_is_root p st;
      if root : bool then Ret (p, st)
      else
        '(stale, st) ← direntry_cache_is_stale p st;
        if stale : bool then
          '(q, st) ← direntry_get_parent p st;
          stale_up fuel q st
        else Ret (p, st)
  end.

(** ** The code: lookups and deletions *)

(** The mutual recursion takes fuel. The status, [*de_out], the state. *)
Fixpoint direntry_cache_get (fuel : nat) (k : cstr) (st : cache) {struct fuel}
  : outcome (direntry_cache_status_t * option nat * cache) :=
  match fuel with
  | 0 => Blocked
  | S fuel =>
      '(found, st) ← find_locked k st;
      match found with
      | Some de =>
          '(expired, st) ← direntry_cache_is_expired de st;
          if expired : bool then
            st ← direntry_cache_notify_stale fuel de st;
            Ret (direntry_cache_status_UNKNOWN, None, st)
          else
            st ← direntry_post de st;
            Ret (direntry_cache_status_HIT, Some de, st)
      | None =>
          '(de_parent, st) ← find_locked (fsfuse_dirname k) st;
          match de_parent with
          | Some q =>
              v ← de_read q st;
              Ret (if looked_for_children v then direntry_cache_status_NOENT
                   else direntry_cache_status_UNKNOWN, None, st)
          | None => Ret (direntry_cache_status_UNKNOWN, None, st)
          end
      end
  end
with direntry_cache_notify_stale (fuel : nat) (de : nat) (st : cache) {struct fuel} : outcome cache :=
  match fuel with
  | 0 => Blocked
  | S fuel =>
      root ← direntry_is_root de st;
      '(q, st) ← (if root : bool then Ret (Some de, st) else direntry_get_parent de st);
      '(q, st) ← stale_up fuel q st;
      st ← direntry_cache_notify_still_valid q st;
      st ← wlock st;
      st ← direntry_cache_del_descendants fuel q st;
      de_write (set_children None) q (wunlock st)
  end
with direntry_cache_del_descendants (fuel : nat) (de : nat) (st : cache) {struct fuel} : outcome cache :=
  match fuel with
  | 0 => Blocked
  | S fuel =>
      '(child, st) ← direntry_get_first_child de st;
      st ← del_children fuel child st;
      de_write (set_looked false) de st
  end
with del_children (fuel : nat) (child : option nat) (st : cache) {struct fuel} : outcome cache :=
  match fuel with
  | 0 => Blocked
  | S fuel =>
      match child with
      | None => Ret st
      | Some c =>
          '(next_child, st) ← direntry_get_next_sibling c st;
          st ← direntry_cache_del_tree fuel c st;
          del_children fuel next_child st
      end
  end
with direntry_cache_del_tree (fuel : nat) (de : nat) (st : cache) {struct fuel} : outcome cache :=
  match fuel with
  | 0 => Blocked
  | S fuel =>
      '(child, st) ← direntry_get_first_child de st;
      st ← del_children fuel child st;
      '(_, st) ← direntry_cache_del fuel de st;
      Ret st
  end
with direntry_cache_del (fuel : nat) (de : nat) (st : cache) {struct fuel} : outcome (bool * cache) :=
  match fuel with
  | 0 => Blocked
  | S fuel =>
      st ← wlock st;
      v ← de_read de st;
      '(rc, t) ← tbl_del (direntry_cache st) (path v);
      let st := wunlock (set_table t st) in
      v ← de_read de st;
      '(stat, _, st) ← direntry_cache_get fuel (path v) st;
      _ ← c_assert (bool_decide (stat <> direntry_cache_status_HIT));
      st ← direntry_delete de st;
      Ret (rc, st)
  end.

(** ** The code: additions *)

Definition direntry_cache_add (de : nat) (st : cache) : outcome cache :=
  st ← direntry_post de st;
  st ← de_write (set_valid (time (calls st))) de (called st);
  st ← wlock st;
  v ← de_read de st;
  t ← tbl_add (direntry_cache st) (path v) de;
  Ret (wunlock (set_table t st)).

(** [for (de = dirents; de; de = direntry_get_next_sibling(de))] *)
Fixpoint add_list_loop (fuel : nat) (de_parent de : option nat) (st : cache) : outcome cache :=
  match fuel with
  | 0 => Blocked
  | S fuel =>
      match de with
      | None => Ret st
      | Some d =>
          st ← de_write (set_parent de_parent) d st;
          st ← direntry_cache_add d st;
          '(n, st) ← direntry_get_next_sibling d st;
          add_list_loop fuel de_parent n st
      end
  end.

(** [path_get_direntry] gives a result and what it left in [*de_out], which
    [direntry_cache_get] set to NULL. *)
Definition direntry_cache_add_list (fuel : nat)
    (path_get_direntry : cstr -> cache -> outcome (Z * option nat * cache))
    (dirents : option nat) (dir : cstr) (st : cache) : outcome cache :=
  '(stat, de_parent, st) ← direntry_cache_get fuel dir st;
  '(rc, de_parent, st) ← (if bool_decide (stat <> direntry_cache_status_HIT)
                          then path_get_direntry dir st else Ret (0%Z, de_parent, st));
  st ← (if (rc =? 0)%Z then add_list_loop fuel de_parent dirents st else Ret st);
  q ← deref de_parent;
  st ← de_write (set_looked true) q st;
  st ← de_write (set_children dirents) q st;
  direntry_delete q st.

(** A [for] over a list by its [next] fields, [n] being the next one's; the
    body may stop it. *)
Fixpoint each_sibling {A} (fuel : nat) (body : nat -> A -> cache -> outcome (bool * A * cache))
    (de : option nat) (a : A) (st : cache) : outcome (A * cache) :=
  match fuel with
  | 0 => Blocked
  | S fuel =>
      match de with
      | None => Ret (a, st)
      | Some d =>
          '(stop, a, st) ← body d a st;
          if stop : bool then Ret (a, st)
          else
            v ← de_read d st;
            each_sibling fuel body (next v) a st
      end
  end.

Definition same_path (d e : nat) (st : cache) : outcome bool :=
  v ← de_read d st; w ← de_read e st; Ret (streq (path v) (path w)).

(** "Transfer ownership of all child subtrees from old list to new list" *)
Definition transfer_children (fuel : nat) (new_children old_children : option nat) (st : cache)
  : outcome cache :=
  '(_, st) ← each_sibling fuel (fun new_child _ st =>
    '(_, st) ← each_sibling fuel (fun old_child _ st =>
      same ← same_path new_child old_child st;
      st ← (if same : bool then
              o ← de_read old_child st; de_write (set_children (children o)) new_child st
            else Ret st);
      Ret (false, tt, st)) old_children tt st;
    Ret (false, tt, st)) new_children tt st;
  Ret st.

(** "Free the old list and any remaining subtrees that weren't carried over" *)
Definition free_old_children (fuel : nat) (new_children old_children : option nat) (st : cache)
  : outcome cache :=
  '(_, st) ← each_sibling fuel (fun old_child _ st =>
    '(found, st) ← each_sibling fuel (fun new_child _ st =>
      same ← same_path new_child old_child st;
      Ret (same, same, st)) new_children false st;
    st ← (if found : bool then Ret st
          else
            st ← wlock st;
            st ← direntry_cache_del_descendants fuel old_child st;
            Ret (wunlock st));
    '(_, st) ← direntry_cache_del fuel old_child st;
    Ret (false, tt, st)) old_children tt st;
  Ret st.

(** "Finally, claim cache ownership of the new list" *)
Definition claim_children (fuel : nat) (p : nat) (new_children : option nat) (st : cache)
  : outcome cache :=
  '(_, st) ← each_sibling fuel (fun new_child _ st =>
    st ← de_write (set_parent (Some p)) new_child st;
    st ← direntry_cache_add new_child st;
    Ret (false, tt, st)) new_children tt st;
  Ret st.

Definition direntry_cache_add_children (fuel : nat) (p : nat) (new_children : option nat)
    (st : cache) : outcome cache :=
  v ← de_read p st;
  let old_children := children v in
  st ← wlock st;
  st ← de_write (set_children new_children) p st;
  st ← transfer_children fuel new_children old_children st;
  st ← free_old_children fuel new_children old_children st;
  st ← claim_children fuel p new_children st;
  Ret (wunlock st).

(** ** The code: beginning and end *)

(** [root] is what [direntry_new_root] makes, with one reference; [t] what
    [hash_table_new] makes. *)
Definition direntry_cache_init (root : direntry_t) (t : T) (h : heap direntry_t) (n : nat)
  : outcome cache :=
  let '(de_root, h) := obj_new root h in
  st ← direntry_cache_add de_root (Cache h t rw_lock_new n);
  direntry_delete de_root st.

(** The lock and the table are gone: the direntries that are left. *)
Definition direntry_cache_finalise (fuel : nat) (st : cache) : outcome (heap direntry_t) :=
  '(stat, de_root, st) ← direntry_cache_get fuel (cs "/") st;
  _ ← c_assert (bool_decide (stat = direntry_cache_status_HIT));
  de_root ← deref de_root;
  st ← direntry_delete de_root st;
  st ← direntry_cache_del_tree fuel de_root st;
  _ ← tbl_delete (direntry_cache st);
  Ret (des st).

(** ** The code: of the DEBUG build *)

Definition direntry_cache_status (k : cstr) (st : cache) : outcome (cstr * cache) :=
  '(found, st) ← find_locked k st;
  match found with
  | Some de =>
      '(expired, st) ← direntry_cache_is_expired de st;
      Ret (cs " CACHED" ++ (if expired : bool then cs " STALE" else []), st)
  | None => Ret ([], st)
  end.

(** The paths printed, each after [2 * indent] spaces; [indent] is never taken
    back. *)
Fixpoint direntry_cache_dump_tree (fuel indent : nat) (de : nat) (st : cache)
  : outcome (list (nat * cstr) * nat * cache) :=
  match fuel with
  | 0 => Blocked
  | S fuel =>
      v ← de_read de st;
      '(child, st) ← direntry_get_first_child de st;
      '(lines, indent', st) ← dump_children fuel (S indent) de child st;
      Ret ((indent, path v) :: lines, indent', st)
  end
with dump_children (fuel indent : nat) (de : nat) (child : option nat) (st : cache)
  : outcome (list (nat * cstr) * nat * cache) :=
  match fuel with
  | 0 => Blocked
  | S fuel =>
      match child with
      | None => Ret ([], indent, st)
      | Some c =>
          '(l1, indent, st) ← direntry_cache_dump_tree fuel indent c st;
          '(child, st) ← direntry_get_next_sibling de st;
          '(l2, indent, st) ← dump_children fuel indent de child st;
          Ret (l1 ++ l2, indent, st)
      end
  end.

(** [direntry_get_type(de) == direntry_type_DIRECTORY] *)
Context (is_directory : direntry_t -> bool).

Definition quoted (s : cstr) : cstr := dquote ++ s ++ dquote.

(** The lines of a graph: a direntry, the edge from its parent, its children. *)
Fixpoint direntry_cache_dump_tree_dot_do (fuel : nat) (up : option nat) (de : nat) (st : cache)
  : outcome (cstr * cache) :=
  match fuel with
  | 0 => Blocked
  | S fuel =>
      v ← de_read de st;
      let node := line (quoted (path v) ++ cs " [color=" ++
        (if is_directory v && negb (looked_for_children v) then cs "green" else cs "blue") ++ cs "]") in
      edge ← match up with
             | Some p =>
                 w ← de_read p st;
                 Ret (line (quoted (path w) ++ cs " -> " ++ quoted (path v) ++ cs " [color=blue]"))
             | None => Ret []
             end;
      '(child, st) ← direntry_get_first_child de st;
      '(below, st) ← dot_children fuel de child st;
      Ret (node ++ edge ++ below, st)
  end
with dot_children (fuel : nat) (de : nat) (child : option nat) (st : cache) : outcome (cstr * cache) :=
  match fuel with
  | 0 => Blocked
  | S fuel =>
      match child with
      | None => Ret ([], st)
      | Some c =>
          '(t1, st) ← direntry_cache_dump_tree_dot_do fuel (Some de) c st;
          '(child, st) ← direntry_get_next_sibling c st;
          '(t2, st) ← dot_children fuel de child st;
          Ret (t1 ++ t2, st)
      end
  end.

Definition direntry_cache_dump_tree_dot (fuel de : nat) (st : cache) : outcome (cstr * cache) :=
  direntry_cache_dump_tree_dot_do fuel None de st.

(** [hash_table_dump_dot] is the table's own; its text comes first. *)
Definition direntry_cache_dump_dot (fuel : nat) (hash_table_dump_dot : T -> outcome cstr) (st : cache)
  : outcome (cstr * cache) :=
  de_root ← tbl_find (direntry_cache st) (cs "/");
  t1 ← hash_table_dump_dot (direntry_cache st);
  de_root ← deref de_root;
  '(t2, st) ← direntry_cache_dump_tree_dot fuel de_root st;
  Ret (t1 ++ t2, st).

End Cache.

(** ** The cache as a forest *)

(** A list of siblings, each with its children. *)
Inductive forest := Leaf | Tree (a : nat) (v : direntry_t) (kids rest : forest).

Fixpoint shape (h : heap direntry_t) (p : option nat) (f : forest) : Prop :=
  match f with
  | Leaf => p = None
  | Tree a v kids rest =>
      p = Some a /\ (exists r, h !! a = Some (r, v)) /\
      shape h (children v) kids /\ shape h (next v) rest
  end.

Fixpoint nodes (f : forest) : list (nat * direntry_t) :=
  match f with
  | Leaf => []
  | Tree a v kids rest => (a, v) :: nodes kids ++ nodes rest
  end.
Definition addrs (f : forest) : list nat := (nodes f).*1.
Definition paths (f : forest) : list cstr := path <$> (nodes f).*2.

(** Without the paths of the forest. *)
Definition uncached (f : forest) (M : gmap cstr nat) : gmap cstr nat :=
  filter (fun '(k, _) => k ∉ paths f) M.

Lemma addrs_tree a v kids rest : addrs (Tree a v kids rest) = a :: addrs kids ++ addrs rest.
Proof. unfold addrs. cbn. by rewrite fmap_app. Qed.
Lemma paths_tree a v kids rest : paths (Tree a v kids rest) = path v :: paths kids ++ paths rest.
Proof. unfold paths. cbn. by rewrite !fmap_app. Qed.

Lemma uncached_leaf M : uncached Leaf M = M.
Proof.
  apply map_eq. intros k. unfold uncached. rewrite map_lookup_filter.
  destruct (M !! k); [|done]. cbn. by rewrite option_guard_True by apply not_elem_of_nil.
Qed.

Lemma lookup_uncached f M k : uncached f M !! k = if decide (k ∈ paths f) then None else M !! k.
Proof.
  unfold uncached. rewrite map_lookup_filter. destruct (M !! k); [|by destruct (decide _)]. cbn.
  destruct (decide (k ∈ paths f)); [by rewrite option_guard_False by tauto|by rewrite option_guard_True].
Qed.

Lemma uncached_tree a v kids rest M :
  uncached (Tree a v kids rest) M = uncached rest (delete (path v) (uncached kids M)).
Proof.
  apply map_eq. intros k. rewrite !lookup_uncached, paths_tree.
  destruct (decide (k = path v)) as [->|Hk].
  - rewrite lookup_delete_eq, decide_True by apply list_elem_of_here. by destruct (decide _).
  - rewrite lookup_delete_ne, lookup_uncached by done.
    rewrite (decide_ext (k ∈ path v :: paths kids ++ paths rest) (k ∈ paths kids \/ k ∈ paths rest))
      by (rewrite elem_of_cons, elem_of_app; tauto).
    destruct (decide (k ∈ paths rest)); [by rewrite decide_True by tauto|].
    destruct (decide (k ∈ paths kids)); [by rewrite decide_True by tauto|].
    by rewrite decide_False by tauto.
Qed.

Lemma shape_head h p f a : shape h p f -> p = Some a -> a ∈ addrs f.
Proof.
  destruct f as [|b v kids rest]; [by intros -> |]. intros (-> & _) [= ->].
  rewrite addrs_tree. apply list_elem_of_here.
Qed.

Lemma shape_lookup h p f a : shape h p f -> a ∈ addrs f -> is_Some (h !! a).
Proof.
  revert p. induction f as [|b v kids IHk rest IHr]; intros p; [by intros _ ?%elem_of_nil|].
  rewrite addrs_tree, elem_of_cons, elem_of_app. intros (_ & [r Hr] & Hk & Hn) [-> | [Ha|Ha]]; [by eexists|eauto..].
Qed.

(** ** The lock of a thread by itself *)

Definition wlocked (self : tid) : rw_lock := RWLock 0 1 self.

Section Correct.
Context {T : Type} `{StrTable T nat}.
Context (copies : bool) (time : nat -> Z) (parser_fetch_listing : nat -> cstr -> Z).
Context (config_timeout_cache : Z) (self : tid) (Hself : self <> 0%Z).
Implicit Types (h : heap direntry_t) (d : nat -> Z) (M : gmap cstr nat) (st : cache (T := T)) (f : forest).

Abbreviation get := (direntry_cache_get copies time parser_fetch_listing config_timeout_cache self).
Abbreviation notify_stale := (direntry_cache_notify_stale copies time parser_fetch_listing config_timeout_cache self).
Abbreviation del_descendants := (direntry_cache_del_descendants copies time parser_fetch_listing config_timeout_cache self).
Abbreviation del_kids := (del_children copies time parser_fetch_listing config_timeout_cache self).
Abbreviation del_tree := (direntry_cache_del_tree copies time parser_fetch_listing config_timeout_cache self).
Abbreviation del := (direntry_cache_del copies time parser_fetch_listing config_timeout_cache self).

(** The recursion's equations. *)
Lemma del_children_S fuel child st : del_kids (S fuel) child st =
  match child with
  | None => Ret st
  | Some c =>
      '(next_child, st) ← direntry_get_next_sibling copies c st;
      st ← del_tree fuel c st;
      del_kids fuel next_child st
  end.
Proof. reflexivity. Qed.
Lemma del_tree_S fuel de st : del_tree (S fuel) de st =
  ('(child, st) ← direntry_get_first_child copies de st;
   st ← del_kids fuel child st;
   '(_, st) ← del fuel de st;
   Ret st).
Proof. reflexivity. Qed.
Lemma del_descendants_S fuel de st : del_descendants (S fuel) de st =
  ('(child, st) ← direntry_get_first_child copies de st;
   st ← del_kids fuel child st;
   de_write (set_looked false) de st).
Proof. reflexivity. Qed.
Lemma get_S fuel k st : get (S fuel) k st =
  ('(found, st) ← find_locked self k st;
   match found with
   | Some de =>
       '(old, st) ← direntry_cache_is_expired time config_timeout_cache de st;
       if old : bool then
         st ← notify_stale fuel de st;
         Ret (direntry_cache_status_UNKNOWN, None, st)
       else
         st ← direntry_post de st;
         Ret (direntry_cache_status_HIT, Some de, st)
   | None =>
       '(de_parent, st) ← find_locked self (fsfuse_dirname k) st;
       match de_parent with
       | Some q =>
           v ← de_read q st;
           Ret (if looked_for_children v then direntry_cache_status_NOENT
                else direntry_cache_status_UNKNOWN, None, st)
       | None => Ret (direntry_cache_status_UNKNOWN, None, st)
       end
   end).
Proof. reflexivity. Qed.
Lemma notify_stale_S fuel de st : notify_stale (S fuel) de st =
  (root ← direntry_is_root de st;
   '(q, st) ← (if root : bool then Ret (Some de, st) else direntry_get_parent copies de st);
   '(q, st) ← stale_up copies time parser_fetch_listing config_timeout_cache fuel q st;
   st ← direntry_cache_notify_still_valid time q st;
   st ← wlock self st;
   st ← del_descendants fuel q st;
   de_write (set_children None) q (wunlock st)).
Proof. reflexivity. Qed.

(** Free, or held by this thread for writing. *)
Definition lock_ok (m : rw_lock) : Prop := m = rw_lock_new \/ m = wlocked self.

Lemma self_locking r w : already_locking self (RWLock r w self) = true.
Proof. unfold already_locking. cbn. rewrite Z.eqb_refl, andb_true_r. by rewrite (proj2 (Z.eqb_neq _ _)). Qed.

Lemma set_lock_id st : set_lock (direntry_cache_lock st) st = st.
Proof. by destruct st. Qed.

Lemma wlock_ok st : lock_ok (direntry_cache_lock st) -> wlock self st = Ret (set_lock (wlocked self) st).
Proof.
  intros [E|E]; unfold wlock; rewrite E; [done|].
  replace (already_locking self (wlocked self)) with true by (symmetry; apply self_locking).
  by rewrite <- E, set_lock_id.
Qed.

Lemma wunlock_ok st : lock_ok (direntry_cache_lock st) -> wunlock st = set_lock rw_lock_new st.
Proof. intros [E|E]; unfold wunlock; by rewrite E. Qed.

Lemma find_locked_ok st M k :
  lock_ok (direntry_cache_lock st) -> tbl_rep (direntry_cache st) M ->
  find_locked self k st = Ret (M !! k, st).
Proof.
  intros Hl HM. unfold find_locked, rlock. destruct st as [hp tb m n]. cbn in *.
  destruct Hl as [-> | ->]; [|unfold wlocked; rewrite self_locking];
    cbn; by rewrite (tbl_find_spec _ M k HM).
Qed.

(** ** States *)

Record in_state h d M (n c : nat) st : Prop := {
  is_des : des st = settles h d;
  is_table : tbl_rep (direntry_cache st) M;
  is_room : tbl_room (direntry_cache st) n;
  is_lock : lock_ok (direntry_cache_lock st);
  is_calls : calls st = c
}.

(** Every entry of the table is a direntry that is alive, under its path. *)
Definition entries_live h d M : Prop :=
  forall k a, M !! k = Some a ->
    exists r v, h !! a = Some (r, v) /\ path v = k /\ (0 < count r + d a)%Z.

Definition alive h d (l : list nat) : Prop :=
  forall a, a ∈ l -> (0 < refs_of h a + d a < 2 ^ 32 - 4)%Z.

Lemma in_state_ext h d d' M n c st :
  (forall a, is_Some (h !! a) -> d a = d' a) -> in_state h d M n c st -> in_state h d' M n c st.
Proof. intros E [? ? ? ? ?]. split; [|done..]. by rewrite <- (settles_ext h d d' E). Qed.

Lemma entries_live_le h d d' M :
  (forall a, d a <= d' a)%Z -> entries_live h d M -> entries_live h d' M.
Proof.
  intros E HL k a Hk. destruct (HL k a Hk) as (r & v & ? & ? & ?). exists r, v. split_and!; [done..|].
  specialize (E a). lia.
Qed.

Lemma refs_lookup h a r v : h !! a = Some (r, v) -> refs_of h a = count r.
Proof. intros E. unfold refs_of. by rewrite E. Qed.

Lemma de_read_ok h d M n c st a r v :
  in_state h d M n c st -> h !! a = Some (r, v) -> (0 < count r + d a)%Z -> de_read a st = Ret v.
Proof. intros Hst Ha Hd. unfold de_read. rewrite (is_des _ _ _ _ _ _ Hst). by eapply obj_get_settles. Qed.

Lemma post_ok h d M n c st a r v :
  in_state h d M n c st -> h !! a = Some (r, v) -> (0 < count r + d a < 2 ^ 32 - 1)%Z ->
  exists st', direntry_post a st = Ret st' /\ in_state h (fun q => d q + one a q)%Z M n c st'.
Proof.
  intros [Hd ? ? ? ?] Ha Hc. unfold direntry_post. rewrite Hd, (obj_copy_settles _ _ _ _ _ Ha), bind_ret_l by lia.
  eexists. split; [done|]. by split.
Qed.

Lemma drop_ok h d M n c st a r v :
  in_state h d M n c st -> h !! a = Some (r, v) -> (0 < count r + d a < 2 ^ 32)%Z ->
  exists st', direntry_delete a st = Ret st' /\ in_state h (fun q => d q - one a q)%Z M n c st'.
Proof.
  intros [Hd ? ? ? ?] Ha Hc. unfold direntry_delete.
  destruct (obj_delete_settles _ _ _ _ _ Ha Hc) as [freed E]. rewrite Hd, E, bind_ret_l.
  eexists. split; [done|]. by split.
Qed.

(** The reference a getter gives. *)
Definition given (p : option nat) : nat -> Z :=
  fun q => if copies then match p with Some a => one a q | None => 0%Z end else 0%Z.

Lemma hand_out_ok h d M n c st p :
  in_state h d M n c st ->
  (forall a, p = Some a -> is_Some (h !! a) /\ (0 < refs_of h a + d a < 2 ^ 32 - 1)%Z) ->
  exists st', hand_out copies p st = Ret (p, st') /\ in_state h (fun q => d q + given p q)%Z M n c st'.
Proof.
  intros Hst Hp. unfold hand_out, given. destruct p as [a|].
  - destruct (Hp a eq_refl) as [[[r v] Ha] Hd]. rewrite (refs_lookup _ _ _ _ Ha) in Hd.
    destruct copies.
    + destruct (post_ok _ _ _ _ _ _ _ _ _ Hst Ha Hd) as (st' & -> & Hst'). rewrite bind_ret_l. eauto.
    + exists st. split; [done|]. eapply in_state_ext; [|done]. intros. lia.
  - exists st. split; [done|]. eapply in_state_ext; [|done]. intros. destruct copies; lia.
Qed.

(** ** Lookups that miss *)

Definition miss_status h M (k : cstr) : direntry_cache_status_t :=
  match M !! fsfuse_dirname k with
  | Some q => if from_option (looked_for_children ∘ snd) false (h !! q)
              then direntry_cache_status_NOENT else direntry_cache_status_UNKNOWN
  | None => direntry_cache_status_UNKNOWN
  end.

Lemma get_miss h d M n c st k fuel :
  in_state h d M n c st -> entries_live h d M -> M !! k = None -> 1 <= fuel ->
  get fuel k st = Ret (miss_status h M k, None, st).
Proof.
  intros Hst HL Hk Hf. destruct fuel as [|fuel]; [lia|]. rewrite get_S. destruct Hst as [Hd HM Hr Hl Hc] eqn:E.
  rewrite (find_locked_ok _ M) by done. rewrite bind_ret_l, Hk.
  rewrite (find_locked_ok _ M) by done. rewrite bind_ret_l. unfold miss_status.
  destruct (M !! fsfuse_dirname k) as [q|] eqn:Hq; [|done].
  destruct (HL _ _ Hq) as (r & v & Hv & _ & Hlive).
  by rewrite (de_read_ok _ _ _ _ _ _ _ _ _ Hst Hv Hlive), bind_ret_l, Hv.
Qed.

Lemma miss_not_hit h M k : miss_status h M k <> direntry_cache_status_HIT.
Proof. unfold miss_status. destruct (M !! _); [|done]. by destruct (from_option _ _ _). Qed.

(** ** Deletions *)

Lemma entries_live_del h d M a r v :
  entries_live h d M -> h !! a = Some (r, v) ->
  entries_live h (fun q => d q - one a q)%Z (delete (path v) M).
Proof.
  intros HL Ha k b [Hne Hk]%lookup_delete_Some. destruct (HL k b Hk) as (r' & v' & Hb & Hp & Hd).
  exists r', v'. split_and!; [done..|]. unfold one. destruct (decide (b = a)) as [-> |]; [|lia].
  simplify_eq.
Qed.

Lemma cache_del_ok h d M n c st a r v fuel :
  in_state h d M n c st -> entries_live h d M -> h !! a = Some (r, v) ->
  (0 < count r + d a < 2 ^ 32)%Z -> 2 <= fuel ->
  exists rc st', del fuel a st = Ret (rc, st') /\
    in_state h (fun q => d q - one a q)%Z (delete (path v) M) n c st' /\
    direntry_cache_lock st' = rw_lock_new.
Proof.
  intros Hst HL Ha Hd Hf. destruct fuel as [|fuel]; [lia|].
  cbn [direntry_cache_del]. rewrite wlock_ok, bind_ret_l by apply Hst.
  assert (in_state h d M n c (set_lock (wlocked self) st)) as Hst1
    by (destruct Hst; split; try done; by right).
  rewrite (de_read_ok _ _ _ _ _ _ _ _ _ Hst1 Ha), bind_ret_l by lia.
  destruct (tbl_del_spec (direntry_cache (set_lock (wlocked self) st)) M (path v) n)
    as (t & E & HM & Hr); [apply Hst1..|].
  rewrite E, bind_ret_l, wunlock_ok by apply Hst1.
  set (st2 := set_lock rw_lock_new _).
  assert (in_state h d (delete (path v) M) n c st2) as Hst2
    by (destruct Hst1; split; try done; by left).
  rewrite (de_read_ok _ _ _ _ _ _ _ _ _ Hst2 Ha), bind_ret_l by lia.
  rewrite (get_miss _ _ _ _ _ _ _ _ Hst2), bind_ret_l; [|..].
  - rewrite (bool_decide_true (miss_status _ _ _ <> _)) by apply miss_not_hit.
    cbn [c_assert]. rewrite bind_ret_l.
    destruct (drop_ok _ _ _ _ _ _ _ _ _ Hst2 Ha Hd) as (st3 & E3 & Hst3).
    rewrite E3, bind_ret_l. do 2 eexists. split; [done|]. split; [done|].
    unfold direntry_delete in E3. destruct (obj_delete _ _) as [[? ?]| | |]; [|done..]. by injection E3 as <-.
  - intros k b [_ Hk]%lookup_delete_Some. by apply HL.
  - apply lookup_delete_eq.
  - lia.
Qed.

(** What deleting a forest does to the counts, the references that the getters
    give included: these are never given back. *)
Definition kept (f : forest) : nat -> Z := fun q => if copies then 0%Z else (- each (addrs f) q)%Z.

Lemma given_bounds p q : (0 <= given p q <= 1)%Z.
Proof. unfold given, one. destruct copies, p; try case_decide; lia. Qed.

Lemma given_off p q : p <> Some q -> given p q = 0%Z.
Proof. intros Hp. unfold given, one. destruct copies, p; try case_decide; congruence || lia. Qed.

Lemma one_off a q : q <> a -> one a q = 0%Z.
Proof. intros Hq. unfold one. by rewrite decide_False. Qed.

Lemma one_at_self a : one a a = 1%Z.
Proof. unfold one. by rewrite decide_True. Qed.

Lemma kept_off f q : q ∉ addrs f -> kept f q = 0%Z.
Proof. intros Hq. unfold kept. rewrite each_none by done. by destruct copies. Qed.

Lemma kept_tree a v kids rest q :
  kept (Tree a v kids rest) q = (given (Some a) q - one a q + kept kids q + kept rest q)%Z.
Proof.
  unfold kept, given. rewrite addrs_tree. destruct copies; [lia|]. rewrite each_cons, each_app. lia.
Qed.

(** The getters of children and siblings. *)
Lemma get_pointer h d M n c st a r v (field : direntry_t -> option nat) f :
  in_state h d M n c st -> h !! a = Some (r, v) -> (0 < count r + d a)%Z ->
  shape h (field v) f -> alive h d (addrs f) ->
  exists st', (w ← de_read a st; hand_out copies (field w) st) = Ret (field v, st') /\
    in_state h (fun q => d q + given (field v) q)%Z M n c st'.
Proof.
  intros Hst Ha Hd Hs Hl. rewrite (de_read_ok _ _ _ _ _ _ _ _ _ Hst Ha), bind_ret_l by done.
  eapply hand_out_ok; [done|]. intros b Hb. pose proof (shape_head _ _ _ _ Hs Hb) as Hin.
  split; [by eapply shape_lookup|]. specialize (Hl b Hin). lia.
Qed.

(** What [del_children] does to a forest, its first reference given. *)
Definition kids_spec f : Prop := forall fuel h d M n c st p,
  shape h p f -> NoDup (addrs f) -> alive h d (addrs f) -> 2 * length (addrs f) + 2 <= fuel ->
  in_state h (fun q => d q + given p q)%Z M n c st ->
  entries_live h (fun q => d q + given p q)%Z M ->
  exists st', del_kids fuel p st = Ret st' /\
    in_state h (fun q => d q + kept f q)%Z (uncached f M) n c st' /\
    entries_live h (fun q => d q + kept f q)%Z (uncached f M).

Lemma entries_live_ext h d d' M :
  (forall a, d a = d' a) -> entries_live h d M -> entries_live h d' M.
Proof. intros E. apply entries_live_le. intros a. rewrite E. lia. Qed.

Lemma del_tree_of_kids f fuel h d M n c st a r v :
  kids_spec f -> h !! a = Some (r, v) -> shape h (children v) f -> NoDup (a :: addrs f) ->
  alive h d (addrs f) -> (0 < count r + d a < 2 ^ 32)%Z -> 2 * length (addrs f) + 3 <= fuel ->
  in_state h d M n c st -> entries_live h d M ->
  exists st', del_tree fuel a st = Ret st' /\
    in_state h (fun q => d q + kept f q - one a q)%Z (delete (path v) (uncached f M)) n c st' /\
    entries_live h (fun q => d q + kept f q - one a q)%Z (delete (path v) (uncached f M)) /\
    direntry_cache_lock st' = rw_lock_new.
Proof.
  intros IH Ha Hs [Hn HN]%NoDup_cons Hl Hd Hf Hst HL. destruct fuel as [|fuel]; [lia|].
  rewrite del_tree_S. unfold direntry_get_first_child.
  destruct (get_pointer _ _ _ _ _ _ _ _ _ children f Hst Ha) as (st1 & E1 & Hst1); [lia|done..|].
  rewrite E1, bind_ret_l.
  destruct (IH fuel h d M n c st1 (children v)) as (st2 & E2 & Hst2 & HL2); [done..|lia|done| |].
  { eapply entries_live_le; [|exact HL]. intros q. pose proof (given_bounds (children v) q). lia. }
  rewrite E2, bind_ret_l.
  destruct (cache_del_ok _ _ _ _ _ _ a r v fuel Hst2 HL2 Ha) as (rc & st3 & E3 & Hst3 & Hlk); [|lia|].
  { rewrite kept_off by done. lia. }
  rewrite E3, bind_ret_l. exists st3. split_and!; [done..| |done]. by apply (entries_live_del _ _ _ _ r).
Qed.

Lemma del_forest f : kids_spec f.
Proof.
  induction f as [|a v kids IHk rest IHr]; intros fuel h d M n c st p Hs HN Hl Hf Hst HL;
    (destruct fuel as [|fuel]; [lia|]).
  - cbn in Hs. subst p. exists st. split; [done|].
    assert (forall q, d q + given None q = d q + kept Leaf q)%Z as E.
    { intros q. rewrite given_off, kept_off by (done || apply not_elem_of_nil). done. }
    rewrite uncached_leaf. split; [by eapply in_state_ext|by eapply entries_live_ext].
  - destruct Hs as (-> & [r Ha] & Hsk & Hsr). rewrite addrs_tree in HN, Hl, Hf.
    cbn [length] in Hf. rewrite length_app in Hf.
    apply NoDup_cons in HN as [Hna HN]. apply NoDup_app in HN as (HNk & Hkr & HNr).
    rewrite elem_of_app in Hna.
    assert (0 < count r + d a < 2 ^ 32 - 4)%Z as Hda.
    { rewrite <- (refs_lookup _ _ _ _ Ha). apply Hl, list_elem_of_here. }
    assert (forall q, q ∈ addrs kids -> q <> a /\ (q ∉ addrs rest) /\ next v <> Some q) as Hk.
    { intros q Hq. split_and!; [naive_solver|by apply Hkr|]. intros E. apply (Hkr q Hq). by eapply shape_head. }
    assert (forall q, q ∈ addrs rest -> q <> a /\ (q ∉ addrs kids)) as Hr by (split; naive_solver).
    pose proof (given_bounds (Some a)) as Hg. pose proof (given_bounds (next v)) as Hg'.
    rewrite del_children_S. unfold direntry_get_next_sibling.
    destruct (get_pointer _ _ _ _ _ _ _ _ _ next rest Hst Ha) as (st1 & E1 & Hst1).
    { specialize (Hg a). lia. } { done. }
    { intros q Hq. rewrite given_off, Z.add_0_r by (intros [= ->]; naive_solver).
      apply Hl, list_elem_of_further, elem_of_app. by right. }
    rewrite E1, bind_ret_l.
    destruct (del_tree_of_kids kids fuel h (fun q => d q + given (Some a) q + given (next v) q)%Z
      M n c st1 a r v) as (st2 & E2 & Hst2 & HL2 & _); try done.
    { constructor; tauto. }
    { intros q Hq. destruct (Hk q Hq) as (? & ? & ?). rewrite !given_off, !Z.add_0_r by congruence.
      apply Hl, list_elem_of_further, elem_of_app. by left. }
    { specialize (Hg a). specialize (Hg' a). lia. } { lia. }
    { eapply entries_live_le; [|exact HL]. intros q. specialize (Hg' q). cbn. lia. }
    rewrite E2, bind_ret_l.
    destruct (IHr fuel h (fun q => d q + given (Some a) q + kept kids q - one a q)%Z
      (delete (path v) (uncached kids M)) n c st2 (next v)) as (st3 & E3 & Hst3 & HL3); try done.
    { intros q Hq. destruct (Hr q Hq). rewrite given_off, kept_off, one_off by congruence.
      rewrite !Z.add_0_r, Z.sub_0_r. apply Hl, list_elem_of_further, elem_of_app. by right. }
    { lia. }
    { eapply in_state_ext; [|exact Hst2]. intros q _. cbn. lia. }
    { eapply entries_live_ext; [|exact HL2]. intros q. cbn. lia. }
    exists st3. split; [done|]. rewrite uncached_tree.
    assert (forall q, d q + given (Some a) q + kept kids q - one a q + kept rest q =
      d q + kept (Tree a v kids rest) q)%Z as E by (intros q; rewrite kept_tree; lia).
    split; [eapply in_state_ext; [intros q _; apply E|exact Hst3]|].
    eapply entries_live_ext; [exact E|exact HL3].
Qed.

(** ** Writing fields *)

Lemma write_ok h d M n c st a r v (f : direntry_t -> direntry_t) :
  in_state h d M n c st -> h !! a = Some (r, v) -> (0 < count r + d a)%Z ->
  exists st', de_write f a st = Ret st' /\ in_state (<[a := (r, f v)]> h) d M n c st'.
Proof.
  intros Hst Ha Hd. unfold de_write. rewrite (de_read_ok _ _ _ _ _ _ _ _ _ Hst Ha), bind_ret_l by done.
  destruct Hst as [E ? ? ? ?]. rewrite E, (obj_set_settles _ _ _ _ _ _ Ha), bind_ret_l by done.
  eexists. split; [done|]. by split.
Qed.

Lemma shape_insert h p f a x : a ∉ addrs f -> shape h p f -> shape (<[a := x]> h) p f.
Proof.
  revert p. induction f as [|b v kids IHk rest IHr]; intros p; [done|].
  rewrite addrs_tree, elem_of_cons, elem_of_app. intros Hn (-> & [r Hr] & Hk & Hs).
  split_and!; [done| |apply IHk; tauto|apply IHr; tauto].
  exists r. rewrite lookup_insert_ne by naive_solver. done.
Qed.

Lemma refs_insert h a r v v' q : h !! a = Some (r, v) -> refs_of (<[a := (r, v')]> h) q = refs_of h q.
Proof.
  intros Ha. unfold refs_of. destruct (decide (q = a)) as [-> | Hq].
  - by rewrite lookup_insert_eq, Ha.
  - by rewrite lookup_insert_ne.
Qed.

Lemma alive_insert h d l a r v v' :
  h !! a = Some (r, v) -> alive h d l -> alive (<[a := (r, v')]> h) d l.
Proof. intros Ha Hl b Hb. rewrite (refs_insert _ _ _ _ _ _ Ha). by apply Hl. Qed.

Lemma entries_live_insert h d M a r v v' :
  h !! a = Some (r, v) -> path v' = path v -> entries_live h d M ->
  entries_live (<[a := (r, v')]> h) d M.
Proof.
  intros Ha Hp HL k b Hk. destruct (HL k b Hk) as (r' & w & Hb & Hw & Hd).
  destruct (decide (b = a)) as [-> | Hne].
  - simplify_eq. eexists _, v'. rewrite lookup_insert_eq. by split_and!.
  - exists r', w. by rewrite lookup_insert_ne.
Qed.

Lemma del_descendants_ok fuel h d M n c st q r v f :
  h !! q = Some (r, v) -> shape h (children v) f -> NoDup (q :: addrs f) ->
  alive h d (q :: addrs f) -> 2 * length (addrs f) + 3 <= fuel ->
  in_state h d M n c st -> entries_live h d M ->
  exists st', del_descendants fuel q st = Ret st' /\
    in_state (<[q := (r, set_looked false v)]> h) (fun x => d x + kept f x)%Z (uncached f M) n c st' /\
    entries_live (<[q := (r, set_looked false v)]> h) (fun x => d x + kept f x)%Z (uncached f M).
Proof.
  intros Hq Hs [Hn HN]%NoDup_cons Hl Hf Hst HL. destruct fuel as [|fuel]; [lia|].
  assert (0 < count r + d q)%Z as Hdq.
  { rewrite <- (refs_lookup _ _ _ _ Hq). apply Hl, list_elem_of_here. }
  assert (alive h d (addrs f)) as Hlf by (intros b Hb; by apply Hl, list_elem_of_further).
  rewrite del_descendants_S. unfold direntry_get_first_child.
  destruct (get_pointer _ _ _ _ _ _ _ _ _ children f Hst Hq) as (st1 & E1 & Hst1); [done..|].
  rewrite E1, bind_ret_l.
  destruct (del_forest f fuel h d M n c st1 (children v)) as (st2 & E2 & Hst2 & HL2); [done..|lia|done| |].
  { eapply entries_live_le; [|exact HL]. intros b. pose proof (given_bounds (children v) b). lia. }
  rewrite E2, bind_ret_l.
  destruct (write_ok _ _ _ _ _ _ q r v (set_looked false) Hst2 Hq) as (st3 & E3 & Hst3).
  { rewrite kept_off by done. lia. }
  exists st3. split_and!; [done..|]. by apply (entries_live_insert _ _ _ _ _ v).
Qed.

(** ** Expiry *)

Definition is_root (v : direntry_t) : bool := (inode v =? FSFUSE_ROOT_INODE)%Z.

(** At the [c]-th call; the root is not asked after the time. *)
Definition expired (c : nat) (v : direntry_t) : bool :=
  negb (is_root v) && bool_decide (cache_last_valid v < time c - config_timeout_cache)%Z.
Definition after_expiry (c : nat) (v : direntry_t) : nat := if is_root v then c else S c.

Lemma called_ok h d M n c st : in_state h d M n c st -> in_state h d M n (S c) (called st).
Proof. intros [? ? ? ? E]. split; try done. cbn. by rewrite E. Qed.

Lemma root_ok h d M n c st a r v :
  in_state h d M n c st -> h !! a = Some (r, v) -> (0 < count r + d a)%Z ->
  direntry_is_root a st = Ret (is_root v).
Proof. intros Hst Ha Hd. unfold direntry_is_root. by rewrite (de_read_ok _ _ _ _ _ _ _ _ _ Hst Ha), bind_ret_l. Qed.

Lemma expiry_ok h d M n c st a r v :
  in_state h d M n c st -> h !! a = Some (r, v) -> (0 < count r + d a)%Z ->
  exists st', direntry_cache_is_expired time config_timeout_cache a st = Ret (expired c v, st') /\
    in_state h d M n (after_expiry c v) st' /\
    direntry_cache st' = direntry_cache st /\ direntry_cache_lock st' = direntry_cache_lock st.
Proof.
  intros Hst Ha Hd. unfold direntry_cache_is_expired, expired, after_expiry.
  rewrite (root_ok _ _ _ _ _ _ _ _ _ Hst Ha), bind_ret_l by done.
  destruct (is_root v); [by exists st|].
  rewrite (de_read_ok _ _ _ _ _ _ _ _ _ Hst Ha), bind_ret_l, (is_calls _ _ _ _ _ _ Hst) by done.
  exists (called st). split_and!; [done|by apply called_ok|done..].
Qed.

(** From [p], the direntries that are stale and the first above that is not,
    or is the root, with the number of calls made by then. *)
Inductive stale_path h : nat -> option nat -> list nat -> nat -> nat -> Prop :=
| stale_root c p r v :
    h !! p = Some (r, v) -> is_root v = true -> stale_path h c (Some p) [] p c
| stale_fresh c p r v :
    h !! p = Some (r, v) -> is_root v = false -> expired c v = false ->
    parser_fetch_listing (S c) (path v) = 0%Z -> stale_path h c (Some p) [] p (S (S c))
| stale_expired c p r v l q c' :
    h !! p = Some (r, v) -> is_root v = false -> expired c v = true ->
    stale_path h (S c) (parent v) l q c' -> stale_path h c (Some p) (p :: l) q c'
| stale_gone c p r v l q c' :
    h !! p = Some (r, v) -> is_root v = false -> expired c v = false ->
    parser_fetch_listing (S c) (path v) <> 0%Z ->
    stale_path h (S (S c)) (parent v) l q c' -> stale_path h c (Some p) (p :: l) q c'.

(** The references that a walk up took. *)
Definition walked (l : list nat) : nat -> Z := fun x => if copies then each l x else 0%Z.

Lemma walked_cons a l x : walked (a :: l) x = (given (Some a) x + walked l x)%Z.
Proof. unfold walked, given. destruct copies; [apply each_cons|done]. Qed.

Lemma walked_bounds l x : (0 <= walked l x <= Z.of_nat (length l))%Z.
Proof. unfold walked. pose proof (each_bounds l x). destruct copies; lia. Qed.

Lemma stale_path_head h c p l q c' : stale_path h c p l q c' -> p = head (l ++ [q]).
Proof. by destruct 1. Qed.

Lemma stale_path_end h c p l q c' : stale_path h c p l q c' -> is_Some (h !! q).
Proof. induction 1; [by eexists..|done|done]. Qed.

(** Enough room in the counts for [n] references each. *)
Definition spare h d (n : nat) : Prop :=
  forall a, is_Some (h !! a) -> (0 < refs_of h a + d a /\ refs_of h a + d a + Z.of_nat n < 2 ^ 32 - 4)%Z.

Lemma spare_live h d n a r v : spare h d n -> h !! a = Some (r, v) -> (0 < count r + d a)%Z.
Proof. intros Hs Ha. rewrite <- (refs_lookup _ _ _ _ Ha). apply Hs. by eexists. Qed.

Lemma not_walked h d M n c q st :
  in_state h d M n c st -> in_state h (fun x => d x + walked (tail ([] ++ [q])) x)%Z M n c st.
Proof. apply in_state_ext. intros x _. pose proof (walked_bounds [] x). cbn in *. lia. Qed.

Abbreviation climb := (stale_up copies time parser_fetch_listing config_timeout_cache).

(** What the walk from [p] on does. *)
Definition climbs h c p l q c' : Prop := forall fuel d M n st,
  length l < fuel -> in_state h d M n c st -> spare h d (S (length l)) ->
  exists st', climb fuel p st = Ret (q, st') /\
    in_state h (fun x => d x + walked (tail (l ++ [q])) x)%Z M n c' st'.

Lemma climbs_on h c l q c' fuel d M n a r v st :
  climbs h c (parent v) l q c' -> stale_path h c (parent v) l q c' -> h !! a = Some (r, v) ->
  S (length l) < S fuel -> in_state h d M n c st -> spare h d (S (S (length l))) ->
  exists st', ('(q, st) ← direntry_get_parent copies a st; climb fuel q st) = Ret (q, st') /\
    in_state h (fun x => d x + walked (l ++ [q]) x)%Z M n c' st'.
Proof.
  intros IH Hp Ha Hf Hst Hs. unfold direntry_get_parent.
  rewrite (de_read_ok _ _ _ _ _ _ _ _ _ Hst Ha), bind_ret_l by by eapply spare_live.
  pose proof (stale_path_head _ _ _ _ _ _ Hp) as Hh.
  destruct (hand_out_ok h d M n c st (parent v) Hst) as (st2 & E2 & Hst2).
  { intros b Hb. assert (is_Some (h !! b)) as Hb2.
    { destruct Hp; cbn in Hh; rewrite Hb in Hh; simplify_eq; by eexists. }
    split; [done|]. specialize (Hs b Hb2). lia. }
  rewrite E2, bind_ret_l.
  destruct (IH fuel (fun x => d x + given (parent v) x)%Z M n st2) as (st3 & E3 & Hst3); [lia|done| |].
  { intros x Hx. specialize (Hs x Hx). pose proof (given_bounds (parent v) x). lia. }
  exists st3. split; [done|]. eapply in_state_ext; [|exact Hst3]. intros x _. cbn.
  rewrite Hh. destruct (l ++ [q]) as [|y ys] eqn:E; [by destruct l|]. cbn [head tail].
  rewrite walked_cons. lia.
Qed.

(** The test of the loop. *)
Lemma stale_ok h d M n c st a r v m :
  in_state h d M n c st -> h !! a = Some (r, v) -> spare h d m -> is_root v = false ->
  exists st', direntry_cache_is_stale time parser_fetch_listing config_timeout_cache a st
      = Ret (expired c v || negb (parser_fetch_listing (S c) (path v) =? 0)%Z, st') /\
    in_state h d M n (if expired c v then S c else S (S c)) st'.
Proof.
  intros Hst Ha Hs Hr. pose proof (spare_live _ _ _ _ _ _ Hs Ha) as Hd. unfold direntry_cache_is_stale.
  destruct (expiry_ok _ _ _ _ _ _ _ _ _ Hst Ha Hd) as (st1 & E1 & Hst1 & _).
  rewrite E1, bind_ret_l. unfold after_expiry in Hst1. rewrite Hr in Hst1.
  destruct (expired c v); [by exists st1|].
  rewrite (de_read_ok _ _ _ _ _ _ _ _ _ Hst1 Ha Hd), bind_ret_l, (is_calls _ _ _ _ _ _ Hst1).
  eexists. split; [done|]. by apply called_ok.
Qed.

Lemma stale_up_ok h c p l q c' : stale_path h c p l q c' -> climbs h c p l q c'.
Proof.
  induction 1 as [c p r v Hp Hr|c p r v Hp Hr He Hf|c p r v l q c' Hp Hr He Hq IH|c p r v l q c' Hp Hr He Hf Hq IH];
    intros fuel d M n st Hfu Hst Hs; (destruct fuel as [|fuel]; [lia|]); cbn [stale_up deref];
    pose proof (spare_live _ _ _ _ _ _ Hs Hp) as Hd;
    rewrite bind_ret_l, (root_ok _ _ _ _ _ _ _ _ _ Hst Hp Hd), bind_ret_l, Hr;
    try (destruct (stale_ok _ _ _ _ _ _ _ _ _ _ Hst Hp Hs Hr) as (st1 & E1 & Hst1);
         rewrite He in E1, Hst1; rewrite E1, bind_ret_l; cbn [orb]).
  - exists st. split; [done|]. exact (not_walked _ _ _ _ _ p _ Hst).
  - rewrite Hf. cbn. exists st1. split; [done|]. exact (not_walked _ _ _ _ _ p _ Hst1).
  - apply (climbs_on _ _ _ _ _ _ _ _ _ p r v st1 IH Hq Hp); try done; cbn in Hfu; lia.
  - rewrite (proj2 (Z.eqb_neq _ _)) by done. cbn [negb].
    apply (climbs_on _ _ _ _ _ _ _ _ _ p r v st1 IH Hq Hp); try done; cbn in Hfu; lia.
Qed.

(** ** The cache between calls *)

(** The table holds [M], each path that of a live direntry, and takes [n] more;
    the lock is free; the counts have room for [m] more. *)
Record caches h M (n m : nat) st : Prop := {
  caches_des : des st = h;
  caches_table : tbl_rep (direntry_cache st) M;
  caches_room : tbl_room (direntry_cache st) n;
  caches_lock : direntry_cache_lock st = rw_lock_new;
  caches_paths k a : M !! k = Some a -> exists r v, h !! a = Some (r, v) /\ path v = k;
  caches_spare : counts_ok (m + 4) h
}.

Definition nothing : nat -> Z := fun _ => 0%Z.

Lemma counts_positive m h : counts_ok m h -> map_Forall (fun _ '(r, _) => (0 < count r)%Z) h.
Proof. intros Hc. eapply map_Forall_impl; [exact Hc|]. intros ? [r v] ?. cbn in *. lia. Qed.

Lemma caches_state h M n m st :
  caches h M n m st -> in_state h nothing M n (calls st) st /\ entries_live h nothing M /\ spare h nothing m.
Proof.
  intros [Hd HM Hr Hl Hp Hs]. split_and!.
  - split; [|done..|by left|done]. rewrite settles_0; [done| |done]. by eapply counts_positive.
  - intros k a Hk. destruct (Hp k a Hk) as (r & v & Ha & Hv). exists r, v. split_and!; [done..|].
    unfold nothing. pose proof (Hs a (r, v) Ha). cbn in *. lia.
  - intros a Ha. pose proof (counts_ok_refs _ _ _ Hs Ha). unfold nothing. lia.
Qed.

Lemma spare_alive h d m l :
  spare h d m -> Forall (fun a => is_Some (h !! a)) l -> alive h d l.
Proof. intros Hs HF a Ha. rewrite Forall_forall in HF. specialize (Hs a (HF a Ha)). lia. Qed.

Lemma shape_alive h p f : shape h p f -> Forall (fun a => is_Some (h !! a)) (addrs f).
Proof. intros Hs. apply Forall_forall. intros a Ha. by eapply shape_lookup. Qed.

(** "Assume all children are stale and remove them", under the lock. *)
Lemma remove_children_ok fuel h d M n c st q r v f :
  h !! q = Some (r, v) -> shape h (children v) f -> NoDup (q :: addrs f) ->
  alive h d (q :: addrs f) -> 2 * length (addrs f) + 3 <= fuel ->
  in_state h d M n c st -> entries_live h d M ->
  exists st', (st ← wlock self st; st ← del_descendants fuel q st;
               de_write (set_children None) q (wunlock st)) = Ret st' /\
    in_state (<[q := (r, set_children None (set_looked false v))]> h) (fun x => d x + kept f x)%Z
      (uncached f M) n c st' /\ direntry_cache_lock st' = rw_lock_new.
Proof.
  intros Hq Hs HN Hl Hf Hst HL. rewrite wlock_ok, bind_ret_l by apply Hst.
  destruct (del_descendants_ok fuel h d M n c (set_lock (wlocked self) st) q r v f) as (st4 & E4 & Hst4 & _);
    try done.
  { destruct Hst; split; try done; by right. }
  rewrite E4, bind_ret_l, wunlock_ok by apply Hst4.
  set (st5 := set_lock rw_lock_new st4).
  assert (in_state (<[q := (r, set_looked false v)]> h) (fun x => d x + kept f x)%Z (uncached f M) n c st5)
    as Hst5 by (destruct Hst4; split; try done; by left).
  destruct (write_ok _ _ _ _ _ _ q r _ (set_children None) Hst5 (lookup_insert_eq _ _ _)) as (st6 & E6 & Hst6).
  { apply NoDup_cons in HN as [Hn _]. rewrite kept_off, <- (refs_lookup _ _ _ _ Hq) by done.
    specialize (Hl q (list_elem_of_here _ _)). lia. }
  rewrite insert_insert_eq in Hst6. exists st6. split_and!; [done..|].
  unfold de_write in E6. destruct (de_read q st5); [|done..]. rewrite bind_ret_l in E6.
  destruct (obj_set _ _ _); [|done..]. by injection E6 as <-.
Qed.

Lemma notify_stale_ok fuel h M n c st a r v l q c' rq vq f :
  in_state h nothing M n c st -> entries_live h nothing M -> spare h nothing (S (S (length l))) ->
  h !! a = Some (r, v) -> is_root v = false -> stale_path h c (parent v) l q c' ->
  h !! q = Some (rq, vq) -> shape h (children vq) f -> NoDup (q :: addrs f) ->
  2 * length (addrs f) + length l + 5 <= fuel ->
  exists st', notify_stale fuel a st = Ret st' /\
    in_state (<[q := (rq, set_children None (set_looked false (set_valid (time c') vq)))]> h)
      (fun x => walked (l ++ [q]) x + kept f x)%Z (uncached f M) n (S c') st' /\
    direntry_cache_lock st' = rw_lock_new.
Proof.
  intros Hst HL Hsp Ha Hr Hup Hq Hs HN Hf. destruct fuel as [|fuel]; [lia|].
  pose proof (spare_live _ _ _ _ _ _ Hsp Ha) as Hda.
  rewrite notify_stale_S, (root_ok _ _ _ _ _ _ _ _ _ Hst Ha Hda), bind_ret_l, Hr.
  destruct (climbs_on h c l q c' fuel nothing M n a r v st) as (st2 & E2 & Hst2); try done.
  { by apply stale_up_ok. } { lia. }
  destruct (direntry_get_parent copies a st) as [[p st1]| | |] eqn:Eg; rewrite ?Eg in E2; try done.
  cbn [mbind outcome_bind] in E2. rewrite bind_ret_l, E2, bind_ret_l. clear p st1 E2 Eg.
  set (d := fun x => (nothing x + walked (l ++ [q]) x)%Z) in *.
  assert (forall x, is_Some (h !! x) -> (0 < refs_of h x + d x < 2 ^ 32 - 4)%Z) as Hd.
  { intros x Hx. specialize (Hsp x Hx). pose proof (walked_bounds (l ++ [q]) x) as Hw.
    rewrite length_app in Hw. cbn [length] in Hw. unfold d. lia. }
  pose proof (Hd q ltac:(by eexists)) as Hdq. rewrite (refs_lookup _ _ _ _ Hq) in Hdq.
  unfold direntry_cache_notify_still_valid. rewrite (is_calls _ _ _ _ _ _ Hst2).
  destruct (write_ok _ _ _ _ _ _ q rq vq (set_valid (time c')) (called_ok _ _ _ _ _ _ Hst2) Hq)
    as (st3 & E3 & Hst3); [lia|]. rewrite E3, bind_ret_l.
  destruct (remove_children_ok fuel _ d M n (S c') st3 q rq (set_valid (time c') vq) f (lookup_insert_eq h _ _))
    as (st4 & E4 & Hst4 & Hlk); try done.
  { apply shape_insert; [|done]. by apply NoDup_cons in HN as [? _]. }
  { apply (alive_insert _ _ _ _ _ _ _ Hq). intros x Hx. apply Hd.
    apply elem_of_cons in Hx as [-> |Hx]; [by eexists|by eapply shape_lookup]. }
  { lia. }
  { apply (entries_live_insert _ _ _ _ _ vq); [done..|]. eapply entries_live_le; [|exact HL].
    intros x. unfold d. pose proof (walked_bounds (l ++ [q]) x). lia. }
  exists st4. rewrite insert_insert_eq in Hst4. split_and!; [exact E4| |done].
  eapply in_state_ext; [|exact Hst4]. intros x _. unfold d, nothing. lia.
Qed.

Lemma get_hit fuel h d M n c st k a r v :
  in_state h d M n c st -> M !! k = Some a -> h !! a = Some (r, v) ->
  (0 < count r + d a < 2 ^ 32 - 1)%Z -> expired c v = false -> 1 <= fuel ->
  exists st', get fuel k st = Ret (direntry_cache_status_HIT, Some a, st') /\
    in_state h (fun x => d x + one a x)%Z M n (after_expiry c v) st' /\
    direntry_cache_lock st' = direntry_cache_lock st.
Proof.
  intros Hst Hk Ha Hd He Hf. destruct fuel as [|fuel]; [lia|]. rewrite get_S.
  rewrite (find_locked_ok _ M) by apply Hst. rewrite bind_ret_l, Hk.
  destruct (expiry_ok _ _ _ _ _ _ _ _ _ Hst Ha) as (st1 & -> & Hst1 & _ & El); [lia|].
  rewrite bind_ret_l, He. destruct (post_ok _ _ _ _ _ _ _ _ _ Hst1 Ha Hd) as (st2 & E2 & Hst2).
  rewrite E2, bind_ret_l. exists st2. split_and!; [done..|]. rewrite <- El.
  unfold direntry_post in E2. destruct (obj_copy _ _); [|done..]. by injection E2 as <-.
Qed.

(** A lookup. A path that is in the table is a hit, and costs its direntry
    a reference, unless it has expired; the root never does. A path that is not
    is known not to exist when its directory is cached and was looked into, and
    unknown otherwise; then nothing changes. *)
Theorem direntry_cache_get_correct st h M (n m fuel : nat) (k : cstr)
    (Hc : caches h M n (S m) st) (Hf : 1 <= fuel) :
  match M !! k with
  | Some a => forall r v, h !! a = Some (r, v) -> expired (calls st) v = false ->
      exists st', get fuel k st = Ret (direntry_cache_status_HIT, Some a, st') /\
        caches (<[a := (RefCount (count r + 1), v)]> h) M n m st'
  | None => get fuel k st = Ret (miss_status h M k, None, st)
  end.
Proof.
  destruct (caches_state _ _ _ _ _ Hc) as (Hst & HL & Hs).
  destruct (M !! k) as [a|] eqn:Hk; [|by eapply get_miss].
  intros r v Ha He. pose proof (Hs a ltac:(by eexists)) as Hd. rewrite (refs_lookup _ _ _ _ Ha) in Hd.
  destruct (get_hit fuel h nothing M n (calls st) st k a r v Hst Hk Ha) as (st1 & -> & Hst1 & El); [lia|done..|].
  exists st1. split; [done|]. destruct Hc as [_ HM Hr Hl Hp Hsp]. split; [|apply Hst1..|congruence| |].
  - rewrite (is_des _ _ _ _ _ _ Hst1). rewrite <- (settles_0 h nothing) at 2; [|by eapply counts_positive|done].
    replace (count r + 1)%Z with (count r + nothing a + 1)%Z by (unfold nothing; lia).
    rewrite (settles_one _ _ _ _ _ 1 Ha) by lia. apply settles_ext. intros. lia.
  - intros k' b Hb. destruct (Hp k' b Hb) as (r' & w & Hb' & Hw).
    destruct (decide (b = a)) as [-> | Hne]; [|exists r', w; by rewrite lookup_insert_ne].
    exists (RefCount (count r + 1)), v. rewrite lookup_insert_eq. by simplify_eq.
  - apply map_Forall_insert_2; [|by eapply map_Forall_impl; [exact Hsp|intros ? [? ?]; cbn; lia]].
    pose proof (Hsp a (r, v) Ha). cbn in *. lia.
Qed.

(** C20: the lookup of an entry that has expired. From its directory up, stale
    directories are passed over to the first that the indexnode still lists, or
    the root; that one is taken to be valid now, and everything below it leaves
    the cache: every path below is unknown from then on, its direntry loses the
    cache's reference, and the lookup says that it does not know the path. With
    getters that give references, all of these direntries stay in memory. *)
Theorem stale_entry_empties_directory st h M (n m fuel a q c' : nat) (k : cstr) (r rq : ref_count)
    (v vq : direntry_t) (l : list nat) (f : forest)
    (Hc : caches h M n m st) (Hk : M !! k = Some a) (Ha : h !! a = Some (r, v))
    (Hold : expired (calls st) v = true)
    (Hup : stale_path h (S (calls st)) (parent v) l q c')
    (Hq : h !! q = Some (rq, vq)) (Hs : shape h (children vq) f) (HN : NoDup (q :: addrs f))
    (Hin : (a, v) ∈ nodes f) (Hm : S (S (length l)) <= m)
    (Hf : 2 * length (addrs f) + length l + 6 <= fuel) :
  exists st', get fuel k st = Ret (direntry_cache_status_UNKNOWN, None, st') /\
    des st' = settles (<[q := (rq, set_children None (set_looked false (set_valid (time c') vq)))]> h)
                (fun x => walked (l ++ [q]) x + kept f x)%Z /\
    tbl_rep (direntry_cache st') (uncached f M) /\ direntry_cache_lock st' = rw_lock_new /\
    uncached f M !! k = None.
Proof.
  destruct (caches_state _ _ _ _ _ Hc) as (Hst & HL & Hsp).
  destruct fuel as [|fuel]; [lia|]. rewrite get_S.
  rewrite (find_locked_ok _ M) by apply Hst. rewrite bind_ret_l, Hk.
  destruct (expiry_ok _ _ _ _ _ _ _ _ _ Hst Ha) as (st1 & -> & Hst1 & _); [by eapply spare_live|].
  rewrite bind_ret_l, Hold. unfold expired, after_expiry in *. destruct (is_root v) eqn:Hr; [done|].
  destruct (notify_stale_ok fuel h M n (S (calls st)) st1 a r v l q c' rq vq f) as (st2 & E2 & Hst2 & Hlk);
    try done.
  { intros x Hx. specialize (Hsp x Hx). lia. } { lia. }
  rewrite E2, bind_ret_l. exists st2. split_and!; [done|apply Hst2|apply Hst2|done|].
  rewrite lookup_uncached, decide_True; [done|].
  destruct (caches_paths _ _ _ _ _ Hc k a Hk) as (r' & w & Hw & <-). simplify_eq.
  unfold paths. apply list_elem_of_fmap_2. change v with (snd (a, v)). by apply list_elem_of_fmap_2.
Qed.

(** ** Loops over siblings *)

(** The list from [p] on, [rd] being the [next] fields. *)
Fixpoint linked (rd : nat -> option nat) (p : option nat) (l : list nat) : Prop :=
  match l with
  | [] => p = None
  | a :: l => p = Some a /\ linked rd (rd a) l
  end.

Lemma each_sibling_ok {A} (I : A -> cache -> Prop) rd l body : forall fuel p (x : A) st,
  linked rd p l -> length l < fuel ->
  (forall a x st, a ∈ l -> I x st -> exists stop x' st', body a x st = Ret (stop, x', st') /\ I x' st' /\
     exists v, de_read a st' = Ret v /\ next v = rd a) ->
  I x st -> exists x' st', each_sibling fuel body p x st = Ret (x', st') /\ I x' st'.
Proof.
  induction l as [|a l IH]; intros fuel p x st Hl Hf Hb HI; (destruct fuel as [|fuel]; [lia|]).
  - cbn in Hl. subst p. by exists x, st.
  - destruct Hl as [-> Hl]. cbn [each_sibling].
    destruct (Hb a x st (list_elem_of_here _ _) HI) as (stop & x' & st' & -> & HI' & v & Hv & Hn).
    rewrite bind_ret_l. destruct stop; [by exists x', st'|]. rewrite Hv, bind_ret_l, Hn.
    apply IH; [done|cbn in Hf; lia| |done]. intros b y st1 Hb1. apply Hb. by apply list_elem_of_further.
Qed.

Lemma each_sibling_S {A} (body : nat -> A -> cache -> outcome (bool * A * cache)) fuel a (x : A) st :
  each_sibling (S fuel) body (Some a) x st =
    ('(stop, x, st) ← body a x st;
     if stop : bool then Ret (x, st)
     else v ← de_read a st; each_sibling fuel body (next v) x st).
Proof. reflexivity. Qed.

(** The fields that the loops over the lists do not write. *)
Definition next_in h (a : nat) : option nat := from_option (next ∘ snd) None (h !! a).

Lemma next_in_ok h a r v : h !! a = Some (r, v) -> next_in h a = next v.
Proof. intros Ha. unfold next_in. by rewrite Ha. Qed.

Lemma linked_agree rd rd' p l : (forall x, x ∈ l -> rd' x = rd x) -> linked rd p l -> linked rd' p l.
Proof.
  revert p. induction l as [|a l IH]; intros p; [done|]. cbn. intros Hrd [-> Hl].
  split; [done|]. rewrite Hrd by apply list_elem_of_here. apply IH; [|done].
  intros x Hx. apply Hrd. by apply list_elem_of_further.
Qed.

Lemma alter_at {A} (f : A -> A) (h : gmap nat A) a y : h !! a = Some y -> alter f a h = <[a := f y]> h.
Proof.
  intros Hy. apply map_eq. intros x. destruct (decide (x = a)) as [-> |].
  - by rewrite lookup_alter_eq, lookup_insert_eq, Hy.
  - by rewrite lookup_alter_ne, lookup_insert_ne.
Qed.

(** ** Filling a directory *)

Lemma cache_add_ok h d M n c st a r v :
  in_state h d M (S n) c st -> h !! a = Some (r, v) -> (0 < count r + d a < 2 ^ 32 - 1)%Z ->
  M !! path v = None ->
  exists st', direntry_cache_add time self a st = Ret st' /\
    in_state (<[a := (r, set_valid (time c) v)]> h) (fun q => d q + one a q)%Z (<[path v := a]> M) n (S c) st' /\
    direntry_cache_lock st' = rw_lock_new.
Proof.
  intros Hst Ha Hd Hk. unfold direntry_cache_add.
  destruct (post_ok _ _ _ _ _ _ _ _ _ Hst Ha Hd) as (st1 & -> & Hst1).
  rewrite bind_ret_l, (is_calls _ _ _ _ _ _ Hst1).
  destruct (write_ok _ _ _ _ _ _ a r v (set_valid (time c)) (called_ok _ _ _ _ _ _ Hst1) Ha) as (st2 & -> & Hst2).
  { rewrite one_at_self. lia. }
  rewrite bind_ret_l, wlock_ok, bind_ret_l by apply Hst2.
  set (st3 := set_lock (wlocked self) st2).
  assert (in_state (<[a := (r, set_valid (time c) v)]> h) (fun q => d q + one a q)%Z M (S n) (S c) st3) as Hst3
    by (destruct Hst2; split; try done; by right).
  rewrite (de_read_ok _ _ _ _ _ _ _ _ _ Hst3 (lookup_insert_eq _ _ _)) by (rewrite one_at_self; lia).
  rewrite bind_ret_l. cbn [path set_valid].
  destruct (tbl_add_spec (direntry_cache st3) M (path v) a n) as (t & -> & HM & Hr); [apply Hst3|done|apply Hst3|].
  rewrite bind_ret_l, wunlock_ok by apply Hst3. eexists. split; [done|]. split; [|done].
  destruct Hst3; split; try done. by left.
Qed.

(** The direntries of a list that became the children of [p], from the [c]-th
    call of [time] on, and the table with their paths. *)
Fixpoint claimed (p c : nat) (l : list (nat * direntry_t)) h : heap direntry_t :=
  match l with
  | [] => h
  | (a, v) :: l =>
      claimed p (S c) l (alter (fun '(r, _) => (r, set_valid (time c) (set_parent (Some p) v))) a h)
  end.
Fixpoint added (l : list (nat * direntry_t)) M : gmap cstr nat :=
  match l with
  | [] => M
  | (a, v) :: l => added l (<[path v := a]> M)
  end.

Lemma lookup_claimed_off p l : forall c h x, x ∉ l.*1 -> claimed p c l h !! x = h !! x.
Proof.
  induction l as [|[a v] l IH]; intros c h x; [done|]. cbn. intros [Hx Hl]%not_elem_of_cons.
  rewrite IH by done. by rewrite lookup_alter_ne.
Qed.

Lemma lookup_claimed p l : forall c h i a v r w, NoDup l.*1 -> l !! i = Some (a, v) -> h !! a = Some (r, w) ->
  claimed p c l h !! a = Some (r, set_valid (time (c + i)) (set_parent (Some p) v)).
Proof.
  induction l as [|[b w] l IH]; intros c h i a v r w'; [done|]. cbn. intros [Hb HN]%NoDup_cons Hi Ha.
  destruct i as [|i]; cbn in Hi.
  - simplify_eq. rewrite lookup_claimed_off, lookup_alter_eq, Ha, Nat.add_0_r by done. done.
  - assert (a ∈ l.*1) as Hal by (change a with (fst (a, v)); apply list_elem_of_fmap_2; by apply list_elem_of_lookup_2 in Hi).
    rewrite <- Nat.add_succ_comm. eapply IH; [done|done|]. rewrite lookup_alter_ne by naive_solver. exact Ha.
Qed.

Lemma lookup_added_off l : forall M k, k ∉ path <$> l.*2 -> added l M !! k = M !! k.
Proof.
  induction l as [|[a v] l IH]; intros M k; [done|]. cbn. intros [Hx Hl]%not_elem_of_cons.
  rewrite IH by done. by rewrite lookup_insert_ne.
Qed.

Lemma lookup_added l : forall M a v, NoDup (path <$> l.*2) -> (a, v) ∈ l -> added l M !! path v = Some a.
Proof.
  induction l as [|[b w] l IH]; intros M a v; [by intros _ ?%elem_of_nil|]. cbn.
  intros [Hb HN]%NoDup_cons [E|Hin]%elem_of_cons; [|by apply IH].
  simplify_eq. rewrite lookup_added_off by done. apply lookup_insert_eq.
Qed.

Lemma claim_ok p l : forall fuel h d M n c st q,
  linked (next_in h) q l.*1 -> Forall (fun '(a, v) => snd <$> h !! a = Some v) l -> NoDup l.*1 ->
  alive h d l.*1 -> NoDup (path <$> l.*2) -> Forall (fun v => M !! path v = None) l.*2 ->
  length l < fuel -> in_state h d M (length l + n) c st ->
  exists st', claim_children time self fuel p q st = Ret st' /\
    in_state (claimed p c l h) (fun x => d x + each l.*1 x)%Z (added l M) n (c + length l) st'.
Proof.
  induction l as [|[a v] l IH]; intros fuel h d M n c st q Hl HF HN Ha HP HM Hf Hst;
    (destruct fuel as [|fuel]; [lia|]); unfold claim_children; cbn [each_sibling].
  - cbn in Hl. subst q. rewrite !bind_ret_l. exists st. split; [done|]. rewrite Nat.add_0_r.
    eapply in_state_ext; [|exact Hst]. intros x _. rewrite each_none by apply not_elem_of_nil. lia.
  - cbn in Hl. destruct Hl as [-> Hl]. cbn in HN, HP, HM. apply NoDup_cons in HN as [Hna HN].
    apply NoDup_cons in HP as [Hnp HP]. apply Forall_cons in HM as [Hk HM]. apply Forall_cons in HF as [Hv HF].
    apply fmap_Some in Hv as ([r w] & Hv & ->). cbn [snd] in *.
    assert (0 < count r + d a < 2 ^ 32 - 4)%Z as Hd.
    { rewrite <- (refs_lookup _ _ _ _ Hv). apply Ha, list_elem_of_here. }
    destruct (write_ok _ _ _ _ _ _ a r w (set_parent (Some p)) Hst Hv) as (st1 & -> & Hst1); [lia|].
    rewrite bind_ret_l. cbn [length] in Hst1.
    destruct (cache_add_ok _ d M (length l + n) c st1 a r (set_parent (Some p) w) Hst1 (lookup_insert_eq _ _ _))
      as (st2 & -> & Hst2 & _); [lia|done|].
    rewrite !bind_ret_l. rewrite insert_insert_eq in Hst2. cbn [path set_parent] in Hst2.
    set (h2 := <[a := _]> h) in Hst2.
    rewrite (de_read_ok _ _ _ _ _ _ _ _ _ Hst2 (lookup_insert_eq _ _ _)) by (rewrite one_at_self; lia).
    rewrite bind_ret_l. cbn [next set_valid set_parent].
    assert (forall x, x ∈ l.*1 -> h2 !! x = h !! x) as Hoff
      by (intros x Hx; apply lookup_insert_ne; naive_solver).
    destruct (IH fuel h2 (fun q => d q + one a q)%Z (<[path w := a]> M) n (S c) st2 (next w))
      as (st3 & E3 & Hst3); try done.
    { rewrite (next_in_ok _ _ _ _ Hv) in Hl. eapply linked_agree; [|exact Hl].
      intros x Hx. unfold next_in. by rewrite Hoff. }
    { apply Forall_forall. intros [b u] Hb. rewrite Forall_forall in HF.
      rewrite Hoff by (change b with (fst (b, u)); by apply list_elem_of_fmap_2). exact (HF _ Hb). }
    { intros b Hb. unfold h2. rewrite (refs_insert _ _ _ _ _ _ Hv), one_off by (by intros ->).
      rewrite Z.add_0_r. apply Ha. by apply list_elem_of_further. }
    { apply Forall_forall. intros u Hu. rewrite Forall_forall in HM. rewrite lookup_insert_ne; [by apply HM|].
      intros E. apply Hnp. rewrite E. by apply list_elem_of_fmap_2. }
    { cbn in Hf. lia. }
    unfold claim_children in E3. exists st3. split; [exact E3|]. cbn [claimed added length].
    rewrite Nat.add_succ_r, <- Nat.add_succ_l.
    rewrite (alter_at _ _ _ _ Hv). fold h2.
    eapply in_state_ext; [|exact Hst3]. intros x _. cbn. rewrite each_cons. lia.
Qed.

Lemma transfer_none rd fuel q l h d M n c st :
  linked rd q l -> length l < fuel -> in_state h d M n c st ->
  (forall a, a ∈ l -> exists r v, h !! a = Some (r, v) /\ (0 < count r + d a)%Z /\ next v = rd a) ->
  transfer_children fuel q None st = Ret st.
Proof.
  intros Hl Hf Hst Hn. unfold transfer_children. destruct fuel as [|fuel]; [lia|].
  match goal with |- context [each_sibling _ ?body q tt st] => set (b := body) end.
  destruct (each_sibling_ok (fun _ st' => st' = st) rd l b (S fuel) q tt st) as (x & st1 & -> & ->); try done.
  intros a x st1 Ha ->. exists false, tt, st. split_and!; [done..|].
  destruct (Hn a Ha) as (r & v & Hv & Hd & E). exists v. split; [|done]. by eapply de_read_ok.
Qed.

(** The heap that [claim_ok] leaves. *)
Lemma filled_off p c l h d x :
  map_Forall (fun _ '(r, _) => (0 < count r)%Z) h -> x ∉ l.*1 -> d x = 0%Z ->
  settles (claimed p c l h) (fun a => d a + each l.*1 a)%Z !! x = h !! x.
Proof.
  intros Hpos Hx Hd. rewrite lookup_settles, lookup_claimed_off by done.
  destruct (h !! x) as [[r v]|] eqn:E; [|done]. cbn. rewrite each_none, Hd, !Z.add_0_r by done.
  rewrite (proj2 (Z.ltb_lt _ _)) by exact (Hpos x _ E). by destruct r.
Qed.

Lemma filled p c l h d i a r v :
  NoDup l.*1 -> l !! i = Some (a, v) -> h !! a = Some (r, v) -> (0 < count r)%Z -> d a = 0%Z ->
  settles (claimed p c l h) (fun a => d a + each l.*1 a)%Z !! a =
    Some (RefCount (count r + 1), set_valid (time (c + i)) (set_parent (Some p) v)).
Proof.
  intros HN Hi Ha Hpos Hd.
  assert (a ∈ l.*1) as Hal.
  { change a with (fst (a, v)). apply list_elem_of_fmap_2. by eapply list_elem_of_lookup_2. }
  assert (each l.*1 a = 1%Z) as E1.
  { unfold each. rewrite (proj1 (NoDup_count_occ' Nat.eq_dec l.*1)); [done|by apply NoDup_ListNoDup|].
    by apply list_elem_of_In. }
  rewrite (settles_live _ _ _ r (set_valid (time (c + i)) (set_parent (Some p) v))).
  - by rewrite Hd, E1.
  - by eapply lookup_claimed.
  - rewrite Hd, E1. lia.
Qed.

(** A directory without children gets a list of them. They are its
    children, in the list's order, each has it for a parent, is taken to be
    valid from then on, is found under its path, and has one more reference;
    nothing else changes, and the lock is free again. *)
Theorem directory_is_filled st h M (n m fuel p : nat) (rp : ref_count) (vp : direntry_t)
    (q : option nat) (l : list (nat * direntry_t))
    (Hc : caches h M (length l + n) (S m) st)
    (Hp : h !! p = Some (rp, vp)) (Hempty : children vp = None)
    (Hl : linked (next_in h) q l.*1) (Hv : Forall (fun '(a, v) => snd <$> h !! a = Some v) l)
    (HN : NoDup (p :: l.*1)) (Hpaths : NoDup (path <$> l.*2))
    (Hnew : Forall (fun v => M !! path v = None) l.*2) (Hf : length l < fuel) :
  exists st',
    direntry_cache_add_children copies time parser_fetch_listing config_timeout_cache self fuel p q st
      = Ret st' /\
    tbl_rep (direntry_cache st') (added l M) /\ direntry_cache_lock st' = rw_lock_new /\
    des st' !! p = Some (rp, set_children q vp) /\
    (forall i a v, l !! i = Some (a, v) ->
       added l M !! path v = Some a /\
       des st' !! a = Some (RefCount (refs_of h a + 1),
                            set_valid (time (calls st + i)) (set_parent (Some p) v))) /\
    (forall a, a ∉ p :: l.*1 -> des st' !! a = h !! a).
Proof.
  destruct (caches_state _ _ _ _ _ Hc) as (Hst & _ & Hs). apply NoDup_cons in HN as [Hpl HN].
  pose proof (spare_live _ _ _ _ _ _ Hs Hp) as Hdp.
  unfold direntry_cache_add_children. rewrite (de_read_ok _ _ _ _ _ _ _ _ _ Hst Hp), bind_ret_l by done.
  rewrite Hempty, wlock_ok, bind_ret_l by apply Hst.
  assert (in_state h nothing M (length l + n) (calls st) (set_lock (wlocked self) st)) as Hst1
    by (destruct Hst; split; try done; by right).
  destruct (write_ok _ _ _ _ _ _ p rp vp (set_children q) Hst1 Hp Hdp) as (st2 & -> & Hst2).
  rewrite bind_ret_l. set (h2 := <[p := _]> h) in Hst2.
  assert (forall x, x ∈ l.*1 -> h2 !! x = h !! x) as Hoff by (intros x Hx; apply lookup_insert_ne; naive_solver).
  assert (forall a, a ∈ l.*1 -> exists r v, h !! a = Some (r, v) /\ (0 < count r + nothing a)%Z /\ next v = next_in h a) as Hn.
  { intros a Ha. apply list_elem_of_fmap in Ha as ([b v] & -> & Hb). rewrite Forall_forall in Hv.
    pose proof (Hv _ Hb) as Hbv. cbn in Hbv. apply fmap_Some in Hbv as ([r w] & Hbw & ->).
    exists r, w. split_and!; [done|by eapply spare_live|]. symmetry. exact (next_in_ok _ _ _ _ Hbw). }
  assert (linked (next_in h) q l.*1 -> linked (next_in h2) q l.*1) as Hl2
    by (apply linked_agree; intros x Hx; unfold next_in; by rewrite Hoff).
  rewrite (transfer_none (next_in h) fuel q l.*1 h2 nothing M (length l + n) (calls st) st2), bind_ret_l; try done.
  2: { by rewrite length_fmap. }
  2: { intros a Ha. destruct (Hn a Ha) as (r & v & ? & ? & ?). exists r, v. by rewrite Hoff. }
  destruct fuel as [|fuel]; [lia|]. unfold free_old_children. cbn [each_sibling]. rewrite !bind_ret_l.
  destruct (claim_ok p l (S fuel) h2 nothing M n (calls st) st2 q) as (st3 & -> & Hst3); try done; [by apply Hl2|..].
  { apply Forall_forall. intros [a v] Ha. rewrite Forall_forall in Hv.
    rewrite Hoff by (change a with (fst (a, v)); by apply list_elem_of_fmap_2). exact (Hv _ Ha). }
  { apply (alive_insert _ _ _ _ _ _ _ Hp). intros a Ha. destruct (Hn a Ha) as (r & v & Hav & _).
    specialize (Hs a ltac:(by eexists)). lia. }
  rewrite bind_ret_l, wunlock_ok by apply Hst3. eexists. split; [done|]. split; [apply Hst3|].
  split; [done|]. cbn [des set_lock]. rewrite (is_des _ _ _ _ _ _ Hst3).
  assert (map_Forall (fun _ '(r, _) => (0 < count r)%Z) h2) as Hpos.
  { apply map_Forall_insert_2; [unfold nothing in Hdp; cbn in *; lia|].
    eapply counts_positive. exact (caches_spare _ _ _ _ _ Hc). }
  split_and!.
  - rewrite filled_off by done. apply lookup_insert_eq.
  - intros i a v Hi. assert ((a, v) ∈ l) as Hav by by eapply list_elem_of_lookup_2.
    split; [by apply lookup_added|]. rewrite Forall_forall in Hv. specialize (Hv _ Hav). cbn in Hv.
    apply fmap_Some in Hv as ([r w] & Haw & ->). cbn [snd] in *.
    rewrite (refs_lookup _ _ _ _ Haw). eapply filled; try done.
    + rewrite Hoff; [done|]. change a with (fst (a, w)). by apply list_elem_of_fmap_2.
    + pose proof (spare_live _ _ _ _ _ _ Hs Haw). unfold nothing in *. lia.
  - intros a Ha. apply not_elem_of_cons in Ha as [Hne Ha]. rewrite filled_off by done.
    by apply lookup_insert_ne.
Qed.

(** ** Refreshing a directory *)

(** Some of [ln] have other children; nothing else was written. *)
Definition rewired (ln : list nat) h h' : Prop := forall a r v, h !! a = Some (r, v) ->
  exists ch, h' !! a = Some (r, set_children ch v) /\ (a ∉ ln -> ch = children v).

Lemma set_children_id v : set_children (children v) v = v.
Proof. by destruct v. Qed.

Lemma rewired_refl ln h : rewired ln h h.
Proof. intros a r v Ha. exists (children v). by rewrite set_children_id. Qed.

Lemma rewired_write ln h h' a r v ch :
  rewired ln h h' -> a ∈ ln -> h' !! a = Some (r, v) -> rewired ln h (<[a := (r, set_children ch v)]> h').
Proof.
  intros Hr Ha Hv b r' w Hb. destruct (Hr b r' w Hb) as (ch' & E & Hch). destruct (decide (b = a)) as [-> | Hne].
  - simplify_eq. exists ch. rewrite lookup_insert_eq. split; [done|]. tauto.
  - exists ch'. by rewrite lookup_insert_ne.
Qed.

Lemma rewired_shape ln h h' p f :
  rewired ln h h' -> (forall a, a ∈ addrs f -> a ∉ ln) -> shape h p f -> shape h' p f.
Proof.
  intros Hr. revert p. induction f as [|a v kids IHk rest IHr]; intros p Hn; [done|].
  rewrite addrs_tree in Hn. intros (-> & [r Ha] & Hk & Hs). destruct (Hr a r v Ha) as (ch & E & Hch).
  rewrite Hch, set_children_id in E by apply Hn, list_elem_of_here.
  split_and!; [done|by exists r|apply IHk; [|done]|apply IHr; [|done]]; intros x Hx;
    apply Hn, list_elem_of_further, elem_of_app; auto.
Qed.

Lemma rewired_refs ln h h' a : rewired ln h h' -> is_Some (h !! a) -> refs_of h' a = refs_of h a.
Proof.
  intros Hr [[r v] Ha]. destruct (Hr a r v Ha) as (ch & E & _). unfold refs_of. by rewrite E, Ha.
Qed.

Lemma rewired_live ln h h' d M : rewired ln h h' -> entries_live h d M -> entries_live h' d M.
Proof.
  intros Hr HL k a Hk. destruct (HL k a Hk) as (r & v & Hv & Hp & Hd).
  destruct (Hr a r v Hv) as (ch & E & _). by exists r, (set_children ch v).
Qed.

Lemma rewired_next ln h h' a : rewired ln h h' -> is_Some (h !! a) -> next_in h' a = next_in h a.
Proof.
  intros Hr [[r v] Ha]. destruct (Hr a r v Ha) as (ch & E & _). unfold next_in. by rewrite E, Ha.
Qed.

Lemma rewired_lookup ln h h' a : rewired ln h h' -> is_Some (h !! a) -> is_Some (h' !! a).
Proof. intros Hr [[r v] Ha]. destruct (Hr a r v Ha) as (ch & E & _). by eexists. Qed.

(** A direntry as the loops see it. *)
Lemma rewired_read ln h h' d M n c st a :
  rewired ln h h' -> in_state h' d M n c st -> is_Some (h !! a) -> (0 < refs_of h a + d a)%Z ->
  exists r v, h' !! a = Some (r, v) /\ (0 < count r + d a)%Z /\ de_read a st = Ret v /\ next v = next_in h a.
Proof.
  intros Hr Hst [[r v] Ha] Hd. destruct (Hr a r v Ha) as (ch & E & _).
  rewrite (refs_lookup _ _ _ _ Ha) in Hd. exists r, (set_children ch v). split_and!; [done..| |].
  - by eapply de_read_ok.
  - by rewrite (next_in_ok _ _ _ _ Ha).
Qed.

Lemma transfer_ok fuel h d M n c st q ln o lo :
  linked (next_in h) q ln -> linked (next_in h) o lo -> length ln < fuel -> length lo < fuel ->
  in_state h d M n c st ->
  (forall a, a ∈ ln ++ lo -> is_Some (h !! a) /\ (0 < refs_of h a + d a)%Z) ->
  exists h' st', transfer_children fuel q o st = Ret st' /\ rewired ln h h' /\ in_state h' d M n c st'.
Proof.
  intros Hln Hlo Hf1 Hf2 Hst Hl. unfold transfer_children.
  set (I := fun (_ : unit) st => exists h', rewired ln h h' /\ in_state h' d M n c st).
  assert (I tt st) as HI by (exists h; split; [apply rewired_refl|done]).
  match goal with |- context [each_sibling _ ?body q tt st] => set (b := body) end.
  destruct (each_sibling_ok I (next_in h) ln b fuel q tt st) as ([] & st' & -> & h' & Hr & Hst'); try done.
  - intros a [] st1 Ha HI1. unfold b.
    match goal with |- context [each_sibling _ ?body o tt st1] => set (b' := body) end.
    assert (Ha' : a ∈ ln ++ lo) by (apply elem_of_app; by left). destruct (Hl a Ha') as [Hsa Hda].
    destruct (each_sibling_ok I (next_in h) lo b' fuel o tt st1) as ([] & st2 & -> & h2 & Hr2 & Hst2); try done.
    + intros e [] st2 He (h2 & Hr2 & Hst2). unfold b', same_path.
      destruct (Hl e ltac:(apply elem_of_app; by right)) as [Hse Hde].
      destruct (rewired_read _ _ _ _ _ _ _ _ a Hr2 Hst2 Hsa Hda) as (ra & va & Hva & Hca & Ea & Na).
      destruct (rewired_read _ _ _ _ _ _ _ _ e Hr2 Hst2 Hse Hde) as (re & ve & Hve & Hce & Ee & Ne).
      rewrite Ea, Ee, !bind_ret_l. destruct (streq (path va) (path ve)); rewrite ?bind_ret_l.
      * destruct (write_ok _ _ _ _ _ _ a ra va (set_children (children ve)) Hst2 Hva Hca) as (st3 & -> & Hst3).
        rewrite bind_ret_l. exists false, tt, st3. split; [done|].
        assert (rewired ln h (<[a := (ra, set_children (children ve) va)]> h2)) as Hr3 by by apply rewired_write.
        split; [by eexists|].
        destruct (rewired_read _ _ _ _ _ _ _ _ e Hr3 Hst3 Hse Hde) as (r3 & v3 & _ & _ & E3 & N3). eauto.
      * exists false, tt, st2. split; [done|]. split; [by exists h2|]. eauto.
    + exists false, tt, st2. rewrite bind_ret_l. split; [done|]. split; [by exists h2|].
      destruct (rewired_read _ _ _ _ _ _ _ _ a Hr2 Hst2 Hsa Hda) as (ra & va & _ & _ & Ea & Na). eauto.
  - exists h', st'. by rewrite bind_ret_l.
Qed.

Lemma del_last fuel h d M n c st o r v :
  in_state h d M n c st -> entries_live h d M -> h !! o = Some (r, v) -> (count r + d o = 1)%Z ->
  2 <= fuel -> exists rc st', del fuel o st = Ret (rc, st') /\ de_read o st' = Undef.
Proof.
  intros Hst HL Ho Hd Hf.
  destruct (cache_del_ok _ _ _ _ _ _ o r v fuel Hst HL Ho) as (rc & st2 & E & Hst2 & _); [lia..|].
  exists rc, st2. split; [done|]. unfold de_read, obj_get.
  rewrite (is_des _ _ _ _ _ _ Hst2), settles_dead; [done|].
  rewrite (refs_lookup _ _ _ _ Ho), one_at_self. lia.
Qed.

(** The first old child, of which only the cache knows, is deleted and then
    asked for the next. *)
Lemma free_first fuel h d M n c st q ln o r v f :
  linked (next_in h) q ln -> length ln < fuel ->
  (forall a, a ∈ ln -> is_Some (h !! a) /\ (0 < refs_of h a + d a)%Z) ->
  h !! o = Some (r, v) -> (count r + d o = 1)%Z -> shape h (children v) f -> NoDup (o :: addrs f) ->
  alive h d (o :: addrs f) -> 2 * length (addrs f) + 4 <= fuel ->
  in_state h d M n c st -> entries_live h d M ->
  free_old_children copies time parser_fetch_listing config_timeout_cache self fuel q (Some o) st = Undef.
Proof.
  intros Hln Hf1 Hl Ho Hd Hs HN Ha Hf Hst HL. unfold free_old_children.
  destruct fuel as [|fuel]; [lia|]. rewrite each_sibling_S.
  match goal with |- context [each_sibling (S fuel) ?body q false st] => set (b := body) end.
  destruct (each_sibling_ok (fun _ st' => st' = st) (next_in h) ln b (S fuel) q false st) as (found & st1 & E & ->);
    try done.
  { intros a x st1 Hin ->. destruct (Hl a Hin) as [Hsa Hda]. unfold b, same_path.
    destruct (rewired_read ln _ _ _ _ _ _ _ a (rewired_refl _ _) Hst Hsa Hda) as (ra & va & _ & _ & Ea & Na).
    rewrite Ea, (de_read_ok _ _ _ _ _ _ _ _ _ Hst Ho), !bind_ret_l by lia.
    do 3 eexists. split; [done|]. split; [done|]. eauto. }
  rewrite E, bind_ret_l. clear E.
  destruct found.
  - rewrite bind_ret_l. destruct (del_last (S fuel) _ _ _ _ _ _ _ _ _ Hst HL Ho Hd) as (rc & st2 & -> & Er); [lia|].
    by rewrite !bind_ret_l, Er.
  - rewrite wlock_ok, bind_ret_l by apply Hst.
    destruct (del_descendants_ok (S fuel) h d M n c (set_lock (wlocked self) st) o r v f)
      as (st2 & -> & Hst2 & HL2); try done; [lia|destruct Hst; split; try done; by right|].
    rewrite !bind_ret_l, wunlock_ok by apply Hst2.
    destruct (del_last (S fuel) (<[o := (r, set_looked false v)]> h) (fun x => d x + kept f x)%Z (uncached f M)
      n c (set_lock rw_lock_new st2) o r (set_looked false v)) as (rc & st3 & -> & Er).
    { destruct Hst2; split; try done; by left. } { done. } { apply lookup_insert_eq. }
    { apply NoDup_cons in HN as [Hn _]. rewrite kept_off by done. lia. } { lia. }
    by rewrite !bind_ret_l, Er.
Qed.

(** A directory that has children is given a new list of them, with or
    without the old paths: if nobody but the cache has a reference to the first
    old child, the function frees it and reads its [next]. *)
Theorem refresh_reads_freed_child st h M (n m fuel p o : nat) (rp ro : ref_count) (vp vo : direntry_t)
    (q : option nat) (ln lo : list nat) (f : forest)
    (Hc : caches h M n m st) (Hp : h !! p = Some (rp, vp)) (Ho : h !! o = Some (ro, vo))
    (Hchild : children vp = Some o) (Hone : count ro = 1%Z) (Hne : p ∉ o :: addrs f)
    (Hln : linked (next_in h) q ln) (Hlo : linked (next_in h) (Some o) lo)
    (Hlive : Forall (fun a => is_Some (h !! a)) (ln ++ lo))
    (Hs : shape h (children vo) f) (HN : NoDup (o :: addrs f))
    (Hapart : forall a, a ∈ ln -> a ∉ o :: addrs f)
    (Hf : length ln + length lo + 2 * length (addrs f) + 4 <= fuel) :
  direntry_cache_add_children copies time parser_fetch_listing config_timeout_cache self fuel p q st = Undef.
Proof.
  destruct (caches_state _ _ _ _ _ Hc) as (Hst & HL & Hsp). apply not_elem_of_cons in Hne as [Hpo Hpf].
  pose proof (spare_live _ _ _ _ _ _ Hsp Hp) as Hdp.
  unfold direntry_cache_add_children. rewrite (de_read_ok _ _ _ _ _ _ _ _ _ Hst Hp), bind_ret_l by done.
  rewrite Hchild, wlock_ok, bind_ret_l by apply Hst.
  assert (in_state h nothing M n (calls st) (set_lock (wlocked self) st)) as Hst1
    by (destruct Hst; split; try done; by right).
  destruct (write_ok _ _ _ _ _ _ p rp vp (set_children q) Hst1 Hp Hdp) as (st2 & -> & Hst2).
  rewrite bind_ret_l. set (h2 := <[p := _]> h) in Hst2.
  assert (rewired [p] h h2) as Hr2.
  { apply rewired_write; [apply rewired_refl|apply list_elem_of_here|done]. }
  rewrite Forall_forall in Hlive.
  assert (forall a, a ∈ ln ++ lo -> is_Some (h2 !! a) /\ next_in h2 a = next_in h a /\
    (0 < refs_of h2 a + nothing a)%Z) as Hl2.
  { intros a Ha. specialize (Hlive a Ha). rewrite (rewired_refs _ _ _ _ Hr2 Hlive).
    split_and!; [by eapply rewired_lookup|by eapply rewired_next|by apply Hsp]. }
  destruct (transfer_ok fuel h2 nothing M n (calls st) st2 q ln (Some o) lo) as (h3 & st3 & -> & Hr3 & Hst3);
    try done; try lia.
  { eapply linked_agree; [|exact Hln]. intros a Ha. apply Hl2, elem_of_app. by left. }
  { eapply linked_agree; [|exact Hlo]. intros a Ha. apply Hl2, elem_of_app. by right. }
  { intros a Ha. destruct (Hl2 a Ha) as (? & _ & ?). done. }
  rewrite bind_ret_l.
  destruct (Hr3 o ro vo) as (ch & Ho3 & Hch); [by unfold h2; rewrite lookup_insert_ne|].
  rewrite Hch, set_children_id in Ho3 by (intros Hin; apply (Hapart o Hin), list_elem_of_here).
  erewrite (free_first fuel h3 nothing M n (calls st) st3 q ln o ro vo f); try done; try lia.
  - eapply linked_agree; [|exact Hln]. intros a Ha.
    destruct (Hl2 a ltac:(apply elem_of_app; by left)) as (Hsa & <- & _). by eapply rewired_next.
  - intros a Ha. destruct (Hl2 a ltac:(apply elem_of_app; by left)) as (Hsa & _ & Hda).
    rewrite (rewired_refs _ _ _ _ Hr3 Hsa). split; [by eapply rewired_lookup|done].
  - unfold nothing. lia.
  - eapply rewired_shape; [exact Hr3| |by apply shape_insert].
    intros a Ha Hin. apply (Hapart a Hin), list_elem_of_further. done.
  - intros a Ha. assert (is_Some (h !! a)) as Hsa.
    { apply elem_of_cons in Ha as [-> |Ha]; [by eexists|by eapply shape_lookup]. }
    rewrite (rewired_refs _ _ _ _ Hr3), (rewired_refs _ _ _ _ Hr2 Hsa) by by eapply rewired_lookup.
    specialize (Hsp a Hsa). lia.
  - eapply rewired_live, rewired_live; done.
Qed.

(** "The cache doesn't contain duplicates (but not until ...)" holds only as
    long as the lock does: a second [rw_lock_wlock] of the same thread takes
    nothing, and the first [rw_lock_wunlock] gives everything back. *)
Lemma nested_lock_is_lost st :
  direntry_cache_lock st = rw_lock_new ->
  exists st1 st2, wlock self st = Ret st1 /\ wlock self st1 = Ret st2 /\
    direntry_cache_lock (wunlock st2) = rw_lock_new.
Proof.
  intros E. exists (set_lock (wlocked self) st), (set_lock (wlocked self) st).
  split_and!; [by apply wlock_ok; left| |done].
  rewrite wlock_ok by by right. done.
Qed.

(** ** Lists for a path that is not found *)

Lemma list_without_parent st h M (n m fuel : nat) (k : cstr) (q : option nat)
    (path_get_direntry : cstr -> cache -> outcome (Z * option nat * cache)) :
  caches h M n m st -> M !! k = None -> 1 <= fuel ->
  (forall st, exists rc, rc <> 0%Z /\ path_get_direntry k st = Ret (rc, None, st)) ->
  direntry_cache_add_list copies time parser_fetch_listing config_timeout_cache self fuel
    path_get_direntry q k st = Undef.
Proof.
  intros Hc Hk Hf Hp. destruct (caches_state _ _ _ _ _ Hc) as (Hst & HL & _).
  unfold direntry_cache_add_list. rewrite (get_miss _ _ _ _ _ _ _ _ Hst HL Hk Hf), bind_ret_l.
  rewrite bool_decide_true by apply miss_not_hit. destruct (Hp st) as (rc & Hrc & ->).
  rewrite bind_ret_l, (proj2 (Z.eqb_neq _ _)), bind_ret_l by done. done.
Qed.

(** ** Beginning and end *)

(** A new cache has the root, which it alone refers to. *)
Lemma init_ok root t h c n m :
  tbl_rep t ∅ -> tbl_room t (S n) -> counts_ok (m + 4) h -> (Z.of_nat m + 5 < 2 ^ 32)%Z ->
  let a := fst (obj_new root h) in
  exists st, direntry_cache_init time self root t h c = Ret st /\
    caches (<[a := (RefCount 1, set_valid (time c) root)]> h) {[ path root := a ]} n m st.
Proof.
  intros Ht Hr Hs Hm a. pose proof (obj_new_fresh root h) as Hfr. fold a in Hfr.
  unfold direntry_cache_init. change (obj_new root h) with (a, <[a := (ref_count_new, root)]> h). cbv beta iota.
  set (h0 := <[a := (ref_count_new, root)]> h). set (st0 := Cache h0 t rw_lock_new c).
  assert (map_Forall (fun _ '(r, _) => (0 < count r)%Z) h0) as Hpos.
  { apply map_Forall_insert_2; [done|by eapply counts_positive]. }
  assert (in_state h0 nothing ∅ (S n) c st0) as Hst0.
  { split; [by rewrite settles_0|done|done|by left|done]. }
  destruct (cache_add_ok h0 nothing ∅ n c st0 a ref_count_new root Hst0 (lookup_insert_eq _ _ _)) as (st1 & -> & Hst1 & El);
    [by unfold nothing|by rewrite lookup_empty|].
  rewrite bind_ret_l.
  destruct (drop_ok _ _ _ _ _ _ a ref_count_new (set_valid (time c) root) Hst1 (lookup_insert_eq _ _ _))
    as (st2 & E2 & Hst2); [rewrite one_at_self; by unfold nothing|].
  exists st2. split; [exact E2|]. unfold h0 in Hst2. rewrite insert_insert_eq in Hst2.
  assert (counts_ok (m + 4) (<[a := (RefCount 1, set_valid (time c) root)]> h)) as Hs2.
  { apply map_Forall_insert_2; [cbn; lia|done]. }
  split; [|apply Hst2..| | |done].
  - rewrite (is_des _ _ _ _ _ _ Hst2). apply settles_0; [by eapply counts_positive|].
    intros x _. unfold nothing. lia.
  - rewrite <- El. unfold direntry_delete in E2. destruct (obj_delete _ _) as [[? ?]| | |]; [|done..].
    by injection E2 as <-.
  - intros k b Hk. rewrite <- insert_empty in Hk. apply lookup_insert_Some in Hk as [[<- <-]|[_ Hk]]; [|done].
    do 2 eexists. by rewrite lookup_insert_eq.
Qed.

(** C21: the end. When every path in the table is that of the root or of
    something below it, the root is found, every direntry of the tree loses the
    cache's reference and leaves the table, and the empty table is deleted
    without a failed assertion. With getters that give references, only the
    root's is given back, and everything below it stays in memory. *)
Theorem cache_is_emptied st h M (n m fuel a : nat) (r : ref_count) (v : direntry_t) (f : forest)
    (Hc : caches h M n (S m) st) (Hk : M !! cs "/" = Some a) (Ha : h !! a = Some (r, v))
    (Hroot : is_root v = true) (Hs : shape h (children v) f) (HN : NoDup (a :: addrs f))
    (Htree : forall k, is_Some (M !! k) -> k = cs "/" \/ k ∈ paths f)
    (Hf : 2 * length (addrs f) + 3 <= fuel) :
  direntry_cache_finalise copies time parser_fetch_listing config_timeout_cache self fuel st =
    Ret (settles h (fun x => if copies then - one a x else - each (a :: addrs f) x)%Z).
Proof.
  destruct (caches_state _ _ _ _ _ Hc) as (Hst & HL & Hsp).
  pose proof (Hsp a ltac:(by eexists)) as Hd. rewrite (refs_lookup _ _ _ _ Ha) in Hd.
  unfold direntry_cache_finalise.
  destruct (get_hit fuel h nothing M n (calls st) st (cs "/") a r v Hst Hk Ha) as (st1 & -> & Hst1 & _);
    [lia|by unfold expired; rewrite Hroot|lia|].
  rewrite bind_ret_l, bool_decide_true by done. cbn [c_assert deref]. rewrite !bind_ret_l.
  destruct (drop_ok _ _ _ _ _ _ _ _ _ Hst1 Ha) as (st2 & -> & Hst2); [rewrite one_at_self; lia|].
  rewrite bind_ret_l.
  assert (in_state h nothing M n (after_expiry (calls st) v) st2) as Hst2'
    by (eapply in_state_ext; [|exact Hst2]; intros; cbn; lia).
  destruct (del_tree_of_kids f fuel h nothing M n (after_expiry (calls st) v) st2 a r v (del_forest f)) as (st3 & -> & Hst3 & _); try done.
  { intros x Hx. specialize (Hsp x (shape_lookup _ _ _ _ Hs Hx)). lia. } { lia. }
  rewrite bind_ret_l. destruct (caches_paths _ _ _ _ _ Hc _ _ Hk) as (r' & v' & Ha' & Hpath). simplify_eq.
  rewrite (tbl_delete_spec _ _ (is_table _ _ _ _ _ _ Hst3)), bool_decide_true.
  - cbn [c_assert]. rewrite bind_ret_l, (is_des _ _ _ _ _ _ Hst3). f_equal. apply settles_ext.
    intros x _. unfold kept, nothing. destruct copies; [lia|]. rewrite each_cons. lia.
  - apply map_empty. intros k. destruct (decide (k = path v)) as [-> |Hne]; [apply lookup_delete_eq|].
    rewrite lookup_delete_ne, lookup_uncached by done. destruct (decide (k ∈ paths f)); [done|].
    destruct (M !! k) eqn:E; [|done]. destruct (Htree k); [by eexists|congruence|done].
Qed.

End Correct.

(** ** Witnesses *)

(** A table that is its map. *)
Definition gmap_table : StrTable (gmap cstr nat) nat.
Proof.
  refine {|
    tbl_find t k := Ret (t !! k);
    tbl_add t k v := Ret (<[k := v]> t);
    tbl_del t k := Ret (bool_decide (is_Some (t !! k)), delete k t);
    tbl_delete t := c_assert (bool_decide (t = ∅));
    tbl_rep t M := t = M;
    tbl_room _ _ := True
  |}; intros; subst; try done; [by eexists..|]. f_equal. by apply bool_decide_ext.
Defined.

(** The root has "/a", which is old, and "/b". *)
Definition demo_root : direntry_t := Direntry (cs "/") 1 None (Some 1) None true 10.
Definition demo_a : direntry_t := Direntry (cs "/a") 2 (Some 0) None (Some 2) false 10.
Definition demo_b : direntry_t := Direntry (cs "/b") 3 (Some 0) None None false 90.
Definition demo_heap : heap direntry_t :=
  <[0 := (RefCount 1, demo_root)]> (<[1 := (RefCount 1, demo_a)]> {[2 := (RefCount 1, demo_b)]}).
Definition demo_map : gmap cstr nat := <[cs "/" := 0]> (<[cs "/a" := 1]> {[cs "/b" := 2]}).
Definition demo_cache : cache := Cache demo_heap demo_map rw_lock_new 0.
Definition demo_forest : forest := Tree 1 demo_a Leaf (Tree 2 demo_b Leaf Leaf).

Lemma demo_caches n m : (Z.of_nat m < 1000)%Z -> @caches _ gmap_table demo_heap demo_map n m demo_cache.
Proof.
  intros Hm. split; [done..| |].
  - intros k a Hk. unfold demo_map in Hk. rewrite <- insert_empty in Hk.
    repeat (apply lookup_insert_Some in Hk as [[<- <-]|[_ Hk]]; [by do 2 eexists|]). done.
  - unfold counts_ok, demo_heap. rewrite <- insert_empty.
    repeat (apply map_Forall_insert_2; [cbn; lia|]). apply map_Forall_empty.
Qed.

Lemma demo_shape : shape demo_heap (Some 1) demo_forest.
Proof. cbn. split_and!; try done; by eexists. Qed.

Lemma demo_nodup : NoDup (0 :: addrs demo_forest).
Proof. by apply (bool_decide_unpack _). Qed.

Abbreviation demo_time := (fun _ : nat => 100%Z).
Abbreviation demo_fetch := (fun (_ : nat) (_ : cstr) => 0%Z).

Lemma direntry_cache_get_correct_witness :
  exists st', @direntry_cache_get _ gmap_table false demo_time demo_fetch 60 7 1 (cs "/b") demo_cache
      = Ret (direntry_cache_status_HIT, Some 2, st') /\
    @caches _ gmap_table (<[2 := (RefCount 2, demo_b)]> demo_heap) demo_map 0 0 st'.
Proof.
  exact (@direntry_cache_get_correct _ gmap_table false demo_time demo_fetch 60%Z 7%Z ltac:(done)
    demo_cache demo_heap demo_map 0 0 1 (cs "/b") (demo_caches 0 1 ltac:(lia)) ltac:(lia)
    (RefCount 1) demo_b eq_refl eq_refl).
Defined.

Lemma stale_entry_empties_directory_witness :
  exists st', @direntry_cache_get _ gmap_table false demo_time demo_fetch 60 7 10 (cs "/a") demo_cache
      = Ret (direntry_cache_status_UNKNOWN, None, st') /\
    des st' = {[0 := (RefCount 1, set_children None (set_looked false (set_valid 100 demo_root)))]} /\
    direntry_cache st' = {[cs "/" := 0]} /\ direntry_cache_lock st' = rw_lock_new.
Proof.
  destruct (@stale_entry_empties_directory _ gmap_table false demo_time demo_fetch 60%Z 7%Z ltac:(done)
    demo_cache demo_heap demo_map 0 5 10 1 0 1 (cs "/a") (RefCount 1) (RefCount 1) demo_a demo_root []
    demo_forest (demo_caches 0 5 ltac:(lia)) eq_refl eq_refl eq_refl) as (st' & E & Hd & HM & Hl & _).
  - by eapply stale_root.
  - done.
  - exact demo_shape.
  - exact demo_nodup.
  - left.
  - cbn. lia.
  - cbn. lia.
  - exists st'. split; [exact E|]. split; [rewrite Hd; by vm_compute|]. split; [|exact Hl].
    change (direntry_cache st' = uncached demo_forest demo_map) in HM. rewrite HM. by vm_compute.
Defined.

Lemma refresh_reads_freed_child_witness :
  @direntry_cache_add_children _ gmap_table true demo_time demo_fetch 60 7 6 0 None demo_cache = Undef.
Proof.
  apply (@refresh_reads_freed_child _ gmap_table true demo_time demo_fetch 60%Z 7%Z ltac:(done)
    demo_cache demo_heap demo_map 0 5 6 0 1 (RefCount 1) (RefCount 1) demo_root demo_a None [] [1; 2] Leaf
    (demo_caches 0 5 ltac:(lia)) eq_refl eq_refl eq_refl eq_refl); try done.
  - by apply (bool_decide_unpack _).
  - apply Forall_forall. intros a Ha.
    repeat (apply elem_of_cons in Ha as [-> |Ha]; [by eexists|]). by apply elem_of_nil in Ha.
  - by apply (bool_decide_unpack _).
  - by intros a ?%elem_of_nil.
Defined.

(** The root without children, and a list for it. *)
Definition bare_root : direntry_t := Direntry (cs "/") 1 None None None false 10.
Definition new_a : direntry_t := Direntry (cs "/a") 2 None None (Some 2) false 0.
Definition new_b : direntry_t := Direntry (cs "/b") 3 None None None false 0.
Definition bare_heap : heap direntry_t :=
  <[0 := (RefCount 1, bare_root)]> (<[1 := (RefCount 1, new_a)]> {[2 := (RefCount 1, new_b)]}).
Definition bare_cache : cache := Cache bare_heap ({[cs "/" := 0]} : gmap cstr nat) rw_lock_new 0.

Lemma directory_is_filled_witness :
  exists st', @direntry_cache_add_children _ gmap_table false demo_time demo_fetch 60 7 3 0 (Some 1) bare_cache
      = Ret st' /\
    direntry_cache st' !! cs "/b" = Some 2 /\ direntry_cache_lock st' = rw_lock_new /\
    des st' !! 2 = Some (RefCount 2, set_valid 100 (set_parent (Some 0) new_b)).
Proof.
  destruct (@directory_is_filled _ gmap_table false demo_time demo_fetch 60%Z 7%Z ltac:(done)
    bare_cache bare_heap {[cs "/" := 0]} 0 0 3 0 (RefCount 1) bare_root (Some 1) [(1, new_a); (2, new_b)])
    as (st' & E & HM & Hl & _ & Hin & _); try done.
  - split; [done..| |].
    + intros k a [<- <-]%lookup_singleton_Some. by do 2 eexists.
    + unfold counts_ok, bare_heap. rewrite <- insert_empty.
      repeat (apply map_Forall_insert_2; [cbn; lia|]). apply map_Forall_empty.
  - by repeat constructor.
  - by apply (bool_decide_unpack _).
  - by apply (bool_decide_unpack _).
  - by repeat constructor.
  - cbn. lia.
  - exists st'. split; [exact E|]. destruct (Hin 1 2 new_b eq_refl) as [HMb Hb].
    split; [|split; [exact Hl|exact Hb]].
    change (direntry_cache st' = added [(1, new_a); (2, new_b)] {[cs "/" := 0]}) in HM. by rewrite HM.
Defined.

Lemma cache_is_emptied_witness :
  @direntry_cache_finalise _ gmap_table false demo_time demo_fetch 60 7 10 demo_cache = Ret ∅.
Proof.
  rewrite (@cache_is_emptied _ gmap_table false demo_time demo_fetch 60%Z 7%Z ltac:(done)
    demo_cache demo_heap demo_map 0 5 10 0 (RefCount 1) demo_root demo_forest (demo_caches 0 6 ltac:(lia))
    eq_refl eq_refl eq_refl demo_shape demo_nodup).
  - by vm_compute.
  - intros k [a Hk]. unfold demo_map in Hk. rewrite <- insert_empty in Hk.
    apply lookup_insert_Some in Hk as [[<- _]|[_ Hk]]; [by left|right].
    apply lookup_insert_Some in Hk as [[<- _]|[_ Hk]]; [left|].
    apply lookup_insert_Some in Hk as [[<- _]|[_ Hk]]; [right; left|done].
  - cbn. lia.
Defined.

(** A whole life over the hash table of scrap/hash_table.c: the cache is made,
    the root gets the two children, "/a" is found, "/c" is not, and everything
    is gone in the end; [copies]: unless the getters give references. *)
Definition demo_life (copies : bool) : outcome (list direntry_cache_status_t * list nat) :=
  st ← direntry_cache_init demo_time 7 bare_root ((hash_table_new 1 0, ∅) : tables) ∅ 0;
  let '(b, h) := obj_new new_b (des st) in
  let '(a, h) := obj_new (Direntry (cs "/a") 2 None None (Some b) false 0) h in
  let st := set_des h st in
  st ← direntry_cache_add_children copies demo_time demo_fetch 60 7 9 0 (Some a) st;
  st ← direntry_delete a st;
  st ← direntry_delete b st;
  st ← de_write (set_looked true) 0 st;
  '(s1, found, st) ← direntry_cache_get copies demo_time demo_fetch 60 7 9 (cs "/a") st;
  st ← direntry_delete (default 0 found) st;
  '(s2, _, st) ← direntry_cache_get copies demo_time demo_fetch 60 7 9 (cs "/c") st;
  h ← direntry_cache_finalise copies demo_time demo_fetch 60 7 9 st;
  Ret ([s1; s2], (map_to_list h).*1).

Example demo_life_ok : demo_life false =
  Ret ([direntry_cache_status_HIT; direntry_cache_status_NOENT], []).
Proof. by vm_compute. Qed.
Example demo_life_leaks : demo_life true =
  Ret ([direntry_cache_status_HIT; direntry_cache_status_NOENT], [2; 1]).
Proof. by vm_compute. Qed.

(** ** The dump *)

Section Dump.
Context {T : Type} `{StrTable T nat}.
Implicit Types (st : cache (T := T)).

(** With getters that give the pointer alone. *)
Lemma dump_tree_S fuel indent de st : direntry_cache_dump_tree false (S fuel) indent de st =
  (v ← de_read de st;
   '(lines, indent', st) ← dump_children false fuel (S indent) de (children v) st;
   Ret ((indent, path v) :: lines, indent', st)).
Proof.
  transitivity (v ← de_read de st;
    '(child, st) ← direntry_get_first_child false de st;
    '(lines, indent', st) ← dump_children false fuel (S indent) de child st;
    Ret ((indent, path v) :: lines, indent', st)); [done|].
  unfold direntry_get_first_child, hand_out. destruct (de_read de st) as [v| | |]; [|done..].
  cbn. by destruct (children v).
Qed.

Lemma dump_children_S fuel indent de c st : dump_children false (S fuel) indent de (Some c) st =
  ('(l1, indent, st) ← direntry_cache_dump_tree false fuel indent c st;
   v ← de_read de st;
   '(l2, indent, st) ← dump_children false fuel indent de (next v) st;
   Ret (l1 ++ l2, indent, st)).
Proof.
  transitivity ('(l1, indent, st) ← direntry_cache_dump_tree false fuel indent c st;
    '(child, st) ← direntry_get_next_sibling false de st;
    '(l2, indent, st) ← dump_children false fuel indent de child st;
    Ret (l1 ++ l2, indent, st)); [done|].
  destruct (direntry_cache_dump_tree _ _ _ _ _) as [[[l1 i1] st1]| | |]; [|done..]. rewrite !bind_ret_l.
  unfold direntry_get_next_sibling, hand_out. destruct (de_read de st1) as [v| | |]; [|done..].
  cbn. by destruct (next v).
Qed.

Lemma dump_keeps_state fuel : forall indent de st,
  (forall l i st', direntry_cache_dump_tree false fuel indent de st = Ret (l, i, st') -> st' = st) /\
  (forall child l i st', dump_children false fuel indent de child st = Ret (l, i, st') -> st' = st).
Proof.
  induction fuel as [|fuel IH]; intros indent de st; [done|]. split.
  - intros l i st'. rewrite dump_tree_S. destruct (de_read de st) as [v| | |]; [|done..].
    rewrite bind_ret_l. destruct (IH (S indent) de st) as [_ IHc]. specialize (IHc (children v)).
    destruct (dump_children _ _ _ _ _ _) as [[[l1 i1] st1]| | |]; [|done..].
    specialize (IHc _ _ _ eq_refl). by intros [= _ _ <-].
  - intros [c|] l i st'; [|by intros [= _ _ <-]]. rewrite dump_children_S.
    destruct (IH indent c st) as [IHt _].
    destruct (direntry_cache_dump_tree _ _ _ _ _) as [[[l1 i1] st1]| | |]; [|done..].
    specialize (IHt _ _ _ eq_refl) as ->. rewrite bind_ret_l.
    destruct (de_read de st) as [v| | |]; [|done..]. rewrite bind_ret_l.
    destruct (IH i1 de st) as [_ IHc]. specialize (IHc (next v)).
    destruct (dump_children _ _ _ _ _ _) as [[[l2 i2] st2]| | |]; [|done..].
    specialize (IHc _ _ _ eq_refl). by intros [= _ _ <-].
Qed.

(** [child = direntry_get_next_sibling(de)], not the child's: a direntry with
    a child and a sibling is never dumped to the end. *)
Lemma dump_never_ends st de v c s :
  de_read de st = Ret v -> children v = Some c -> next v = Some s ->
  forall fuel indent r, direntry_cache_dump_tree false fuel indent de st <> Ret r.
Proof.
  intros Ev Hc Hn.
  assert (forall fuel indent x r, dump_children false fuel indent de (Some x) st <> Ret r) as Hd.
  { induction fuel as [|fuel IH]; intros indent x r; [done|]. rewrite dump_children_S.
    destruct (dump_keeps_state fuel indent x st) as [Hk _].
    destruct (direntry_cache_dump_tree _ _ _ _ _) as [[[l1 i1] st1]| | |]; [|done..].
    specialize (Hk _ _ _ eq_refl) as ->. rewrite bind_ret_l, Ev, bind_ret_l, Hn.
    specialize (IH i1 s). destruct (dump_children _ _ _ _ _ _) as [[[l2 i2] st2]| | |]; [|done..].
    by edestruct IH. }
  intros [|fuel] indent r; [done|]. rewrite dump_tree_S, Ev, bind_ret_l, Hc.
  specialize (Hd fuel (S indent) c).
  destruct (dump_children _ _ _ _ _ _) as [[[l2 i2] st2]| | |]; [|done..]. by edestruct Hd.
Qed.

End Dump.
