(* ===== verification/Indexnode.v ===== *)
(** * proto_indexnode.c, indexnode.c: one indexnode

    A proto-indexnode is a host and a port; an indexnode that has been heard of
    also has a protocol version, an id and the time it was last seen, and is
    reference counted. Both own their strings: [live] is the set of allocated
    blocks, and the last reference frees an indexnode's four. *)
From S2P Require Import Prelude CLib Constants Utils RefCount Counted StringBuffer Fetcher Parsers.

(** ** The data *)

Record proto_indexnode := ProtoIndexnode { host : str; port : str }.

Record indexnode := Indexnode {
  pin : proto_indexnode;
  version : str;
  id : str;
  last_seen : Z
}.

(** The indexnodes and the strings of the process. *)
Record store := Store {
  nodes : heap indexnode;
  live : gset nat
}.

Definition PROTO_MINIMUM : cstr := cs "0.5".
Definition PROTO_MAXIMUM : cstr := cs "0.13".

Definition free_const (s : str) (w : store) : outcome store :=
  l ← str_free s (live w); Ret (Store (nodes w) l).

Definition nonempty (s : str) : bool := negb (length (text s) =? 0).

(** ** The code: proto_indexnode.c *)

(** [proto_indexnode_init]; [proto_indexnode_new] calls it on a new object. *)
Definition proto_indexnode_init (host port : str) : outcome proto_indexnode :=
  _ ← c_assert (nonempty host);
  _ ← c_assert (nonempty port);
  Ret (ProtoIndexnode host port).

Definition proto_indexnode_teardown (p : proto_indexnode) (w : store) : outcome store :=
  w ← free_const (host p) w; free_const (port p) w.

(** The copy from [strdup]. *)
Definition proto_indexnode_host (p : proto_indexnode) : cstr := text (host p).
Definition proto_indexnode_port (p : proto_indexnode) : cstr := text (port p).

(** [malloc]'s contents: [None] is a field not written yet. *)
Record indexnode_info := IndexnodeInfo {
  info_protocol : option cstr;
  info_id : option cstr
}.


Definition header_cb (key value : cstr) (info : indexnode_info) : outcome (Z * indexnode_info) :=
  Ret (0%Z,
    if strcaseeq key fs2_version_header_key then IndexnodeInfo (Some value) (info_id info)
    else if strcaseeq key fs2_indexnode_uid_header_key
    then IndexnodeInfo (info_protocol info) (Some value)
    else info).

Section Web.
Context `{Curl}.
(** The configured alias, libcurl's escaping of a resource, what the network
    does for a fetcher, and [xmlParseChunk] on a part of a body: the calls it
    makes and its result. *)
Variable config_alias : cstr.
Variable fetcher_escape_for_http : cstr -> cstr.
Variable web : fetcher -> transfer.
Variable xmlParseChunk : list ascii -> list sax * Z.

Definition make_path (path_prefix resource : cstr) : outcome cstr :=
  sb ← string_buffer_new;
  _ ← c_assert (negb (length path_prefix =? 0));
  sb ← string_buffer_printf sb (path_prefix ++ cs "/" ++ fetcher_escape_for_http resource);
  block ← string_buffer_commit sb;
  Ret (until_nul (default NUL <$> block)).

Definition proto_indexnode_make_url (p : proto_indexnode) (path_prefix resource : cstr)
  : outcome cstr :=
  path ← make_path path_prefix resource;
  fetcher_make_http_url (proto_indexnode_host p) (proto_indexnode_port p) path.

(** [*protocol && **protocol]: a string, or memory that was never written. *)
Definition present (field : option cstr) : outcome bool :=
  s ← deref field; Ret (negb (length s =? 0)).

(** The result, [protocol] and [id]. *)
Definition proto_indexnode_get_info (p : proto_indexnode)
  : outcome (bool * option cstr * option cstr) :=
  url ← proto_indexnode_make_url p (cs "browse") [];
  fetcher ← fetcher_new url config_alias;
  '(rc, info) ← fetcher_fetch_headers (web fetcher) header_cb OtherObject (IndexnodeInfo None None);
  ok ← (if (rc =? 0)%Z then
          protocol ← present (info_protocol info);
          if protocol : bool then present (info_id info) else Ret false
        else Ret false);
  Ret (ok, info_protocol info, info_id info).

(** ** The code: indexnode.c *)

Definition check_version (version : cstr) : outcome bool :=
  lower ← compare_dotted_version PROTO_MINIMUM version;
  if (lower <? 0)%Z then Ret true
  else upper ← compare_dotted_version version PROTO_MAXIMUM; Ret (upper <? 0)%Z.

(** [now] is [time(NULL)]. *)
Definition indexnode_new (now : Z) (host port version id : str) (w : store)
  : outcome (option nat * store) :=
  _ ← c_assert (nonempty version);
  _ ← c_assert (nonempty id);
  ok ← check_version (text version);
  if ok : bool then
    p ← proto_indexnode_init host port;
    let '(in_, h) := obj_new (Indexnode p version id now) (nodes w) in
    Ret (Some in_, Store h (live w))
  else Ret (None, w).

Definition indexnode_copy (in_ : nat) (w : store) : outcome store :=
  h ← obj_copy in_ (nodes w); Ret (Store h (live w)).

Definition indexnode_delete (in_ : nat) (w : store) : outcome store :=
  '(freed, h) ← obj_delete in_ (nodes w);
  let w := Store h (live w) in
  match freed with
  | Some v =>
      w ← proto_indexnode_teardown (pin v) w;
      w ← free_const (version v) w;
      free_const (id v) w
  | None => Ret w
  end.

Definition indexnode_equals (in_ : nat) (id_ : cstr) (w : store) : outcome bool :=
  v ← obj_get in_ (nodes w); Ret (streq (text (id v)) id_).

(** [printf]'s text for the pointer is [p]. *)
Definition indexnode_tostring (p : cstr) (v : indexnode) : outcome cstr :=
  sb ← string_buffer_new;
  sb ← string_buffer_printf sb (cs "[indexnode " ++ p ++ cs "] " ++ text (id v) ++ cs " @ "
    ++ text (host (pin v)) ++ cs ":" ++ text (port (pin v)) ++ cs " (version "
    ++ text (version v) ++ cs ")");
  block ← string_buffer_commit sb;
  Ret (until_nul (default NUL <$> block)).

Definition indexnode_seen (in_ : nat) (now : Z) (w : store) : outcome store :=
  '(r, v) ← deref (nodes w !! in_);
  Ret (Store (<[in_ := (r, Indexnode (pin v) (version v) (id v) now)]> (nodes w)) (live w)).

Definition indexnode_still_valid (in_ : nat) (now config_indexnode_timeout : Z) (w : store)
  : outcome bool :=
  v ← obj_get in_ (nodes w); Ret (now - last_seen v <? config_indexnode_timeout)%Z.

(** The page of [path_prefix] parsed with [consume] from [parser]; the fetch's
    result and the parser. *)
Definition fetch_page {P} (p : proto_indexnode) (path_prefix resource : cstr)
    (consume : list sax -> P -> outcome P) (parser : P) : outcome (Z * P) :=
  url ← proto_indexnode_make_url p path_prefix resource;
  fetcher ← fetcher_new url config_alias;
  fetcher_fetch_body (web fetcher)
    (fun data parser =>
       let '(calls, rc) := xmlParseChunk data in
       parser ← consume calls parser; Ret (rc, parser)) OtherObject parser.

(** What the network answers. *)
Definition page (p : proto_indexnode) (path_prefix resource : cstr) : outcome transfer :=
  url ← proto_indexnode_make_url p path_prefix resource;
  fetcher ← fetcher_new url config_alias;
  Ret (web fetcher).

Definition indexnode_tryget_listing (v : indexnode) (path : cstr) : outcome (Z * list Filelist.entry) :=
  '(rc, parser) ← fetch_page (pin v) (cs "browse") path Filelist.parser_filelist_consume
    Filelist.parser_filelist_new;
  Ret (rc, Filelist.calls parser).

Definition indexnode_tryget_alternatives (v : indexnode) (hash : cstr)
  : outcome (Z * list Filelist.entry) :=
  '(rc, parser) ← fetch_page (pin v) (cs "alternatives") hash Filelist.parser_filelist_consume
    Filelist.parser_filelist_new;
  Ret (rc, Filelist.calls parser).

Definition indexnode_tryget_stats (v : indexnode) : outcome (Z * list (Z * Z)) :=
  '(rc, parser) ← fetch_page (pin v) (cs "stats") [] Stats.parser_stats_consume
    Stats.parser_stats_new;
  Ret (rc, Stats.calls parser).

(** A page is fetched if it has no body; none is ever parsed. *)
Lemma fetch_page_outcome {P} p path_prefix resource (consume : list sax -> P -> outcome P) parser tr :
  page p path_prefix resource = Ret tr ->
  fetch_page p path_prefix resource consume parser =
    match pieces tr with
    | [] => Ret (process_curl_response (response tr) (code tr), parser)
    | _ :: _ => Undef
    end.
Proof.
  unfold page, fetch_page. destruct (proto_indexnode_make_url _ _ _) as [u| | |]; try discriminate.
  rewrite !bind_ret_l. destruct (fetcher_new u config_alias) as [f| | |]; try discriminate.
  rewrite !bind_ret_l. intros [= ->]. by rewrite fetch_body_outcome.
Qed.

End Web.

(** ** Versions *)

Definition minimum_version : list cstr := [cs "0"; cs "5"].
Definition maximum_version : list cstr := [cs "0"; cs "13"].

Lemma version_bounds vs :
  Forall (fun x => 0 <= x)%Z vs ->
  (version_compare [0; 5] vs < 0 \/ version_compare vs [0; 13] < 0)%Z.
Proof.
  intros H. destruct H as [|x vs Hx H]; [right; cbn; lia|].
  destruct (Z.eqb_spec x 0) as [->|Hne].
  2:{ left. cbn. rewrite (proj2 (Z.ltb_lt 0 x)) by lia. lia. }
  destruct H as [|y vs Hy H]; [right; cbn; lia|].
  destruct (Z.ltb_spec y 13); [right|left]; cbn.
  - rewrite (proj2 (Z.ltb_lt y 13)) by lia. lia.
  - rewrite (proj2 (Z.ltb_lt 5 y)) by lia. lia.
Qed.

Lemma check_version_ok (v : list cstr) :
  well_formed_version v -> check_version (render v) = Ret true.
Proof.
  intros Hv. unfold check_version, compare_dotted_version.
  change PROTO_MINIMUM with (render minimum_version).
  change PROTO_MAXIMUM with (render maximum_version).
  assert (Hb : well_formed_version minimum_version /\ well_formed_version maximum_version).
  { split; (constructor; [|constructor; [|constructor]]); split_and!; vm_compute; done. }
  rewrite (loop_spec _ minimum_version v) by (apply Hb || done || lia).
  rewrite bind_ret_l. cbn beta.
  destruct (Z.ltb_spec (version_compare (version_value minimum_version)
    (version_value v)) 0) as [Hlt|Hge]; [done|].
  rewrite (loop_spec _ v maximum_version) by (apply Hb || done || lia).
  rewrite bind_ret_l. f_equal. apply Z.ltb_lt.
  destruct (version_bounds (version_value v) (version_value_nonneg v Hv)) as [H|H]; [|exact H].
  change (version_value minimum_version) with [0; 5]%Z in Hge. lia.
Qed.

(** ** Headers *)

Section Headers.
Context `{Curl} {S : Type}.

Lemma header_wrapper_lost (header : list ascii) (w : S) :
  ":"%char ∈ header ->
  header_cb_wrapper (OtherObject : pointee (cstr -> cstr -> S -> outcome (Z * S))) header w = Undef.
Proof.
  intros Hc. unfold header_cb_wrapper. destruct (strchr ":" header) as [i|] eqn:E.
  2:{ by apply strchr_None in E. }
  cbn zeta. unfold strncpy_terminated. rewrite (proj2 (Z.ltb_ge (Z.of_nat i) 0)) by lia. rewrite bind_ret_l.
  by destruct (_ <? 0)%Z.
Qed.

Lemma header_wrapper_skips (ctxt : pointee (cstr -> cstr -> S -> outcome (Z * S))) header w :
  ":"%char ∉ header -> header_cb_wrapper ctxt header w = Ret (Z.of_nat (length header), w).
Proof. intros Hc. unfold header_cb_wrapper. by rewrite (proj2 (strchr_None _ _) Hc). Qed.

(** Through the client's own context nothing that is a header gets anywhere. *)
Lemma perform_headers_lost (ps : list (list ascii)) (c resp : Z) (w : S) :
  curl_easy_perform (Transfer ps c resp)
    (header_cb_wrapper (OtherObject : pointee (cstr -> cstr -> S -> outcome (Z * S)))) w =
  if decide (Forall (fun l => ":"%char ∉ l) ps) then Ret (c, w) else Undef.
Proof.
  induction ps as [|l ps IH].
  { rewrite curl_done by done. by rewrite decide_True by constructor. }
  rewrite (curl_piece _ _ _ l ps) by done. destruct (decide (":"%char ∈ l)) as [Hl|Hl].
  - rewrite header_wrapper_lost by done. rewrite decide_False; [done|].
    intros HF. by apply Forall_cons in HF as [? _].
  - rewrite header_wrapper_skips, bind_ret_l, Z.eqb_refl by done.
    cbn [code response]. rewrite IH.
    destruct (decide (Forall _ ps)) as [HF|HF].
    + by rewrite decide_True by by constructor.
    + rewrite decide_False; [done|]. intros HF'. by apply Forall_cons in HF' as [_ ?].
Qed.

End Headers.

(** ** Properties *)

(** [check_version] tests the two bounds with [||]: it accepts every
    dotted version, so no indexnode is ever refused for its version. *)
Theorem check_version_accepts_all (v : list cstr) (Hv : well_formed_version v) :
  check_version (render v) = Ret true.
Proof. by apply check_version_ok. Qed.

Lemma check_version_accepts_all_witness : check_version (cs "99.1") = Ret true.
Proof.
  apply (check_version_accepts_all [cs "99"; cs "1"]).
  constructor; [|constructor; [|constructor]]; split_and!; vm_compute; done.
Defined.

(** [proto_indexnode_get_info] never succeeds, whatever the server says:
    the first header line with a colon makes the wrapper call through the
    client's context; a reply without one leaves the information it then reads
    unwritten, unless the fetch failed. *)
Theorem get_info_never_succeeds `{Curl} (config_alias : cstr) (escape : cstr -> cstr)
    (web : fetcher -> transfer) (p : proto_indexnode) (url : cstr) (f : fetcher)
    (Hurl : proto_indexnode_make_url escape p (cs "browse") [] = Ret url)
    (Hf : fetcher_new url config_alias = Ret f) :
  proto_indexnode_get_info config_alias escape web p =
    if decide (Forall (fun l => ":"%char ∉ l) (pieces (web f)) /\
               process_curl_response (response (web f)) (code (web f)) <> 0%Z)
    then Ret (false, None, None) else Undef.
Proof.
  unfold proto_indexnode_get_info. rewrite Hurl, bind_ret_l, Hf, bind_ret_l.
  unfold fetcher_fetch_headers. destruct (web f) as [ps c resp]. cbn [pieces response code].
  rewrite perform_headers_lost. destruct (decide (Forall _ ps)) as [HF|HF].
  - rewrite !bind_ret_l.
    destruct (Z.eqb_spec (process_curl_response resp c) 0) as [E|E]; cbn [info_protocol info_id present].
    + rewrite decide_False by tauto. done.
    + rewrite decide_True by tauto. done.
  - rewrite decide_False by tauto. done.
Qed.

Lemma get_info_never_succeeds_witness :
  @proto_indexnode_get_info script_curl (cs "me") (fun s => s)
    (fun _ => Transfer [cs "HTTP/1.1 200 OK"; cs "fs2-version: 0.13"] CURLE_OK 200)
    (ProtoIndexnode (Str 0 (cs "index.example")) (Str 1 (cs "42000"))) = Undef.
Proof.
  rewrite (@get_info_never_succeeds script_curl (cs "me") (fun s => s) _ _
    (cs "http://index.example:42000/browse/")
    (Fetcher (cs "http://index.example:42000/browse/") [cs "fs2-alias: me"])).
  - rewrite decide_False; [reflexivity|]. intros [_ E]. by vm_compute in E.
  - vm_compute. reflexivity.
  - vm_compute. reflexivity.
Defined.
