(* ===== verification/Listing.v ===== *)
(** * listing.c, listing_list.c, peerstats.c: listings and the choice of a peer

    A listing is one line of an indexnode's page: a file or directory that some
    client offers. Listings are reference counted, in a [heap]; a listing list
    holds a reference to each of its items; [peerstats_chose_alternative] picks
    from the listings that offer the same file. *)
From S2P Require Import Prelude CLib Utils RefCount Counted Parsers.

(** ** The code: listings *)

Inductive listing_type_t := listing_type_FILE | listing_type_DIRECTORY.

Record listing := Listing {
  li_in : nat;                 (* the indexnode it came from *)
  li_name : option cstr;
  li_hash : option cstr;
  li_type : listing_type_t;
  li_size : Z;
  li_link_count : Z;
  li_href : option cstr;
  li_client : option cstr
}.

Definition listing_type_from_string (s : option cstr) : outcome listing_type_t :=
  s ← deref s;
  if streq s (cs "file") then Ret listing_type_FILE
  else if streq s (cs "directory") then Ret listing_type_DIRECTORY
  else AssertFail.

Definition listing_new (in_ : nat) (hash name type : option cstr) (size link_count : Z)
    (href client : option cstr) (h : heap listing) : outcome (nat * heap listing) :=
  ty ← listing_type_from_string type;
  Ret (obj_new (Listing in_ name hash ty size link_count href client) h).

Definition listing_copy (li : nat) (h : heap listing) : outcome (heap listing) := obj_copy li h.
(** With the last reference [listing_teardown] frees the strings. *)
Definition listing_delete (li : nat) (h : heap listing) : outcome (heap listing) :=
  '(_, h) ← obj_delete li h; Ret h.

(** [strdup(li->client)], and so on. *)
Definition listing_get_client (li : nat) (h : heap listing) : outcome cstr :=
  v ← obj_get li h; deref (li_client v).
Definition listing_get_href (li : nat) (h : heap listing) : outcome cstr :=
  v ← obj_get li h; deref (li_href v).

Definition listing_get_name (li : nat) (h : heap listing) : outcome cstr :=
  v ← obj_get li h; deref (li_name v).
Definition listing_get_hash (li : nat) (h : heap listing) : outcome cstr :=
  v ← obj_get li h; deref (li_hash v).
Definition listing_get_type (li : nat) (h : heap listing) : outcome listing_type_t :=
  v ← obj_get li h; Ret (li_type v).
Definition listing_get_size (li : nat) (h : heap listing) : outcome Z :=
  v ← obj_get li h; Ret (li_size v).
Definition listing_get_link_count (li : nat) (h : heap listing) : outcome Z :=
  v ← obj_get li h; Ret (li_link_count v).

Definition listing_equal (li other : listing) : outcome bool :=
  h1 ← deref (li_hash li); h2 ← deref (li_hash other); Ret (hash_equal h1 h2).

Record stat := Stat {
  st_is_dir : bool; st_mode : Z; st_nlink : Z; st_uid : Z; st_gid : Z;
  st_size : Z; st_blksize : Z; st_blocks : Z
}.

(** The configuration [listing_li2stat] reads, and the process's ids. *)
Record attr_config := AttrConfig {
  config_attr_id_uid : Z; config_attr_id_gid : Z;
  config_attr_mode_file : Z; config_attr_mode_dir : Z;
  getuid : Z; getgid : Z
}.

Definition FSFUSE_BLKSIZE : Z := 512.

Definition listing_li2stat (c : attr_config) (v : listing) : stat :=
  let uid := config_attr_id_uid c in
  let gid := config_attr_id_gid c in
  let st_uid := if (uid =? -1)%Z then getuid c else u32 uid in
  let st_gid := if (gid =? -1)%Z then getgid c else u32 gid in
  match li_type v with
  | listing_type_FILE =>
      Stat false (config_attr_mode_file c) (li_link_count v) st_uid st_gid
        (li_size v) FSFUSE_BLKSIZE (Z.quot (li_size v) 512 + 1)
  | listing_type_DIRECTORY =>
      Stat true (config_attr_mode_dir c) (li_link_count v) st_uid st_gid 0 0 0
  end.

(** ** The code: listing lists *)

(** The items; [count] is how many there are. *)
Abbreviation listing_list := (list (option nat)).

Definition listing_list_new (count : nat) : listing_list := replicate count None.
Definition listing_list_resize (lis : listing_list) (new_count : nat) : listing_list :=
  take new_count lis ++ replicate (new_count - length lis) None.
Definition listing_list_get_count (lis : listing_list) : nat := length lis.

Fixpoint listing_list_delete (lis : listing_list) (h : heap listing) : outcome (heap listing) :=
  match lis with
  | [] => Ret h
  | li :: lis => p ← deref li; h ← listing_delete p h; listing_list_delete lis h
  end.

Definition listing_list_set_item (lis : listing_list) (item : nat) (li : nat) (h : heap listing)
  : outcome (listing_list * heap listing) :=
  h ← listing_copy li h;
  if item <? length lis then Ret (<[item := Some li]> lis, h) else Undef.

Definition listing_list_get_item (lis : listing_list) (item : nat) (h : heap listing)
  : outcome (nat * heap listing) :=
  slot ← deref (lis !! item);
  li ← deref slot;
  h ← listing_copy li h;
  Ret (li, h).

(** ** The code: peerstats.c *)

(** The [while (names[j])] search of a configured list that may be NULL. *)
Definition named (names : option (list cstr)) (client : cstr) : bool :=
  match names with Some l => existsb (streq client) l | None => false end.

Record split := Split {
  fav_list : listing_list; fav_count : nat;
  block_list : listing_list; block_count : nat;
  normal_list : listing_list; normal_count : nat
}.

(** The body of the loop, for item [i] of [alts]. *)
Definition split_item (favs blocks : option (list cstr)) (alts : listing_list) (i : nat)
    (s : split) (h : heap listing) : outcome (split * heap listing) :=
  '(li, h) ← listing_list_get_item alts i h;
  client ← (match default [] favs ++ default [] blocks with
            | [] => Ret []                  (* no name to compare it with *)
            | _ => listing_get_client li h
            end);
  '(s, h) ←
    (if named favs client then
       '(l, h) ← listing_list_set_item (fav_list s) (fav_count s) li h;
       Ret (Split l (S (fav_count s)) (block_list s) (block_count s) (normal_list s) (normal_count s), h)
     else if named blocks client then
       '(l, h) ← listing_list_set_item (block_list s) (block_count s) li h;
       Ret (Split (fav_list s) (fav_count s) l (S (block_count s)) (normal_list s) (normal_count s), h)
     else
       '(l, h) ← listing_list_set_item (normal_list s) (normal_count s) li h;
       Ret (Split (fav_list s) (fav_count s) (block_list s) (block_count s) l (S (normal_count s)), h));
  h ← listing_delete li h;
  Ret (s, h).

Fixpoint split_loop (favs blocks : option (list cstr)) (alts : listing_list) (n i : nat)
    (s : split) (h : heap listing) : outcome (split * heap listing) :=
  match n with
  | 0 => Ret (s, h)
  | S n => '(s, h) ← split_item favs blocks alts i s h; split_loop favs blocks alts n (S i) s h
  end.

Definition split_list (alts : listing_list) (favs blocks : option (list cstr)) (h : heap listing)
  : outcome (listing_list * listing_list * listing_list * heap listing) :=
  let n := listing_list_get_count alts in
  '(s, h) ← split_loop favs blocks alts n 0
    (Split (listing_list_new n) 0 (listing_list_new n) 0 (listing_list_new n) 0) h;
  _ ← c_assert (fav_count s + block_count s + normal_count s =? n);
  Ret (listing_list_resize (fav_list s) (fav_count s),
       listing_list_resize (normal_list s) (normal_count s),
       listing_list_resize (block_list s) (block_count s), h).

(** [random] is what [random()] returns. *)
Definition peerstats_chose_alternative (alts : listing_list) (favs blocks : option (list cstr))
    (random : nat) (h : heap listing) : outcome (option nat * heap listing) :=
  '(fav_list, normal_list, block_list, h) ← split_list alts favs blocks h;
  '(ret, h) ←
    (if negb (listing_list_get_count fav_list =? 0) then
       '(li, h) ← listing_list_get_item fav_list (random mod listing_list_get_count fav_list) h;
       Ret (Some li, h)
     else if negb (listing_list_get_count normal_list =? 0) then
       '(li, h) ← listing_list_get_item normal_list (random mod listing_list_get_count normal_list) h;
       Ret (Some li, h)
     else Ret (None, h));
  h ← listing_list_delete fav_list h;
  h ← listing_list_delete normal_list h;
  h ← listing_list_delete block_list h;
  Ret (ret, h).

(** ** The code: finding the alternatives *)

(** The memory of [listing_tryget_best_alternative]: listings and indexnodes. *)
Record store := Store { listings : heap listing; indexnodes : heap unit }.

(** [entry_found] for one parsed entry: the list with one more item. *)
Definition entry_found (in_ : nat) (e : Filelist.entry) (lis : listing_list) (st : store)
  : outcome (listing_list * store) :=
  ins ← obj_copy in_ (indexnodes st);
  '(li, h) ← listing_new in_ (text <$> Filelist.e_hash e) (text <$> Filelist.e_name e)
    (text <$> Filelist.e_type e) (Filelist.e_size e) (Filelist.e_link_count e)
    (text <$> Filelist.e_href e) (text <$> Filelist.e_client e) (listings st);
  let i := length lis in
  '(lis, h) ← listing_list_set_item (listing_list_resize lis (i + 1)) i li h;
  Ret (lis, Store h ins).

Fixpoint entries_found (in_ : nat) (es : list Filelist.entry) (lis : listing_list) (st : store)
  : outcome (listing_list * store) :=
  match es with
  | [] => Ret (lis, st)
  | e :: es => '(lis, st) ← entry_found in_ e lis st; entries_found in_ es lis st
  end.

(** [query] is [indexnode_tryget_alternatives] on the listing's indexnode: its
    result and the entries it found for a hash. *)
Definition listing_tryget_best_alternative (li_reference : nat)
    (query : cstr -> outcome (Z * list Filelist.entry))
    (favs blocks : option (list cstr)) (random : nat) (st : store)
  : outcome (Z * option nat * store) :=
  v ← obj_get li_reference (listings st);
  ins ← obj_copy (li_in v) (indexnodes st);
  ins ← obj_copy (li_in v) ins;
  hash ← deref (li_hash v);
  '(rc, es) ← query hash;
  '(lis, st) ← entries_found (li_in v) es (listing_list_new 0) (Store (listings st) ins);
  '(best, h) ← peerstats_chose_alternative lis favs blocks random (listings st);
  h ← listing_list_delete lis h;
  Ret (rc, best, Store h (indexnodes st)).

(** ** Splitting *)

Section Choice.
Variables (favs blocks : option (list cstr)).
Variable client_of : nat -> cstr.

Definition favourite (p : nat) : bool := named favs (client_of p).
Definition blocked (p : nat) : bool := negb (favourite p) && named blocks (client_of p).
Definition ordinary (p : nat) : bool := negb (favourite p) && negb (named blocks (client_of p)).

Definition pick (f : nat -> bool) (ps : list nat) : list nat := filter (fun p => f p = true) ps.

Lemma pick_app f ps qs : pick f (ps ++ qs) = pick f ps ++ pick f qs.
Proof. apply filter_app. Qed.
Lemma pick_one f p : pick f [p] = if f p then [p] else [].
Proof. unfold pick. rewrite filter_cons. by destruct (f p). Qed.

Lemma picks_perm ps : ps ≡ₚ pick favourite ps ++ pick ordinary ps ++ pick blocked ps.
Proof.
  induction ps as [|p ps IH]; [done|].
  change (p :: ps) with ([p] ++ ps). rewrite !pick_app, !pick_one. unfold ordinary, blocked.
  destruct (favourite p), (named blocks (client_of p)); cbn [negb andb app].
  1,2: by rewrite IH at 1.
  - rewrite IH at 1. rewrite (app_assoc _ _ (p :: _)), <- Permutation_middle, <- app_assoc. done.
  - rewrite IH at 1. by rewrite <- Permutation_middle.
Qed.

(** A list being filled: its first items, the rest null. *)
Definition filled (n : nat) (ps : list nat) : listing_list :=
  (Some <$> ps) ++ replicate (n - length ps) None.

Lemma filled_set n ps p :
  length ps < n -> <[length ps := Some p]> (filled n ps) = filled n (ps ++ [p]).
Proof.
  intros Hn. unfold filled. rewrite insert_app_r_alt by (rewrite length_fmap; lia).
  rewrite length_fmap, Nat.sub_diag, fmap_app, <- app_assoc, length_app. cbn [length].
  replace (n - length ps) with (S (n - (length ps + 1))) by lia. done.
Qed.

Lemma filled_length n ps : length ps <= n -> length (filled n ps) = n.
Proof. intros. unfold filled. rewrite length_app, length_fmap, length_replicate. lia. Qed.

Lemma filled_resize n ps : length ps <= n -> listing_list_resize (filled n ps) (length ps) = Some <$> ps.
Proof.
  intros H. unfold listing_list_resize. rewrite filled_length by done.
  replace (length ps - n) with 0 by lia. rewrite app_nil_r. unfold filled.
  apply take_app_length'. by rewrite length_fmap.
Qed.

(** The listings of [ps] are live, with a client, and their counts have room
    for [k] more references. *)
Definition offered (h : heap listing) (k : nat) (ps : list nat) : Prop :=
  counts_ok k h /\
  Forall (fun p => exists r v, h !! p = Some (r, v) /\ li_client v = Some (client_of p)) ps.

Lemma offered_live h k ps p : offered h k ps -> p ∈ ps -> is_Some (h !! p).
Proof.
  intros [_ HF] Hp. rewrite Forall_forall in HF. destruct (HF p Hp) as (r & v & -> & _). eauto.
Qed.

Lemma offered_refs h k ps p : offered h k ps -> p ∈ ps ->
  (0 < refs_of h p /\ refs_of h p + Z.of_nat k < 2 ^ 32)%Z.
Proof. intros H Hp. apply counts_ok_refs; [apply H|by eapply offered_live]. Qed.

Lemma get_client_ok h k ps p d :
  offered h k ps -> p ∈ ps -> listing_get_client p (adds h d) = Ret (client_of p).
Proof.
  intros [_ HF] Hp. rewrite Forall_forall in HF. destruct (HF p Hp) as (r & v & E & Ec).
  unfold listing_get_client. rewrite (obj_get_adds _ _ _ _ _ E), bind_ret_l, Ec. done.
Qed.

Lemma copy_ok h k ps p d :
  offered h k ps -> p ∈ ps -> (0 <= d p < Z.of_nat k)%Z ->
  listing_copy p (adds h d) = Ret (adds h (fun q => d q + one p q)%Z).
Proof.
  intros H Hp Hd. pose proof (offered_refs h k ps p H Hp).
  apply obj_copy_ok; [by eapply offered_live|lia].
Qed.

Lemma delete_ok h k ps p d :
  offered h k ps -> p ∈ ps -> (0 < d p <= Z.of_nat k)%Z ->
  listing_delete p (adds h d) = Ret (adds h (fun q => d q - one p q)%Z).
Proof.
  intros H Hp Hd. pose proof (offered_refs h k ps p H Hp). unfold listing_delete.
  rewrite obj_delete_ok; [done|by eapply offered_live|lia].
Qed.

Lemma set_item_ok h k ps p d n qs :
  offered h k ps -> p ∈ ps -> (0 <= d p < Z.of_nat k)%Z -> length qs < n ->
  listing_list_set_item (filled n qs) (length qs) p (adds h d) =
    Ret (filled n (qs ++ [p]), adds h (fun q => d q + one p q)%Z).
Proof.
  intros H Hp Hd Hn. unfold listing_list_set_item. rewrite (copy_ok _ _ _ _ _ H Hp Hd), bind_ret_l.
  rewrite filled_length by lia. rewrite (proj2 (Nat.ltb_lt _ _)) by done. by rewrite filled_set.
Qed.

Lemma get_item_ok h k ps p d lis i :
  offered h k ps -> p ∈ ps -> (0 <= d p < Z.of_nat k)%Z -> lis !! i = Some p ->
  listing_list_get_item (Some <$> lis) i (adds h d) = Ret (p, adds h (fun q => d q + one p q)%Z).
Proof.
  intros H Hp Hd Hi. unfold listing_list_get_item. rewrite list_lookup_fmap, Hi. cbn [fmap option_fmap option_map deref].
  rewrite !bind_ret_l. cbn [deref]. rewrite !bind_ret_l. by rewrite (copy_ok _ _ _ _ _ H Hp Hd).
Qed.

Lemma named_needed p :
  default [] favs ++ default [] blocks = [] -> named favs p = false /\ named blocks p = false.
Proof.
  intros E. apply app_eq_nil in E as [E1 E2].
  destruct favs as [[]|], blocks as [[]|]; done.
Qed.

(** The split so far. *)
Definition split_of (n : nat) (ps : list nat) : split :=
  Split (filled n (pick favourite ps)) (length (pick favourite ps))
    (filled n (pick blocked ps)) (length (pick blocked ps))
    (filled n (pick ordinary ps)) (length (pick ordinary ps)).

Lemma pick_length f ps : length (pick f ps) <= length ps.
Proof. apply length_filter. Qed.

Lemma split_item_ok h ps pre p suf :
  ps = pre ++ p :: suf -> offered h (length ps + 2) ps ->
  split_item favs blocks (Some <$> ps) (length pre) (split_of (length ps) pre) (adds h (each pre)) =
    Ret (split_of (length ps) (pre ++ [p]), adds h (each (pre ++ [p]))).
Proof.
  intros Hps H. assert (Hp : p ∈ ps) by (rewrite Hps, elem_of_app, elem_of_cons; auto).
  assert (Hl : length pre < length ps) by (rewrite Hps, length_app; cbn; lia).
  assert (Hi : ps !! length pre = Some p) by (rewrite Hps; by rewrite list_lookup_middle).
  pose proof (each_bounds pre p) as Hb.
  assert (H1 : one p p = 1%Z) by (unfold one; by rewrite decide_True).
  unfold split_item. rewrite (get_item_ok _ _ _ _ _ _ _ H Hp) by (done || lia). rewrite bind_ret_l.
  set (d := fun q => (each pre q + one p q)%Z).
  assert (Hd : (0 <= d p < Z.of_nat (length ps + 2))%Z) by (unfold d; lia).
  assert (Ec : forall B (k : cstr -> outcome B),
    k (client_of p) = k [] \/ default [] favs ++ default [] blocks <> [] ->
    (c ← match default [] favs ++ default [] blocks with [] => Ret []
        | _ => listing_get_client p (adds h d) end; k c) = k (client_of p)).
  { intros B k [Ek|Hne]; destruct (default [] favs ++ default [] blocks);
      rewrite ?(get_client_ok _ _ _ _ _ H Hp), ?bind_ret_l; done. }
  rewrite Ec.
  2:{ destruct (decide (default [] favs ++ default [] blocks = [])) as [E|E]; [left|by right].
      destruct (named_needed (client_of p) E) as [-> ->], (named_needed [] E) as [-> ->]. done. }
  clear Ec. unfold split_of.
  cbn [fav_list fav_count block_list block_count normal_list normal_count].
  rewrite !pick_app, !pick_one. unfold ordinary, blocked, favourite.
  assert (Hset : forall f, listing_list_set_item (filled (length ps) (pick f pre)) (length (pick f pre)) p
      (adds h d) = Ret (filled (length ps) (pick f pre ++ [p]), adds h (fun q => d q + one p q)%Z)).
  { intros f. apply (set_item_ok _ _ _ _ _ _ _ H Hp Hd). pose proof (pick_length f pre). lia. }
  assert (Hdel : listing_delete p (adds h (fun q => d q + one p q)%Z) = Ret (adds h (each (pre ++ [p])))).
  { rewrite (delete_ok _ _ _ _ _ H Hp) by lia. f_equal. apply adds_ext. intros q _.
    unfold d. rewrite each_app, each_cons. unfold each at 3. cbn. lia. }
  destruct (named favs (client_of p)), (named blocks (client_of p)); cbn [negb andb];
    rewrite Hset, bind_ret_l, bind_ret_l, Hdel, bind_ret_l, !app_nil_r, !length_app;
    cbn [length]; by rewrite Nat.add_1_r.
Qed.

Lemma split_loop_ok h ps pre suf :
  ps = pre ++ suf -> offered h (length ps + 2) ps ->
  split_loop favs blocks (Some <$> ps) (length suf) (length pre) (split_of (length ps) pre)
    (adds h (each pre)) = Ret (split_of (length ps) ps, adds h (each ps)).
Proof.
  revert pre. induction suf as [|p suf IH]; intros pre Hps H; cbn [length split_loop].
  { rewrite app_nil_r in Hps. by subst. }
  rewrite (split_item_ok h ps pre p suf Hps H), bind_ret_l.
  replace (S (length pre)) with (length (pre ++ [p])) by (rewrite length_app; cbn; lia).
  apply IH; [|done]. by rewrite <- app_assoc.
Qed.

Lemma split_list_ok h ps :
  offered h (length ps + 2) ps ->
  split_list (Some <$> ps) favs blocks h =
    Ret (Some <$> pick favourite ps, Some <$> pick ordinary ps, Some <$> pick blocked ps,
         adds h (each ps)).
Proof.
  intros H. unfold split_list, listing_list_get_count, listing_list_new. rewrite length_fmap.
  pose proof (split_loop_ok h ps [] ps eq_refl H) as E.
  rewrite (adds_0 h (each [])) in E by done.
  unfold split_of at 1 in E. cbn [pick filter list_filter length] in E.
  unfold filled in E. cbn [fmap list_fmap app] in E. rewrite Nat.sub_0_r in E.
  change (length []) with 0 in E. rewrite E, bind_ret_l. unfold split_of.
  cbn [fav_list fav_count block_list block_count normal_list normal_count].
  pose proof (Permutation_length (picks_perm ps)) as HL. rewrite !length_app in HL.
  rewrite (proj2 (Nat.eqb_eq _ _)) by lia. cbn [c_assert]. rewrite bind_ret_l.
  by rewrite !filled_resize by apply pick_length.
Qed.

Lemma list_delete_ok h k ps qs d :
  offered h k ps -> Forall (.∈ ps) qs -> (forall q, q ∈ qs -> (each qs q <= d q <= Z.of_nat k)%Z) ->
  listing_list_delete (Some <$> qs) (adds h d) = Ret (adds h (fun q => d q - each qs q)%Z).
Proof.
  intros H HF. revert d. induction HF as [|q qs Hq HF IH]; intros d Hd; cbn [fmap list_fmap listing_list_delete].
  { f_equal. apply adds_ext. intros. unfold each. cbn. lia. }
  cbn [deref]. rewrite bind_ret_l. pose proof (Hd q (list_elem_of_here _ _)) as Hdq.
  rewrite each_cons in Hdq. pose proof (each_bounds qs q). unfold one in Hdq.
  rewrite decide_True in Hdq by done.
  rewrite (delete_ok _ _ _ _ _ H Hq), bind_ret_l by lia. rewrite IH.
  - f_equal. apply adds_ext. intros q' _. rewrite each_cons. lia.
  - intros q' Hq'. specialize (Hd q' ltac:(by apply list_elem_of_further)).
    rewrite each_cons in Hd. unfold one in *. case_decide; lia.
Qed.

Lemma pick_elem f ps p : p ∈ pick f ps <-> f p = true /\ p ∈ ps.
Proof. unfold pick. by rewrite list_elem_of_filter. Qed.

Lemma pick_nil f ps : length (pick f ps) = 0 -> forall p, p ∈ ps -> f p = false.
Proof.
  intros E p Hp. destruct (f p) eqn:Ef; [|done].
  assert (Hin : p ∈ pick f ps) by (by apply pick_elem). apply length_zero_iff_nil in E.
  rewrite E in Hin. by apply elem_of_nil in Hin.
Qed.

(** An item picked at random from one of the lists. *)
Lemma random_item_ok h ps f random :
  offered h (length ps + 2) ps -> length (pick f ps) <> 0 ->
  exists p, p ∈ pick f ps /\
    listing_list_get_item (Some <$> pick f ps) (random mod length (pick f ps)) (adds h (each ps)) =
      Ret (p, adds h (fun q => each ps q + one p q)%Z).
Proof.
  intros H Hne. destruct (lookup_lt_is_Some_2 (pick f ps) (random mod length (pick f ps))) as [p Hp].
  { by apply Nat.mod_upper_bound. }
  assert (Hin : p ∈ pick f ps) by by eapply list_elem_of_lookup_2.
  exists p. split; [done|]. apply pick_elem in Hin as [_ Hin]. pose proof (each_bounds ps p).
  eapply get_item_ok; [exact H|done|lia|done].
Qed.

(** What a choice must be. *)
Definition chosen (ps : list nat) (ret : option nat) : Prop :=
  match ret with
  | Some p => p ∈ ps /\ (favourite p = true \/
      (forall q, q ∈ ps -> favourite q = false) /\ named blocks (client_of p) = false)
  | None => forall p, p ∈ ps -> favourite p = false /\ named blocks (client_of p) = true
  end.

Definition one_more (ret : option nat) : nat -> Z :=
  match ret with Some p => one p | None => fun _ => 0%Z end.

Lemma choice_ok h ps random :
  offered h (length ps + 2) ps ->
  exists ret, chosen ps ret /\
    (if negb (length (pick favourite ps) =? 0) then
       '(li, h) ← listing_list_get_item (Some <$> pick favourite ps)
          (random mod length (pick favourite ps)) (adds h (each ps)); Ret (Some li, h)
     else if negb (length (pick ordinary ps) =? 0) then
       '(li, h) ← listing_list_get_item (Some <$> pick ordinary ps)
          (random mod length (pick ordinary ps)) (adds h (each ps)); Ret (Some li, h)
     else Ret (None, adds h (each ps))) = Ret (ret, adds h (fun q => each ps q + one_more ret q)%Z).
Proof.
  intros H. destruct (Nat.eqb_spec (length (pick favourite ps)) 0) as [E1|E1];
    [destruct (Nat.eqb_spec (length (pick ordinary ps)) 0) as [E2|E2]|]; cbn [negb].
  - exists None. split.
    + intros p Hp. pose proof (pick_nil _ _ E1 p Hp) as F1. pose proof (pick_nil _ _ E2 p Hp) as F2.
      unfold ordinary in F2. rewrite F1 in F2. by apply negb_false_iff in F2.
    + do 2 f_equal. apply adds_ext. intros. cbn. lia.
  - destruct (random_item_ok h ps ordinary random H E2) as (p & Hp & E). exists (Some p).
    apply pick_elem in Hp as [Ho Hp]. unfold ordinary in Ho. apply andb_true_iff in Ho as [_ Ho].
    split; [|by rewrite E]. split; [done|]. right. split; [exact (pick_nil _ _ E1)|].
    by apply negb_true_iff in Ho.
  - destruct (random_item_ok h ps favourite random H E1) as (p & Hp & E). exists (Some p).
    apply pick_elem in Hp as [Hf Hp]. split; [|by rewrite E]. split; [done|]. by left.
Qed.

(** The three lists are given back: what is left is the chosen one's reference. *)
Lemma give_back_ok h ps ret :
  offered h (length ps + 2) ps ->
  (h ← listing_list_delete (Some <$> pick favourite ps) (adds h (fun q => each ps q + one_more ret q)%Z);
   h ← listing_list_delete (Some <$> pick ordinary ps) h;
   h ← listing_list_delete (Some <$> pick blocked ps) h;
   Ret (ret, h)) = Ret (ret, adds h (one_more ret)).
Proof.
  intros H. set (d := fun q => (each ps q + one_more ret q)%Z).
  assert (HP : forall q, each ps q = (each (pick favourite ps) q + (each (pick ordinary ps) q +
    each (pick blocked ps) q))%Z).
  { intros q. rewrite <- !each_app. apply each_perm, picks_perm. }
  assert (HF : forall f, Forall (.∈ ps) (pick f ps)).
  { intros f. apply Forall_forall. intros q Hq. by apply pick_elem in Hq as [_ ?]. }
  assert (HB : forall q, (0 <= one_more ret q <= 1)%Z /\ (0 <= each ps q <= Z.of_nat (length ps))%Z /\
    (0 <= each (pick favourite ps) q)%Z /\ (0 <= each (pick ordinary ps) q)%Z /\ (0 <= each (pick blocked ps) q)%Z).
  { intros q. split; [destruct ret; cbn; [unfold one; case_decide|]; lia|].
    split_and!; apply each_bounds. }
  assert (HL : forall q, (d q = each ps q + one_more ret q)%Z) by done.
  rewrite (list_delete_ok h _ ps _ d H (HF _)), bind_ret_l by (intros q _; rewrite HL; specialize (HP q); specialize (HB q); lia).
  rewrite (list_delete_ok h _ ps _ _ H (HF _)), bind_ret_l by (intros q _; rewrite HL; specialize (HP q); specialize (HB q); lia).
  rewrite (list_delete_ok h _ ps _ _ H (HF _)), bind_ret_l by (intros q _; rewrite HL; specialize (HP q); specialize (HB q); lia).
  do 2 f_equal. apply adds_ext. intros q _. rewrite HL, HP. lia.
Qed.

Lemma choose_ok h ps random :
  offered h (length ps + 2) ps ->
  exists ret, peerstats_chose_alternative (Some <$> ps) favs blocks random h =
      Ret (ret, adds h (one_more ret)) /\ chosen ps ret.
Proof.
  intros H. unfold peerstats_chose_alternative. rewrite split_list_ok, bind_ret_l by done.
  unfold listing_list_get_count. rewrite !length_fmap.
  destruct (choice_ok h ps random H) as (ret & Hch & E). rewrite E, bind_ret_l.
  exists ret. split; [by apply give_back_ok|done].
Qed.

End Choice.

(** ** Properties *)

(** C11: [peerstats_chose_alternative] chooses among the listings of a file, for
    any random number: one of the favourites' if there is any, otherwise one
    from a client that is not blocked, and none if all are blocked. The count
    of the chosen listing goes up by one, its caller's reference, and every
    other count is as it was: the three lists and the loop give back every
    reference they take. *)
Theorem peerstats_choice (favs blocks : option (list cstr)) (client_of : nat -> cstr)
    (ps : list nat) (random : nat) (h : heap listing)
    (Hoffered : offered client_of h (length ps + 2) ps) :
  exists ret, peerstats_chose_alternative (Some <$> ps) favs blocks random h =
      Ret (ret, adds h (one_more ret)) /\ chosen favs blocks client_of ps ret.
Proof. by apply choose_ok. Qed.

Definition demo_listing (client : cstr) : listing :=
  Listing 0 (Some (cs "a.txt")) (Some (cs "d41d")) listing_type_FILE 4096 2
    (Some (cs "http://peer/a.txt")) (Some client).
Definition demo_heap : heap listing :=
  {[ 0 := (RefCount 1, demo_listing (cs "bob"));
     1 := (RefCount 1, demo_listing (cs "alice"));
     2 := (RefCount 2, demo_listing (cs "mallory")) ]}.
Definition demo_client (p : nat) : cstr :=
  match p with 0 => cs "bob" | 1 => cs "alice" | _ => cs "mallory" end.

Lemma peerstats_choice_witness :
  exists ret, peerstats_chose_alternative (Some <$> [0; 1; 2]) (Some [cs "alice"])
      (Some [cs "mallory"]) 17 demo_heap = Ret (ret, adds demo_heap (one_more ret)) /\
    chosen (Some [cs "alice"]) (Some [cs "mallory"]) demo_client [0; 1; 2] ret.
Proof.
  apply (peerstats_choice (Some [cs "alice"]) (Some [cs "mallory"]) demo_client [0; 1; 2]).
  split.
  - unfold demo_heap. repeat (apply map_Forall_insert_2; [split; reflexivity|]).
    apply map_Forall_empty.
  - repeat constructor; eexists _, _; split; reflexivity.
Defined.

(** ** The listings found *)

Definition client_in (h : heap listing) (p : nat) : cstr :=
  match h !! p with Some (_, v) => default [] (li_client v) | None => [] end.

(** An entry [listing_new] accepts, with a client. *)
Definition good_entry (e : Filelist.entry) : Prop :=
  (exists s, text <$> Filelist.e_type e = Some s /\ (s = cs "file" \/ s = cs "directory")) /\
  is_Some (Filelist.e_client e).

Lemma type_ok t s :
  t = Some s -> s = cs "file" \/ s = cs "directory" -> exists ty, listing_type_from_string t = Ret ty.
Proof. intros -> [-> | ->]; unfold listing_type_from_string; cbn [deref]; rewrite bind_ret_l; eauto. Qed.

(** A listing that was just created and put in a list. *)
Definition is_new (h : heap listing) (p : nat) : Prop :=
  exists v c, h !! p = Some (RefCount 2, v) /\ li_client v = Some c.

Lemma entry_found_ok in_ e ps st :
  good_entry e -> is_Some (indexnodes st !! in_) ->
  (0 < refs_of (indexnodes st) in_ < 2 ^ 32 - 1)%Z ->
  exists p v c, listings st !! p = None /\ li_client v = Some c /\
    entry_found in_ e (Some <$> ps) st =
      Ret (Some <$> (ps ++ [p]),
           Store (<[p := (RefCount 2, v)]> (listings st)) (adds (indexnodes st) (one in_))).
Proof.
  intros [(s & Ht & Hs) [cl Hc]] Hin Hrefs. unfold entry_found.
  pose proof (obj_copy_ok (indexnodes st) (fun _ => 0%Z) in_ Hin ltac:(lia)) as E.
  rewrite adds_0 in E by done. rewrite E, bind_ret_l. clear E.
  destruct (type_ok _ _ Ht Hs) as [ty Ety].
  unfold listing_new. rewrite Ety, bind_ret_l.
  set (v := Listing in_ _ _ ty _ _ _ _). pose proof (obj_new_fresh v (listings st)) as Hf.
  destruct (obj_new v (listings st)) as [p h1] eqn:En. cbn [fst] in Hf.
  assert (h1 = <[p := (ref_count_new, v)]> (listings st)) as ->.
  { unfold obj_new in En. by injection En as <- <-. }
  rewrite bind_ret_l. exists p, v, (text cl). split_and!; [done|by unfold v; rewrite Hc|].
  unfold listing_list_set_item, listing_copy, obj_copy. rewrite lookup_insert_eq. cbn [deref].
  rewrite bind_ret_l. change (ref_count_inc ref_count_new) with (Ret (2%Z, RefCount 2)).
  rewrite !bind_ret_l, insert_insert_eq. rewrite length_fmap. unfold listing_list_resize. rewrite length_fmap, length_app, length_take, length_replicate, length_fmap.
  rewrite (proj2 (Nat.ltb_lt _ _)) by lia. rewrite bind_ret_l. do 2 f_equal.
  rewrite take_ge by (rewrite length_fmap; lia). replace (length ps + 1 - length ps) with 1 by lia.
  cbn [replicate]. rewrite insert_app_r_alt by (rewrite length_fmap; lia).
  rewrite length_fmap, Nat.sub_diag. by rewrite fmap_app.
Qed.

Lemma entries_found_ok in_ es ps st :
  Forall good_entry es -> is_Some (indexnodes st !! in_) ->
  (0 < refs_of (indexnodes st) in_ /\ refs_of (indexnodes st) in_ + Z.of_nat (length es) < 2 ^ 32)%Z ->
  NoDup ps -> Forall (is_new (listings st)) ps ->
  exists qs h, entries_found in_ es (Some <$> ps) st =
      Ret (Some <$> (ps ++ qs), Store h (adds (indexnodes st) (fun q => Z.of_nat (length es) * one in_ q)%Z)) /\
    length qs = length es /\ NoDup (ps ++ qs) /\ Forall (is_new h) (ps ++ qs) /\
    Forall (fun p => listings st !! p = None) qs /\
    (forall p, p ∉ qs -> h !! p = listings st !! p).
Proof.
  intros HF. revert ps st. induction HF as [|e es He HF IH]; intros ps st Hin Hrefs HN Hnew; cbn [entries_found].
  { exists [], (listings st). rewrite app_nil_r. split_and!; try done.
    rewrite adds_0 by (intros; cbn; lia). by destruct st. }
  cbn [length] in Hrefs.
  destruct (entry_found_ok in_ e ps st He Hin ltac:(lia)) as (p & v & c & Hp & Hc & E).
  rewrite E, bind_ret_l. set (st1 := Store _ _).
  assert (Hps : p ∉ ps).
  { intros Hps. rewrite Forall_forall in Hnew. destruct (Hnew p Hps) as (? & ? & E1 & _).
    by rewrite Hp in E1. }
  destruct (IH (ps ++ [p]) st1) as (qs & h & E1 & Hl & HN1 & Hnew1 & Hold & Hsame).
  - unfold st1. cbn. rewrite lookup_adds. by destruct Hin as [[] ->].
  - unfold st1. cbn [indexnodes]. destruct Hin as [[r u] Hin]. unfold refs_of in *.
    rewrite lookup_adds, Hin in *. cbn in *. unfold one. rewrite decide_True by done. lia.
  - apply NoDup_app. split_and!; [done|set_solver|apply NoDup_singleton].
  - apply Forall_app. split.
    + eapply Forall_impl; [exact Hnew|]. intros q (v' & c' & Hq & Hcq). exists v', c'.
      unfold st1. cbn. rewrite lookup_insert_ne; [done|]. intros ->. by rewrite Hp in Hq.
    + apply Forall_singleton. exists v, c. unfold st1. cbn. by rewrite lookup_insert_eq.
  - exists (p :: qs), h. rewrite <- app_assoc in HN1, Hnew1. cbn [app] in HN1, Hnew1.
    split_and!; [|cbn; lia|done|done| |].
    + rewrite E1, <- app_assoc. do 2 f_equal. unfold st1. cbn [indexnodes]. f_equal.
      rewrite adds_adds. apply adds_ext. intros q _. cbn [length]. lia.
    + constructor; [done|]. apply Forall_forall. intros q Hq. rewrite Forall_forall in Hold.
      specialize (Hold q Hq). unfold st1 in Hold. cbn in Hold. by apply lookup_insert_None in Hold as [? _].
    + intros q Hq. apply not_elem_of_cons in Hq as [Hne Hq]. rewrite (Hsame q Hq). unfold st1. cbn.
      by rewrite lookup_insert_ne.
Qed.

Lemma list_delete_all ps h : listing_list_delete (Some <$> ps) h = delete_all ps h.
Proof.
  revert h. induction ps as [|p ps IH]; intros h; [done|]. cbn.
  unfold listing_delete. destruct (obj_delete p h) as [[o h']| | |]; [|done..]. cbn. apply IH.
Qed.

Lemma each_NoDup ps p : NoDup ps -> p ∈ ps -> each ps p = 1%Z.
Proof.
  intros HN Hp. unfold each. apply list_elem_of_In, (count_occ_In Nat.eq_dec) in Hp.
  apply NoDup_ListNoDup in HN. pose proof (proj1 (NoDup_count_occ Nat.eq_dec ps) HN p). lia.
Qed.

Lemma one_more_chosen favs blocks cl ps best p :
  chosen favs blocks cl ps best -> p ∉ ps -> one_more best p = 0%Z.
Proof.
  destruct best as [b|]; [|done]. intros [Hb _] Hp. cbn. unfold one. case_decide; [|done]. by subst.
Qed.

(** The listings that were found, each with two references, can be offered. *)
Lemma found_offered h0 h ps :
  counts_ok (length ps + 3) h0 -> (Z.of_nat (length ps) + 4 < 2 ^ 32)%Z ->
  Forall (is_new h) ps -> (forall p, p ∉ ps -> h !! p = h0 !! p) ->
  offered (client_in h) h (length ps + 2) ps.
Proof.
  intros Hc Hn Hnew Hsame. split.
  - intros p [r' v'] Hp. destruct (decide (p ∈ ps)) as [Hps|Hps].
    + rewrite Forall_forall in Hnew. destruct (Hnew p Hps) as (v1 & c1 & E1 & _).
      rewrite E1 in Hp. injection Hp as <- <-. cbn beta iota. cbn [count]. lia.
    + rewrite Hsame in Hp by done. specialize (Hc p (r', v') Hp). cbn beta iota in *. lia.
  - eapply Forall_impl; [exact Hnew|]. intros p (v1 & c1 & E1 & E2). exists (RefCount 2), v1.
    unfold client_in. by rewrite E1, E2.
Qed.

Lemma best_alternative_ok li r v hash query es rc favs blocks random st :
  listings st !! li = Some (r, v) -> li_hash v = Some hash -> query hash = Ret (rc, es) ->
  is_Some (indexnodes st !! li_in v) ->
  (0 < refs_of (indexnodes st) (li_in v))%Z ->
  (refs_of (indexnodes st) (li_in v) + Z.of_nat (length es) + 2 < 2 ^ 32)%Z ->
  counts_ok (length es + 3) (listings st) -> Forall good_entry es ->
  exists best ps h ins, listing_tryget_best_alternative li query favs blocks random st =
      Ret (rc, best, Store h ins) /\ length ps = length es /\ NoDup ps /\
    Forall (fun p => listings st !! p = None /\ refs_of h p = (1 + one_more best p)%Z) ps /\
    (forall p, p ∉ ps -> h !! p = listings st !! p) /\
    (es = [] -> best = None) /\
    refs_of ins (li_in v) = (refs_of (indexnodes st) (li_in v) + 2 + Z.of_nat (length es))%Z.
Proof.
  intros Hli Hh Hq Hin Hr Hr2 Hc HF. unfold listing_tryget_best_alternative, obj_get.
  rewrite Hli. change (snd <$> deref (Some (r, v))) with (Ret v). rewrite bind_ret_l.
  set (n := li_in v) in *.
  pose proof (obj_copy_ok (indexnodes st) (fun _ => 0%Z) n Hin ltac:(lia)) as E.
  rewrite adds_0 in E by done. rewrite E, bind_ret_l. clear E.
  assert (H1 : one n n = 1%Z) by (unfold one; by rewrite decide_True).
  rewrite obj_copy_ok, bind_ret_l by (done || lia). rewrite Hh. cbn [deref]. rewrite bind_ret_l, Hq, bind_ret_l.
  set (ins := adds (indexnodes st) _).
  assert (Hins : is_Some (ins !! n) /\ refs_of ins n = (refs_of (indexnodes st) n + 2)%Z).
  { unfold ins, refs_of in *. rewrite lookup_adds. destruct Hin as [[r' u] ->]. cbn. rewrite H1. split; [eauto|lia]. }
  destruct Hins as [Hins Hrins].
  destruct (entries_found_ok n es [] (Store (listings st) ins) HF Hins)
    as (ps & h & E & Hl & HN & Hnew & Hold & Hsame); [cbn; lia|constructor|constructor|].
  cbn [fmap list_fmap app listings indexnodes] in *.
  change (listing_list_new 0) with (@nil (option nat)). rewrite E, bind_ret_l. cbn [listings indexnodes].
  pose proof (Hc li (r, v) Hli) as Hlr. cbn beta iota in Hlr.
  assert (Hoff : offered (client_in h) h (length ps + 2) ps)
    by (apply (found_offered (listings st)); [by rewrite Hl|lia|done..]).
  destruct (choose_ok favs blocks (client_in h) h ps random Hoff) as (best & Ech & Hch).
  rewrite Ech, bind_ret_l.
  assert (Hone : forall p, (0 <= one_more best p <= 1)%Z).
  { intros p. destruct best; cbn; [unfold one; case_decide|]; lia. }
  assert (Hrefs : forall p, p ∈ ps -> is_Some (h !! p) /\ refs_of h p = 2%Z).
  { intros p Hp. rewrite Forall_forall in Hnew. destruct (Hnew p Hp) as (v1 & c1 & E1 & _).
    unfold refs_of. rewrite E1. eauto. }
  rewrite list_delete_all, delete_all_ok, bind_ret_l.
  2:{ apply Forall_forall. intros p Hp. by apply Hrefs. }
  2:{ intros p Hp. rewrite each_NoDup by done. destruct (Hrefs p Hp) as [_ ->]. specialize (Hone p). lia. }
  eexists best, ps, _, _. split_and!; [done|done|done| | | |].
  - apply Forall_forall. intros p Hp. rewrite Forall_forall in Hold. split; [by apply Hold|].
    destruct (Hrefs p Hp) as [[[r' v'] E1] E2]. unfold refs_of in *. rewrite lookup_adds, E1 in *.
    cbn in *. rewrite each_NoDup by done. lia.
  - intros p Hp. rewrite lookup_adds, (one_more_chosen _ _ _ _ _ _ Hch Hp), each_none by done.
    rewrite <- Hsame by done. destruct (h !! p) as [[[c] v']|]; [|done]. cbn. by rewrite Z.add_0_r.
  - intros ->. destruct ps; [|done]. destruct best as [p|]; [exfalso|done].
    pose proof (one_more_chosen _ _ _ _ _ p Hch (not_elem_of_nil p)) as H0. cbn in H0. unfold one in H0. by rewrite decide_True in H0.
  - unfold refs_of at 1. rewrite lookup_adds. unfold refs_of at 1 in Hrins.
    destruct Hins as [[r' u] E1]. rewrite E1 in *. cbn in *. rewrite H1. lia.
Qed.

(** Finding the best alternative never frees what it finds: after it, every
    listing made from an entry of the page is still allocated, with a count of
    one, two for the one chosen (so its caller's [listing_delete] does not free
    it either), and the indexnode has one more reference for each and two for
    the query. Everything else is as before. *)
Theorem alternatives_are_leaked (li : nat) (r : ref_count) (v : listing)
    (hash : cstr) (query : cstr -> outcome (Z * list Filelist.entry))
    (es : list Filelist.entry) (rc : Z) (favs blocks : option (list cstr)) (random : nat) (st : store)
    (Hli : listings st !! li = Some (r, v)) (Hhash : li_hash v = Some hash)
    (Hquery : query hash = Ret (rc, es))
    (Hin : is_Some (indexnodes st !! li_in v))
    (Hrefs : (0 < refs_of (indexnodes st) (li_in v))%Z)
    (Hroom : (refs_of (indexnodes st) (li_in v) + Z.of_nat (length es) + 2 < 2 ^ 32)%Z)
    (Hcounts : counts_ok (length es + 3) (listings st)) (Hentries : Forall good_entry es) :
  exists best ps h ins, listing_tryget_best_alternative li query favs blocks random st =
      Ret (rc, best, Store h ins) /\ length ps = length es /\ NoDup ps /\
    Forall (fun p => listings st !! p = None /\ refs_of h p = (1 + one_more best p)%Z) ps /\
    (forall p, p ∉ ps -> h !! p = listings st !! p) /\
    refs_of ins (li_in v) = (refs_of (indexnodes st) (li_in v) + 2 + Z.of_nat (length es))%Z.
Proof.
  destruct (best_alternative_ok li r v hash query es rc favs blocks random st)
    as (best & ps & h & ins & ? & ? & ? & ? & ? & _ & ?); eauto 10.
Qed.

Definition demo_entry : Filelist.entry :=
  Filelist.Entry (Some (Str 0 (cs "d41d"))) (Some (Str 1 (cs "a.txt")))
    (Some (Str 2 (cs "file"))) 4096 2 (Some (Str 3 (cs "http://peer/a.txt")))
    (Some (Str 4 (cs "alice"))).
Definition demo_store : store :=
  Store {[ 0 := (RefCount 1, demo_listing (cs "bob")) ]} {[ 0 := (RefCount 1, tt) ]}.

Lemma alternatives_are_leaked_witness :
  exists best ps h ins, listing_tryget_best_alternative 0 (fun _ => Ret (0%Z, [demo_entry; demo_entry]))
      (Some [cs "alice"]) None 5 demo_store = Ret (0%Z, best, Store h ins) /\ length ps = 2 /\ NoDup ps /\
    Forall (fun p => listings demo_store !! p = None /\ refs_of h p = (1 + one_more best p)%Z) ps /\
    (forall p, p ∉ ps -> h !! p = listings demo_store !! p) /\ refs_of ins 0 = 5%Z.
Proof.
  apply (alternatives_are_leaked 0 (RefCount 1) (demo_listing (cs "bob")) (default [] (li_hash (demo_listing (cs "bob"))))
    (fun _ => Ret (0%Z, [demo_entry; demo_entry])) [demo_entry; demo_entry] 0
    (Some [cs "alice"]) None 5 demo_store).
  - reflexivity.
  - reflexivity.
  - reflexivity.
  - eexists. reflexivity.
  - reflexivity.
  - reflexivity.
  - unfold demo_store. cbn [listings]. apply map_Forall_singleton. split; reflexivity.
  - assert (good_entry demo_entry) as He.
    { split; [exists (cs "file"); split; [reflexivity|left; reflexivity]|eexists; reflexivity]. }
    constructor; [exact He|constructor; [exact He|constructor]].
Defined.
