(* ===== verification/Downloader.v ===== *)
(** * downloader.c: the thread that fills read requests

    One thread per open file: [downloader_chunk_add] queues a request (a chunk
    of the file and the buffer for it), the thread fetches the file from the
    first chunk's start, and [buf_consumer] copies each received buffer into
    the chunks, taking the next chunk from the queue when one is full, and
    stops the transfer to seek when the next chunk is elsewhere.

    Before it fetches the thread asks the indexnode for alternatives, and the
    fetch goes through [fetcher_fetch_body]: both are the program's own
    ([Listing], [Indexnode], [Fetcher]) over libcurl.

    The other threads are a schedule: each return of
    [pthread_cond_timedwait] comes with the requests added before it. *)
From S2P Require Import Counted Parsers Indexnode Listing Fetcher StringBuffer.
From S2P Require Import Prelude CLib Counted RefCount BinaryHeap ReadContext.

(** ** The code *)

Record chunk := Chunk {
  start : Z;                (* inclusive *)
  end_ : Z;                 (* exclusive *)
  bytes_used : Z;
  buf : nat * Z;            (* block, position in it *)
  ctxt : Z                  (* the cb is always chunk_done *)
}.

(** The arguments of a [downloader_chunk_add] call. *)
Record request := Request {
  req_start : Z;
  req_end : Z;
  req_buf : nat;
  req_ctxt : Z
}.

(** A return from [pthread_cond_timedwait]. *)
Record wait := Wait {
  arrivals : list request;
  wait_rc : Z
}.

Record downloader (Q : Type) := Downloader {
  de_size : Z;                     (* direntry_get_size(de) *)
  chunks : Q;
  download_offset : Z;
  current_chunk : option chunk;
  seek : bool;
  timed_out : bool;
  world : io;
  waits : list wait
}.
Arguments Downloader {Q} _ _ _ _ _ _ _ _.
Arguments de_size {Q} _.
Arguments chunks {Q} _.
Arguments download_offset {Q} _.
Arguments current_chunk {Q} _.
Arguments seek {Q} _.
Arguments timed_out {Q} _.
Arguments world {Q} _.
Arguments waits {Q} _.

Section Code.
Context {Q : Type} `{PriQ chunk Q}.
Implicit Types t : downloader Q.

Definition set_chunks t (q : Q) : downloader Q := Downloader (de_size t) q (download_offset t)
  (current_chunk t) (seek t) (timed_out t) (world t) (waits t).
Definition set_offset t o : downloader Q := Downloader (de_size t) (chunks t) o
  (current_chunk t) (seek t) (timed_out t) (world t) (waits t).
Definition set_current t c : downloader Q := Downloader (de_size t) (chunks t) (download_offset t)
  c (seek t) (timed_out t) (world t) (waits t).
Definition set_seek t b : downloader Q := Downloader (de_size t) (chunks t) (download_offset t)
  (current_chunk t) b (timed_out t) (world t) (waits t).
Definition set_timed_out t b : downloader Q := Downloader (de_size t) (chunks t) (download_offset t)
  (current_chunk t) (seek t) b (world t) (waits t).
Definition set_world t w : downloader Q := Downloader (de_size t) (chunks t) (download_offset t)
  (current_chunk t) (seek t) (timed_out t) w (waits t).
Definition set_waits t ws : downloader Q := Downloader (de_size t) (chunks t) (download_offset t)
  (current_chunk t) (seek t) (timed_out t) (world t) ws.

(** The thread keeps a reference to the direntry, [direntry_copy(de)]. *)
Definition downloader_new (size : Z) (w : io) (ws : list wait) : outcome (downloader Q) :=
  r ← add_ref (de_refs w);
  Ret (Downloader size pq_new 0 None false false
         (IO (blocks w) (ctxts w) r (replies w)) ws).

Definition chunk_new (start_ end_ : Z) (b : nat) (ctxt : Z) : chunk :=
  Chunk start_ end_ 0 (b, 0%Z) ctxt.

(** The queue's key is an [int]. *)
Definition downloader_chunk_add (r : request) t : outcome (downloader Q) :=
  _ ← c_assert (req_start r <=? req_end r)%Z;
  _ ← c_assert (req_start r <=? de_size t)%Z;
  _ ← c_assert (req_end r <=? de_size t)%Z;
  let c := chunk_new (req_start r) (req_end r) (req_buf r) (req_ctxt r) in
  q ← pq_add (chunks t) (i32 (start c)) c;
  Ret (set_chunks t q).

Definition arrive (rs : list request) t : outcome (downloader Q) :=
  foldl (fun m r => t ← m; downloader_chunk_add r t) (Ret t) rs.

(** [while (!trypop(&chunk) && rc == 0) rc = timedwait();] with what was popped
    last and the last [rc]. Running out of schedule is still waiting. *)
Fixpoint chunk_wait_loop (ws : list wait) (rc : Z) t
  : outcome (option chunk * Z * downloader Q) :=
  '(popped, q) ← pq_trypop (chunks t);
  let t := set_chunks t q in
  match popped with
  | Some (_, c) => Ret (Some c, rc, set_waits t ws)
  | None =>
      if (rc =? 0)%Z then
        match ws with
        | [] => Blocked
        | w :: ws => t ← arrive (arrivals w) t; chunk_wait_loop ws (wait_rc w) t
        end
      else Ret (None, rc, set_waits t ws)
  end.

Definition chunk_get_next t : outcome (option chunk * downloader Q) :=
  '(c, rc, t) ← chunk_wait_loop (waits t) 0 t;
  if (rc =? ETIMEDOUT)%Z then Ret (None, t)
  else if (rc =? 0)%Z then Ret (c, t)
  else AssertFail.

Definition signal_read_thread (c : chunk) (rc : Z) (size : Z) t : outcome (downloader Q) :=
  w ← chunk_done (ctxt c) rc size (world t);
  Ret (set_world t w).

(** [memcpy(chunk->buf, data, len)] *)
Definition copy_in (c : chunk) (data : list ascii) (len : Z) (w : io) : outcome io :=
  src ← mem_read data 0 (Z.to_nat len);
  b ← deref (blocks w !! fst (buf c));
  b' ← mem_write b (Z.to_nat (snd (buf c))) (Some <$> src);
  Ret (IO (<[fst (buf c) := b']> (blocks w)) (ctxts w) (de_refs w) (replies w)).

Definition advance (c : chunk) (n : Z) : chunk :=
  Chunk (start c + n) (end_ c) (bytes_used c + n) (fst (buf c), (snd (buf c) + n)%Z) (ctxt c).

(** The [while (1)] of [buf_consumer]: [buf_start], [buf_end] and [data] are
    the rest of the received buffer, [c] the chunk in hand. The result is
    [buf_consumer]'s own: 0 when the buffer is used up. *)
Fixpoint consume (fuel : nat) (buf_start buf_end : Z) (data : list ascii) (c : chunk) t
  : outcome (Z * downloader Q) :=
  match fuel with
  | 0 => Blocked
  | S fuel =>
      if (start c =? buf_start)%Z then
        let copy_len := u64 (Z.min (buf_end - buf_start) (end_ c - start c)) in
        w ← copy_in c data copy_len (world t);
        let t := set_world t w in
        let buf_start := (buf_start + copy_len)%Z in
        let data := drop (Z.to_nat copy_len) data in
        let c := advance c copy_len in
        if (buf_start =? buf_end)%Z && (start c =? end_ c)%Z then
          t ← signal_read_thread c 0 (bytes_used c) t;
          Ret (0%Z, set_offset (set_current t None) buf_end)
        else if (buf_start =? buf_end)%Z then
          Ret (0%Z, set_offset (set_current t (Some c)) buf_end)
        else if (start c =? end_ c)%Z then
          t ← signal_read_thread c 0 (bytes_used c) t;
          '(next, t) ← chunk_get_next t;
          match next with
          | None => Ret (1%Z, set_timed_out (set_current t None) true)
          | Some c => consume fuel buf_start buf_end data c t
          end
        else consume fuel buf_start buf_end data c t
      else Ret (1%Z, set_seek (set_current t (Some c)) true)
  end.

(** Every round but the last takes a chunk from the queue. *)
Definition chunks_to_come t : nat :=
  length (pq_items (chunks t)) + sum_list ((fun w => length (arrivals w)) <$> waits t).

Definition buf_consumer (data : list ascii) t : outcome (Z * downloader Q) :=
  '(c, t) ← (match current_chunk t with
             | Some c => Ret (Some c, t)
             | None => chunk_get_next t
             end);
  match c with
  | None => Ret (1%Z, set_timed_out (set_current t None) true)
  | Some c =>
      consume (S (S (chunks_to_come t))) (download_offset t)
        (download_offset t + Z.of_nat (length data)) data c t
  end.

(** What a pass of [downloaderead_main]'s loop meets outside the thread: the
    file's listing and the indexnode it came from, the configured alias and
    peers, what libcurl escapes a text to, what libxml calls for a part of a page,
    what [random] returns, and what the network does for a fetcher and a range. *)
Record round := Round {
  reference : nat;
  queried : indexnode;
  alias : cstr;
  favourites : option (list cstr);
  blocklist : option (list cstr);
  escape : cstr -> cstr;
  xmlParseChunk : list ascii -> list sax * Z;
  random : nat;
  network : fetcher -> option cstr -> transfer
}.

(** The text ["%" PRIu64 "-"], or nothing from the start of the file, when NULL
    is passed in place of it. *)
Definition range_of (start : Z) : outcome (option cstr) :=
  range_buffer ← string_buffer_new;
  range_buffer ← (if (start =? 0)%Z then Ret range_buffer
                  else string_buffer_printf range_buffer (print_u64 start ++ cs "-"));
  block ← string_buffer_commit range_buffer;
  Ret (if (start =? 0)%Z then None else Some (until_nul (default NUL <$> block))).

Section Fetching.
Context `{Curl}.

(** The query for the alternatives, over the network. *)
Definition query (r : round) (hash : cstr) : outcome (Z * list Filelist.entry) :=
  indexnode_tryget_alternatives (alias r) (escape r) (fun f => network r f None) (xmlParseChunk r)
    (queried r) hash.

(** The thread's own object, whose first member is no callback, is what
    [fetcher_fetch_body] registers. *)
Definition fetch_from (r : round) (c : chunk) (st : Listing.store) t
  : outcome (Z * Listing.store * downloader Q) :=
  range_str ← range_of (start c);
  let t := set_offset t (start c) in
  '(rc, li, st) ← listing_tryget_best_alternative (reference r) (query r)
    (favourites r) (blocklist r) (random r) st;
  if negb (rc =? 0)%Z then
    li ← deref li;
    href ← listing_get_href li (listings st);
    fetcher ← fetcher_new href (alias r);
    '(rc, t) ← fetcher_fetch_body (network r fetcher range_str) buf_consumer OtherObject t;
    h ← listing_delete li (listings st);
    Ret (rc, Listing.Store h (indexnodes st), t)
  else Ret (EBUSY, st, t).

(** The [do ... while (rc == 0)] loop. [rc] starts uninitialised; the break on
    a timeout leaves it as the last pass did. *)
Fixpoint main_loop (rs : list round) (first_time : bool) (rc : option Z) (st : Listing.store) t
  : outcome (option Z * Listing.store * downloader Q) :=
  t ← (if seek t then _ ← c_assert (bool_decide (is_Some (current_chunk t))); Ret (set_seek t false)
       else Ret t);
  _ ← c_assert (negb first_time || bool_decide (current_chunk t = None));
  '(c, t) ← (match current_chunk t with
             | Some c => Ret (Some c, t)
             | None => chunk_get_next t
             end);
  match c with
  | None => Ret (rc, st, set_current t None)
  | Some c =>
      match rs with
      | [] => Blocked
      | r :: rs =>
          '(rc, st, t) ← fetch_from r c st (set_current t (Some c));
          if (rc =? 0)%Z then main_loop rs false (Some rc) st t else Ret (Some rc, st, t)
      end
  end.

End Fetching.

Fixpoint chunks_empty (fuel : nat) (rc : Z) t : outcome (downloader Q) :=
  match fuel with
  | 0 => Blocked
  | S fuel =>
      '(popped, q) ← pq_trypop (chunks t);
      let t := set_chunks t q in
      match popped with
      | Some (_, c) => t ← signal_read_thread c rc 0 t; chunks_empty fuel rc t
      | None => Ret t
      end
  end.

(** *** The dump of the DEBUG build: what is printed of each chunk *)

Definition dump_chunk (c : chunk) : Z * Z * Z := (start c, bytes_used c, end_ c).

(** The lines, numbered from [i]. *)
Fixpoint dump_chunks_from (fuel : nat) (i : Z) t : outcome (list (Z * (Z * Z * Z)) * downloader Q) :=
  match fuel with
  | 0 => Blocked
  | S fuel =>
      '(popped, q) ← pq_trypop (chunks t);
      let t := set_chunks t q in
      match popped with
      | Some (_, c) =>
          '(l, t) ← dump_chunks_from fuel (u32 (i + 1)) t;
          Ret ((i, dump_chunk c) :: l, t)
      | None => Ret ([], t)
      end
  end.
Definition dump_chunks t : outcome (list (Z * (Z * Z * Z)) * downloader Q) :=
  dump_chunks_from (S (length (pq_items (chunks t)))) 0 t.

(** What is left is the memory the thread shared. *)
Definition thread_delete t : outcome io :=
  _ ← c_assert (bool_decide (current_chunk t = None));
  r ← drop_ref (de_refs (world t));
  _ ← pq_delete (chunks t);
  Ret (IO (blocks (world t)) (ctxts (world t)) r (replies (world t))).

(** After the loop, under the mutex; [rc] is read here. *)
Definition main_end (rc : option Z) t : outcome (downloader Q) :=
  rc ← deref rc;
  if (rc =? 0)%Z then
    _ ← c_assert (bool_decide (current_chunk t = None));
    '(popped, q) ← pq_trypop (chunks t);
    _ ← c_assert (match popped with None => true | Some _ => false end);
    Ret (set_chunks t q)
  else
    match current_chunk t with
    | Some c =>
        t ← signal_read_thread c rc 0 t;
        chunks_empty (S (length (pq_items (chunks t)))) rc (set_current t None)
    | None => Ret t
    end.

(** [late] are the requests added between the thread's first chunk and the lock
    after the loop. *)
Definition downloaderead_main `{Curl} (rs : list round) (late : list request) (st : Listing.store) t
  : outcome (io * Listing.store) :=
  '(rc, st, t) ← main_loop rs true None st t;
  t ← arrive late t;
  t ← main_end rc t;
  w ← thread_delete t;
  Ret (w, st).

End Code.

(** ** What a chunk stands for *)

(** The request a chunk came from, whatever part of it is already filled. *)
Definition origin (c : chunk) : Z := start c - bytes_used c.
Definition request_of (c : chunk) : request :=
  Request (origin c) (end_ c) (fst (buf c)) (ctxt c).
Definition chunk_of (r : request) : chunk :=
  chunk_new (req_start r) (req_end r) (req_buf r) (req_ctxt r).

Lemma request_of_chunk_of r : request_of (chunk_of r) = r.
Proof.
  destruct r. unfold request_of, chunk_of, origin. cbn. by rewrite Z.sub_0_r.
Qed.
Lemma request_of_advance c n : request_of (advance c n) = request_of c.
Proof. destruct c. unfold request_of, origin, advance. cbn. f_equal. lia. Qed.

(** [n] bytes of the file from position [a]. *)
Definition slice {A} (f : list A) (a n : Z) : list A :=
  take (Z.to_nat n) (drop (Z.to_nat a) f).

Lemma slice_length {A} (f : list A) a n :
  (0 <= a)%Z -> (0 <= n)%Z -> (a + n <= Z.of_nat (length f))%Z ->
  Z.of_nat (length (slice f a n)) = n.
Proof. intros. unfold slice. rewrite length_take, length_drop. lia. Qed.

Lemma slice_split {A} (f : list A) a n m :
  (0 <= a)%Z -> (0 <= n)%Z -> (0 <= m)%Z ->
  slice f a (n + m) = slice f a n ++ slice f (a + n) m.
Proof.
  intros. unfold slice. rewrite !Z2Nat.inj_add by lia.
  rewrite <- drop_drop, take_take_drop. done.
Qed.

Lemma slice_take {A} (f : list A) a n m :
  (0 <= n <= m)%Z -> take (Z.to_nat n) (slice f a m) = slice f a n.
Proof. intros. unfold slice. rewrite take_take. f_equal. lia. Qed.

Lemma slice_drop {A} (f : list A) a n m :
  (0 <= a)%Z -> (0 <= n <= m)%Z ->
  drop (Z.to_nat n) (slice f a m) = slice f (a + n) (m - n).
Proof.
  intros. unfold slice. rewrite Z2Nat.inj_add, <- drop_drop by lia.
  rewrite (take_drop_commute (drop (Z.to_nat a) f)).
  do 2 f_equal; lia.
Qed.

Section Delivery.
(** The file, and the FUSE request each read context answers. *)
Variable file : list ascii.
Variable req_of : Z -> Z.
(** References to the direntry held by others than the pending reads. *)
Variable held : nat.

Definition file_size : Z := Z.of_nat (length file).

(** The right answer to a request: exactly its bytes of the file. *)
Definition answer (r : request) : reply :=
  ReplyBuf (req_of (req_ctxt r)) (Some <$> slice file (req_start r) (req_end r - req_start r)).

(** A pending chunk: its context and buffer are allocated, the buffer has the
    requested size and its filled part holds the file's bytes. *)
Definition chunk_ok (w : io) (c : chunk) : Prop :=
  exists rc b,
    ctxts w !! ctxt c = Some rc /\ rc_buf rc = fst (buf c) /\ rc_req rc = req_of (ctxt c) /\
    blocks w !! fst (buf c) = Some b /\
    (0 <= bytes_used c)%Z /\ snd (buf c) = bytes_used c /\ (0 <= origin c)%Z /\
    (start c <= end_ c <= file_size)%Z /\
    Z.of_nat (length b) = (end_ c - origin c)%Z /\
    take (Z.to_nat (bytes_used c)) b = Some <$> slice file (origin c) (bytes_used c).

Definition refs (w : io) : Z :=
  match de_refs w with Some r => count r | None => 0 end.
Definition refs_ok (w : io) : Prop :=
  match de_refs w with Some r => live r | None => True end.

(** The memory behind the pending chunks [P]: each is well formed, no two share
    a context or a buffer, and the direntry has a reference for each. *)
Definition world_ok (w : io) (P : list chunk) : Prop :=
  Forall (chunk_ok w) P /\ NoDup (ctxt <$> P) /\ NoDup ((fun c => fst (buf c)) <$> P) /\
  refs_ok w /\ (Z.of_nat (held + length P) <= refs w)%Z.

Lemma world_ok_perm_1 w P P' : P ≡ₚ P' -> world_ok w P -> world_ok w P'.
Proof.
  intros HP (H1 & H2 & H3 & H4 & H5). split_and!; [by rewrite <- HP..|done|].
  by rewrite <- (Permutation_length HP).
Qed.
#[export] Instance world_ok_perm w : Proper ((≡ₚ) ==> iff) (world_ok w).
Proof. intros P P' HP. split; by apply world_ok_perm_1. Qed.

Lemma chunk_ok_other w w' c :
  ctxts w' !! ctxt c = ctxts w !! ctxt c ->
  blocks w' !! fst (buf c) = blocks w !! fst (buf c) ->
  chunk_ok w c -> chunk_ok w' c.
Proof. unfold chunk_ok. intros -> ->. done. Qed.

(** [memcpy] into the chunk in hand. *)
Lemma copy_in_ok w c P data n :
  world_ok w (c :: P) -> (0 <= n <= end_ c - start c)%Z ->
  take (Z.to_nat n) data = slice file (start c) n ->
  exists w', copy_in c data n w = Ret w' /\ world_ok w' (advance c n :: P)
    /\ replies w' = replies w.
Proof.
  intros (HF & HN & HB & HR & HL) Hn Hd. apply Forall_cons in HF as [Hc HF].
  destruct Hc as (rc & b & H1 & H2 & H3 & H4 & H5 & H6 & H7 & H8 & H9 & H10).
  unfold origin in *.
  assert (Hlen : Z.of_nat (length (slice file (start c) n)) = n)
    by (apply slice_length; unfold file_size in *; lia).
  unfold copy_in. rewrite mem_read_ok.
  2:{ rewrite <- Hd, length_take in Hlen. lia. }
  rewrite bind_ret_l, drop_0, Hd, H4. cbn [deref]. rewrite bind_ret_l, H6.
  rewrite mem_write_ok by (rewrite length_fmap; lia). rewrite bind_ret_l, length_fmap.
  eexists. split; [done|]. split; [|done].
  apply NoDup_cons in HN as [HN1 HN2]. apply NoDup_cons in HB as [HB1 HB2].
  split_and!; cbn [length fmap list_fmap advance ctxt buf fst];
    try (apply NoDup_cons; done); try done.
  constructor.
  - exists rc. eexists. unfold origin, advance.
    cbn [ctxt buf fst snd start end_ bytes_used blocks ctxts].
    rewrite lookup_insert_eq. split_and!; try done; try lia.
    + rewrite !length_app, length_fmap, length_take, length_drop. lia.
    + replace (start c + n - (bytes_used c + n))%Z with (start c - bytes_used c)%Z by lia.
      rewrite slice_split by lia. rewrite Z2Nat.inj_add, take_app_add', fmap_app by
        (rewrite ?length_take; lia).
      rewrite H10. f_equal. replace (start c - bytes_used c + bytes_used c)%Z with (start c) by lia.
      apply take_app_length'. rewrite length_fmap. lia.
  - rewrite Forall_forall in HF |- *. intros d Hd'. apply (chunk_ok_other w); [done| |by apply HF].
    cbn [blocks]. apply lookup_insert_ne. intros E. apply HB1. rewrite E.
    by apply (list_elem_of_fmap_2 (fun c => fst (buf c))).
Qed.

Lemma drop_ref_ok w :
  refs_ok w -> (0 < refs w)%Z ->
  exists r, drop_ref (de_refs w) = Ret r /\
    (forall w', de_refs w' = r -> refs_ok w' /\ refs w' = refs w - 1)%Z.
Proof.
  unfold refs_ok, refs. destruct (de_refs w) as [r|]; [|lia]. intros HL Hr.
  unfold drop_ref. cbn [deref]. rewrite bind_ret_l, dec_live, bind_ret_l by done.
  eexists. split; [done|]. intros w' ->.
  destruct (Z.eqb_spec (count r - 1) 0); [split; [done|lia]|].
  unfold live in *. cbn. lia.
Qed.

(** [chunk_done] on one of the pending chunks. *)
Lemma chunk_done_ok w c P rc size :
  world_ok w (c :: P) ->
  (rc = 0%Z -> (0 <= size <= end_ c - origin c)%Z) ->
  exists w' b, chunk_done (ctxt c) rc size w = Ret w' /\ world_ok w' P
    /\ blocks w !! fst (buf c) = Some b
    /\ replies w' = replies w ++
         [if (rc =? 0)%Z then ReplyBuf (req_of (ctxt c)) (take (Z.to_nat size) b)
          else ReplyErr (req_of (ctxt c)) rc].
Proof.
  intros (HF & HN & HB & HR & HL) Hs. apply Forall_cons in HF as [Hc HF].
  destruct Hc as (x & b & H1 & H2 & H3 & H4 & H5 & H6 & H7 & H8 & H9 & H10).
  cbn [length] in HL. destruct (drop_ref_ok w HR ltac:(lia)) as (r & Er & Hr).
  unfold chunk_done. rewrite H1. cbn [deref]. rewrite bind_ret_l, H2, H4. cbn [deref].
  rewrite bind_ret_l, H3, Er.
  assert (HW : world_ok (IO (delete (fst (buf c)) (blocks w)) (delete (ctxt c) (ctxts w)) r
    (replies w ++ [if (rc =? 0)%Z then ReplyBuf (req_of (ctxt c)) (take (Z.to_nat size) b)
          else ReplyErr (req_of (ctxt c)) rc])) P).
  { apply NoDup_cons in HN as [HN1 HN2]. apply NoDup_cons in HB as [HB1 HB2].
    split_and!; [|done|done|by apply Hr|rewrite (proj2 (Hr (IO _ _ r _) eq_refl)); lia].
    rewrite Forall_forall in HF |- *. intros d Hd'.
    apply (chunk_ok_other w); [..|by apply HF]; cbn [blocks ctxts]; apply lookup_delete_ne.
    - intros E. apply HN1. rewrite E. by apply list_elem_of_fmap_2.
    - intros E. apply HB1. rewrite E. by apply (list_elem_of_fmap_2 (fun c => fst (buf c))). }
  destruct (Z.eqb_spec rc 0) as [->|Hne].
  - rewrite mem_read_ok by lia. rewrite !bind_ret_l, drop_0. eauto 6.
  - rewrite !bind_ret_l. eauto 6.
Qed.

(** Signalling a full chunk gives the right answer. *)
Lemma signal_full_ok w c P :
  world_ok w (c :: P) -> start c = end_ c ->
  exists w', chunk_done (ctxt c) 0 (bytes_used c) w = Ret w' /\ world_ok w' P
    /\ replies w' = replies w ++ [answer (request_of c)].
Proof.
  intros HW He. pose proof HW as (HF & _). apply Forall_cons in HF as [Hc _].
  destruct Hc as (x & b & H1 & H2 & H3 & H4 & H5 & H6 & H7 & H8 & H9 & H10).
  destruct (chunk_done_ok w c P 0 (bytes_used c) HW) as (w' & b' & E & HW' & Hb & Hrep).
  { unfold origin in *. lia. }
  exists w'. split_and!; [done..|]. rewrite Hrep. simplify_eq. rewrite H10. cbn.
  unfold answer, request_of. cbn [req_ctxt req_start req_end].
  by replace (end_ c - origin c)%Z with (bytes_used c) by (unfold origin; lia).
Qed.

(** ** The queue and the schedule *)

Context {Q : Type} `{PriQ chunk Q}.
Implicit Types t : downloader Q.

Definition queued (q : Q) : list chunk := snd <$> pq_items q.
Definition arriving (ws : list wait) : list chunk :=
  chunk_of <$> concat (arrivals <$> ws).
(** The chunks that are or will be in the queue. *)
Definition to_come t : list chunk := queued (chunks t) ++ arriving (waits t).

Definition timed_out_wait (w : wait) : Prop := wait_rc w = ETIMEDOUT.
Instance timed_out_wait_dec w : Decision (timed_out_wait w).
Proof. unfold timed_out_wait. apply _. Defined.
(** [pthread_cond_timedwait] fails only with [ETIMEDOUT], and the deadline of
    [chunk_get_next] passes: at least [n] times in this schedule. *)
Definition fair (n : nat) (ws : list wait) : Prop :=
  Forall (fun w => wait_rc w = 0%Z \/ timed_out_wait w) ws /\
  n <= length (filter timed_out_wait ws).
(** No request is added just as a wait times out. *)
Definition on_time (ws : list wait) : Prop :=
  Forall (fun w => timed_out_wait w -> arrivals w = []) ws.

(** The bounds [downloader_chunk_add] asserts. *)
Definition in_file (size : Z) (r : request) : Prop :=
  (req_start r <= req_end r <= size)%Z.

Lemma arriving_cons w ws : arriving (w :: ws) = (chunk_of <$> arrivals w) ++ arriving ws.
Proof. unfold arriving. cbn [fmap list_fmap concat]. by rewrite <- fmap_app. Qed.

Lemma arriving_requests ws : request_of <$> arriving ws = concat (arrivals <$> ws).
Proof.
  unfold arriving. rewrite <- list_fmap_compose. rewrite (list_fmap_ext _ Datatypes.id), list_fmap_id; [done|].
  intros i r _. apply request_of_chunk_of.
Qed.

Lemma chunk_add_ok r t :
  pq_wf (chunks t) -> in_file (de_size t) r ->
  (Z.of_nat (length (queued (chunks t))) < pq_max)%Z ->
  exists q, downloader_chunk_add r t = Ret (set_chunks t q) /\ pq_wf q
    /\ queued q ≡ₚ chunk_of r :: queued (chunks t).
Proof.
  intros Hwf [Hr1 Hr2] Hm. unfold downloader_chunk_add, c_assert.
  rewrite !(proj2 (Z.leb_le _ _)) by lia. rewrite !bind_ret_l. cbn [start chunk_new].
  unfold queued in Hm. rewrite length_fmap in Hm.
  destruct (pq_add_law (chunks t) (i32 (req_start r)) (chunk_of r) Hwf Hm)
    as (q & E & Hwf' & HP).
  exists q. unfold chunk_of in *. rewrite E. split_and!; [done..|]. unfold queued. by rewrite HP.
Qed.

Lemma arrive_ok rs t :
  pq_wf (chunks t) -> Forall (in_file (de_size t)) rs ->
  (Z.of_nat (length (queued (chunks t)) + length rs) <= pq_max)%Z ->
  exists q, arrive rs t = Ret (set_chunks t q) /\ pq_wf q
    /\ queued q ≡ₚ (chunk_of <$> rs) ++ queued (chunks t).
Proof.
  unfold arrive. revert t. induction rs as [|r rs IH]; intros t Hwf HF Hm; cbn [foldl].
  { exists (chunks t). destruct t. done. }
  apply Forall_cons in HF as [Hr HF]. cbn [length] in Hm.
  destruct (chunk_add_ok r t Hwf Hr ltac:(lia)) as (q & E & Hwf1 & HP1).
  change (Ret t ≫= _) with (downloader_chunk_add r t). rewrite E.
  destruct (IH (set_chunks t q) Hwf1 HF) as (q' & E' & Hwf' & HP').
  { cbn. rewrite HP1. cbn. lia. }
  exists q'. split_and!; [done..|]. rewrite HP'. cbn [chunks set_chunks fmap list_fmap].
  rewrite HP1. by rewrite <- Permutation_middle.
Qed.

Lemma queued_pop q :
  pq_wf q -> (Z.of_nat (length (queued q)) <= pq_max)%Z ->
  (pq_trypop q = Ret (None, q) /\ queued q = []) \/
  (exists k c q', pq_trypop q = Ret (Some (k, c), q') /\ pq_wf q' /\ queued q ≡ₚ c :: queued q').
Proof.
  intros Hwf Hm. unfold queued in *. rewrite length_fmap in Hm.
  destruct (decide (pq_items q = [])) as [E|E].
  - left. by rewrite pq_pop_empty_law, E.
  - right. destruct (pq_pop_law q Hwf E Hm) as (k & c & q' & E' & Hwf' & HP & _).
    exists k, c, q'. rewrite HP. done.
Qed.

(** Waiting for a chunk ends with one taken from the queue, or a timeout. *)
Lemma chunk_wait_loop_ok n ws rc t :
  pq_wf (chunks t) -> Forall (in_file (de_size t)) (concat (arrivals <$> ws)) ->
  (Z.of_nat (length (queued (chunks t) ++ arriving ws)) <= pq_max)%Z ->
  (rc = 0%Z /\ fair (S n) ws \/ rc = ETIMEDOUT /\ fair n ws) ->
  exists oc rc' q ws',
    chunk_wait_loop ws rc t = Ret (oc, rc', set_waits (set_chunks t q) ws') /\ pq_wf q /\
    queued (chunks t) ++ arriving ws ≡ₚ option_list oc ++ queued q ++ arriving ws' /\
    (rc' = 0%Z /\ is_Some oc /\ fair (S n) ws' \/ rc' = ETIMEDOUT /\ fair n ws') /\
    Forall (in_file (de_size t)) (concat (arrivals <$> ws')) /\
    (on_time ws -> on_time ws' /\
      ((rc = ETIMEDOUT -> queued (chunks t) = []) -> rc' = ETIMEDOUT -> oc = None)) /\
    (oc = None -> queued q = []) /\ ws' `suffix_of` ws.
Proof.
  revert rc t. induction ws as [|w ws IH]; intros rc t Hwf Ha Hm Hrc;
    destruct (queued_pop (chunks t) Hwf) as [[E Hq]|(k & c & q & E & Hwf' & HP)];
    try (rewrite length_app in Hm; lia); cbn [chunk_wait_loop]; rewrite E, bind_ret_l.
  - destruct Hrc as [[-> [_ HE]]|[-> Hf]]; [cbn in HE; lia|]. cbn.
    exists None, ETIMEDOUT, (chunks t), []. split_and!; try done; [by right|..].
  - exists (Some c), rc, q, []. split_and!; try done.
    + by rewrite HP.
    + destruct Hrc as [[-> Hf]|[-> Hf]]; eauto.
    + intros Ho. split; [done|]. intros Hno Hr. rewrite Hno in HP by done.
      by apply Permutation_nil_cons in HP.
  - destruct Hrc as [[-> Hf]|[-> Hf]].
    + change (0 =? 0)%Z with true. cbn iota.
      cbn [fmap list_fmap concat] in Ha. apply Forall_app in Ha as [Haw Ha].
      rewrite arriving_cons, !length_app in Hm. rewrite Hq in Hm. cbn [length] in Hm.
      rewrite length_fmap in Hm.
      replace (set_chunks t (chunks t)) with t by by destruct t.
      destruct (arrive_ok (arrivals w) t Hwf Haw) as (q & Ea & Hwf1 & HP1).
      { rewrite Hq. cbn. lia. }
      rewrite Ea, bind_ret_l. destruct Hf as [HF HE]. apply Forall_cons in HF as [Hw HF].
      destruct (IH (wait_rc w) (set_chunks t q)) as (oc & rc' & q' & ws' & E' & Hwf' & HP' & HR & HA & HO & HE' & HX');
        [done|done| | |].
      { cbn [chunks set_chunks]. rewrite length_app, HP1, Hq, length_app, length_fmap. cbn. lia. }
      { rewrite filter_cons in HE. case_decide as Hto; [right|left].
        - split; [done|]. split; [done|]. cbn in HE. lia.
        - destruct Hw as [Hw|Hw]; [|done]. done. }
      exists oc, rc', q', ws'. cbn [chunks set_chunks de_size] in *.
      split_and!; [done|done| |done|done| |done|by apply suffix_cons_r].
      * rewrite Hq, arriving_cons, <- HP', HP1, Hq, app_nil_r. done.
      * intros Ho. apply Forall_cons in Ho as [How Ho]. destruct (HO Ho) as [Ho' HO'].
        split; [done|]. intros _. apply HO'. intros Hto. rewrite Hq, (How Hto) in HP1.
        cbn in HP1. by apply Permutation_nil_r in HP1.
    + cbn. replace (set_chunks t (chunks t)) with t by by destruct t.
      exists None, ETIMEDOUT, (chunks t), (w :: ws). split_and!; try done; [by right|..].
  - exists (Some c), rc, q, (w :: ws). split_and!; try done.
    + by rewrite HP.
    + destruct Hrc as [[-> Hf]|[-> Hf]]; eauto.
    + intros Ho. split; [done|]. intros Hno Hr. rewrite Hno in HP by done.
      by apply Permutation_nil_cons in HP.
Qed.

(** ** The thread's invariant *)

(** [P] are the chunks in hand; the others are queued or on their way. *)
Record thread_ok t (P : list chunk) : Prop := {
  ok_wf : pq_wf (chunks t);
  ok_size : de_size t = file_size;
  ok_room : (Z.of_nat (length (to_come t)) <= pq_max)%Z;
  ok_world : world_ok (world t) (P ++ to_come t)
}.

Definition in_hand t : list chunk := option_list (current_chunk t).
(** The requests not answered yet. *)
Definition pending t : list request := request_of <$> (in_hand t ++ to_come t).

(** What is left to do for them: the bytes to receive and an answer each. *)
Definition work_of (P : list chunk) : nat :=
  sum_list_with (fun c => S (Z.to_nat (end_ c - start c))) P.
Definition work t : nat := work_of (in_hand t ++ to_come t).

Lemma work_of_cons c P : work_of (c :: P) = S (Z.to_nat (end_ c - start c)) + work_of P.
Proof. done. Qed.
Lemma work_of_app P P' : work_of (P ++ P') = work_of P + work_of P'.
Proof. apply sum_list_with_app. Qed.
#[export] Instance work_of_perm : Proper ((≡ₚ) ==> eq) work_of.
Proof. apply sum_list_with_Permutation_proper. Qed.

Lemma world_ok_app_r w P P' : world_ok w (P ++ P') -> world_ok w P'.
Proof.
  intros (H1 & H2 & H3 & H4 & H5). rewrite fmap_app in H2. rewrite fmap_app in H3.
  apply Forall_app in H1 as [_ H1]. apply NoDup_app in H2 as (_ & _ & H2).
  apply NoDup_app in H3 as (_ & _ & H3). rewrite length_app in H5.
  split_and!; try done. lia.
Qed.

Lemma arriving_in_file w ws :
  Forall (chunk_ok w) (arriving ws) -> Forall (in_file file_size) (concat (arrivals <$> ws)).
Proof.
  unfold arriving. intros HF. rewrite Forall_fmap in HF. eapply Forall_impl; [exact HF|].
  intros r (rc & b & _ & _ & _ & _ & _ & _ & _ & H8 & _). exact H8.
Qed.

Lemma get_next_ok n t :
  thread_ok t [] -> fair (S n) (waits t) ->
  exists oc lost q ws, let t' := set_waits (set_chunks t q) ws in
    chunk_get_next t = Ret (oc, t') /\
    to_come t ≡ₚ option_list oc ++ lost ++ to_come t' /\
    thread_ok t' (option_list oc) /\ ws `suffix_of` waits t /\ fair n ws /\ (is_Some oc -> fair (S n) ws) /\
    (on_time (waits t) -> lost = [] /\ on_time ws /\ (oc = None -> queued q = [])) /\
    (is_Some oc -> lost = []).
Proof.
  intros [Hwf Hsz Hroom Hw] Hf. pose proof Hw as (HF & _).
  unfold to_come in HF. rewrite app_nil_l in HF. apply Forall_app in HF as [_ HF]. apply arriving_in_file in HF.
  rewrite <- Hsz in HF.
  destruct (chunk_wait_loop_ok n (waits t) 0 t Hwf HF Hroom (or_introl (conj eq_refl Hf)))
    as (oc & rc & q & ws & E & Hwf' & HP & HR & HA & HO & HE & HX).
  assert (Hroom' : forall oc' lost, to_come t ≡ₚ oc' ++ lost ++ (queued q ++ arriving ws) ->
    thread_ok (set_waits (set_chunks t q) ws) oc').
  { intros oc' lost HP'. split; cbn [chunks de_size world set_waits set_chunks]; try done.
    - unfold to_come at 1. cbn [chunks waits set_waits set_chunks].
      pose proof (Permutation_length HP') as HL. rewrite !length_app in HL.
      rewrite length_app. lia.
    - cbn [app] in Hw. rewrite HP' in Hw. apply (world_ok_app_r _ lost).
      unfold to_come. cbn [chunks waits set_waits set_chunks].
      by rewrite Permutation_app_swap_app. }
  unfold chunk_get_next. rewrite E, bind_ret_l.
  destruct HR as [(-> & [c ->] & Hf')|[-> Hf']].
  - exists (Some c), [], q, ws. cbn zeta. split_and!; [done|exact HP|by apply (Hroom' (option_list (Some c)) [])|done| | | |].
    + destruct Hf'. split; [done|lia].
    + done.
    + intros Ho. split; [done|]. split; [by apply HO|done].
    + done.
  - exists None, (option_list oc), q, ws. cbn zeta.
    split_and!; [done|exact HP|by apply (Hroom' [] (option_list oc))|done|done|by intros [??]| |by intros [??]].
    intros Ho. destruct (HO Ho) as [Ho' HN].
    rewrite HN by done. split; [done|]. split; [done|]. intros _. by apply HE, HN.
Qed.

(** What [buf_consumer] and its loop promise: [R] are the requests pending
    before, [reps] the replies given before. The requests answered got exactly
    their bytes; a request is lost only to a timed-out wait; at most [m] is left
    to do. *)
Record consumed (R : list request) (reps : list reply) (ws : list wait) (sk : bool)
    (n m : nat) (bend : Z) (rc : Z) t : Prop := {
  consumed_ok : thread_ok t (in_hand t);
  consumed_work : work t <= m;
  consumed_suffix : waits t `suffix_of` ws;
  consumed_replies : exists answered lost,
    R ≡ₚ answered ++ lost ++ pending t /\
    replies (world t) = reps ++ (answer <$> answered) /\
    (on_time ws -> lost = [] /\ on_time (waits t));
  consumed_rc : rc = 0%Z /\ download_offset t = bend /\ seek t = sk /\ fair (S n) (waits t)
    \/ rc = 1%Z /\ seek t = true /\ is_Some (current_chunk t) /\ fair (S n) (waits t)
    \/ rc = 1%Z /\ timed_out t = true /\ current_chunk t = None /\ seek t = sk /\ fair n (waits t)
}.

(** Answering [r] first. *)
Lemma consumed_cons r R reps ws ws' sk n m bend rc t :
  (on_time ws -> on_time ws') -> ws' `suffix_of` ws ->
  consumed R (reps ++ [answer r]) ws' sk n m bend rc t -> consumed (r :: R) reps ws sk n m bend rc t.
Proof.
  intros Hws Hx [H1 HM HX (an & lost & H2 & H3 & H4) H5]. split; [done|done|by etrans| |done].
  exists (r :: an), lost. split_and!.
  - by rewrite H2.
  - rewrite H3, fmap_cons, <- app_assoc. done.
  - auto.
Qed.

(** Losing requests to a timeout. *)
Lemma consumed_lost R L reps ws ws' sk n m bend rc t :
  (on_time ws -> L = [] /\ on_time ws') -> ws' `suffix_of` ws ->
  consumed R reps ws' sk n m bend rc t -> consumed (L ++ R) reps ws sk n m bend rc t.
Proof.
  intros Hws Hx [H1 HM HX (an & lost & H2 & H3 & H4) H5]. split; [done|done|by etrans| |done].
  exists an, (L ++ lost). split_and!; [|done|].
  - by rewrite H2, <- (app_assoc L), Permutation_app_swap_app.
  - intros Ho. destruct (Hws Ho) as [-> Ho']. by apply H4.
Qed.

Lemma consumed_perm R R' reps ws sk n m bend rc t :
  R ≡ₚ R' -> consumed R' reps ws sk n m bend rc t -> consumed R reps ws sk n m bend rc t.
Proof.
  intros HP [H1 HM HX (an & lost & H2 & H3 & H4) H5]. split; [done|done|done| |done].
  exists an, lost. by rewrite HP.
Qed.

(** The loop stops with everything still pending. *)
Lemma consumed_stop reps sk n m bend rc t :
  thread_ok t (in_hand t) -> replies (world t) = reps -> work t <= m ->
  (rc = 0%Z /\ download_offset t = bend /\ seek t = sk /\ fair (S n) (waits t)
    \/ rc = 1%Z /\ seek t = true /\ is_Some (current_chunk t) /\ fair (S n) (waits t)
    \/ rc = 1%Z /\ timed_out t = true /\ current_chunk t = None /\ seek t = sk /\ fair n (waits t)) ->
  consumed (pending t) reps (waits t) sk n m bend rc t.
Proof.
  intros H1 H2 HM H3. split; [done|done|done| |done]. exists [], []. split_and!; [done| |done].
  by rewrite app_nil_r.
Qed.

(** The chunk in hand is within the file. *)
Lemma in_hand_bounds w c P :
  world_ok w (c :: P) -> (start c <= end_ c <= file_size)%Z.
Proof. intros (HF & _). apply Forall_cons in HF as [(? & ? & Hc) _]. naive_solver. Qed.

(** After the chunk in hand was answered, the next one, or a timeout. *)
Lemma next_chunk_ok R0 n m t bend (k : chunk -> downloader Q -> outcome (Z * downloader Q)) :
  thread_ok t [] -> fair (S n) (waits t) -> request_of <$> to_come t ≡ₚ R0 ->
  work_of (to_come t) <= m ->
  (forall c t', thread_ok t' [c] -> fair (S n) (waits t') -> world t' = world t ->
     seek t' = seek t -> download_offset t' = download_offset t -> length (to_come t') < length (to_come t) ->
     work_of (c :: to_come t') <= m ->
     exists rc t'', k c t' = Ret (rc, t'') /\
       consumed (request_of <$> (c :: to_come t')) (replies (world t)) (waits t') (seek t) n m bend rc t'') ->
  exists rc t'',
    ('(next, t') ← chunk_get_next t;
     match next with
     | None => Ret (1%Z, set_timed_out (set_current t' None) true)
     | Some c => k c t'
     end) = Ret (rc, t'') /\ consumed R0 (replies (world t)) (waits t) (seek t) n m bend rc t''.
Proof.
  intros Hok Hf HR0 Hm Hk. destruct (get_next_ok n t Hok Hf) as (oc & lost & q & ws & Hg).
  cbn zeta in Hg. destruct Hg as (E & HP & Hok' & HX & Hfn & Hf' & Ho & _).
  rewrite E, bind_ret_l. pose proof (Permutation_length HP) as HL. rewrite !length_app in HL.
  rewrite HP, !work_of_app in Hm. set (t' := set_waits (set_chunks t q) ws) in *.
  assert (HR : R0 ≡ₚ (request_of <$> lost) ++ (request_of <$> (option_list oc ++ to_come t'))).
  { by rewrite <- HR0, HP, <- fmap_app, Permutation_app_swap_app. }
  assert (Hlost : on_time (waits t) -> request_of <$> lost = [] /\ on_time ws).
  { intros H1. destruct (Ho H1) as (-> & ? & _). done. }
  destruct oc as [c|].
  - destruct (Hk c t' Hok' (Hf' (ltac:(done))) eq_refl eq_refl eq_refl) as (rc & t'' & E' & HC).
    { cbn in HL. lia. }
    { cbn [option_list] in Hm. rewrite work_of_cons. unfold t' in *. cbn in Hm |- *. lia. }
    exists rc, t''. split; [done|]. eapply consumed_perm; [exact HR|].
    by eapply consumed_lost; [exact Hlost|exact HX|].
  - eexists _, _. split; [done|]. eapply consumed_perm; [exact HR|].
    eapply consumed_lost; [exact Hlost|exact HX|].
    apply (consumed_stop _ _ _ _ _ _ (set_timed_out (set_current t' None) true)); [|done| |].
    + destruct Hok'. by split.
    + change (work_of (to_come t') <= m). lia.
    + right. right. done.
Qed.

(** A buffer that the chunk in hand starts with is progress. *)
Definition progresses (o : Z) (data : list ascii) (c : chunk) (k m : nat) : Prop :=
  k <= m \/ start c = o /\ data <> [] /\ k <= S m.

(** A chunk that is full is answered with all its bytes. *)
Lemma full_answered t w1 c n P :
  replies w1 = replies (world t) -> world_ok w1 (advance c n :: P) -> start (advance c n) = end_ (advance c n) ->
  exists w2, signal_read_thread (advance c n) 0 (bytes_used (advance c n)) (set_world t w1) = Ret (set_world t w2)
    /\ world_ok w2 P /\ replies w2 = replies (world t) ++ [answer (request_of c)].
Proof.
  intros Hr1 HP He. destruct (signal_full_ok w1 _ P HP He) as (w2 & E2 & HW2 & Hr2).
  exists w2. unfold signal_read_thread. cbn [world set_world]. rewrite E2, bind_ret_l.
  rewrite Hr2, Hr1. by rewrite request_of_advance.
Qed.

(** The work left once a part of the data is in the chunk. *)
Lemma work_left bs data c P m n :
  progresses bs data c (work_of (c :: P)) m -> start c = bs ->
  (0 <= n <= Z.of_nat (length data))%Z -> (n <= end_ c - start c)%Z ->
  work_of P <= m /\ (n = Z.of_nat (length data) -> work_of (advance c n :: P) <= m).
Proof.
  intros Hprog Hs Hn Hn2. split.
  - destruct Hprog as [Hp|(_ & _ & Hp)]; rewrite work_of_cons in Hp; lia.
  - intros En. rewrite work_of_cons. change (start (advance c n)) with (start c + n)%Z.
    change (end_ (advance c n)) with (end_ c).
    destruct Hprog as [Hp|(_ & Hne & Hp)]; rewrite work_of_cons in Hp; [lia|].
    assert (0 < length data) by (destruct data; [done|cbn; lia]). lia.
Qed.

Lemma consume_ok fuel n0 m bs data c t :
  progresses bs data c (work_of (c :: to_come t)) m ->
  thread_ok t [c] -> fair (S n0) (waits t) -> length (to_come t) < fuel ->
  (0 <= bs)%Z -> (bs + Z.of_nat (length data) <= file_size)%Z -> (file_size < 2 ^ 63)%Z ->
  data = slice file bs (Z.of_nat (length data)) ->
  exists rc t', consume fuel bs (bs + Z.of_nat (length data)) data c t = Ret (rc, t') /\
    consumed (request_of <$> (c :: to_come t)) (replies (world t)) (waits t) (seek t) n0 m
      (bs + Z.of_nat (length data)) rc t'.
Proof.
  revert bs data c t. induction fuel as [|fuel IH]; intros bs data c t Hprog Hok Hf Hfuel H0 Hb Hmax Hd; [lia|].
  cbn [consume]. set (len := Z.of_nat (length data)) in *.
  pose proof Hok as [Hwf Hsz Hroom Hw]. cbn [app] in Hw. pose proof (in_hand_bounds _ _ _ Hw) as Hin.
  destruct (Z.eqb_spec (start c) bs) as [Hs|Hs].
  2:{ eexists _, _. split; [done|].
      apply (consumed_stop _ _ _ _ _ _ (set_seek (set_current t (Some c)) true)); [by split|done| |].
      - destruct Hprog as [Hp|[Hp _]]; [exact Hp|done].
      - right. left. cbn. eauto. }
  set (n := Z.min (bs + len - bs) (end_ c - start c)).
  assert (Hn : (0 <= n <= len /\ n <= end_ c - start c)%Z) by lia.
  rewrite u64_id by lia.
  destruct (copy_in_ok (world t) c (to_come t) data n Hw) as (w1 & E1 & HW1 & Hr1); [lia| |].
  { rewrite Hd, Hs. apply slice_take. lia. }
  rewrite E1, bind_ret_l.
  set (c1 := advance c n) in *.
  assert (Hc1 : (start c1 = start c + n /\ end_ c1 = end_ c)%Z) by done.
  destruct (work_left _ _ _ _ _ n Hprog Hs) as [Hleft Hleft1]; [lia..|]. fold c1 len in Hleft1.
  pose proof (fun P => full_answered t w1 c n P Hr1) as Hfull. fold c1 in Hfull.
  rewrite fmap_cons, <- (request_of_advance c n). fold c1.
  destruct (Z.eqb_spec (bs + n) (bs + len)) as [Hbe|Hbe];
    destruct (Z.eqb_spec (start c1) (end_ c1)) as [Hce|Hce]; cbn [andb].
  - destruct (Hfull _ HW1 Hce) as (w2 & E2 & HW2 & Hr2). rewrite E2, bind_ret_l.
    eexists _, _. split; [done|]. eapply consumed_cons; [done|done|].
    unfold c1. rewrite request_of_advance, <- Hr2.
    apply (consumed_stop _ _ _ _ _ _ (set_offset (set_current (set_world t w2) None) (bs + len)));
      [by split|done|exact Hleft|left; done].
  - eexists _, _. split; [done|]. rewrite <- Hr1.
    apply (consumed_stop _ _ _ _ _ _ (set_offset (set_current (set_world t w1) (Some c1)) (bs + len)));
      [by split|done|apply Hleft1; lia|left; done].
  - destruct (Hfull _ HW1 Hce) as (w2 & E2 & HW2 & Hr2). rewrite E2, bind_ret_l.
    destruct (next_chunk_ok (request_of <$> to_come t) n0 m (set_world t w2) (bs + len)
      (fun c t => consume fuel (bs + n) (bs + len) (drop (Z.to_nat n) data) c t))
      as (rc & t'' & E & HC); [by split|done|done|exact Hleft| |].
    + intros c' t' Hok' Hf' Hw' Hsk _ Hl' Hm'. cbn [to_come set_world chunks waits] in Hl'.
      assert (Hdl : (bs + len = bs + n + Z.of_nat (length (drop (Z.to_nat n) data)))%Z)
        by (rewrite length_drop; lia).
      destruct (IH (bs + n)%Z (drop (Z.to_nat n) data) c' t') as (rc & t'' & E & HC);
        try done; try lia.
      { by left. }
      { change (to_come (set_world t w2)) with (to_come t) in Hl'. lia. }
      { rewrite length_drop. rewrite Hd at 1. rewrite slice_drop by lia. f_equal. lia. }
      exists rc, t''. rewrite Hdl, <- Hw', <- Hsk. split; [exact E|]. exact HC.
    + exists rc, t''. split; [exact E|]. eapply consumed_cons; [done|done|].
      unfold c1. rewrite request_of_advance. rewrite <- Hr2. exact HC.
  - lia.
Qed.

Lemma chunks_to_come_length t : chunks_to_come t = length (to_come t).
Proof.
  unfold chunks_to_come, to_come, arriving, queued.
  rewrite length_app, !length_fmap. f_equal.
  induction (waits t) as [|w ws IH]; [done|]. cbn in *. rewrite length_app. lia.
Qed.

(** The next buffer of the file, at the download's offset. *)
Definition next_data (o : Z) (data : list ascii) : Prop :=
  (o + Z.of_nat (length data) <= file_size)%Z /\ data = slice file o (Z.of_nat (length data)).

Lemma buf_consumer_ok n m data t :
  (work t <= m \/ (exists c, current_chunk t = Some c /\ start c = download_offset t) /\
     data <> [] /\ work t <= S m) ->
  thread_ok t (in_hand t) -> fair (S n) (waits t) -> (0 <= download_offset t)%Z ->
  next_data (download_offset t) data -> (file_size < 2 ^ 63)%Z ->
  exists rc t', buf_consumer data t = Ret (rc, t') /\
    consumed (pending t) (replies (world t)) (waits t) (seek t) n m
      (download_offset t + Z.of_nat (length data)) rc t'.
Proof.
  intros Hp Hok Hf H0 [Hlen Hd] Hmax. unfold buf_consumer, pending, work, in_hand in *.
  destruct (current_chunk t) as [c|] eqn:Ec.
  - rewrite bind_ret_l. cbn [option_list app] in *.
    apply consume_ok; try done; [|rewrite chunks_to_come_length; lia].
    destruct Hp as [Hp|((? & [= <-] & ?) & ? & ?)]; [by left|by right].
  - cbn [option_list app] in *. destruct Hp as [Hp|[(? & [=] & _) _]].
    apply next_chunk_ok; [done..|].
    intros c t' Hok' Hf' Hw Hs Ho Hl Hm.
    rewrite Ho, <- Hw, <- Hs. apply consume_ok; try done; [by left|].
    rewrite chunks_to_come_length. lia.
Qed.

(** With a chunk queued there is no wait. *)
Lemma get_next_queued t :
  pq_wf (chunks t) -> queued (chunks t) <> [] ->
  (Z.of_nat (length (queued (chunks t))) <= pq_max)%Z ->
  exists c q, chunk_get_next t = Ret (Some c, set_chunks t q) /\ pq_wf q /\
    queued (chunks t) ≡ₚ c :: queued q.
Proof.
  intros Hwf Hne Hm. destruct (queued_pop (chunks t) Hwf Hm) as [[_ Hq]|(k & c & q & E & Hwf' & HP)];
    [done|].
  exists c, q. split_and!; [|done..]. unfold chunk_get_next.
  destruct (waits t) eqn:Ew; cbn [chunk_wait_loop]; rewrite E, !bind_ret_l; cbn;
    rewrite <- Ew; by destruct t.
Qed.

(** ** The thread's end *)

(** The answer to a request that failed. *)
Definition failure (rc : Z) (r : request) : reply := ReplyErr (req_of (req_ctxt r)) rc.

Lemma signal_error_ok w c P rc t :
  rc <> 0%Z -> world t = w -> world_ok w (c :: P) ->
  exists w', signal_read_thread c rc 0 t = Ret (set_world t w') /\ world_ok w' P
    /\ replies w' = replies w ++ [failure rc (request_of c)].
Proof.
  intros Hrc <- Hw. destruct (chunk_done_ok (world t) c P rc 0 Hw) as (w' & b & E & Hw' & _ & Hr).
  { done. }
  exists w'. unfold signal_read_thread. rewrite E, bind_ret_l. split_and!; [done..|].
  by rewrite Hr, (proj2 (Z.eqb_neq _ _) Hrc).
Qed.

Lemma chunks_empty_ok fuel rc t P :
  rc <> 0%Z -> pq_wf (chunks t) -> length (queued (chunks t)) < fuel ->
  (Z.of_nat (length (queued (chunks t))) <= pq_max)%Z ->
  world_ok (world t) (queued (chunks t) ++ P) ->
  exists failed t', chunks_empty fuel rc t = Ret t' /\ failed ≡ₚ queued (chunks t) /\
    world_ok (world t') P /\ pq_wf (chunks t') /\ queued (chunks t') = [] /\
    current_chunk t' = current_chunk t /\
    replies (world t') = replies (world t) ++ (failure rc <$> (request_of <$> failed)).
Proof.
  intros Hrc. revert t. induction fuel as [|fuel IH]; intros t Hwf Hf Hm Hw; [lia|]. cbn [chunks_empty].
  destruct (queued_pop (chunks t) Hwf Hm) as [[E Hq]|(k & c & q & E & Hwf' & HP)];
    rewrite E, bind_ret_l.
  - exists [], t. replace (set_chunks t (chunks t)) with t by by destruct t.
    rewrite Hq in *. by rewrite app_nil_r.
  - pose proof (Permutation_length HP) as HL. cbn [length] in HL.
    rewrite HP in Hw. cbn [app] in Hw.
    destruct (signal_error_ok _ c _ rc (set_chunks t q) Hrc eq_refl Hw) as (w' & E' & Hw' & Hr).
    rewrite E', bind_ret_l.
    destruct (IH (set_world (set_chunks t q) w')) as (failed & t' & E2 & HP2 & H1 & H2 & H3 & H4 & H5);
      cbn [chunks set_world set_chunks world] in *; try done; try lia.
    exists (c :: failed), t'. split_and!; [done| |done..|].
    + by rewrite HP2, HP.
    + rewrite H5, Hr, <- app_assoc. done.
Qed.

Lemma thread_delete_ok t P :
  0 < held -> pq_wf (chunks t) -> queued (chunks t) = [] -> current_chunk t = None ->
  world_ok (world t) P ->
  exists w, thread_delete t = Ret w /\ replies w = replies (world t) /\ blocks w = blocks (world t).
Proof.
  intros Hh Hwf Hq Hc (_ & _ & _ & Hro & Hl). unfold thread_delete.
  rewrite bool_decide_true by done. cbn [c_assert]. rewrite bind_ret_l.
  destruct (drop_ref_ok (world t) Hro ltac:(lia)) as (r & E & _). rewrite E, bind_ret_l.
  rewrite pq_delete_law by done. unfold queued in Hq. apply fmap_nil_inv in Hq. rewrite Hq.
  cbn. eauto.
Qed.

(** The thread's end with a chunk in hand: everything queued fails. *)
Lemma main_end_fails e t :
  thread_ok t (in_hand t) -> e <> 0%Z -> is_Some (current_chunk t) -> 0 < held ->
  exists w failed, (t ← main_end (Some e) t; thread_delete t) = Ret w /\
    failed ≡ₚ request_of <$> (in_hand t ++ queued (chunks t)) /\
    replies w = replies (world t) ++ (failure e <$> failed).
Proof.
  intros [K1 K2 K3 K4] He [c Hc] Hh. unfold main_end, in_hand in *. cbn [deref]. rewrite bind_ret_l.
  rewrite (proj2 (Z.eqb_neq _ _) He), Hc in *. cbn [option_list app] in *.
  unfold to_come in *. rewrite length_app in K3.
  destruct (signal_error_ok _ c _ e t He eq_refl K4) as (w' & E' & Hw' & Hr). rewrite E', bind_ret_l.
  destruct (chunks_empty_ok (S (length (pq_items (chunks (set_world t w'))))) e
    (set_current (set_world t w') None) (arriving (waits t)) He)
    as (failed & t' & E2 & HP2 & H7 & H8 & H9 & H10 & H11);
    cbn [chunks set_world set_current world] in *; try done; try lia.
  { unfold queued. rewrite length_fmap. lia. }
  rewrite E2, bind_ret_l.
  destruct (thread_delete_ok t' _ Hh H8 H9 H10 H7) as (w2 & E3 & Hr3 & _).
  exists w2, (request_of <$> (c :: failed)). split_and!; [done| |].
  - apply fmap_Permutation. by rewrite HP2.
  - rewrite Hr3, H11, Hr, <- !app_assoc. done.
Qed.

End Delivery.

(** ** Properties *)

(** C3: [buf_consumer], given the next bytes of the file at the download's
    offset, whatever chunks are in hand, queued or still to be added, returns:
    every request it answers gets exactly its own bytes of the file, every
    other request stays pending with what it has received so far (none is
    lost unless it is added just as a wait times out), and it returns 0 with
    the offset advanced if it used the buffer up, or 1 with [seek] set and the
    chunk to seek to in hand, or 1 with [timed_out] set. Nothing received is
    given back, and a buffer that the chunk in hand starts with leaves strictly
    less to do. *)
Theorem buf_consumer_delivers {Q} `{PriQ chunk Q} (file : list ascii) (req_of : Z -> Z)
    (held n : nat) (data : list ascii) (t : downloader Q)
    (Hok : thread_ok file req_of held t (in_hand t)) (Hfair : fair (S n) (waits t))
    (Hoffset : (0 <= download_offset t)%Z) (Hdata : next_data file (download_offset t) data)
    (Hfile : (Z.of_nat (length file) < 2 ^ 63)%Z) :
  exists rc t', buf_consumer data t = Ret (rc, t') /\
    consumed file req_of held (pending t) (replies (world t)) (waits t) (seek t) n
      (if decide (start <$> current_chunk t = Some (download_offset t) /\ data <> [])
       then pred (work t) else work t)
      (download_offset t + Z.of_nat (length data)) rc t'.
Proof.
  apply buf_consumer_ok; [|done..]. case_decide as Hd; [right|by left].
  destruct Hd as [Hs Hne]. apply fmap_Some in Hs as (c & Hc & Hs). split_and!; [by eauto|done|lia].
Qed.

Definition demo_file : list ascii := cs "abcdefgh".

(** Two read requests for its halves. *)
Definition demo_io : io :=
  IO {[ 0 := replicate 4 None; 1 := replicate 4 None ]}
     {[ 100%Z := ReadContext 7 4 0; 101%Z := ReadContext 8 4 1 ]}
     (Some (RefCount 4)) [].
Definition demo_req (ctxt : Z) : Z := if decide (ctxt = 100%Z) then 7%Z else 8%Z.
Definition demo_chunks : binary_heap chunk :=
  Heap 2 2 [Some (Kvp 0 (chunk_of (Request 0 4 0 100))); Some (Kvp 4 (chunk_of (Request 4 8 1 101)))].
Definition demo_waits : list wait := [Wait [] ETIMEDOUT; Wait [] ETIMEDOUT].
Definition demo_thread : downloader (binary_heap chunk) :=
  Downloader 8 demo_chunks 0 None false false demo_io demo_waits.

Lemma demo_heap_wf : heap_wf demo_chunks.
Proof.
  exists [Kvp 0 (chunk_of (Request 0 4 0 100)); Kvp 4 (chunk_of (Request 4 8 1 101))], [].
  split_and!; [done..|]. intros [|[|i]] Hi c p Hc Hp; cbn in *; simplify_eq; cbn; lia.
Qed.

Lemma demo_thread_ok : thread_ok demo_file demo_req 2 demo_thread [].
Proof.
  split; [exact demo_heap_wf|done|vm_compute; discriminate|].
  change ([] ++ to_come demo_thread) with
    [chunk_of (Request 0 4 0 100); chunk_of (Request 4 8 1 101)].
  split_and!.
  - repeat constructor.
    + exists (ReadContext 7 4 0), (replicate 4 None). split_and!; vm_compute; done.
    + exists (ReadContext 8 4 1), (replicate 4 None). split_and!; vm_compute; done.
  - apply (bool_decide_unpack _). by vm_compute.
  - apply (bool_decide_unpack _). by vm_compute.
  - vm_compute. done.
  - vm_compute. done.
Qed.

Lemma demo_fair : fair 2 demo_waits.
Proof. split; [repeat constructor; by right|vm_compute; lia]. Qed.

Lemma buf_consumer_delivers_witness :
  exists rc t', buf_consumer (cs "abcdef") demo_thread = Ret (rc, t') /\
    consumed demo_file demo_req 2 (pending demo_thread) (replies (world demo_thread))
      (waits demo_thread) (seek demo_thread) 1 (work demo_thread) 6 rc t'.
Proof.
  apply (buf_consumer_delivers demo_file demo_req 2 1 (cs "abcdef") demo_thread).
  - exact demo_thread_ok.
  - exact demo_fair.
  - vm_compute. discriminate.
  - split; [vm_compute; discriminate|vm_compute; reflexivity].
  - vm_compute. reflexivity.
Defined.

(** ** The thread's session *)

Section Session.
Context `{Curl} {Q : Type} `{PriQ chunk Q}.

(** What the network sends for the query of a hash. *)
Definition alternatives_page (r : round) (hash : cstr) : outcome transfer :=
  page (alias r) (escape r) (fun f => network r f None) (pin (queried r)) (cs "alternatives") hash.

(** An answer without a body that is no error either. *)
Definition empty_page (tr : transfer) : Prop :=
  pieces tr = [] /\ process_curl_response (response tr) (code tr) = 0%Z.
#[export] Instance empty_page_dec tr : Decision (empty_page tr).
Proof. unfold empty_page. apply _. Defined.

(** The file's listing has a hash and an indexnode. *)
Record listed (r : round) (st : Listing.store) (i : nat) (hash : cstr) : Prop := {
  listed_value : exists n v, listings st !! reference r = Some (n, v) /\ li_in v = i /\ li_hash v = Some hash;
  listed_in : is_Some (indexnodes st !! i) /\ (0 < refs_of (indexnodes st) i)%Z /\
    (refs_of (indexnodes st) i + 2 < 2 ^ 32)%Z
}.

Lemma query_outcome r hash tr :
  alternatives_page r hash = Ret tr ->
  query r hash = match pieces tr with
                 | [] => Ret (process_curl_response (response tr) (code tr), [])
                 | _ :: _ => Undef
                 end.
Proof.
  intros Hp. unfold query, indexnode_tryget_alternatives.
  rewrite (fetch_page_outcome _ _ _ _ _ _ _ _ _ tr Hp). by destruct (pieces tr).
Qed.

(** The indexnode keeps the two references of a query that finds nothing. *)
Lemma nothing_found r st i hash rc :
  listed r st i hash -> query r hash = Ret (rc, []) ->
  exists ins, listing_tryget_best_alternative (reference r) (query r) (favourites r) (blocklist r) (random r) st =
      Ret (rc, None, Listing.Store (listings st) ins) /\
    refs_of ins i = (refs_of (indexnodes st) i + 2)%Z.
Proof.
  intros [(n & v & Hv & Hi & Hh) (Hs & H1 & H2)] Hq. unfold listing_tryget_best_alternative, obj_get.
  rewrite Hv. change (snd <$> deref (Some (n, v))) with (Ret v). rewrite bind_ret_l, Hi.
  assert (Hone : one i i = 1%Z) by (unfold one; by rewrite decide_True).
  pose proof (obj_copy_ok (indexnodes st) (fun _ => 0%Z) i Hs ltac:(lia)) as E.
  rewrite adds_0 in E by done. rewrite E, bind_ret_l.
  rewrite obj_copy_ok, bind_ret_l by (done || lia). rewrite Hh. cbn [deref].
  rewrite bind_ret_l, Hq, bind_ret_l. cbn [entries_found]. rewrite bind_ret_l. eexists. split; [reflexivity|].
  cbn [Listing.indexnodes]. destruct Hs as [[c u] Hs]. unfold refs_of. rewrite lookup_adds, Hs. cbn. lia.
Qed.

Lemma range_of_ok start :
  range_of start = Ret (if (start =? 0)%Z then None else Some (print_u64 start ++ cs "-")).
Proof.
  unfold range_of, string_buffer_new. destruct (from_chars_ok []) as (sb & -> & Hsb). rewrite bind_ret_l.
  destruct (start =? 0)%Z; [by rewrite bind_ret_l, (commit_ok _ _ Hsb), bind_ret_l|].
  destruct (print_u64_chars start) as [Hn Hl].
  destruct (printf_ok sb [] (print_u64 start ++ cs "-") Hsb) as (sb' & -> & H').
  { rewrite length_app. unfold INT_MAX. cbn. lia. }
  rewrite bind_ret_l, (commit_ok _ _ H'), bind_ret_l, stored_text; [done|].
  apply no_nul_app. split; [done|]. by repeat constructor.
Qed.

(** A pass ends the loop, or the program. *)
Lemma fetch_from_outcome r c st (t : downloader Q) i hash tr :
  listed r st i hash -> alternatives_page r hash = Ret tr ->
  if decide (empty_page tr) then
    exists ins, fetch_from r c st t = Ret (EBUSY, Listing.Store (listings st) ins, set_offset t (start c)) /\
      refs_of ins i = (refs_of (indexnodes st) i + 2)%Z
  else fetch_from r c st t = Undef.
Proof.
  intros Hl Hp. pose proof (query_outcome r hash tr Hp) as Hq. unfold fetch_from.
  rewrite range_of_ok, bind_ret_l. cbn zeta. destruct (pieces tr) as [|d ds] eqn:Ep.
  - destruct (nothing_found r st i hash _ Hl Hq) as (ins & E & Hr).
    destruct (decide _) as [[_ Hz]|Hne]; rewrite E, bind_ret_l.
    + rewrite Hz. change (0 =? 0)%Z with true. by exists ins.
    + rewrite (proj2 (Z.eqb_neq _ _)); [done|]. intros E0. by apply Hne.
  - destruct (decide _) as [[E0 _]|_]; [by rewrite Ep in E0|].
    destruct Hl as [(n & v & Hv & Hi & Hh) (Hs & H1 & H2)]. unfold listing_tryget_best_alternative, obj_get.
    rewrite Hv. change (snd <$> deref (Some (n, v))) with (Ret v). rewrite bind_ret_l, Hi.
    assert (Hone : one i i = 1%Z) by (unfold one; by rewrite decide_True).
    pose proof (obj_copy_ok (indexnodes st) (fun _ => 0%Z) i Hs ltac:(lia)) as E.
    rewrite adds_0 in E by done. rewrite E, bind_ret_l.
    rewrite obj_copy_ok, bind_ret_l by (done || lia). rewrite Hh. cbn [deref]. by rewrite bind_ret_l, Hq.
Qed.

Lemma main_loop_start r rs st (t t1 : downloader Q) oc :
  current_chunk t = None /\ seek t = false -> chunk_get_next t = Ret (oc, t1) ->
  main_loop (r :: rs) true None st t =
    match oc with
    | None => Ret (None, st, set_current t1 None)
    | Some c =>
        '(rc, st, t) ← fetch_from r c st (set_current t1 (Some c));
        if (rc =? 0)%Z then main_loop rs false (Some rc) st t else Ret (Some rc, st, t)
    end.
Proof.
  intros [Hc Hk] E. cbn [main_loop]. rewrite Hk, bind_ret_l, Hc, bool_decide_true by done.
  cbn [negb orb c_assert]. by rewrite bind_ret_l, E, bind_ret_l.
Qed.

(** The thread, once it has a chunk. *)
Lemma session_with_chunk file req_of held r rs late st (t t1 : downloader Q) c i hash tr :
  current_chunk t = None /\ seek t = false -> chunk_get_next t = Ret (Some c, t1) ->
  thread_ok file req_of held t1 (c :: (chunk_of <$> late)) ->
  (Z.of_nat (length (to_come t1) + length late) <= pq_max)%Z -> 0 < held ->
  listed r st i hash -> alternatives_page r hash = Ret tr ->
  if decide (empty_page tr) then
    exists w failed ins, downloaderead_main (r :: rs) late st t = Ret (w, Listing.Store (listings st) ins) /\
      failed ≡ₚ request_of c :: (request_of <$> queued (chunks t1)) ++ late /\
      replies w = replies (world t1) ++ (failure req_of EBUSY <$> failed) /\
      refs_of ins i = (refs_of (indexnodes st) i + 2)%Z
  else downloaderead_main (r :: rs) late st t = Undef.
Proof.
  intros Hnew E [K1 K2 K3 K4] Hroom Hh Hl Hp. unfold downloaderead_main.
  rewrite (main_loop_start r rs st t t1 _ Hnew E).
  pose proof (fetch_from_outcome r c st (set_current t1 (Some c)) i hash tr Hl Hp) as HF.
  destruct (decide (empty_page tr)); [|by rewrite HF].
  destruct HF as (ins & -> & Hr). rewrite !bind_ret_l. change (EBUSY =? 0)%Z with false. cbn iota. rewrite !bind_ret_l.
  set (t2 := set_offset _ _). unfold to_come in Hroom, K4. rewrite length_app in Hroom.
  destruct (arrive_ok late t2 K1) as (q & Ea & Hq & HP).
  { cbn [de_size t2 set_offset set_current]. rewrite K2. destruct K4 as (HF & _). cbn [app] in HF.
    apply Forall_cons in HF as [_ HF]. apply Forall_app in HF as [HF _]. rewrite Forall_fmap in HF.
    eapply Forall_impl; [exact HF|]. intros x (? & ? & _ & _ & _ & _ & _ & _ & _ & H8 & _). exact H8. }
  { cbn [chunks t2 set_offset set_current]. lia. }
  rewrite Ea, bind_ret_l. cbn [chunks t2 set_offset set_current] in HP.
  assert (Hin : queued q ++ arriving (waits t1) ≡ₚ (chunk_of <$> late) ++ queued (chunks t1) ++ arriving (waits t1))
    by (by rewrite HP, <- app_assoc).
  destruct (main_end_fails file req_of held EBUSY (set_chunks t2 q)) as (w & fa & E2 & HP2 & Hrep); [|done|done|done|].
  { split; [done|done| |]; unfold in_hand, to_come;
      cbn [current_chunk chunks waits world t2 set_chunks set_offset set_current option_list].
    - rewrite Hin, !length_app, length_fmap. lia.
    - cbn [app] in K4 |- *. rewrite Hin. exact K4. }
  destruct (main_end (Some EBUSY) (set_chunks t2 q)) as [t3| | |]; try discriminate. rewrite bind_ret_l in E2.
  rewrite bind_ret_l, E2, bind_ret_l. exists w, fa, ins. split_and!; [done| |exact Hrep|exact Hr].
  change (in_hand (set_chunks t2 q)) with [c] in HP2. change (chunks (set_chunks t2 q)) with q in HP2.
  rewrite HP2, HP. cbn [app]. rewrite fmap_cons, fmap_app, <- (list_fmap_compose chunk_of request_of).
  rewrite (list_fmap_ext (request_of ∘ chunk_of) Datatypes.id late), list_fmap_id by (intros; apply request_of_chunk_of).
  by rewrite (Permutation_app_comm late).
Qed.

End Session.

(** C4: the thread's whole life, with the program's own query for alternatives
    and its own fetch: it makes at most one pass. If the first wait ends without
    a chunk, [rc] is read uninitialised. Otherwise the indexnode is asked for
    alternatives; an answer with an empty body and no error is taken for a
    failure (0 is success, and the branch that gives up), and every request that
    came, in hand, queued or [late], is answered exactly once, with EBUSY, in a
    run without a failed assertion that leaves the indexnode two references too
    many; any other answer, with a body or with an error, is undefined behaviour.
    So no request is ever answered with bytes of its file. *)
Theorem downloader_session `{Curl} {Q} `{PriQ chunk Q} (file : list ascii) (req_of : Z -> Z)
    (held : nat) (r : round) (rs : list round) (late : list request) (st : Listing.store)
    (t : downloader Q) (i : nat) (hash : cstr) (tr : transfer)
    (Hok : thread_ok file req_of held t (chunk_of <$> late))
    (Hnew : current_chunk t = None /\ seek t = false) (Hheld : 0 < held) (Hfair : fair 1 (waits t))
    (Hroom : (Z.of_nat (length (to_come t) + length late) <= pq_max)%Z)
    (Hlisted : listed r st i hash) (Hpage : alternatives_page r hash = Ret tr) :
  exists first t1, chunk_get_next t = Ret (first, t1) /\
    match first with
    | None => downloaderead_main (r :: rs) late st t = Undef
    | Some c =>
        request_of <$> to_come t ≡ₚ
          request_of c :: (request_of <$> queued (chunks t1)) ++ concat (arrivals <$> waits t1) /\
        if decide (empty_page tr) then
          exists w failed ins, downloaderead_main (r :: rs) late st t = Ret (w, Listing.Store (listings st) ins) /\
            failed ≡ₚ request_of c :: (request_of <$> queued (chunks t1)) ++ late /\
            replies w = replies (world t) ++ (failure req_of EBUSY <$> failed) /\
            refs_of ins i = (refs_of (indexnodes st) i + 2)%Z
        else downloaderead_main (r :: rs) late st t = Undef
    end.
Proof.
  destruct Hok as [W1 W2 W3 W4].
  assert (Hok0 : thread_ok file req_of held t []) by (split; [done..|by eapply world_ok_app_r]).
  destruct (get_next_ok file req_of held 0 t Hok0 Hfair) as (oc & lost & q & ws & Hg). cbn zeta in Hg.
  destruct Hg as (E & HP & [K1 K2 K3 _] & _ & _ & _ & _ & Hlost).
  set (t1 := set_waits (set_chunks t q) ws) in *. exists oc, t1. split; [done|].
  pose proof (Permutation_length HP) as HL. rewrite !length_app in HL.
  destruct oc as [c|].
  - rewrite (Hlost ltac:(done)) in *. cbn [app option_list length] in *. change (option_list (Some c)) with [c] in *.
    split; [rewrite HP; cbn [app fmap list_fmap]; unfold to_come; by rewrite fmap_app, arriving_requests|].
    apply (session_with_chunk file req_of held r rs late st t t1 c i hash tr Hnew E); try done; [|cbn in *; lia].
    split; [done..|]. cbn [app] in HP |- *. rewrite HP in W4. change (world t1) with (world t).
    by rewrite <- Permutation_middle in W4.
  - unfold downloaderead_main. rewrite (main_loop_start r rs st t t1 _ Hnew E), bind_ret_l.
    destruct (arrive_ok late (set_current t1 None) K1) as (q' & Ea & _).
    { cbn [de_size t1 set_current]. rewrite K2. destruct W4 as (HF & _). apply Forall_app in HF as [HF _].
      rewrite Forall_fmap in HF. eapply Forall_impl; [exact HF|].
      intros x (? & ? & _ & _ & _ & _ & _ & _ & _ & H8 & _). exact H8. }
    { cbn [chunks t1 set_current set_waits set_chunks] in *. unfold to_come at 2 in HL.
      cbn [chunks t1 set_waits set_chunks] in HL. rewrite length_app in HL. lia. }
    by rewrite Ea, bind_ret_l.
Qed.

(** The file's listing, 0, of the indexnode 0. *)
Definition demo_node : indexnode :=
  Indexnode (ProtoIndexnode (Str 0 (cs "index.example")) (Str 1 (cs "42000"))) (Str 2 (cs "0.13")) (Str 3 (cs "a")) 0.
Definition demo_round (t : transfer) : round :=
  Round 0 demo_node (cs "me") None None (fun s => s) (fun _ => ([], 0%Z)) 5 (fun _ _ => t).
Definition demo_store : Listing.store :=
  Listing.Store {[ 0 := (RefCount 1, Listing 0 (Some (cs "a.txt")) (Some (cs "d41d")) listing_type_FILE 8 1
    (Some (cs "http://peer/a.txt")) (Some (cs "bob"))) ]} {[ 0 := (RefCount 1, tt) ]}.

Lemma demo_listed t : listed (demo_round t) demo_store 0 (cs "d41d").
Proof.
  split; [by eexists _, _|]. split; [by eexists|]. split; reflexivity.
Qed.
Lemma demo_page t : alternatives_page (demo_round t) (cs "d41d") = Ret t.
Proof. vm_compute. reflexivity. Qed.

(** The demo's two requests, an empty page, and a third request too late. *)
Definition demo_late : downloader (binary_heap chunk) :=
  Downloader 8 demo_chunks 0 None false false
    (IO (<[2 := replicate 2 None]> (blocks demo_io)) (<[102%Z := ReadContext 8 2 2]> (ctxts demo_io))
       (Some (RefCount 5)) []) demo_waits.

Lemma downloader_session_witness :
  (exists first t1, chunk_get_next demo_late = Ret (first, t1) /\
    match first with
    | None => @downloaderead_main _ _ script_curl [demo_round (Transfer [] CURLE_OK 200)] [Request 6 8 2 102]
        demo_store demo_late = Undef
    | Some c =>
        request_of <$> to_come demo_late ≡ₚ
          request_of c :: (request_of <$> queued (chunks t1)) ++ concat (arrivals <$> waits t1) /\
        exists w failed ins, @downloaderead_main _ _ script_curl [demo_round (Transfer [] CURLE_OK 200)]
            [Request 6 8 2 102] demo_store demo_late = Ret (w, Listing.Store (listings demo_store) ins) /\
          failed ≡ₚ request_of c :: (request_of <$> queued (chunks t1)) ++ [Request 6 8 2 102] /\
          replies w = [] ++ (failure demo_req EBUSY <$> failed) /\ refs_of ins 0 = 3%Z
    end) /\
  @downloaderead_main _ _ script_curl [demo_round (Transfer [cs "<"] CURLE_OK 200)] [] demo_store demo_thread = Undef.
Proof.
  split; [|vm_compute; reflexivity].
  apply (@downloader_session script_curl _ _ demo_file demo_req 2 (demo_round (Transfer [] CURLE_OK 200)) []
    [Request 6 8 2 102] demo_store demo_late 0 (cs "d41d") (Transfer [] CURLE_OK 200)).
  - split; [exact demo_heap_wf|done|vm_compute; discriminate|].
    change ((chunk_of <$> [Request 6 8 2 102]) ++ to_come demo_late) with
      [chunk_of (Request 6 8 2 102); chunk_of (Request 0 4 0 100); chunk_of (Request 4 8 1 101)].
    split_and!.
    + repeat constructor.
      * exists (ReadContext 8 2 2), (replicate 2 None). split_and!; vm_compute; done.
      * exists (ReadContext 7 4 0), (replicate 4 None). split_and!; vm_compute; done.
      * exists (ReadContext 8 4 1), (replicate 4 None). split_and!; vm_compute; done.
    + apply (bool_decide_unpack _). by vm_compute.
    + apply (bool_decide_unpack _). by vm_compute.
    + vm_compute. done.
    + vm_compute. done.
  - done.
  - lia.
  - split; [repeat constructor; by right|vm_compute; lia].
  - vm_compute. discriminate.
  - apply demo_listed.
  - apply demo_page.
Defined.

(** Dumping the queue empties it: every chunk is printed and none is ever
    answered or freed. *)
Lemma dump_chunks_from_ok {Q} `{PriQ chunk Q} fuel : forall i (t : downloader Q),
  pq_wf (chunks t) -> length (queued (chunks t)) < fuel ->
  (Z.of_nat (length (queued (chunks t))) <= pq_max)%Z ->
  exists l q, dump_chunks_from fuel i t = Ret (l, set_chunks t q) /\
    pq_wf q /\ queued q = [] /\ l.*2 ≡ₚ dump_chunk <$> queued (chunks t).
Proof.
  induction fuel as [|fuel IH]; intros i t Hwf Hf Hm; [lia|]. cbn [dump_chunks_from].
  destruct (queued_pop (chunks t) Hwf Hm) as [[E Hq]|(k & c & q & E & Hwf' & HP)]; rewrite E, bind_ret_l.
  { exists [], (chunks t). by rewrite Hq. }
  pose proof (Permutation_length HP) as HL. cbn [length] in HL.
  destruct (IH (u32 (i + 1)) (set_chunks t q)) as (l & q' & E' & H1 & H2 & H3); cbn [chunks set_chunks]; [done|lia..|].
  rewrite E', bind_ret_l. exists ((i, dump_chunk c) :: l), q'. split_and!; [by destruct t|done..|].
  rewrite HP. cbn. by rewrite H3.
Qed.

Theorem dump_loses_chunks {Q} `{PriQ chunk Q} (t : downloader Q)
    (Hwf : pq_wf (chunks t)) (Hmax : (Z.of_nat (length (queued (chunks t))) <= pq_max)%Z) :
  exists l q, dump_chunks t = Ret (l, set_chunks t q) /\ queued q = [] /\
    l.*2 ≡ₚ dump_chunk <$> queued (chunks t).
Proof.
  destruct (dump_chunks_from_ok (S (length (pq_items (chunks t)))) 0 t Hwf) as (l & q & E & _ & H1 & H2);
    [unfold queued; rewrite length_fmap; lia|done|]. eauto.
Qed.

(** C36: a download that fails with no chunk in hand (as after a buffer that ended
    exactly with a chunk, which [buf_consumer] allows for, then say a connection
    reset) leaves the queued requests without an answer: [chunks_empty] only runs when there is a
    current chunk, and [thread_delete] fails [binary_heap_delete]'s assertion
    that the queue is empty. *)
Theorem failed_download_strands_queue {Q} `{PriQ chunk Q} (file : list ascii) (req_of : Z -> Z)
    (held : nat) (rc : Z) (t : downloader Q)
    (Hok : thread_ok file req_of held t []) (Hheld : 0 < held) (Hrc : rc <> 0%Z)
    (Hc : current_chunk t = None) (Hqueue : queued (chunks t) <> []) :
  (t ← main_end (Some rc) t; thread_delete t) = AssertFail.
Proof.
  unfold main_end. cbn [deref]. rewrite bind_ret_l, (proj2 (Z.eqb_neq _ _) Hrc), Hc, bind_ret_l.
  unfold thread_delete. rewrite bool_decide_true by done. cbn [c_assert]. rewrite bind_ret_l.
  destruct Hok as [W1 _ _ (_ & _ & _ & Hro & Hl)].
  destruct (drop_ref_ok (world t) Hro ltac:(lia)) as (r & E & _). rewrite E, bind_ret_l.
  rewrite pq_delete_law by done. unfold queued in Hqueue.
  destruct (pq_items (chunks t)); done.
Qed.

Lemma failed_download_strands_queue_witness :
  (exists t, buf_consumer (cs "abcd") demo_thread = Ret (0%Z, t) /\ current_chunk t = None /\
     length (queued (chunks t)) = 1 /\ (t ← main_end (Some EIO) t; thread_delete t) = AssertFail) /\
  (t ← main_end (Some EIO) demo_thread; thread_delete t) = AssertFail.
Proof.
  split.
  - eexists. split; [vm_compute; reflexivity|]. split_and!; vm_compute; reflexivity.
  - apply (failed_download_strands_queue demo_file demo_req 2 EIO demo_thread).
    + exact demo_thread_ok.
    + lia.
    + done.
    + done.
    + done.
Defined.

(** A request added just as the wait times out is taken from the queue and
    dropped, because [chunk_get_next] tests the wait's result after the pop:
    it is neither in hand, queued nor still to come, and no reply was sent. *)
Theorem timeout_loses_chunk {Q} `{PriQ chunk Q} (r : request) (ws : list wait) (t : downloader Q)
    (Hwf : pq_wf (chunks t)) (Hq : queued (chunks t) = [])
    (Hr : in_file (de_size t) r) (Hmax : (0 < pq_max)%Z)
    (Hwaits : waits t = Wait [r] ETIMEDOUT :: ws) :
  exists t', chunk_get_next t = Ret (None, t') /\ to_come t = chunk_of r :: to_come t'
    /\ current_chunk t' = current_chunk t /\ world t' = world t.
Proof.
  unfold chunk_get_next. rewrite Hwaits. cbn [chunk_wait_loop]. pose proof Hq as Hq0.
  unfold queued in Hq0. apply fmap_nil_inv in Hq0. rewrite pq_pop_empty_law, bind_ret_l by done.
  change (0 =? 0)%Z with true. cbn iota. cbn [arrivals].
  destruct (arrive_ok [r] (set_chunks t (chunks t)) Hwf) as (q & E & Hwf' & HP).
  { by apply Forall_singleton. }
  { cbn [chunks set_chunks]. rewrite Hq. cbn. lia. }
  rewrite E, bind_ret_l. cbn [chunks set_chunks] in HP. rewrite Hq in HP. cbn in HP.
  assert (Hm : (Z.of_nat (length (queued q)) <= pq_max)%Z) by (rewrite HP; cbn; lia).
  destruct (queued_pop q Hwf' Hm) as [[_ Hn]|(k & c & q' & E' & _ & HP')].
  { rewrite Hn in HP. by apply Permutation_nil_cons in HP. }
  assert (c :: queued q' = [chunk_of r]) as Hcq by (apply Permutation_singleton_r; by rewrite <- HP').
  injection Hcq as -> Hq'. cbn [wait_rc].
  destruct ws; cbn [chunk_wait_loop chunks set_chunks]; rewrite E', !bind_ret_l;
    (eexists; split; [done|]); unfold to_come; cbn [chunks waits set_waits set_chunks];
    rewrite Hq, Hwaits, arriving_cons, Hq'; done.
Qed.

Lemma timeout_loses_chunk_witness :
  exists t t', downloader_new 8 demo_io [Wait [Request 0 4 0 100] ETIMEDOUT] = Ret t /\
    chunk_get_next t = Ret (None, t') /\ to_come t = chunk_of (Request 0 4 0 100) :: to_come t'
    /\ current_chunk t' = current_chunk t /\ world t' = world t.
Proof.
  eexists. destruct (timeout_loses_chunk (Q := binary_heap chunk) (Request 0 4 0 100) []
    (Downloader 8 binary_heap_new 0 None false false (IO (blocks demo_io) (ctxts demo_io)
       (Some (RefCount 5)) []) [Wait [Request 0 4 0 100] ETIMEDOUT])) as [t' Ht'].
  - apply new_wf.
  - reflexivity.
  - split; vm_compute; discriminate.
  - vm_compute. reflexivity.
  - reflexivity.
  - exists t'. split; [reflexivity|exact Ht'].
Defined.
