(* ===== verification/Direntry.v ===== *)
(** * inode_map.c, direntry.c: inodes and the tree of direntries

    A direntry is a listing with an inode and links to its parent, its first
    child and its next sibling; [InodeMap] is the array from inode numbers to
    direntries. direntry.c calls [inode_map_add] as inode_map.h declares it,
    with the direntry alone; inode_map.c defines it with two parameters. *)
From S2P Require Import Prelude CLib Constants Utils StringBuffer RefCount Counted Parsers Listing ReadContext.

(** ** The data *)


Record direntry := Direntry {
  li : listing;
  (** Made by [listing_new], with a reference count and an indexnode; the root
      has null pointers for both. *)
  counted : bool;
  inode : Z;
  next : option nat;
  parent : option nat;
  children : option nat;
  looked_for_children : bool
}.

Definition set_children (v : direntry) (c : option nat) (looked : bool) : direntry :=
  Direntry (li v) (counted v) (inode v) (next v) (parent v) c looked.

(** ** The code: lifecycle and getters *)

Definition direntry_copy (de : nat) (h : heap direntry) : outcome (heap direntry) :=
  v ← obj_get de h;
  if counted v then obj_copy de h else Undef.

Definition direntry_delete (de : nat) (h : heap direntry) : outcome (heap direntry) :=
  v ← obj_get de h;
  if counted v then '(_, h) ← obj_delete de h; Ret h else Undef.

(** [x ? direntry_copy(x) : NULL] for a link of the direntry. *)
Definition copy_link (l : option nat) (h : heap direntry) : outcome (option nat * heap direntry) :=
  match l with
  | Some p => h ← direntry_copy p h; Ret (Some p, h)
  | None => Ret (None, h)
  end.

Definition direntry_get_parent (de : nat) (h : heap direntry) : outcome (option nat * heap direntry) :=
  v ← obj_get de h; copy_link (parent v) h.
Definition direntry_get_first_child (de : nat) (h : heap direntry) : outcome (option nat * heap direntry) :=
  v ← obj_get de h; copy_link (children v) h.
Definition direntry_get_next_sibling (de : nat) (h : heap direntry) : outcome (option nat * heap direntry) :=
  v ← obj_get de h; copy_link (next v) h.

Definition direntry_get_name (de : nat) (h : heap direntry) : outcome cstr :=
  v ← obj_get de h; deref (li_name (li v)).
Definition direntry_get_type (de : nat) (h : heap direntry) : outcome listing_type_t :=
  v ← obj_get de h; Ret (li_type (li v)).
Definition direntry_get_size (de : nat) (h : heap direntry) : outcome Z :=
  v ← obj_get de h; Ret (li_size (li v)).

Definition direntry_get_inode (de : nat) (h : heap direntry) : outcome Z :=
  v ← obj_get de h; Ret (inode v).
Definition direntry_get_hash (de : nat) (h : heap direntry) : outcome cstr :=
  v ← obj_get de h; deref (li_hash (li v)).
Definition direntry_get_link_count (de : nat) (h : heap direntry) : outcome Z :=
  v ← obj_get de h; Ret (li_link_count (li v)).
Definition direntry_get_href (de : nat) (h : heap direntry) : outcome cstr :=
  v ← obj_get de h; deref (li_href (li v)).
Definition direntry_get_looked_for_children (de : nat) (h : heap direntry) : outcome bool :=
  v ← obj_get de h; Ret (looked_for_children v).
Definition direntry_set_looked_for_children (de : nat) (val : bool) (h : heap direntry)
  : outcome (heap direntry) :=
  '(r, v) ← deref (h !! de); Ret (<[de := (r, set_children v (children v) val)]> h).
Definition direntry_is_root (de : nat) (h : heap direntry) : outcome bool :=
  v ← obj_get de h; Ret (inode v =? FSFUSE_ROOT_INODE)%Z.

(** [listing_equal] compares the hashes. *)
Definition direntry_equal (de other : nat) (h : heap direntry) : outcome bool :=
  v ← obj_get de h; w ← obj_get other h; listing_equal (li v) (li w).

(** The [st_ino] and the rest. *)
Definition direntry_de2stat (c : attr_config) (de : nat) (h : heap direntry) : outcome (Z * stat) :=
  v ← obj_get de h; Ret (inode v, listing_li2stat c (li v)).

Record fuse_entry_param := FuseEntryParam { ino : Z; generation : Z; attr : Z * stat }.
Definition direntry_de2fuse_entry (c : attr_config) (de : nat) (h : heap direntry)
  : outcome fuse_entry_param :=
  v ← obj_get de h;
  st ← direntry_de2stat c de h;
  Ret (FuseEntryParam (inode v) 0 st).

(** The loop of [direntry_delete_list]. *)
Fixpoint direntry_delete_list (fuel : nat) (de : option nat) (h : heap direntry)
  : outcome (heap direntry) :=
  match de, fuel with
  | None, _ => Ret h
  | Some _, 0 => Blocked
  | Some de, S fuel =>
      '(next, h) ← direntry_get_next_sibling de h;
      h ← direntry_delete de h;
      direntry_delete_list fuel next h
  end.

(** ** The code: paths *)

Fixpoint direntry_get_path_inner (fuel : nat) (de : nat) (path : string_buffer) (h : heap direntry)
  : outcome (string_buffer * heap direntry) :=
  match fuel with
  | 0 => Blocked
  | S fuel =>
      '(par, h) ← direntry_get_parent de h;
      '(path, h) ← (match par with
                    | Some p =>
                        '(path, h) ← direntry_get_path_inner fuel p path h;
                        h ← direntry_delete p h;
                        Ret (path, h)
                    | None => Ret (path, h)
                    end);
      name ← direntry_get_name de h;
      path ← string_buffer_append path (Malloced name);
      path ← string_buffer_append path (Malloced (cs "/"));
      Ret (path, h)
  end.

Definition direntry_get_path (fuel : nat) (de : nat) (h : heap direntry)
  : outcome (list (option ascii) * heap direntry) :=
  path ← string_buffer_new;
  '(path, h) ← direntry_get_path_inner fuel de path h;
  block ← string_buffer_commit path;
  Ret (block, h).

(** ** The code: the inode map *)

Module InodeMap.

(** [s_inode_map], a block of [s_inode_map_size] pointers. *)
Record inode_map := Map {
  s_inode_map : list (option nat);    (* None: uninitialised *)
  s_inode_map_used : Z;
  s_inode_next : Z
}.

Definition INODE_MAP_MOD : nat := 32.

Definition initial : inode_map := Map [] 0 2.

(** The definition, with its two parameters. *)
Definition inode_map_add (inode : Z) (de : option nat) (m : inode_map) (h : heap direntry)
  : outcome (inode_map * heap direntry) :=
  de ← (match de with Some p => Ret p | None => AssertFail end);
  let cells := if (Z.of_nat (length (s_inode_map m)) <=? inode)%Z
               then s_inode_map m ++ replicate INODE_MAP_MOD None
               else s_inode_map m in
  h ← direntry_copy de h;
  cells ← mem_write cells (Z.to_nat inode) [Some de];
  Ret (Map cells (inode + 1) (s_inode_next m), h).

Definition inode_map_get (inode : Z) (m : inode_map) (h : heap direntry)
  : outcome (option nat * heap direntry) :=
  if (inode <? s_inode_map_used m)%Z then
    cell ← deref (s_inode_map m !! Z.to_nat inode);
    p ← deref cell;
    h ← direntry_copy p h;
    Ret (Some p, h)
  else Ret (None, h).

Definition inode_next (m : inode_map) : Z * inode_map :=
  (s_inode_next m, Map (s_inode_map m) (s_inode_map_used m) (u64 (s_inode_next m + 1))).

(** Every direntry from inode 1 on, then the array. *)
Fixpoint clear_from (cells : list (option nat)) (h : heap direntry) : outcome (heap direntry) :=
  match cells with
  | [] => Ret h
  | cell :: cells => p ← deref cell; h ← direntry_delete p h; clear_from cells h
  end.
Definition inode_map_clear (m : inode_map) (h : heap direntry) : outcome (heap direntry) :=
  cells ← (if (s_inode_map_used m <=? Z.of_nat (length (s_inode_map m)))%Z
           then Ret (drop 1 (take (Z.to_nat (s_inode_map_used m)) (s_inode_map m))) else Undef);
  clear_from cells h.

End InodeMap.

(** ** The code: making direntries *)

(** [lists] is the memory of listings, and of the indexnodes they refer to. *)
Record fs := Fs {
  direntries : heap direntry;
  inodes : InodeMap.inode_map;
  lists : Listing.store
}.

Definition no_listings : Listing.store := Listing.Store ∅ ∅.
Definition set_listings (l : heap listing) (f : fs) : fs :=
  Fs (direntries f) (inodes f) (Listing.Store l (indexnodes (lists f))).

(** [inode_map_add(de)]: the call goes through a declaration that does not match
    the definition, which has no defined behaviour. *)
Definition call_inode_map_add (de : nat) (f : fs) : outcome fs := Undef.

Definition root_listing : listing :=
  Listing 0 (Some []) None listing_type_DIRECTORY 0 1 None None.

Definition direntry_new_root (f : fs) : outcome (nat * fs) :=
  let '(de, h) := obj_new (Direntry root_listing false FSFUSE_ROOT_INODE None None None false)
                    (direntries f) in
  f ← call_inode_map_add de (Fs h (inodes f) (lists f));
  Ret (de, f).

Definition direntry_init (f : fs) : outcome fs :=
  '(de, f) ← direntry_new_root f;
  h ← direntry_delete de (direntries f);
  Ret (Fs h (inodes f) (lists f)).

Definition direntry_finalise (f : fs) : outcome fs :=
  h ← InodeMap.inode_map_clear (inodes f) (direntries f);
  Ret (Fs h (inodes f) (lists f)).

Definition sizeof_listing : Z := 72.
Definition sizeof_direntry : Z := 112.

(** [bzero(de + sizeof(listing_t), ...)]: pointer arithmetic on a [direntry_t]
    counts whole direntries, so the block starts that many after [de]. *)
Definition bzero_at (block off len : Z) : outcome unit :=
  if (off + len <=? block)%Z then Ret tt else Undef.

(** [realloc] makes the listing's block the direntry's, reference count and
    all; the listing is no more. *)
Definition direntry_from_listing (li : nat) (f : fs) : outcome (nat * fs) :=
  '(r, v) ← deref (listings (lists f) !! li);
  _ ← bzero_at sizeof_direntry (sizeof_listing * sizeof_direntry) (sizeof_direntry - sizeof_listing);
  let '(i, m) := InodeMap.inode_next (inodes f) in
  let de := stdpp.base.fresh (dom (direntries f)) in
  let h := <[de := (r, Direntry v true i None None None false)]> (direntries f) in
  f ← call_inode_map_add de
    (Fs h m (Listing.Store (delete li (listings (lists f))) (indexnodes (lists f))));
  Ret (de, f).

(** ** The code: lookups *)

Definition direntry_get_by_inode (ino : Z) (f : fs) : outcome (Z * option nat * fs) :=
  '(de, h) ← InodeMap.inode_map_get ino (inodes f) (direntries f);
  Ret (match de with Some _ => 0%Z | None => ENOENT end, de, Fs h (inodes f) (lists f)).

(** What [indexnode_tryget_listing] did for a path: its result and the entries
    it found. *)
Definition tryget_listing := cstr -> outcome (Z * list Filelist.entry).

(** [entry_found] of direntry.c is the one of listing.c, word for word. *)
Definition entry_found := Listing.entry_found.

(** The loop from item [i] on, of [n] rounds. *)
Fixpoint direntries_loop (n i : nat) (lis : listing_list) (par : nat) (prev : option nat) (f : fs)
  : outcome (option nat * fs) :=
  match n with
  | 0 => Ret (prev, f)
  | S n =>
      '(li, l) ← listing_list_get_item lis i (listings (lists f));
      '(de, f) ← direntry_from_listing li (set_listings l f);
      l ← listing_delete li (listings (lists f));
      '(r, d) ← deref (direntries f !! de);
      let d := Direntry (Direntry.li d) (counted d) (inode d) prev (Some par) (children d)
                 (looked_for_children d) in
      direntries_loop n (S i) lis par (Some de)
        (set_listings l (Fs (<[de := (r, d)]> (direntries f)) (inodes f) (lists f)))
  end.

Definition direntries_from_listing_list (lis : listing_list) (par : nat) (f : fs)
  : outcome (option nat * fs) :=
  direntries_loop (listing_list_get_count lis) 0 lis par None f.

(** [indexnode_tryget_listing] is given a reference to the indexnode, and calls
    [entry_found] for each entry. The indexnode pointer is null for the root. *)
Definition direntry_ensure_children (fuel : nat) (tryget : tryget_listing) (de : nat) (f : fs)
  : outcome (Z * fs) :=
  v ← obj_get de (direntries f);
  if looked_for_children v then Ret (EIO, f)
  else
    '(path, h) ← direntry_get_path fuel de (direntries f);
    if counted v then
      let in_ := li_in (li v) in
      ins ← obj_copy in_ (indexnodes (lists f));
      '(rc, es) ← tryget (until_nul (default NUL <$> drop 1 path));
      '(lis, st) ← entries_found in_ es (listing_list_new 0) (Listing.Store (listings (lists f)) ins);
      let f := Fs h (inodes f) st in
      '(dirents, ret, f) ←
        (if negb (rc =? 0)%Z then
           '(dirents, f) ← direntries_from_listing_list lis de f;
           l ← listing_list_delete lis (listings (lists f));
           Ret (dirents, 0%Z, set_listings l f)
         else Ret (None, EIO, f));
      '(r, v) ← deref (direntries f !! de);
      Ret (ret, Fs (<[de := (r, set_children v dirents true)]> (direntries f)) (inodes f) (lists f))
    else Undef.

(** The search through the children; [child] is a reference of its own. *)
Fixpoint find_child (fuel : nat) (name : cstr) (child : option nat) (h : heap direntry)
  : outcome (option nat * heap direntry) :=
  match child, fuel with
  | None, _ => Ret (None, h)
  | Some _, 0 => Blocked
  | Some child, S fuel =>
      n ← direntry_get_name child h;
      if streq n name then Ret (Some child, h)
      else
        '(next, h) ← direntry_get_next_sibling child h;
        h ← direntry_delete child h;
        find_child fuel name next h
  end.

Definition direntry_get_child_by_name (fuel : nat) (tryget : tryget_listing) (ino : Z) (name : cstr)
    (f : fs) : outcome (Z * option nat * fs) :=
  '(rc, de, f) ← direntry_get_by_inode ino f;
  match de with
  | None => Ret (rc, None, f)
  | Some de =>
      '(_, f) ← direntry_ensure_children fuel tryget de f;
      '(child, h) ← direntry_get_first_child de (direntries f);
      '(child, h) ← find_child fuel name child h;
      h ← direntry_delete de h;
      Ret (match child with Some _ => 0%Z | None => ENOENT end, child, Fs h (inodes f) (lists f))
  end.

(** ** Facts *)

Lemma obj_get_ok {V} (h : heap V) d p r v : h !! p = Some (r, v) -> obj_get p (adds h d) = Ret v.
Proof. apply obj_get_adds. Qed.

(** A direntry with a count, in a heap with room for [k] more references. *)
Definition live_de (h : heap direntry) (p : nat) : Prop :=
  exists r v, h !! p = Some (r, v) /\ counted v = true.

Lemma de_copy_ok h k d p :
  counts_ok k h -> live_de h p -> (0 <= d p < Z.of_nat k)%Z ->
  direntry_copy p (adds h d) = Ret (adds h (fun q => d q + one p q)%Z).
Proof.
  intros Hk (r & v & Hp & Hc) Hd. unfold direntry_copy. rewrite (obj_get_ok _ _ _ _ _ Hp), bind_ret_l, Hc.
  assert (Hs : is_Some (h !! p)) by (by rewrite Hp).
  apply obj_copy_ok; [done|]. pose proof (counts_ok_refs k h p Hk Hs). lia.
Qed.

(** A delete that is not the last one. *)
Lemma de_delete_refs h d p :
  live_de h p -> (1 < refs_of h p + d p < 2 ^ 32)%Z ->
  direntry_delete p (adds h d) = Ret (adds h (fun q => d q - one p q)%Z).
Proof.
  intros (r & v & Hp & Hc) Hd. unfold direntry_delete. rewrite (obj_get_ok _ _ _ _ _ Hp), bind_ret_l, Hc.
  by rewrite obj_delete_ok by (by rewrite ?Hp).
Qed.

Lemma de_delete_ok h k d p :
  counts_ok k h -> live_de h p -> (0 < d p <= Z.of_nat k)%Z ->
  direntry_delete p (adds h d) = Ret (adds h (fun q => d q - one p q)%Z).
Proof.
  intros Hk (r & v & Hp & Hc) Hd. unfold direntry_delete. rewrite (obj_get_ok _ _ _ _ _ Hp), bind_ret_l, Hc.
  assert (Hs : is_Some (h !! p)) by (by rewrite Hp).
  rewrite obj_delete_ok; [done|done|]. pose proof (counts_ok_refs k h p Hk Hs). lia.
Qed.

Lemma one_self p : one p p = 1%Z.
Proof. unfold one. by rewrite decide_True. Qed.

Lemma one_range p q : (0 <= one p q <= 1)%Z.
Proof. unfold one. case_decide; lia. Qed.

(** ** Paths *)

(** [de]'s name, and its ancestors' from the root down. *)
Inductive ancestry (h : heap direntry) : nat -> list cstr -> Prop :=
| ancestry_top p r v n :
    h !! p = Some (r, v) -> parent v = None -> li_name (li v) = Some n -> ancestry h p [n]
| ancestry_child p r v q n ns :
    h !! p = Some (r, v) -> parent v = Some q -> live_de h q -> li_name (li v) = Some n ->
    ancestry h q ns -> ancestry h p (ns ++ [n]).

Definition path_text (ns : list cstr) : cstr := concat ((fun n => n ++ cs "/") <$> ns).

Lemma path_text_snoc ns n : path_text (ns ++ [n]) = path_text ns ++ n ++ cs "/".
Proof. unfold path_text. rewrite fmap_app, concat_app. cbn [fmap list_fmap concat]. by rewrite app_nil_r. Qed.

Lemma get_path_inner_ok h p ns :
  ancestry h p ns -> forall fuel k d sb t,
  length ns <= fuel -> counts_ok (k + length ns) h -> (forall q, 0 <= d q <= Z.of_nat k)%Z ->
  holds sb t ->
  exists sb', direntry_get_path_inner fuel p sb (adds h d) = Ret (sb', adds h d) /\
    holds sb' (t ++ path_text ns).
Proof.
  assert (Hname : forall p r v n d, h !! p = Some (r, v) -> li_name (li v) = Some n ->
    direntry_get_name p (adds h d) = Ret n).
  { intros p0 r v n d Hp Hn. unfold direntry_get_name. by rewrite (obj_get_ok _ _ _ _ _ Hp), bind_ret_l, Hn. }
  assert (Happ : forall n sb t, holds sb t -> exists sb1 sb2,
    string_buffer_append sb (Malloced n) = Ret sb1 /\
    string_buffer_append sb1 (Malloced (cs "/")) = Ret sb2 /\ holds sb2 (t ++ n ++ cs "/")).
  { intros n sb t Hs. destruct (append_ok sb t n Hs) as (sb1 & E1 & H1).
    destruct (append_ok sb1 _ (cs "/") H1) as (sb2 & E2 & H2).
    exists sb1, sb2. by rewrite <- app_assoc in H2. }
  induction 1 as [p r v n Hp Hpar Hn|p r v q n ns Hp Hpar Hq Hn Ha IH];
    intros fuel k d sb t Hf Hk Hd Hs; rewrite ?length_app in *; cbn [length] in *;
    (destruct fuel as [|fuel]; [lia|]); cbn [direntry_get_path_inner];
    unfold direntry_get_parent; rewrite (obj_get_ok _ _ _ _ _ Hp), bind_ret_l, Hpar; cbn [copy_link].
  - rewrite !bind_ret_l, (Hname _ _ _ _ _ Hp Hn), bind_ret_l.
    destruct (Happ n sb t Hs) as (sb1 & sb2 & E1 & E2 & H2). rewrite E1, bind_ret_l, E2, bind_ret_l.
    exists sb2. split; [done|]. unfold path_text. cbn [fmap list_fmap concat]. by rewrite app_nil_r.
  - pose proof (Hd q) as Hdq. rewrite (de_copy_ok h _ d q Hk Hq), !bind_ret_l by lia.
    destruct (IH fuel (k + 1) (fun x => d x + one q x)%Z sb t) as (sb1 & E1 & H1); [lia| | |done|].
    { by replace (k + 1 + length ns) with (k + (length ns + 1)) by lia. }
    { intros x. specialize (Hd x). pose proof (one_range q x). lia. }
    rewrite E1, bind_ret_l. rewrite (de_delete_ok h _ _ q Hk Hq), !bind_ret_l by (rewrite one_self; lia).
    rewrite (adds_ext h _ d) by (intros; lia).
    rewrite (Hname _ _ _ _ _ Hp Hn), bind_ret_l.
    destruct (Happ n sb1 _ H1) as (sb2 & sb3 & E2 & E3 & H3). rewrite E2, bind_ret_l, E3, bind_ret_l.
    exists sb3. split; [done|]. by rewrite path_text_snoc, app_assoc.
Qed.

Lemma get_path_ok h p ns fuel :
  ancestry h p ns -> length ns <= fuel -> counts_ok (length ns) h ->
  direntry_get_path fuel p h = Ret (stored (path_text ns), h).
Proof.
  intros Ha Hf Hk. unfold direntry_get_path, string_buffer_new.
  destruct (from_chars_ok []) as (sb & E & Hs). rewrite E, bind_ret_l.
  destruct (get_path_inner_ok h p ns Ha fuel 0 (fun _ => 0%Z) sb [] Hf Hk) as (sb' & E' & Hs');
    [intros; lia|done|].
  rewrite adds_0 in E' by done. rewrite E', bind_ret_l, (commit_ok _ _ Hs'). done.
Qed.

(** ** Children *)

(** The siblings from [c] on. *)
Inductive siblings (h : heap direntry) (name_of : nat -> cstr) : option nat -> list nat -> Prop :=
| siblings_end : siblings h name_of None []
| siblings_next p r v ps :
    h !! p = Some (r, v) -> counted v = true -> li_name (li v) = Some (name_of p) ->
    siblings h name_of (next v) ps -> siblings h name_of (Some p) (p :: ps).

Definition first_named (name_of : nat -> cstr) (name : cstr) (ps : list nat) : option nat :=
  snd <$> list_find (fun p => name_of p = name) ps.

Lemma copy_sibling h name_of c ps k d :
  siblings h name_of c ps -> counts_ok k h -> (forall q, 0 <= d q < Z.of_nat k)%Z ->
  copy_link c (adds h d) = Ret (c, adds h (fun q => d q + one_more c q)%Z).
Proof.
  intros Hs Hk Hd. destruct Hs as [|p r v ps Hp Hc Hn Hs]; cbn [copy_link one_more].
  - by rewrite (adds_ext h (fun q => d q + 0)%Z d) by (intros; lia).
  - rewrite (de_copy_ok h k d p Hk); [by rewrite bind_ret_l|by exists r, v|apply Hd].
Qed.

Lemma first_named_cons name_of name p ps :
  first_named name_of name (p :: ps) =
    if decide (name_of p = name) then Some p else first_named name_of name ps.
Proof.
  unfold first_named. cbn [list_find]. destruct (decide (name_of p = name)); [done|].
  destruct (list_find _ ps) as [[]|]; done.
Qed.

Lemma find_child_ok h name_of name c ps fuel k d :
  siblings h name_of c ps -> length ps <= fuel -> counts_ok (k + 2) h ->
  (forall q, 0 <= d q <= Z.of_nat k)%Z ->
  find_child fuel name c (adds h (fun q => d q + one_more c q)%Z) =
    Ret (first_named name_of name ps,
         adds h (fun q => d q + one_more (first_named name_of name ps) q)%Z).
Proof.
  intros Hs. revert fuel. induction Hs as [|p r v ps Hp Hc Hn Hs IH]; intros fuel Hf Hk Hd.
  { by destruct fuel. }
  destruct fuel as [|fuel]; cbn [length] in Hf; [lia|]. cbn [find_child].
  unfold direntry_get_name. rewrite (obj_get_ok _ _ _ _ _ Hp), bind_ret_l, Hn. cbn [deref].
  rewrite bind_ret_l, first_named_cons. unfold streq. cbn [one_more].
  destruct (decide (name_of p = name)) as [E|E].
  { by rewrite bool_decide_true. }
  rewrite bool_decide_false by done. unfold direntry_get_next_sibling.
  rewrite (obj_get_ok _ _ _ _ _ Hp), bind_ret_l.
  rewrite (copy_sibling h name_of (next v) ps (k + 2) _ Hs Hk), bind_ret_l.
  2:{ intros q. specialize (Hd q). pose proof (one_range p q). lia. }
  assert (Hr : forall q, (0 <= one_more (next v) q <= 1)%Z).
  { intros q. destruct (next v); [apply one_range|cbn; lia]. }
  rewrite (de_delete_ok h _ _ p Hk), bind_ret_l; [|by exists r, v|].
  2:{ specialize (Hd p). specialize (Hr p). rewrite one_self. lia. }
  rewrite <- (IH fuel) by (done || lia). f_equal. apply adds_ext. intros q _. lia.
Qed.

(** ** The inode map *)

Module InodeMapFacts.
Import InodeMap.

(** Direntries added with inodes 1, 2, ... as [inode_next] hands them out. *)
Fixpoint add_from (i : Z) (ps : list nat) (m : inode_map) (h : heap direntry)
  : outcome (inode_map * heap direntry) :=
  match ps with
  | [] => Ret (m, h)
  | p :: ps => '(m, h) ← inode_map_add i (Some p) m h; add_from (i + 1) ps m h
  end.

(** The array holds [ps] from inode 1 on; index 0 was never written. *)
Definition maps (m : inode_map) (ps : list nat) : Prop :=
  (ps = [] /\ s_inode_map m = [] /\ s_inode_map_used m = 0%Z) \/
  (ps <> [] /\ (exists k, s_inode_map m = None :: (Some <$> ps) ++ replicate k None) /\
   s_inode_map_used m = (1 + Z.of_nat (length ps))%Z).

Lemma add_ok m ps p h k d :
  maps m ps -> counts_ok k h -> live_de h p -> (0 <= d p < Z.of_nat k)%Z ->
  exists m', inode_map_add (1 + Z.of_nat (length ps)) (Some p) m (adds h d) =
      Ret (m', adds h (fun q => d q + one p q)%Z) /\ maps m' (ps ++ [p]).
Proof.
  intros Hm Hk Hp Hd. unfold inode_map_add. rewrite bind_ret_l.
  set (cells := if (_ <=? _)%Z then _ else _).
  assert (Hc : exists k', cells = None :: (Some <$> ps) ++ None :: replicate k' None).
  { unfold cells. destruct Hm as [(-> & -> & _)|(Hne & [k' E] & _)].
    - exists 30. done.
    - rewrite E. cbn [length]. rewrite length_app, length_fmap, length_replicate.
      destruct k' as [|k'].
      + rewrite (proj2 (Z.leb_le _ _)) by lia. exists 31. by rewrite app_nil_r.
      + rewrite (proj2 (Z.leb_gt _ _)) by lia. by exists k'. }
  destruct Hc as [k' Hc]. rewrite (de_copy_ok h k d p Hk Hp Hd), bind_ret_l, Hc.
  replace (Z.to_nat (1 + Z.of_nat (length ps))) with (S (length ps)) by lia.
  rewrite mem_write_ok by (cbn; rewrite length_app, length_fmap; cbn; lia). rewrite bind_ret_l.
  eexists. split; [done|]. right. split_and!; [by destruct ps| |].
  - exists k'. cbn [s_inode_map take drop length app]. f_equal.
    rewrite take_app_length' by (by rewrite length_fmap).
    rewrite Nat.add_1_r. cbn [drop]. rewrite drop_app_ge by (rewrite length_fmap; lia).
    rewrite length_fmap. replace (S (length ps) - length ps) with 1 by lia. cbn [drop].
    by rewrite fmap_app, <- app_assoc.
  - cbn [s_inode_map_used]. rewrite length_app. cbn. lia.
Qed.

Lemma add_from_ok qs m ps h k d :
  maps m ps -> counts_ok k h -> Forall (live_de h) qs ->
  (forall q, 0 <= d q /\ d q + Z.of_nat (length qs) <= Z.of_nat k)%Z ->
  exists m', add_from (1 + Z.of_nat (length ps)) qs m (adds h d) =
      Ret (m', adds h (fun q => d q + each qs q)%Z) /\ maps m' (ps ++ qs).
Proof.
  intros Hm Hk HF. revert m ps d Hm. induction HF as [|p qs Hp HF IH]; intros m ps d Hm Hd; cbn [add_from].
  { exists m. rewrite app_nil_r. split; [|done]. f_equal. f_equal. apply adds_ext.
    intros. unfold each. cbn. lia. }
  cbn [length] in Hd.
  destruct (add_ok m ps p h k d Hm Hk Hp) as (m1 & E1 & Hm1); [specialize (Hd p); lia|].
  rewrite E1, bind_ret_l.
  destruct (IH m1 (ps ++ [p]) (fun q => d q + one p q)%Z Hm1) as (m2 & E2 & Hm2).
  { intros q. specialize (Hd q). pose proof (one_range p q). lia. }
  exists m2. rewrite <- app_assoc in Hm2. split; [|done].
  replace (1 + Z.of_nat (length ps) + 1)%Z with (1 + Z.of_nat (length (ps ++ [p])))%Z
    by (rewrite length_app; cbn; lia).
  rewrite E2. do 2 f_equal. apply adds_ext. intros q _. rewrite each_cons. lia.
Qed.

Lemma maps_get m ps h k d i p :
  maps m ps -> counts_ok k h -> ps !! i = Some p -> live_de h p -> (0 <= d p < Z.of_nat k)%Z ->
  inode_map_get (1 + Z.of_nat i) m (adds h d) = Ret (Some p, adds h (fun q => d q + one p q)%Z).
Proof.
  intros Hm Hk Hi Hp Hd. pose proof (lookup_lt_Some _ _ _ Hi).
  destruct Hm as [(-> & _)|(_ & [k' E] & Hu)]; [done|].
  unfold inode_map_get. rewrite Hu, (proj2 (Z.ltb_lt _ _)) by lia.
  replace (Z.to_nat (1 + Z.of_nat i)) with (S i) by lia. rewrite E.
  assert (Hl : (None :: (Some <$> ps) ++ replicate k' None) !! S i = Some (Some p)).
  { change (((Some <$> ps) ++ replicate k' None) !! i = Some (Some p)).
    rewrite lookup_app_l by (by rewrite length_fmap). by rewrite list_lookup_fmap, Hi. }
  rewrite Hl. cbn [deref]. rewrite bind_ret_l. cbn [deref]. rewrite bind_ret_l.
  by rewrite (de_copy_ok h k d p Hk Hp Hd).
Qed.

Lemma clear_from_ok ps h k d :
  counts_ok k h -> Forall (live_de h) ps -> (forall q, 0 <= d q <= Z.of_nat k)%Z ->
  (forall q, q ∈ ps -> each ps q <= d q)%Z ->
  clear_from (Some <$> ps) (adds h d) = Ret (adds h (fun q => d q - each ps q)%Z).
Proof.
  intros Hk HF. revert d. induction HF as [|p ps Hp HF IH]; intros d Hd Hle; cbn [fmap list_fmap clear_from].
  { f_equal. apply adds_ext. intros. unfold each. cbn. lia. }
  cbn [deref]. rewrite bind_ret_l. pose proof (Hle p (list_elem_of_here _ _)) as Hp1.
  rewrite each_cons, one_self in Hp1. pose proof (each_bounds ps p).
  rewrite (de_delete_ok h k d p Hk Hp), bind_ret_l by (specialize (Hd p); lia). rewrite IH.
  - f_equal. apply adds_ext. intros q _. rewrite each_cons. lia.
  - intros q. specialize (Hd q). unfold one. case_decide; [subst; lia|lia].
  - intros q Hq. specialize (Hle q ltac:(by apply list_elem_of_further)). rewrite each_cons in Hle.
    lia.
Qed.

End InodeMapFacts.

(** ** Properties *)

(** C22: direntries added under the inodes 1, 2, 3, ... are all found again, for
    any number of them: every add is inside the array, growing it when it is
    full; looking an inode up gives the direntry added under it with one more
    reference, an inode not given out yet gives nothing; and clearing the map
    gives back exactly the references it took. *)
Theorem inode_map_roundtrip (ps : list nat) (h : heap direntry)
    (Hroom : counts_ok (length ps + 1) h) (Hlive : Forall (live_de h) ps) :
  exists m h', InodeMapFacts.add_from 1 ps InodeMap.initial h = Ret (m, h') /\
    (forall i p, ps !! i = Some p ->
       InodeMap.inode_map_get (1 + Z.of_nat i) m h' = Ret (Some p, adds h' (one p))) /\
    (forall i, (1 + Z.of_nat (length ps) <= i)%Z -> InodeMap.inode_map_get i m h' = Ret (None, h')) /\
    InodeMap.inode_map_clear m h' = Ret h.
Proof.
  assert (H0 : InodeMapFacts.maps InodeMap.initial []) by by left.
  destruct (InodeMapFacts.add_from_ok ps InodeMap.initial [] h (length ps + 1) (fun _ => 0%Z) H0 Hroom Hlive)
    as (m & E & Hm); [intros; lia|].
  rewrite adds_0 in E by done. cbn [length Z.of_nat] in E. change (1 + 0)%Z with 1%Z in E.
  rewrite (adds_ext h _ (each ps)) in E by (intros; lia).
  exists m, (adds h (each ps)). split_and!; [done| | |].
  - intros i p Hi. assert (Hp : p ∈ ps) by by eapply list_elem_of_lookup_2.
    rewrite Forall_forall in Hlive. pose proof (each_bounds ps p).
    rewrite (InodeMapFacts.maps_get m ps h _ _ i p Hm Hroom Hi (Hlive p Hp)) by lia.
    by rewrite adds_adds.
  - intros i Hi. unfold InodeMap.inode_map_get. rewrite (proj2 (Z.ltb_ge _ _)); [done|].
    destruct Hm as [(Hn & _ & ->)|(_ & _ & ->)]; cbn [app] in *; [|lia]. subst. cbn in Hi. lia.
  - unfold InodeMap.inode_map_clear.
    assert (Hcells : (InodeMap.s_inode_map_used m <= Z.of_nat (length (InodeMap.s_inode_map m)))%Z /\
      drop 1 (take (Z.to_nat (InodeMap.s_inode_map_used m)) (InodeMap.s_inode_map m)) = Some <$> ps).
    { destruct Hm as [(Hn & -> & ->)|(_ & [k ->] & ->)]; cbn [app] in *; [by subst|].
      cbn [length]. rewrite length_app, length_fmap. split; [lia|].
      replace (Z.to_nat (1 + Z.of_nat (length ps))) with (S (length ps)) by lia. cbn [take drop].
      apply take_app_length'. by rewrite length_fmap. }
    destruct Hcells as [Hle Hcells]. rewrite (proj2 (Z.leb_le _ _)) by done.
    rewrite bind_ret_l, Hcells.
    rewrite (InodeMapFacts.clear_from_ok ps h _ _ Hroom Hlive).
    + rewrite adds_0; [done|]. intros; lia.
    + intros q. pose proof (each_bounds ps q). lia.
    + intros; lia.
Qed.

Definition demo_de (name : cstr) (i : Z) (next parent children : option nat) : direntry :=
  Direntry (Listing 0 (Some name) (Some (cs "d41d")) listing_type_FILE 4096 1 None None) true i
    next parent children true.
(** A directory "d" with the files "a" and "b", inside "top". *)
Definition demo_tree : heap direntry :=
  <[10 := (RefCount 1, demo_de (cs "top") 1 None None (Some 11))]>
  (<[11 := (RefCount 1, demo_de (cs "d") 2 None (Some 10) (Some 12))]>
  (<[12 := (RefCount 1, demo_de (cs "a") 3 (Some 13) (Some 11) None)]>
  (<[13 := (RefCount 1, demo_de (cs "b") 4 None (Some 11) None)]> ∅))).

Lemma demo_tree_counts n : (Z.of_nat n <= 1000)%Z -> counts_ok n demo_tree.
Proof.
  intros Hn. unfold demo_tree. repeat (apply map_Forall_insert_2; [cbn beta iota; cbn [count]; lia|]).
  apply map_Forall_empty.
Qed.

Lemma inode_map_roundtrip_witness :
  exists m h', InodeMapFacts.add_from 1 [10; 11; 12; 13] InodeMap.initial demo_tree = Ret (m, h') /\
    (forall i p, [10; 11; 12; 13] !! i = Some p ->
       InodeMap.inode_map_get (1 + Z.of_nat i) m h' = Ret (Some p, adds h' (one p))) /\
    (forall i, (5 <= i)%Z -> InodeMap.inode_map_get i m h' = Ret (None, h')) /\
    InodeMap.inode_map_clear m h' = Ret demo_tree.
Proof.
  apply (inode_map_roundtrip [10; 11; 12; 13] demo_tree).
  - apply demo_tree_counts. vm_compute. discriminate.
  - repeat constructor; eexists _, _; split; reflexivity.
Defined.

(** C23: the path of a direntry is its ancestors' names and its own, each
    followed by a slash, and finding it leaves every reference count as it
    was. *)
Theorem direntry_path (de : nat) (names : list cstr) (fuel : nat) (h : heap direntry)
    (Hnames : ancestry h de names) (Hfuel : length names <= fuel) (Hroom : counts_ok (length names) h) :
  direntry_get_path fuel de h = Ret (stored (concat ((fun n => n ++ cs "/") <$> names)), h).
Proof. by apply get_path_ok. Qed.

Lemma direntry_path_witness :
  direntry_get_path 5 13 demo_tree = Ret (stored (cs "top/d/b/"), demo_tree).
Proof.
  apply (direntry_path 13 [cs "top"; cs "d"; cs "b"] 5 demo_tree).
  - apply (ancestry_child demo_tree 13 (RefCount 1) (demo_de (cs "b") 4 None (Some 11) None) 11
      (cs "b") [cs "top"; cs "d"]); [reflexivity|reflexivity|eexists _, _; split; reflexivity|reflexivity|].
    apply (ancestry_child demo_tree 11 (RefCount 1) (demo_de (cs "d") 2 None (Some 10) (Some 12)) 10
      (cs "d") [cs "top"]); [reflexivity|reflexivity|eexists _, _; split; reflexivity|reflexivity|].
    apply (ancestry_top demo_tree 10 (RefCount 1) (demo_de (cs "top") 1 None None (Some 11)));
      reflexivity.
  - cbn. lia.
  - apply demo_tree_counts. vm_compute. discriminate.
Defined.

Lemma child_by_name_ok (fuel : nat) (tryget : tryget_listing) (ino : Z) (name : cstr)
    (m : InodeMap.inode_map) (lm : Listing.store) (h : heap direntry) (de : nat) (r : ref_count) (v : direntry)
    (name_of : nat -> cstr) (ps : list nat)
    (Hino : (0 <= ino < InodeMap.s_inode_map_used m)%Z)
    (Hmap : InodeMap.s_inode_map m !! Z.to_nat ino = Some (Some de))
    (Hde : h !! de = Some (r, v)) (Hcounted : counted v = true) (Hlooked : looked_for_children v = true)
    (Hchildren : siblings h name_of (children v) ps) (Hfuel : length ps <= fuel)
    (Hroom : counts_ok 3 h) :
  let child := first_named name_of name ps in
  direntry_get_child_by_name fuel tryget ino name (Fs h m lm) =
    Ret (match child with Some _ => 0%Z | None => ENOENT end, child, Fs (adds h (one_more child)) m lm).
Proof.
  assert (Hlive : live_de h de) by by exists r, v.
  assert (Hc : forall q, (0 <= one_more (children v) q <= 1)%Z).
  { intros q. destruct (children v); [apply one_range|cbn; lia]. }
  pose proof (one_range de) as Ho.
  intros child. unfold direntry_get_child_by_name, direntry_get_by_inode, InodeMap.inode_map_get.
  cbn [inodes direntries]. rewrite (proj2 (Z.ltb_lt _ _)), Hmap by lia. cbn [deref].
  rewrite bind_ret_l. cbn [deref]. rewrite bind_ret_l.
  pose proof (de_copy_ok h 3 (fun _ => 0%Z) de Hroom Hlive ltac:(lia)) as E.
  rewrite adds_0 in E by done. rewrite E, !bind_ret_l. clear E.
  set (d := fun q => (0 + one de q)%Z).
  unfold direntry_ensure_children. cbn [direntries]. rewrite (obj_get_ok _ _ _ _ _ Hde), bind_ret_l, Hlooked.
  rewrite bind_ret_l. unfold direntry_get_first_child. cbn [direntries inodes].
  rewrite (obj_get_ok _ _ _ _ _ Hde), bind_ret_l.
  rewrite (copy_sibling h name_of _ ps 3 d Hchildren Hroom), bind_ret_l.
  2:{ intros q. specialize (Ho q). unfold d. lia. }
  rewrite (find_child_ok h name_of name _ ps fuel 1 d Hchildren Hfuel Hroom), bind_ret_l.
  2:{ intros q. specialize (Ho q). unfold d. lia. }
  fold child. assert (Hch : forall q, (0 <= one_more child q <= 1)%Z).
  { intros q. destruct child; [apply one_range|cbn; lia]. }
  rewrite (de_delete_ok h 3 _ de Hroom Hlive), bind_ret_l.
  2:{ unfold d. rewrite one_self. specialize (Hch de). lia. }
  do 3 f_equal. apply adds_ext. intros q _. unfold d. lia.
Qed.

(** C12: looking a name up in a directory whose children were fetched gives the
    first child of that name with one more reference, for the kernel's lookup
    count, or ENOENT; every other reference taken on the way is given back. *)
Theorem lookup_child (fuel : nat) (tryget : tryget_listing) (ino : Z) (name : cstr)
    (m : InodeMap.inode_map) (lm : Listing.store) (h : heap direntry) (de : nat) (r : ref_count) (v : direntry)
    (name_of : nat -> cstr) (ps : list nat)
    (Hino : (0 <= ino < InodeMap.s_inode_map_used m)%Z)
    (Hmap : InodeMap.s_inode_map m !! Z.to_nat ino = Some (Some de))
    (Hde : h !! de = Some (r, v)) (Hcounted : counted v = true) (Hlooked : looked_for_children v = true)
    (Hchildren : siblings h name_of (children v) ps) (Hfuel : length ps <= fuel)
    (Hroom : counts_ok 3 h) :
  let child := first_named name_of name ps in
  direntry_get_child_by_name fuel tryget ino name (Fs h m lm) =
    Ret (match child with Some _ => 0%Z | None => ENOENT end, child, Fs (adds h (one_more child)) m lm).
Proof. by apply (child_by_name_ok fuel tryget ino name m lm h de r v name_of ps). Qed.

Definition demo_name (p : nat) : cstr := if decide (p = 12) then cs "a" else cs "b".
Definition demo_map : InodeMap.inode_map :=
  InodeMap.Map (None :: (Some <$> [10; 11; 12; 13])) 5 5.

Lemma lookup_child_witness :
  direntry_get_child_by_name 2 (fun _ => Ret (EIO, [])) 2 (cs "b") (Fs demo_tree demo_map no_listings) =
    Ret (0%Z, Some 13, Fs (adds demo_tree (one 13)) demo_map no_listings).
Proof.
  apply (lookup_child 2 (fun _ => Ret (EIO, [])) 2 (cs "b") demo_map no_listings demo_tree 11 (RefCount 1)
    (demo_de (cs "d") 2 None (Some 10) (Some 12)) demo_name [12; 13]).
  - split; [vm_compute; discriminate|reflexivity].
  - reflexivity.
  - reflexivity.
  - reflexivity.
  - reflexivity.
  - apply (siblings_next _ _ 12 (RefCount 1) (demo_de (cs "a") 3 (Some 13) (Some 11) None));
      [reflexivity|reflexivity|reflexivity|].
    apply (siblings_next _ _ 13 (RefCount 1) (demo_de (cs "b") 4 None (Some 11) None));
      [reflexivity|reflexivity|reflexivity|constructor].
  - cbn. lia.
  - apply demo_tree_counts. vm_compute. discriminate.
Defined.

(** The path a directory is asked for by: without its leading slash. *)
Lemma browse_path t : t <> [] -> no_nul t -> until_nul (default NUL <$> drop 1 (stored t)) = tail t.
Proof.
  destruct t as [|c t]; [done|]. intros _ [_ Ht]%Forall_cons. unfold stored. cbn [app fmap list_fmap drop tail].
  change (until_nul (default NUL <$> stored t) = t). by apply stored_text.
Qed.

Lemma ancestry_path h p ns : ancestry h p ns -> path_text ns <> [].
Proof. by destruct 1; [unfold path_text; cbn; destruct n|rewrite path_text_snoc; destruct (path_text ns), n]. Qed.

(** What looking into a directory comes to, up to the page. *)
Lemma ensure_page fuel tryget de r v names f :
  direntries f !! de = Some (r, v) -> counted v = true -> looked_for_children v = false ->
  ancestry (direntries f) de names -> length names <= fuel -> counts_ok (length names) (direntries f) ->
  no_nul (path_text names) ->
  is_Some (indexnodes (lists f) !! li_in (li v)) ->
  (0 < refs_of (indexnodes (lists f)) (li_in (li v)) < 2 ^ 32 - 1)%Z ->
  direntry_ensure_children fuel tryget de f =
    ('(rc, es) ← tryget (tail (path_text names));
     '(lis, st) ← entries_found (li_in (li v)) es []
       (Listing.Store (listings (lists f)) (adds (indexnodes (lists f)) (one (li_in (li v)))));
     let f := Fs (direntries f) (inodes f) st in
     '(dirents, ret, f) ←
       (if negb (rc =? 0)%Z then
          '(dirents, f) ← direntries_from_listing_list lis de f;
          l ← listing_list_delete lis (listings (lists f));
          Ret (dirents, 0%Z, set_listings l f)
        else Ret (None, EIO, f));
     '(r, v) ← deref (direntries f !! de);
     Ret (ret, Fs (<[de := (r, set_children v dirents true)]> (direntries f)) (inodes f) (lists f))).
Proof.
  intros Hde Hc Hl Hn Hf Hk Hnul Hin Hr. unfold direntry_ensure_children, obj_get. rewrite Hde.
  change (snd <$> deref (Some (r, v))) with (Ret v). rewrite bind_ret_l, Hl.
  rewrite (get_path_ok _ _ _ _ Hn Hf Hk), bind_ret_l, Hc. cbv zeta.
  pose proof (obj_copy_ok (indexnodes (lists f)) (fun _ => 0%Z) (li_in (li v)) Hin ltac:(lia)) as E.
  rewrite adds_0 in E by done. rewrite E, bind_ret_l. by rewrite browse_path by (done || by eapply ancestry_path).
Qed.

(** C38: a directory whose listing is fetched successfully is left with no
    children and remembered as looked up: [indexnode_tryget_listing] returns 0
    for success, and 0 is the branch that builds nothing. The result is EIO,
    then and every later time. Everything the page brought is lost: each entry
    leaves a listing with the two references that nothing drops, and the
    indexnode keeps one reference for each, and one more for the call. *)
Theorem successful_listing_is_empty (fuel : nat) (tryget : tryget_listing) (de : nat)
    (r : ref_count) (v : direntry) (names : list cstr) (f : fs) (es : list Filelist.entry)
    (Hde : direntries f !! de = Some (r, v)) (Hcounted : counted v = true)
    (Hlooked : looked_for_children v = false)
    (Hnames : ancestry (direntries f) de names) (Hfuel : length names <= fuel)
    (Hroom : counts_ok (length names) (direntries f)) (Hnul : no_nul (path_text names))
    (Hsuccess : tryget (tail (path_text names)) = Ret (0%Z, es)) (Hentries : Forall good_entry es)
    (Hin : is_Some (indexnodes (lists f) !! li_in (li v)))
    (Hrefs : (0 < refs_of (indexnodes (lists f)) (li_in (li v)))%Z)
    (Hspace : (refs_of (indexnodes (lists f)) (li_in (li v)) + Z.of_nat (length es) + 1 < 2 ^ 32)%Z) :
  exists f' ps, direntry_ensure_children fuel tryget de f = Ret (EIO, f') /\
    direntries f' = <[de := (r, set_children v None true)]> (direntries f) /\
    length ps = length es /\ NoDup ps /\
    Forall (fun p => listings (lists f) !! p = None /\ is_new (listings (lists f')) p) ps /\
    (forall p, p ∉ ps -> listings (lists f') !! p = listings (lists f) !! p) /\
    indexnodes (lists f') =
      adds (indexnodes (lists f)) (fun q => (Z.of_nat (length ps) + 1) * one (li_in (li v)) q)%Z /\
    forall fuel' tryget', direntry_ensure_children fuel' tryget' de f' = Ret (EIO, f').
Proof.
  rewrite (ensure_page fuel tryget de r v names f) by (done || lia). rewrite Hsuccess, bind_ret_l.
  set (in_ := li_in (li v)) in *. set (I := indexnodes (lists f)) in *. set (I1 := adds I _).
  assert (is_Some (I1 !! in_) /\ refs_of I1 in_ = refs_of I in_ + 1)%Z as [Hin1 Er].
  { unfold I1, refs_of. destruct Hin as [[x u] Hx]. rewrite lookup_adds, Hx. cbn. unfold one. rewrite decide_True by done. eauto. }
  destruct (entries_found_ok in_ es [] (Listing.Store (listings (lists f)) I1) Hentries Hin1) as (qs & l & E & Hl & HN & Hnew & Hold & Hsame);
    [cbn [indexnodes]; lia|constructor|done|].
  cbn [fmap list_fmap] in E. rewrite E, bind_ret_l.
  change (0 =? 0)%Z with true. cbn [negb]. rewrite bind_ret_l. cbn [direntries inodes lists]. rewrite Hde.
  eexists _, qs. cbn [direntries lists listings indexnodes deref app] in *. split_and!; try done.
  - apply Forall_forall. intros p Hp. rewrite Forall_forall in Hnew, Hold. by split; [apply Hold|apply Hnew].
  - unfold I1. rewrite adds_adds. apply adds_ext. intros q _. rewrite Hl. lia.
  - intros fuel' tryget'. unfold direntry_ensure_children, obj_get. cbn [direntries]. rewrite lookup_insert_eq. done.
Qed.

Definition demo_dir : direntry := Direntry root_listing true 1 None None None false.
Definition demo_fs : fs :=
  Fs {[ 1 := (RefCount 1, demo_dir) ]} InodeMap.initial (Listing.Store ∅ {[ 0 := (RefCount 1, tt) ]}).

Lemma successful_listing_is_empty_witness :
  exists f' p, direntry_ensure_children 1 (fun _ => Ret (0%Z, [demo_entry])) 1 demo_fs = Ret (EIO, f') /\
    direntries f' = <[1 := (RefCount 1, set_children demo_dir None true)]> (direntries demo_fs) /\
    is_new (listings (lists f')) p /\ refs_of (indexnodes (lists f')) 0 = 3%Z /\
    forall fuel' tryget', direntry_ensure_children fuel' tryget' 1 f' = Ret (EIO, f').
Proof.
  destruct (successful_listing_is_empty 1 (fun _ => Ret (0%Z, [demo_entry])) 1 (RefCount 1) demo_dir [[]] demo_fs [demo_entry])
    as (f' & ps & E & Hd & Hl & _ & HF & _ & Hi & Hlater).
  - reflexivity.
  - reflexivity.
  - reflexivity.
  - apply (ancestry_top _ 1 (RefCount 1) demo_dir); reflexivity.
  - cbn. lia.
  - apply map_Forall_singleton. split; reflexivity.
  - repeat constructor. discriminate.
  - reflexivity.
  - apply Forall_cons. split; [|constructor]. split; [|by eexists]. eexists. split; [reflexivity|by left].
  - by eexists.
  - vm_compute. reflexivity.
  - vm_compute. reflexivity.
  - destruct ps as [|p [|? ?]]; try discriminate Hl. apply Forall_cons in HF as [[_ Hp] _].
    exists f', p. split_and!; [exact E|exact Hd|exact Hp| |exact Hlater]. rewrite Hi. vm_compute. reflexivity.
Defined.
