(* ===== verification/Browse.v ===== *)
(** * direntry.c with indexnode.c: what looking into a directory comes to

    A lookup in a directory that was not looked into fetches the directory's
    page from the indexnode of its listing. Here [Direntry]'s lookup and
    [Indexnode]'s fetch are put together. *)
From S2P Require Import Indexnode.
From S2P Require Import Prelude CLib RefCount Counted Fetcher Parsers Listing ReadContext Direntry.

(** ** Facts *)

Lemma ancestry_adds h d p ns : ancestry h p ns -> ancestry (adds h d) p ns.
Proof.
  induction 1 as [p r v n Hp Hpar Hn|p r v q n ns Hp Hpar (r' & v' & Hq & Hc) Hn Ha IH].
  - apply (ancestry_top _ p (RefCount (count r + d p)) v); [|done..]. by rewrite lookup_adds, Hp.
  - apply (ancestry_child _ p (RefCount (count r + d p)) v q); [|done| |done|done].
    + by rewrite lookup_adds, Hp.
    + exists (RefCount (count r' + d q)), v'. by rewrite lookup_adds, Hq.
Qed.

Lemma counts_ok_more n (h : heap direntry) p : counts_ok (S n) h -> counts_ok n (adds h (one p)).
Proof.
  intros Hk q [r v]. rewrite lookup_adds. destruct (h !! q) as [[r' v']|] eqn:Hq; [|done].
  intros [= <- <-]. specialize (Hk q (r', v') Hq). cbn in *. pose proof (one_range p q). lia.
Qed.

(** Changing a direntry and counting a reference commute. *)
Lemma adds_change h p r v (v' : direntry) d :
  h !! p = Some (r, v) -> <[p := (RefCount (count r + d p), v')]> (adds h d) = adds (<[p := (r, v')]> h) d.
Proof.
  intros Hp. apply map_eq. intros q. rewrite lookup_adds. destruct (decide (q = p)) as [->|Hne].
  - by rewrite !lookup_insert_eq.
  - by rewrite !lookup_insert_ne, lookup_adds by done.
Qed.

(** A page that is not parsed leaves a directory without children. *)
Lemma empty_page_ok (fuel : nat) (tryget : tryget_listing) (de : nat) (r : ref_count) (v : direntry)
    (names : list cstr) (f : fs) (rc : Z) :
  direntries f !! de = Some (r, v) -> counted v = true -> looked_for_children v = false ->
  ancestry (direntries f) de names -> length names <= fuel -> counts_ok (length names) (direntries f) ->
  no_nul (path_text names) -> tryget (tail (path_text names)) = Ret (rc, []) ->
  is_Some (indexnodes (lists f) !! li_in (li v)) ->
  (0 < refs_of (indexnodes (lists f)) (li_in (li v)) < 2 ^ 32 - 1)%Z ->
  direntry_ensure_children fuel tryget de f =
    Ret (if (rc =? 0)%Z then EIO else 0%Z,
         Fs (<[de := (r, set_children v None true)]> (direntries f)) (inodes f)
           (Listing.Store (listings (lists f)) (adds (indexnodes (lists f)) (one (li_in (li v)))))).
Proof.
  intros Hde Hc Hl Hn Hf Hk Hnul Ht Hin Hr. rewrite (ensure_page fuel tryget de r v names f) by done.
  rewrite Ht, bind_ret_l. cbn [entries_found]. rewrite bind_ret_l.
  destruct (rc =? 0)%Z; cbn [negb]; [|cbn [direntries_from_listing_list direntries_loop listing_list_get_count length listing_list_delete]];
    rewrite !bind_ret_l; cbn [direntries inodes lists set_listings listings indexnodes]; by rewrite Hde.
Qed.

(** ** Properties *)

(** C9: whatever the network answers, a lookup in a directory that was not
    looked into finds nothing. If the indexnode's answer has a body the lookup
    is undefined: the body never gets to the parser. If it has none, the lookup
    fails with ENOENT, whether the fetch failed or not; the directory is
    remembered as empty, so that every later lookup of any name fails too, and
    the indexnode is left with a reference too many. *)
Theorem browsing_finds_nothing `{Curl} (config_alias : cstr) (escape : cstr -> cstr) (web : fetcher -> transfer)
    (xmlParseChunk : list ascii -> list sax * Z) (node : indexnode) (fuel : nat) (ino : Z) (name : cstr)
    (f : fs) (de : nat) (r : ref_count) (v : direntry) (names : list cstr) (tr : transfer)
    (Hino : (0 <= ino < InodeMap.s_inode_map_used (inodes f))%Z)
    (Hmap : InodeMap.s_inode_map (inodes f) !! Z.to_nat ino = Some (Some de))
    (Hde : direntries f !! de = Some (r, v)) (Hcounted : counted v = true)
    (Hlooked : looked_for_children v = false)
    (Hnames : ancestry (direntries f) de names) (Hfuel : length names <= fuel)
    (Hroom : counts_ok (length names + 3) (direntries f)) (Hnul : no_nul (path_text names))
    (Hin : is_Some (indexnodes (lists f) !! li_in (li v)))
    (Hrefs : (0 < refs_of (indexnodes (lists f)) (li_in (li v)) < 2 ^ 32 - 1)%Z)
    (Hpage : page config_alias escape web (pin node) (cs "browse") (tail (path_text names)) = Ret tr) :
  let tryget := indexnode_tryget_listing config_alias escape web xmlParseChunk node in
  match pieces tr with
  | _ :: _ => direntry_get_child_by_name fuel tryget ino name f = Undef
  | [] =>
      exists f', direntry_get_child_by_name fuel tryget ino name f = Ret (ENOENT, None, f') /\
        direntries f' = <[de := (r, set_children v None true)]> (direntries f) /\ inodes f' = inodes f /\
        listings (lists f') = listings (lists f) /\
        indexnodes (lists f') = adds (indexnodes (lists f)) (one (li_in (li v))) /\
        forall fuel' tryget' name', direntry_get_child_by_name fuel' tryget' ino name' f' = Ret (ENOENT, None, f')
  end.
Proof.
  intros tryget. destruct f as [h m lm]. cbn [direntries inodes lists] in *.
  assert (Hlive : live_de h de) by by exists r, v.
  assert (Hget : direntry_get_by_inode ino (Fs h m lm) = Ret (0%Z, Some de, Fs (adds h (one de)) m lm)).
  { unfold direntry_get_by_inode, InodeMap.inode_map_get. cbn [inodes direntries].
    rewrite (proj2 (Z.ltb_lt _ _)), Hmap by lia. cbn [deref]. rewrite bind_ret_l. cbn [deref]. rewrite bind_ret_l.
    pose proof (de_copy_ok h _ (fun _ => 0%Z) de Hroom Hlive ltac:(lia)) as E. rewrite adds_0 in E by done.
    by rewrite E. }
  assert (Hde1 : adds h (one de) !! de = Some (RefCount (count r + one de de), v)) by by rewrite lookup_adds, Hde.
  assert (Htry : tryget (tail (path_text names)) =
    match pieces tr with [] => Ret (process_curl_response (response tr) (code tr), []) | _ :: _ => Undef end).
  { unfold tryget, indexnode_tryget_listing. rewrite (fetch_page_outcome _ _ _ _ _ _ _ _ _ tr Hpage).
    by destruct (pieces tr). }
  assert (Hroom1 : counts_ok (length names) (adds h (one de))) by (eapply counts_ok_more, counts_ok_le; [|exact Hroom]; lia).
  destruct (pieces tr) as [|d ds].
  2:{ unfold direntry_get_child_by_name. rewrite Hget, bind_ret_l. rewrite (ensure_page fuel tryget de _ v names (Fs (adds h (one de)) m lm) Hde1 Hcounted Hlooked
        (ancestry_adds _ _ _ _ Hnames) Hfuel Hroom1 Hnul Hin Hrefs). by rewrite Htry. }
  set (h' := <[de := (r, set_children v None true)]> h).
  set (f' := Fs h' m (Listing.Store (listings lm) (adds (indexnodes lm) (one (li_in (li v)))))).
  assert (Hde' : h' !! de = Some (r, set_children v None true)) by apply lookup_insert_eq.
  assert (Hlive' : live_de h' de) by by exists r, (set_children v None true).
  exists f'. split; [|split_and!; [done..|]].
  - unfold direntry_get_child_by_name. rewrite Hget, bind_ret_l.
    rewrite (empty_page_ok fuel tryget de _ v names (Fs (adds h (one de)) m lm) _ Hde1 Hcounted Hlooked
      (ancestry_adds _ _ _ _ Hnames) Hfuel Hroom1 Hnul Htry Hin Hrefs), bind_ret_l.
    cbn [direntries inodes lists]. rewrite (adds_change h de r v) by done. fold h'.
    unfold direntry_get_first_child. rewrite (obj_get_ok _ _ _ _ _ Hde'), bind_ret_l. cbn [children set_children copy_link].
    rewrite bind_ret_l. assert (forall n x, find_child n name None x = Ret (None, x)) as E by (by intros []). rewrite E. clear E.
    rewrite bind_ret_l. pose proof (Hroom de (r, v) Hde) as Hr. cbn in Hr.
    rewrite de_delete_refs, bind_ret_l; [|done|unfold refs_of; rewrite Hde', one_self; lia].
    by rewrite adds_0 by (intros; lia).
  - intros fuel' tryget' name'. pose proof (child_by_name_ok fuel' tryget' ino name' m
      (lists f') h' de r (set_children v None true) (fun _ => []) [] Hino Hmap Hde' Hcounted eq_refl) as E.
    change (Fs h' m (lists f')) with f' in E. rewrite E; [|constructor|cbn; lia|].
    + cbn. by rewrite adds_0.
    + intros q [r' v'] [[-> [= <- <-]]|[_ Hq]]%lookup_insert_Some; [specialize (Hroom _ _ Hde)|specialize (Hroom _ _ Hq)]; cbn in *; lia.
Qed.

Definition demo_browse : fs :=
  Fs {[ 1 := (RefCount 1, demo_dir) ]} (InodeMap.Map [None; Some 1] 2 2) (Listing.Store ∅ {[ 0 := (RefCount 1, tt) ]}).
Definition demo_index : indexnode :=
  Indexnode (ProtoIndexnode (Str 0 (cs "index.example")) (Str 1 (cs "42000"))) (Str 2 (cs "0.13")) (Str 3 (cs "a")) 0.

Lemma browsing_finds_nothing_witness :
  (exists f', @direntry_get_child_by_name 1
      (@indexnode_tryget_listing script_curl (cs "me") Datatypes.id (fun _ => Transfer [] CURLE_OK 200) (fun _ => ([], 0%Z)) demo_index)
      1 (cs "films") demo_browse = Ret (ENOENT, None, f') /\
    direntries f' = <[1 := (RefCount 1, set_children demo_dir None true)]> (direntries demo_browse) /\
    inodes f' = inodes demo_browse /\ listings (lists f') = ∅ /\
    indexnodes (lists f') = adds (indexnodes (lists demo_browse)) (one 0) /\
    forall fuel' tryget' name', direntry_get_child_by_name fuel' tryget' 1 name' f' = Ret (ENOENT, None, f')) /\
  @direntry_get_child_by_name 1
      (@indexnode_tryget_listing script_curl (cs "me") Datatypes.id (fun _ => Transfer [cs "<html/>"] CURLE_OK 200)
        (fun _ => ([], 0%Z)) demo_index) 1 (cs "films") demo_browse = Undef.
Proof.
  assert (forall tr, page (cs "me") Datatypes.id (fun _ => tr) (pin demo_index) (cs "browse")
    (tail (path_text [[]])) = Ret tr) as Hpage by (intros tr; vm_compute; reflexivity).
  assert (ancestry (direntries demo_browse) 1 [[]]) as Ha by (apply (ancestry_top _ 1 (RefCount 1) demo_dir); reflexivity).
  assert (counts_ok 4 (direntries demo_browse)) as Hc by (apply map_Forall_singleton; split; reflexivity).
  assert (no_nul (path_text [[]])) as Hn by (repeat constructor; discriminate).
  split.
  - apply (@browsing_finds_nothing script_curl (cs "me") Datatypes.id (fun _ => Transfer [] CURLE_OK 200)
      (fun _ => ([], 0%Z)) demo_index 1 1 (cs "films") demo_browse 1 (RefCount 1) demo_dir [[]] (Transfer [] CURLE_OK 200));
      try exact Ha; try exact Hc; try exact Hn; try apply Hpage; try reflexivity; try (cbn; lia); [by eexists|vm_compute; done].
  - apply (@browsing_finds_nothing script_curl (cs "me") Datatypes.id (fun _ => Transfer [cs "<html/>"] CURLE_OK 200)
      (fun _ => ([], 0%Z)) demo_index 1 1 (cs "films") demo_browse 1 (RefCount 1) demo_dir [[]] (Transfer [cs "<html/>"] CURLE_OK 200));
      try exact Ha; try exact Hc; try exact Hn; try apply Hpage; try reflexivity; try (cbn; lia); [by eexists|vm_compute; done].
Defined.
