(* ===== verification/FuseMethods.v ===== *)
(** * fuse_methods/: the filesystem's answers to the kernel

    Each handler takes the state it shares with the others and gives its answer
    and the new state; [fuse_reply_*] are taken to succeed. A file handle is
    the direntry that open or opendir left in [fi->fh]. *)
From S2P Require Import Prelude CLib RefCount Counted Listing ReadContext BinaryHeap Downloader Direntry.

(** ** The code: requests and answers *)

Inductive handle := FhFile (de : nat) | FhDir (de : nat).

Inductive answer :=
| AErr (rc : Z)
| AEntry (e : fuse_entry_param)
| AAttr (st : Z * stat)
| AOpen (fh : handle)
| ABuf (data : list ascii)
| ANone.

(** The configured permission bits and ids. *)
Section Methods.
Variable config : attr_config.
Variable fuel : nat.
Variable tryget : tryget_listing.

(** [mask & ~mode] *)
Definition fsfuse_access (ino mask : Z) (f : fs) : outcome (answer * fs) :=
  '(rc, de, f) ← direntry_get_by_inode ino f;
  match de with
  | Some de =>
      ty ← direntry_get_type de (direntries f);
      let mode := match ty with
                  | listing_type_DIRECTORY => config_attr_mode_dir config
                  | listing_type_FILE => config_attr_mode_file config
                  end in
      let rc := if (Z.land mask (Z.lnot mode) =? 0)%Z then 0%Z else EACCES in
      h ← direntry_delete de (direntries f);
      Ret (AErr rc, Fs h (inodes f) (lists f))
  | None => Ret (AErr rc, f)
  end.

Definition fsfuse_lookup (par : Z) (name : cstr) (f : fs) : outcome (answer * fs) :=
  '(rc, de, f) ← direntry_get_child_by_name fuel tryget par name f;
  match de with
  | Some de => e ← direntry_de2fuse_entry config de (direntries f); Ret (AEntry e, f)
  | None => Ret (AErr rc, f)
  end.

(** [while (nlookup--) direntry_delete(de);] *)
Fixpoint delete_times (n : nat) (de : nat) (h : heap direntry) : outcome (heap direntry) :=
  match n with
  | 0 => Ret h
  | S n => h ← direntry_delete de h; delete_times n de h
  end.

Definition fsfuse_forget (ino : Z) (nlookup : nat) (f : fs) : outcome (answer * fs) :=
  '(rc, de, f) ← direntry_get_by_inode ino f;
  match de with
  | Some de =>
      h ← direntry_delete de (direntries f);
      h ← delete_times nlookup de h;
      Ret (ANone, Fs h (inodes f) (lists f))
  | None => Ret (ANone, f)
  end.

(** [fi] is null when the kernel asks about an inode that is not open (stat);
    the code reads [fi->fh] before anything else. *)
Definition fsfuse_getattr (ino : Z) (fi : option handle) (f : fs) : outcome (answer * fs) :=
  fh ← deref fi;
  match fh with
  | FhFile de =>
      st ← direntry_de2stat config de (direntries f);
      h ← direntry_delete de (direntries f);
      Ret (AAttr st, Fs h (inodes f) (lists f))
  | FhDir _ => Undef      (* the handle is not an open_file_ctxt_t *)
  end.

(** Of [downloader_new] what matters here is the thread's reference. *)
Definition fsfuse_open (ino flags : Z) (f : fs) : outcome (answer * fs) :=
  '(rc, de, f) ← direntry_get_by_inode ino f;
  match de with
  | Some de =>
      ty ← direntry_get_type de (direntries f);
      let rc := if (Z.land flags 3 =? 0)%Z then rc else EROFS in
      let rc := match ty with listing_type_FILE => rc | _ => EISDIR end in
      if (rc =? 0)%Z then
        h ← direntry_copy de (direntries f);
        Ret (AOpen (FhFile de), Fs h (inodes f) (lists f))
      else Ret (AErr rc, f)
  | None => Ret (AErr rc, f)
  end.

Definition fsfuse_opendir (ino flags : Z) (f : fs) : outcome (answer * fs) :=
  '(rc, de, f) ← direntry_get_by_inode ino f;
  match de with
  | Some de =>
      ty ← direntry_get_type de (direntries f);
      let rc := if (Z.land flags 3 =? 0)%Z then rc else EROFS in
      let rc := match ty with listing_type_DIRECTORY => rc | _ => ENOTDIR end in
      Ret (if (rc =? 0)%Z then AOpen (FhDir de) else AErr rc, f)
  | None => Ret (AErr rc, f)
  end.

Definition fsfuse_release (fh : handle) (f : fs) : outcome (answer * fs) :=
  match fh with
  | FhFile de =>
      h ← direntry_delete de (direntries f);
      h ← direntry_delete de h;
      Ret (AErr 0, Fs h (inodes f) (lists f))
  | FhDir _ => Undef
  end.

Definition fsfuse_releasedir (fh : handle) (f : fs) : outcome (answer * fs) :=
  match fh with
  | FhDir de =>
      h ← direntry_delete de (direntries f);
      h ← direntry_delete de h;
      Ret (AErr 0, Fs h (inodes f) (lists f))
  | FhFile _ => Undef
  end.

(** ** The code: readdir *)

(** libfuse's [fuse_add_direntry]: the bytes of an entry for a name, its
    attributes and the offset of the next. Called with no buffer it gives their
    number. *)
Variable fuse_add_direntry : cstr -> Z * stat -> Z -> list ascii.
Variable entry_size : cstr -> Z.

Definition dirbuf_add (buf : list ascii) (de : nat) (name : option cstr) (f : fs)
  : outcome (list ascii) :=
  name ← (match name with Some n => Ret n | None => direntry_get_name de (direntries f) end);
  let size := (Z.of_nat (length buf) + entry_size name)%Z in
  st ← direntry_de2stat config de (direntries f);
  Ret (buf ++ fuse_add_direntry name st size).

Fixpoint add_children (n : nat) (child : option nat) (buf : list ascii) (f : fs)
  : outcome (list ascii * fs) :=
  match child, n with
  | None, _ => Ret (buf, f)
  | Some _, 0 => Blocked
  | Some de, S n =>
      buf ← dirbuf_add buf de None f;
      '(next, h) ← direntry_get_next_sibling de (direntries f);
      h ← direntry_delete de h;
      add_children n next buf (Fs h (inodes f) (lists f))
  end.

(** The parent's entry, the directory's own for want of one. *)
Definition add_dotdot (buf : list ascii) (de : nat) (f : fs) : outcome (list ascii * fs) :=
  '(par, h) ← direntry_get_parent de (direntries f);
  let f := Fs h (inodes f) (lists f) in
  match par with
  | Some p =>
      buf ← dirbuf_add buf p (Some (cs "..")) f;
      h ← direntry_delete p (direntries f);
      Ret (buf, Fs h (inodes f) (lists f))
  | None => buf ← dirbuf_add buf de (Some (cs "..")) f; Ret (buf, f)
  end.

Definition fsfuse_readdir (size off : Z) (fh : handle) (f : fs) : outcome (answer * fs) :=
  match fh with
  | FhFile _ => Undef
  | FhDir de =>
      buf ← dirbuf_add [] de (Some (cs ".")) f;
      '(buf, f) ← add_dotdot buf de f;
      '(_, f) ← direntry_ensure_children fuel tryget de f;
      '(child, h) ← direntry_get_first_child de (direntries f);
      '(buf, f) ← add_children fuel child buf (Fs h (inodes f) (lists f));
      let bufsize := Z.of_nat (length buf) in
      if (u32 off <? bufsize)%Z then
        (* bufsize - off as a size_t; past the buffer is undefined *)
        data ← mem_read buf (Z.to_nat off) (Z.to_nat (Z.min (u64 (bufsize - off)) size));
        Ret (ABuf data, f)
      else Ret (ABuf [], f)
  end.

(** ** The code: what a read-only filesystem does not do *)

Definition fsfuse_setattr (ino : Z) : answer := AErr EROFS.
Definition fsfuse_mknod (parent : Z) (name : cstr) : answer := AErr EROFS.
Definition fsfuse_mkdir (parent : Z) (name : cstr) : answer := AErr EROFS.
Definition fsfuse_unlink (parent : Z) (name : cstr) : answer := AErr EROFS.
Definition fsfuse_rmdir (parent : Z) (name : cstr) : answer := AErr EROFS.
Definition fsfuse_symlink (link : cstr) (parent : Z) (name : cstr) : answer := AErr EROFS.
Definition fsfuse_rename (parent : Z) (name : cstr) (newparent : Z) (newname : cstr) : answer :=
  AErr EROFS.
Definition fsfuse_link (ino newparent : Z) (newname : cstr) : answer := AErr EROFS.
Definition fsfuse_write (ino : Z) (buf : list ascii) (size off : Z) : answer := AErr EROFS.
Definition fsfuse_create (parent : Z) (name : cstr) (mode : Z) : answer := AErr EROFS.
Definition fsfuse_fsync (ino datasync : Z) : answer := AErr EROFS.
Definition fsfuse_fsyncdir (ino datasync : Z) : answer := AErr EROFS.
Definition fsfuse_flush (ino : Z) : answer := AErr 0.
(** [assert(0)] comes before the reply. *)
Definition fsfuse_readlink (ino : Z) : outcome answer := _ ← c_assert false; Ret (AErr EIO).
Definition fsfuse_bmap (ino blocksize idx : Z) : answer := AErr EIO.

(** [fuse_methods], the table libfuse calls through: the requests that are
    answered from the tree, or not at all. Its other entries are below
    ([fsfuse_read] and [fsfuse_statfs], which work on a downloader and on the
    indexnodes); [init] and [destroy] have no reply and make and delete the
    collection of indexnodes, [Collection]'s subject. *)
Inductive request :=
| Lookup (parent : Z) (name : cstr) | Forget (ino : Z) (nlookup : nat) | Getattr (ino : Z) (fi : option handle)
| Access (ino mask : Z) | Open (ino flags : Z) | Release (fh : handle)
| Opendir (ino flags : Z) | Readdir (size off : Z) (fh : handle) | Releasedir (fh : handle)
| Setattr (ino : Z) | Readlink (ino : Z) | Mknod (parent : Z) (name : cstr)
| Mkdir (parent : Z) (name : cstr) | Unlink (parent : Z) (name : cstr)
| Rmdir (parent : Z) (name : cstr) | Symlink (link : cstr) (parent : Z) (name : cstr)
| Rename (parent : Z) (name : cstr) (newparent : Z) (newname : cstr)
| Link (ino newparent : Z) (newname : cstr) | Write (ino : Z) (buf : list ascii) (size off : Z)
| Flush (ino : Z) | Fsync (ino datasync : Z) | Fsyncdir (ino datasync : Z)
| Create (parent : Z) (name : cstr) (mode : Z) | Bmap (ino blocksize idx : Z).

Definition fuse_methods (r : request) (f : fs) : outcome (answer * fs) :=
  match r with
  | Lookup p n => fsfuse_lookup p n f
  | Forget i n => fsfuse_forget i n f
  | Getattr i fi => fsfuse_getattr i fi f
  | Access i m => fsfuse_access i m f
  | Open i fl => fsfuse_open i fl f
  | Release fh => fsfuse_release fh f
  | Opendir i fl => fsfuse_opendir i fl f
  | Readdir s o fh => fsfuse_readdir s o fh f
  | Releasedir fh => fsfuse_releasedir fh f
  | Setattr i => Ret (fsfuse_setattr i, f)
  | Readlink i => a ← fsfuse_readlink i; Ret (a, f)
  | Mknod p n => Ret (fsfuse_mknod p n, f)
  | Mkdir p n => Ret (fsfuse_mkdir p n, f)
  | Unlink p n => Ret (fsfuse_unlink p n, f)
  | Rmdir p n => Ret (fsfuse_rmdir p n, f)
  | Symlink l p n => Ret (fsfuse_symlink l p n, f)
  | Rename p n p' n' => Ret (fsfuse_rename p n p' n', f)
  | Link i p n => Ret (fsfuse_link i p n, f)
  | Write i b s o => Ret (fsfuse_write i b s o, f)
  | Flush i => Ret (fsfuse_flush i, f)
  | Fsync i d => Ret (fsfuse_fsync i d, f)
  | Fsyncdir i d => Ret (fsfuse_fsyncdir i d, f)
  | Create p n m => Ret (fsfuse_create p n m, f)
  | Bmap i b x => Ret (fsfuse_bmap i b x, f)
  end.

End Methods.

(** ** The code: read *)

Section Read.
Context {Q : Type} `{PriQ chunk Q}.

(** The size left after the file's end is taken into account. [off] and the
    file's size are [off_t], [size] is [size_t]; their sum is cut to 32 bits. *)
Definition read_size (file_size off size : Z) : Z :=
  if (file_size <=? off)%Z then 0
  else if (file_size <=? u32 (off + size))%Z then u64 (file_size - off)
  else size.

(** [buf] and [read_ctxt] are the addresses the allocations give. *)
Definition fsfuse_read (req size off : Z) (buf : nat) (read_ctxt : Z) (t : downloader Q)
  : outcome (downloader Q) :=
  let size := read_size (de_size t) off size in
  let w := world t in
  let w := IO (<[buf := replicate (Z.to_nat size) None]> (blocks w))
              (<[read_ctxt := ReadContext req size buf]> (ctxts w)) (de_refs w) (replies w) in
  downloader_chunk_add (Request off (i64 (u64 (off + size))) buf read_ctxt) (set_world t w).

End Read.

(** ** The code: statfs *)

Record stats_ctxt := StatsCtxt {
  f_files : Z; f_bsize : Z; bytes_total : Z; cbs_remaining : Z
}.
(** The context, null once freed, and the replies: files and blocks. *)
Record statfs_state := StatfsState { sctxt : option stats_ctxt; sreplies : list (Z * Z) }.

Definition stats_cb (files bytes : Z) (s : statfs_state) : outcome statfs_state :=
  c ← deref (sctxt s);
  let c := StatsCtxt (u64 (f_files c + files)) (f_bsize c) (u64 (bytes_total c + bytes))
             (u32 (cbs_remaining c - 1)) in
  if (cbs_remaining c =? 0)%Z
  then Ret (StatfsState None (sreplies s ++ [(f_files c, bytes_total c / f_bsize c)%Z]))
  else Ret (StatfsState (Some c) (sreplies s)).

(** [reports]: for each indexnode in the list, the calls its statistics page
    makes. The context is counted up first, then each indexnode is queried. *)
Definition fsfuse_statfs (reports : list (list (Z * Z))) : outcome statfs_state :=
  let c := StatsCtxt 0 FSFUSE_BLKSIZE 0 (u32 (Z.of_nat (length reports))) in
  foldl (fun m r => s ← m; foldl (fun m fb => s ← m; stats_cb (fst fb) (snd fb) s) (Ret s) r)
    (Ret (StatfsState (Some c) [])) reports.

(** ** Reads *)

Section ReadFacts.
Context {Q : Type} `{PriQ chunk Q}.
Implicit Types t : downloader Q.

Lemma read_size_end size off len :
  (0 <= off <= len)%Z -> (0 <= size)%Z -> (off + size < 2 ^ 32)%Z ->
  (len < 2 ^ 63)%Z -> (off + read_size len off size)%Z = Z.min (off + size) len.
Proof.
  intros Ho Hs Hb Hl. unfold read_size. destruct (Z.leb_spec len off).
  - lia.
  - rewrite u32_id by lia. destruct (Z.leb_spec len (off + size)); [|lia].
    rewrite u64_id by lia. lia.
Qed.

Lemma read_ok file req_of req size off buf ctxt t :
  let len := Z.of_nat (length file) in
  de_size t = len -> (0 <= off <= len)%Z -> (0 <= size)%Z -> (off + size < 2 ^ 32)%Z ->
  (len < 2 ^ 63)%Z -> pq_wf (chunks t) -> (Z.of_nat (length (queued (chunks t))) < pq_max)%Z ->
  req_of ctxt = req ->
  let c := chunk_of (Request off (Z.min (off + size) len) buf ctxt) in
  exists t', fsfuse_read req size off buf ctxt t = Ret t' /\ pq_wf (chunks t') /\
    queued (chunks t') ≡ₚ c :: queued (chunks t) /\ chunk_ok file req_of (world t') c.
Proof.
  intros len Hsz Ho Hs Hb Hl Hwf Hm Hreq c. unfold fsfuse_read. rewrite Hsz.
  pose proof (read_size_end size off len Ho Hs Hb Hl) as He.
  assert (Hr : (0 <= read_size len off size)%Z).
  { unfold read_size. repeat case_match; [lia| |lia]. unfold u64.
    pose proof (Z.mod_pos_bound (len - off) (2 ^ 64) ltac:(lia)). lia. }
  rewrite u64_id, i64_id, He by lia.
  set (t1 := set_world t _).
  destruct (chunk_add_ok (Request off (Z.min (off + size) len) buf ctxt) t1) as (q & E & Hq & HP).
  { done. }
  { unfold in_file, t1. cbn [req_start req_end de_size set_world]. lia. }
  { done. }
  exists (set_chunks t1 q). split_and!; [done|done|done|].
  unfold chunk_ok, c, t1, chunk_of, chunk_new, origin, file_size. cbn.
  rewrite !lookup_insert_eq. eexists _, _. split_and!; try done; try lia.
  rewrite length_replicate. fold len. lia.
Qed.

(** What the downloader's assertions do not let through. *)
Lemma read_aborts_on size off buf ctxt t :
  (0 <= size)%Z -> (0 <= off /\ off + size < 2 ^ 63)%Z ->
  (de_size t < off \/ off < de_size t < off + size /\ u32 (off + size) < de_size t)%Z ->
  downloader_chunk_add (Request off (i64 (u64 (off + read_size (de_size t) off size))) buf ctxt) t = AssertFail.
Proof.
  intros Hsize Hend Hbad. unfold downloader_chunk_add, read_size. cbn [req_start req_end].
  destruct (Z.leb_spec (de_size t) off) as [Hle|Hgt].
  - rewrite u64_id, i64_id by lia. rewrite (proj2 (Z.leb_le off (off + 0))) by lia.
    cbn [c_assert]. rewrite bind_ret_l. by rewrite (proj2 (Z.leb_gt off (de_size t))) by lia.
  - rewrite (proj2 (Z.leb_gt (de_size t) _)) by lia. rewrite u64_id, i64_id by lia.
    rewrite (proj2 (Z.leb_le off (off + size))) by lia. cbn [c_assert]. rewrite bind_ret_l.
    rewrite (proj2 (Z.leb_le off (de_size t))) by lia. cbn [c_assert]. rewrite bind_ret_l.
    by rewrite (proj2 (Z.leb_gt (off + size) _)) by lia.
Qed.

End ReadFacts.

(** ** Handles *)

Lemma by_inode_ok m lm h ino de :
  (0 <= ino < InodeMap.s_inode_map_used m)%Z -> InodeMap.s_inode_map m !! Z.to_nat ino = Some (Some de) ->
  live_de h de -> counts_ok 1 h ->
  direntry_get_by_inode ino (Fs h m lm) = Ret (0%Z, Some de, Fs (adds h (one de)) m lm).
Proof.
  intros Hino Hmap Hlive Hroom. unfold direntry_get_by_inode, InodeMap.inode_map_get.
  cbn [inodes direntries]. rewrite (proj2 (Z.ltb_lt _ _)), Hmap by lia. cbn [deref].
  rewrite bind_ret_l. cbn [deref]. rewrite bind_ret_l.
  pose proof (de_copy_ok h 1 (fun _ => 0%Z) de Hroom Hlive ltac:(lia)) as E.
  rewrite adds_0 in E by done. rewrite E, !bind_ret_l. do 3 f_equal.
Qed.

(** ** Directory listings *)

Section Readdir.
Variable config : attr_config.
Variable fuse_add_direntry : cstr -> Z * stat -> Z -> list ascii.
Variable entry_size : cstr -> Z.

(** An entry of a directory: a name and the attributes shown with it. *)
Definition entry : Type := cstr * (Z * stat).

(** The entries' bytes, each with the offset where the next begins. *)
Definition dirbuf (es : list entry) : list ascii :=
  foldl (fun buf e => buf ++ fuse_add_direntry (fst e) (snd e)
                        (Z.of_nat (length buf) + entry_size (fst e))) [] es.

Definition stat_of (v : direntry) : Z * stat := (inode v, listing_li2stat config (li v)).

Inductive child_entries (h : heap direntry) : option nat -> list entry -> Prop :=
| child_entries_end : child_entries h None []
| child_entries_next p r v n es :
    h !! p = Some (r, v) -> counted v = true -> li_name (li v) = Some n ->
    child_entries h (next v) es -> child_entries h (Some p) ((n, stat_of v) :: es).

Lemma dirbuf_snoc es e :
  dirbuf (es ++ [e]) = dirbuf es ++ fuse_add_direntry (fst e) (snd e)
    (Z.of_nat (length (dirbuf es)) + entry_size (fst e)).
Proof. unfold dirbuf. by rewrite foldl_snoc. Qed.

Lemma dirbuf_add_ok es de r v n name h d m lm :
  h !! de = Some (r, v) -> default (default [] (li_name (li v))) name = n ->
  (name = None -> is_Some (li_name (li v))) ->
  dirbuf_add config fuse_add_direntry entry_size (dirbuf es) de name (Fs (adds h d) m lm) =
    Ret (dirbuf (es ++ [(n, stat_of v)])).
Proof.
  intros Hde Hn Hs. unfold dirbuf_add.
  assert (E : (match name with Some n => Ret n
    | None => direntry_get_name de (adds h d) end) = Ret n).
  { destruct name as [n'|]; cbn in *; [by subst|]. unfold direntry_get_name.
    rewrite (obj_get_ok _ _ _ _ _ Hde), bind_ret_l. destruct (Hs eq_refl) as [x Ex].
    rewrite Ex in *. by subst. }
  cbn [direntries]. rewrite E, bind_ret_l. unfold direntry_de2stat.
  rewrite (obj_get_ok _ _ _ _ _ Hde), !bind_ret_l, dirbuf_snoc. done.
Qed.

Lemma add_children_ok h c ces n es k d m lm :
  child_entries h c ces -> length ces <= n -> counts_ok (k + 2) h -> (forall q, 0 <= d q <= Z.of_nat k)%Z ->
  add_children config fuse_add_direntry entry_size n c (dirbuf es)
    (Fs (adds h (fun q => d q + one_more c q)%Z) m lm) =
    Ret (dirbuf (es ++ ces), Fs (adds h d) m lm).
Proof.
  intros Hc. revert n es. induction Hc as [|p r v nm ces Hp Hct Hn Hc IH]; intros n es Hf Hk Hd.
  { destruct n; cbn [add_children]; rewrite app_nil_r; do 3 f_equal; apply adds_ext; intros; cbn; lia. }
  destruct n as [|n]; cbn [length] in Hf; [lia|]. cbn [add_children].
  rewrite (dirbuf_add_ok es p r v nm None) by (rewrite ?Hn; done). rewrite bind_ret_l.
  unfold direntry_get_next_sibling. cbn [direntries]. rewrite (obj_get_ok _ _ _ _ _ Hp), bind_ret_l.
  cbn [one_more].
  assert (Hr : forall q, (0 <= one_more (next v) q <= 1)%Z).
  { intros q. destruct (next v); [apply one_range|cbn; lia]. }
  assert (E : copy_link (next v) (adds h (fun q => d q + one p q)%Z) =
    Ret (next v, adds h (fun q => d q + one p q + one_more (next v) q)%Z)).
  { destruct Hc as [|q r' v' n' es' Hq Hcq Hnq Hc]; cbn [copy_link one_more].
    - do 2 f_equal. apply adds_ext. intros. lia.
    - rewrite (de_copy_ok h _ _ q Hk); [done|by exists r', v'|].
      specialize (Hd q). pose proof (one_range p q). lia. }
  rewrite E, bind_ret_l. rewrite (de_delete_ok h _ _ p Hk), bind_ret_l; [|by exists r, v|].
  2:{ specialize (Hd p). specialize (Hr p). rewrite one_self. lia. }
  cbn [inodes]. replace (es ++ (nm, stat_of v) :: ces) with ((es ++ [(nm, stat_of v)]) ++ ces)
    by (by rewrite <- app_assoc).
  rewrite <- (IH n) by (done || lia).
  do 2 f_equal. apply adds_ext. intros q _. lia.
Qed.

(** The attributes shown for [..]. *)
Definition parent_stat (h : heap direntry) (v : direntry) : Z * stat :=
  match parent v with
  | Some p => from_option (fun rv => stat_of (snd rv)) (stat_of v) (h !! p)
  | None => stat_of v
  end.

Lemma dirbuf_add_named es de r v name h m lm :
  h !! de = Some (r, v) ->
  dirbuf_add config fuse_add_direntry entry_size (dirbuf es) de (Some name) (Fs h m lm) =
    Ret (dirbuf (es ++ [(name, stat_of v)])).
Proof.
  intros Hde. rewrite <- (adds_0 h (fun _ => 0%Z)) by done. by apply (dirbuf_add_ok es de r v name).
Qed.

Lemma add_dotdot_ok es de r v h m lm :
  h !! de = Some (r, v) -> (forall p, parent v = Some p -> live_de h p) -> counts_ok 2 h ->
  add_dotdot config fuse_add_direntry entry_size (dirbuf es) de (Fs h m lm) =
    Ret (dirbuf (es ++ [(cs "..", parent_stat h v)]), Fs h m lm).
Proof.
  intros Hde Hpar Hroom. unfold add_dotdot, direntry_get_parent, parent_stat. cbn [direntries inodes].
  unfold obj_get. rewrite Hde. change (snd <$> deref (Some (r, v))) with (Ret v). rewrite bind_ret_l.
  destruct (parent v) as [p|]; cbn [copy_link].
  - destruct (Hpar p eq_refl) as (r' & v' & Hp & Hc). assert (Hlp : live_de h p) by by exists r', v'.
    pose proof (de_copy_ok h 2 (fun _ => 0%Z) p Hroom Hlp ltac:(lia)) as E.
    rewrite adds_0 in E by done. rewrite E, !bind_ret_l, Hp. cbn [from_option snd].
    rewrite (dirbuf_add_ok es p r' v' (cs "..") (Some (cs ".."))) by done. rewrite bind_ret_l.
    cbn [direntries inodes].
    rewrite (de_delete_ok h 2 _ p Hroom Hlp), bind_ret_l by (rewrite one_self; lia).
    rewrite adds_0 by (intros; lia). done.
  - rewrite !bind_ret_l. by rewrite (dirbuf_add_named es de r v).
Qed.

End Readdir.

(** ** Properties *)

(** C13: a read from anywhere in a file, whose end is below 4 GiB, queues exactly
    one request: for the bytes asked for that the file has, with a fresh buffer
    of that size and a context that answers it, as the download thread
    relies on. *)
Theorem read_clamps {Q} `{PriQ chunk Q} (file : list ascii) (req_of : Z -> Z)
    (req size off : Z) (buf : nat) (ctxt : Z) (t : downloader Q)
    (Hfile : de_size t = Z.of_nat (length file)) (Hlen : (Z.of_nat (length file) < 2 ^ 63)%Z)
    (Hoff : (0 <= off <= Z.of_nat (length file))%Z) (Hsize : (0 <= size)%Z)
    (Hend : (off + size < 2 ^ 32)%Z) (Hwf : pq_wf (chunks t))
    (Hroom : (Z.of_nat (length (queued (chunks t))) < pq_max)%Z) (Hreq : req_of ctxt = req) :
  let c := chunk_of (Downloader.Request off (Z.min (off + size) (Z.of_nat (length file))) buf ctxt) in
  exists t', fsfuse_read req size off buf ctxt t = Ret t' /\ pq_wf (chunks t') /\
    queued (chunks t') ≡ₚ c :: queued (chunks t) /\ chunk_ok file req_of (world t') c.
Proof. by apply read_ok. Qed.

Definition demo_new : downloader (binary_heap chunk) :=
  Downloader 8 binary_heap_new 0 None false false demo_io [].

Lemma read_clamps_witness :
  let c := chunk_of (Downloader.Request 6 (Z.min (6 + 4096) (Z.of_nat (length demo_file))) 2 102) in
  exists t', fsfuse_read 8 4096 6 2 102 demo_new = Ret t' /\ pq_wf (chunks t') /\
    queued (chunks t') ≡ₚ c :: queued (chunks demo_new) /\
    chunk_ok demo_file demo_req (world t') c.
Proof.
  apply (read_clamps demo_file demo_req 8 4096 6 2 102 demo_new).
  - reflexivity.
  - reflexivity.
  - split; vm_compute; discriminate.
  - vm_compute. discriminate.
  - reflexivity.
  - apply new_wf.
  - reflexivity.
  - reflexivity.
Defined.

(** A read that starts past the end of the file, and a read over the end of
    a file whose 32-bit sum of offset and size comes out below the file's size,
    fail the downloader's assertion and end the filesystem, where the comment
    promises no bytes and the bytes up to the end. *)
Theorem read_aborts {Q} `{PriQ chunk Q} (req size off : Z) (buf : nat) (ctxt : Z) (t : downloader Q)
    (Hsize : (0 <= size)%Z) (Hend : (0 <= off /\ off + size < 2 ^ 63)%Z)
    (Hbad : (de_size t < off \/ off < de_size t < off + size /\ u32 (off + size) < de_size t)%Z) :
  fsfuse_read req size off buf ctxt t = AssertFail.
Proof.
  unfold fsfuse_read. by apply (read_aborts_on size off buf ctxt (set_world t _)).
Qed.

(** One byte past the end of an 8-byte file; over the end of a 4 GiB file. *)
Lemma read_aborts_witness :
  fsfuse_read 8 4096 9 2 102 demo_new = AssertFail /\
  fsfuse_read 8 4096 (2 ^ 32 - 10) 2 102
    (Downloader (2 ^ 32) (@binary_heap_new chunk) 0 None false false demo_io []) = AssertFail.
Proof.
  split; apply read_aborts; try (vm_compute; discriminate); try (split; vm_compute; congruence).
  - left. reflexivity.
  - right. split; [split; reflexivity|reflexivity].
Defined.

(** Opening a directory and closing it again, and opening a file, the end of
    its download thread and closing it, each leave the direntry with one
    reference fewer than before: release deletes the reference of open twice,
    as if looking the inode up did not pass on the copy it made. *)
Theorem handles_lose_references (ino : Z) (m : InodeMap.inode_map) (lm : Listing.store) (h : heap direntry) (de : nat)
    (r : ref_count) (v : direntry)
    (Hino : (0 <= ino < InodeMap.s_inode_map_used m)%Z)
    (Hmap : InodeMap.s_inode_map m !! Z.to_nat ino = Some (Some de))
    (Hde : h !! de = Some (r, v)) (Hcounted : counted v = true)
    (Hroom : counts_ok 2 h) (Hrefs : (1 < count r)%Z) :
  (li_type (li v) = listing_type_DIRECTORY ->
   ('(a, f) ← fsfuse_opendir ino 0 (Fs h m lm);
    match a with AOpen fh => fsfuse_releasedir fh f | _ => Undef end) =
   Ret (AErr 0, Fs (adds h (fun q => - one de q)%Z) m lm)) /\
  (li_type (li v) = listing_type_FILE ->
   ('(a, f) ← fsfuse_open ino 0 (Fs h m lm);
    match a with
    | AOpen fh => h ← direntry_delete de (direntries f);      (* thread_delete's *)
                  fsfuse_release fh (Fs h (inodes f) (lists f))
    | _ => Undef
    end) =
   Ret (AErr 0, Fs (adds h (fun q => - one de q)%Z) m lm)).
Proof.
  assert (Hlive : live_de h de) by by exists r, v.
  assert (Hroom1 : counts_ok 1 h).
  { intros q [r' v'] Hq. specialize (Hroom q (r', v') Hq). cbn beta iota in *. lia. }
  assert (Hdel : forall d, (0 <= d de <= 2)%Z ->
    direntry_delete de (adds h d) = Ret (adds h (fun q => d q - one de q)%Z)).
  { intros d Hd. unfold direntry_delete. rewrite (obj_get_ok _ _ _ _ _ Hde), bind_ret_l, Hcounted.
    pose proof (Hroom de (r, v) Hde) as Hc. cbn beta iota in Hc.
    rewrite obj_delete_ok, bind_ret_l; [done|by rewrite Hde|unfold refs_of; rewrite Hde; lia]. }
  split; intros Hty.
  - unfold fsfuse_opendir. rewrite (by_inode_ok m lm h ino de Hino Hmap Hlive Hroom1), bind_ret_l.
    unfold direntry_get_type. cbn [direntries]. rewrite (obj_get_ok _ _ _ _ _ Hde), !bind_ret_l, Hty.
    replace (if (Z.land 0 3 =? 0)%Z then 0%Z else EROFS) with 0%Z by done.
    change (0 =? 0)%Z with true. cbn iota.
    unfold fsfuse_releasedir. cbn [direntries inodes].
    rewrite Hdel, bind_ret_l by (rewrite one_self; lia).
    rewrite Hdel, bind_ret_l by (rewrite one_self; lia).
    do 3 f_equal. apply adds_ext. intros q _. lia.
  - unfold fsfuse_open. rewrite (by_inode_ok m lm h ino de Hino Hmap Hlive Hroom1), bind_ret_l.
    unfold direntry_get_type. cbn [direntries]. rewrite (obj_get_ok _ _ _ _ _ Hde), !bind_ret_l, Hty.
    replace (if (Z.land 0 3 =? 0)%Z then 0%Z else EROFS) with 0%Z by done.
    change (0 =? 0)%Z with true. cbn iota.
    rewrite (de_copy_ok h 2 _ de Hroom Hlive), !bind_ret_l by (rewrite one_self; lia).
    cbn [direntries inodes].
    rewrite Hdel, bind_ret_l by (rewrite one_self; lia). unfold fsfuse_release.
    cbn [direntries inodes].
    rewrite Hdel, bind_ret_l by (rewrite one_self; lia).
    rewrite Hdel, bind_ret_l by (rewrite one_self; lia).
    do 3 f_equal. apply adds_ext. intros q _. lia.
Qed.

Definition demo_file_fs : heap direntry := {[ 5 := (RefCount 2, demo_de (cs "a") 1 None None None) ]}.

Lemma handles_lose_references_witness :
  ('(a, f) ← fsfuse_open 1 0 (Fs demo_file_fs (InodeMap.Map [None; Some 5] 2 2) no_listings);
   match a with
   | AOpen fh => h ← direntry_delete 5 (direntries f); fsfuse_release fh (Fs h (inodes f) (lists f))
   | _ => Undef
   end) =
  Ret (AErr 0, Fs (adds demo_file_fs (fun q => - one 5 q)%Z) (InodeMap.Map [None; Some 5] 2 2) no_listings).
Proof.
  apply (handles_lose_references 1 (InodeMap.Map [None; Some 5] 2 2) no_listings demo_file_fs 5 (RefCount 2)
    (demo_de (cs "a") 1 None None None)).
  - split; [vm_compute; discriminate|reflexivity].
  - reflexivity.
  - reflexivity.
  - reflexivity.
  - apply map_Forall_singleton. split; reflexivity.
  - reflexivity.
  - reflexivity.
Defined.

Lemma readdir_ok (config : attr_config) (fuel : nat) (tryget : tryget_listing)
    (fuse_add_direntry : cstr -> Z * stat -> Z -> list ascii) (entry_size : cstr -> Z)
    (size off : Z) (m : InodeMap.inode_map) (lm : Listing.store) (h : heap direntry) (de : nat) (r : ref_count)
    (v : direntry) (ces : list entry)
    (Hoff : (0 <= off < 2 ^ 32)%Z) (Hsize : (0 <= size)%Z)
    (Hde : h !! de = Some (r, v)) (Hlooked : looked_for_children v = true)
    (Hparent : forall p, parent v = Some p -> live_de h p)
    (Hchildren : child_entries config h (children v) ces) (Hfuel : length ces <= fuel)
    (Hroom : counts_ok 2 h) :
  let listing := dirbuf fuse_add_direntry entry_size
    ((cs ".", stat_of config v) :: (cs "..", parent_stat config h v) :: ces) in
  (Z.of_nat (length listing) < 2 ^ 64)%Z ->
  fsfuse_readdir config fuel tryget fuse_add_direntry entry_size size off (FhDir de) (Fs h m lm) =
    Ret (ABuf (take (Z.to_nat size) (drop (Z.to_nat off) listing)), Fs h m lm).
Proof.
  intros listing Hlen. unfold fsfuse_readdir.
  pose proof (dirbuf_add_named config fuse_add_direntry entry_size [] de r v (cs ".") h m lm Hde) as E0.
  change (dirbuf fuse_add_direntry entry_size []) with (@nil ascii) in E0. rewrite E0, bind_ret_l. clear E0.
  rewrite (add_dotdot_ok config fuse_add_direntry entry_size _ de r v h m lm Hde Hparent Hroom), bind_ret_l.
  unfold direntry_ensure_children, direntry_get_first_child, obj_get. cbn [direntries].
  rewrite Hde. change (snd <$> deref (Some (r, v))) with (Ret v). rewrite bind_ret_l, Hlooked, !bind_ret_l.
  cbn [direntries inodes]. rewrite Hde. change (snd <$> deref (Some (r, v))) with (Ret v). rewrite bind_ret_l.
  assert (E : copy_link (children v) h = Ret (children v, adds h (fun q => 0 + one_more (children v) q)%Z)).
  { destruct Hchildren as [|p r' v' n es' Hp Hc Hn Hs]; cbn [copy_link one_more].
    - by rewrite adds_0.
    - assert (Hlp : live_de h p) by by exists r', v'.
      pose proof (de_copy_ok h 2 (fun _ => 0%Z) p Hroom Hlp ltac:(lia)) as E.
      rewrite adds_0 in E by done. by rewrite E. }
  rewrite E, bind_ret_l. clear E.
  rewrite (add_children_ok config fuse_add_direntry entry_size h _ ces fuel _ 0 (fun _ => 0%Z) m lm
    Hchildren Hfuel Hroom), bind_ret_l by (intros; lia).
  rewrite adds_0 by done. cbn [app].
  change (dirbuf fuse_add_direntry entry_size ((cs ".", stat_of config v)
    :: (cs "..", parent_stat config h v) :: ces)) with listing.
  clearbody listing. rewrite u32_id by lia.
  destruct (Z.ltb_spec off (Z.of_nat (length listing))) as [Hlt|Hge].
  - rewrite u64_id by lia. rewrite mem_read_ok by lia. rewrite bind_ret_l. do 3 f_equal.
    destruct (Z.min_spec (Z.of_nat (length listing) - off) size) as [[Hm ->]|[Hm ->]]; [|done].
    rewrite !take_ge by (rewrite length_drop; lia). done.
  - rewrite drop_ge by lia. by rewrite take_nil.
Qed.

(** C19: reading a directory whose children were fetched answers with the part
    asked for of its listing (itself, its parent or itself for want of one,
    then each child in order, every entry with the offset of the next), at any
    offset below 4 GiB, and leaves every reference count as it was. *)
Theorem readdir_slices_listing (config : attr_config) (fuel : nat) (tryget : tryget_listing)
    (fuse_add_direntry : cstr -> Z * stat -> Z -> list ascii) (entry_size : cstr -> Z)
    (size off : Z) (m : InodeMap.inode_map) (lm : Listing.store) (h : heap direntry) (de : nat) (r : ref_count)
    (v : direntry) (ces : list entry)
    (Hoff : (0 <= off < 2 ^ 32)%Z) (Hsize : (0 <= size)%Z)
    (Hde : h !! de = Some (r, v)) (Hlooked : looked_for_children v = true)
    (Hparent : forall p, parent v = Some p -> live_de h p)
    (Hchildren : child_entries config h (children v) ces) (Hfuel : length ces <= fuel)
    (Hroom : counts_ok 2 h) :
  let listing := dirbuf fuse_add_direntry entry_size
    ((cs ".", stat_of config v) :: (cs "..", parent_stat config h v) :: ces) in
  (Z.of_nat (length listing) < 2 ^ 64)%Z ->
  fsfuse_readdir config fuel tryget fuse_add_direntry entry_size size off (FhDir de) (Fs h m lm) =
    Ret (ABuf (take (Z.to_nat size) (drop (Z.to_nat off) listing)), Fs h m lm).
Proof. by apply (readdir_ok config fuel tryget fuse_add_direntry entry_size size off m lm h de r v ces). Qed.

Definition demo_config : attr_config := AttrConfig (-1) (-1) 292 365 1000 1000.

Lemma readdir_slices_listing_witness :
  fsfuse_readdir demo_config 2 (fun _ => Ret (EIO, [])) (fun n _ _ => n ++ cs ";")
      (fun n => Z.of_nat (length n) + 1)%Z 4 2 (FhDir 11) (Fs demo_tree demo_map no_listings) =
    Ret (ABuf (cs "..;a"), Fs demo_tree demo_map no_listings).
Proof.
  apply (readdir_slices_listing demo_config 2 (fun _ => Ret (EIO, [])) (fun n _ _ => n ++ cs ";")
    (fun n => Z.of_nat (length n) + 1)%Z 4 2 demo_map no_listings demo_tree 11 (RefCount 1)
    (demo_de (cs "d") 2 None (Some 10) (Some 12))
    [(cs "a", stat_of demo_config (demo_de (cs "a") 3 (Some 13) (Some 11) None));
     (cs "b", stat_of demo_config (demo_de (cs "b") 4 None (Some 11) None))]).
  - split; [vm_compute; discriminate|reflexivity].
  - vm_compute. discriminate.
  - reflexivity.
  - reflexivity.
  - intros p Hp. injection Hp as <-. eexists _, _. split; reflexivity.
  - apply (child_entries_next _ _ 12 (RefCount 1) (demo_de (cs "a") 3 (Some 13) (Some 11) None));
      [reflexivity|reflexivity|reflexivity|].
    apply (child_entries_next _ _ 13 (RefCount 1) (demo_de (cs "b") 4 None (Some 11) None));
      [reflexivity|reflexivity|reflexivity|constructor].
  - cbn. lia.
  - apply demo_tree_counts. vm_compute. discriminate.
  - reflexivity.
Defined.

(** ** Statistics *)

Definition run_cbs (calls : list (Z * Z)) (m : outcome statfs_state) : outcome statfs_state :=
  foldl (fun m fb => s ← m; stats_cb (fst fb) (snd fb) s) m calls.

Lemma run_cbs_app xs ys m : run_cbs (xs ++ ys) m = run_cbs ys (run_cbs xs m).
Proof. unfold run_cbs. by rewrite foldl_app. Qed.

Lemma run_cbs_undef calls : run_cbs calls Undef = Undef.
Proof. unfold run_cbs. by induction calls. Qed.

Lemma statfs_run reports s :
  foldl (fun m r => s ← m; run_cbs r (Ret s)) (Ret s) reports = run_cbs (concat reports) (Ret s).
Proof.
  assert (H : forall m, m = Undef \/ (exists s, m = Ret s) ->
    foldl (fun m r => s ← m; run_cbs r (Ret s)) m reports = run_cbs (concat reports) m).
  2:{ apply H. eauto. }
  assert (Hcb : forall r s, run_cbs r (Ret s) = Undef \/ exists s', run_cbs r (Ret s) = Ret s').
  { unfold run_cbs. induction r as [|[f b] r IH]; intros s0; cbn [foldl]; [eauto|].
    rewrite bind_ret_l. unfold stats_cb at 2 4. destruct (sctxt s0) as [c|]; cbn [deref].
    - rewrite bind_ret_l. case_match; apply IH.
    - left. apply run_cbs_undef. }
  induction reports as [|r rs IH]; intros m Hm; cbn [foldl concat]; [done|].
  rewrite run_cbs_app. destruct Hm as [->|[s0 ->]].
  - change (Undef ≫= _) with (@Undef statfs_state). rewrite IH by auto. by rewrite !run_cbs_undef.
  - rewrite bind_ret_l. apply IH. apply Hcb.
Qed.

Definition total (l : list Z) : Z := foldr Z.add 0%Z l.

Lemma run_cbs_ok calls f b n :
  (0 < n < 2 ^ 32)%Z -> (0 <= f)%Z -> (0 <= b)%Z -> Forall (fun fb => 0 <= fst fb /\ 0 <= snd fb)%Z calls ->
  (f + total (fst <$> calls) < 2 ^ 64)%Z -> (b + total (snd <$> calls) < 2 ^ 64)%Z ->
  run_cbs calls (Ret (StatfsState (Some (StatsCtxt f FSFUSE_BLKSIZE b n)) [])) =
    if (Z.of_nat (length calls) <? n)%Z then
      Ret (StatfsState (Some (StatsCtxt (f + total (fst <$> calls)) FSFUSE_BLKSIZE
        (b + total (snd <$> calls)) (n - Z.of_nat (length calls)))) [])
    else if (Z.of_nat (length calls) =? n)%Z then
      Ret (StatfsState None [(f + total (fst <$> calls), (b + total (snd <$> calls)) / FSFUSE_BLKSIZE)%Z])
    else Undef.
Proof.
  intros Hn Hf Hb HF. revert f b n Hn Hf Hb.
  induction HF as [|[x y] calls [Hx Hy] HF IH]; intros f b n Hn Hf Hb Htf Htb; cbn [fmap list_fmap total foldr fst snd length] in *.
  { rewrite (proj2 (Z.ltb_lt _ _)) by (cbn; lia). cbn. do 4 f_equal; lia. }
  assert (Htot : (0 <= total (fst <$> calls) /\ 0 <= total (snd <$> calls))%Z).
  { clear -HF. unfold total. induction HF as [|[x y] l [? ?] HF IH]; cbn in *; lia. }
  unfold total in *. change (run_cbs ((x, y) :: calls) ?m) with (run_cbs calls (s ← m; stats_cb x y s)).
  rewrite bind_ret_l. unfold stats_cb. cbn [sctxt deref]. rewrite bind_ret_l.
  cbn [f_files f_bsize bytes_total cbs_remaining sreplies app]. rewrite !u64_id, u32_id by lia.
  destruct (Z.eqb_spec (n - 1) 0) as [E|E].
  - assert (n = 1%Z) as -> by lia. rewrite (proj2 (Z.ltb_ge _ _)) by lia.
    destruct calls as [|[x' y'] calls].
    + cbn [fmap list_fmap foldr run_cbs foldl length]. by rewrite !Z.add_0_r.
    + rewrite (proj2 (Z.eqb_neq _ _)) by (cbn [length]; lia). unfold run_cbs. cbn [foldl].
      rewrite bind_ret_l. unfold stats_cb at 2. cbn [sctxt deref fst snd].
      apply run_cbs_undef.
  - rewrite IH by lia.
    destruct (Z.ltb_spec (Z.of_nat (length calls)) (n - 1)), (Z.ltb_spec (Z.of_nat (S (length calls))) n); try lia.
    + rewrite !Z.add_assoc. do 4 f_equal; lia.
    + destruct (Z.eqb_spec (Z.of_nat (length calls)) (n - 1)), (Z.eqb_spec (Z.of_nat (S (length calls))) n); try lia; [|done].
      by rewrite !Z.add_assoc.
Qed.

(** Statfs answers exactly when the indexnodes between them report as many
    times as there are indexnodes: then once, with the totals. If they report
    less often (an indexnode that cannot be reached or has no files never
    does, and there may be no indexnodes at all) the request is never answered;
    a report more is a use of the freed context. *)
Theorem statfs_replies (reports : list (list (Z * Z)))
    (Hcount : (Z.of_nat (length reports) < 2 ^ 32)%Z)
    (Hpos : Forall (fun fb => 0 <= fst fb /\ 0 <= snd fb)%Z (concat reports))
    (Hfiles : (total (fst <$> concat reports) < 2 ^ 64)%Z)
    (Hbytes : (total (snd <$> concat reports) < 2 ^ 64)%Z) :
  let n := length reports in let k := length (concat reports) in
  (n = 0 \/ k < n -> exists c, fsfuse_statfs reports = Ret (StatfsState (Some c) [])) /\
  (0 < n -> k = n -> fsfuse_statfs reports = Ret (StatfsState None
     [(total (fst <$> concat reports), total (snd <$> concat reports) / FSFUSE_BLKSIZE)%Z])) /\
  (0 < n < k -> fsfuse_statfs reports = Undef).
Proof.
  intros n k. unfold fsfuse_statfs. fold n.
  pose proof (statfs_run reports
    (StatfsState (Some (StatsCtxt 0 FSFUSE_BLKSIZE 0 (u32 (Z.of_nat n)))) [])) as E.
  unfold run_cbs at 1 in E. rewrite E. clear E. rewrite u32_id by (unfold n; lia).
  destruct (decide (n = 0)) as [Hn0|Hn0].
  { assert (reports = []) as -> by (destruct reports; [done|cbn in *; lia]).
    split_and!; [eauto|cbn; lia|cbn; lia]. }
  pose proof (run_cbs_ok (concat reports) 0 0 (Z.of_nat n) ltac:(unfold n in *; lia) ltac:(lia) ltac:(lia)
    Hpos ltac:(lia) ltac:(lia)) as E. rewrite E. fold k.
  split_and!; intros Hc.
  - rewrite (proj2 (Z.ltb_lt _ _)) by lia. eauto.
  - intros ->. rewrite Z.ltb_irrefl, Z.eqb_refl. done.
  - rewrite (proj2 (Z.ltb_ge _ _)), (proj2 (Z.eqb_neq _ _)) by lia. done.
Qed.

Lemma statfs_replies_witness :
  fsfuse_statfs [[(12, 40960)]; [(3, 1024)]]%Z = Ret (StatfsState None [(15, 82)%Z]) /\
  exists c, fsfuse_statfs [[(12, 40960)]; []]%Z = Ret (StatfsState (Some c) []).
Proof.
  split.
  - apply (statfs_replies [[(12, 40960)]; [(3, 1024)]]%Z);
      [reflexivity|repeat constructor; discriminate|reflexivity|reflexivity|cbn; lia|reflexivity].
  - apply (statfs_replies [[(12, 40960)]; []]%Z);
      [reflexivity|repeat constructor; discriminate|reflexivity|reflexivity|cbn; lia].
Defined.
