(* ===== verification/Session.v ===== *)
(** * fuse_methods/: a session of requests

    The handlers of [FuseMethods] put together: what any sequence of the kernel's
    requests is answered, over a tree whose directories have all been looked
    into. The specification is a server that knows inode numbers, names and
    attributes and has no pointers; its answers do not depend on what was asked
    before, and each request moves the references to a direntry by a fixed
    amount. The handlers refine it for as long as the moves leave every direntry
    a reference; some of the moves are not the ones the requests should make,
    and what comes of that is at the end. *)
From S2P Require Import Prelude CLib RefCount Counted Listing ReadContext Direntry FuseMethods.
#[local] Open Scope nat_scope.

(** ** The specification *)

Record node := Node { n_li : listing; n_parent : option Z; n_children : list Z }.
Abbreviation tree := (gmap Z node).

Definition n_name (n : node) : cstr := default [] (li_name (n_li n)).
Definition node_name (t : tree) (i : Z) : cstr := from_option n_name [] (t !! i).
Definition is_dir (n : node) : bool :=
  match li_type (n_li n) with listing_type_DIRECTORY => true | listing_type_FILE => false end.

(** The first child of the name. *)
Definition child_named (t : tree) (name : cstr) (ks : list Z) : option Z :=
  snd <$> list_find (fun i => node_name t i = name) ks.

(** Requests by inode; an open file or directory is known by its inode. The
    end of a file's download thread is an event of the session too. *)
Inductive op :=
| OLookup (par : Z) (name : cstr) | OForget (i : Z) (nlookup : nat) | OAccess (i mask : Z)
| OGetattr (i : Z) | OOpen (i flags : Z) | ORelease (i : Z) | OThreadEnds (i : Z)
| OOpendir (i flags : Z) | OReaddir (size off : Z) (i : Z) | OReleasedir (i : Z)
| ORefused (r : request).

(** The requests that are answered without looking at the tree. *)
Definition refusal (r : request) : option answer :=
  match r with
  | Setattr _ | Mknod _ _ | Mkdir _ _ | Unlink _ _ | Rmdir _ _ | Symlink _ _ _ | Rename _ _ _ _
  | Link _ _ _ | Write _ _ _ _ | Create _ _ _ | Fsync _ _ | Fsyncdir _ _ => Some (AErr EROFS)
  | Bmap _ _ _ => Some (AErr EIO)
  | Flush _ => Some (AErr 0)
  | _ => None
  end.

Section Server.
Variable config : attr_config.
Variable fuse_add_direntry : cstr -> Z * stat -> Z -> list ascii.
Variable entry_size : cstr -> Z.
(** Where the direntry of an inode is in memory: handles are addresses. *)
Variable ptr : Z -> nat.
Implicit Types t : tree.

Definition node_stat (i : Z) (n : node) : Z * stat := (i, listing_li2stat config (n_li n)).
Definition stat_at t (i : Z) : Z * stat := from_option (node_stat i) (i, Stat false 0 0 0 0 0 0 0) (t !! i).
Definition child_entry t (i : Z) : entry := (node_name t i, stat_at t i).

(** What readdir cuts a piece out of. *)
Definition listing_of t (i : Z) (n : node) : list ascii :=
  dirbuf fuse_add_direntry entry_size
    ((cs ".", node_stat i n) :: (cs "..", stat_at t (default i (n_parent n))) ::
     (child_entry t <$> n_children n)).

(** The result of opening, [want] being whether the node is of the right kind. *)
Definition open_rc (want : bool) (wrong flags : Z) : Z :=
  if want then if (Z.land flags 3 =? 0)%Z then 0%Z else EROFS else wrong.

Definition server_answer t (o : op) : answer :=
  match o with
  | OLookup par name =>
      match t !! par ≫= fun n => child_named t name (n_children n) with
      | Some c => AEntry (FuseEntryParam c 0 (stat_at t c))
      | None => AErr ENOENT
      end
  | OForget _ _ => ANone
  | OAccess i mask =>
      match t !! i with
      | Some n =>
          let mode := if is_dir n then config_attr_mode_dir config else config_attr_mode_file config in
          AErr (if (Z.land mask (Z.lnot mode) =? 0)%Z then 0%Z else EACCES)
      | None => AErr ENOENT
      end
  | OGetattr i => AAttr (stat_at t i)
  | OOpen i flags =>
      match t !! i with
      | Some n =>
          let rc := open_rc (negb (is_dir n)) EISDIR flags in
          if (rc =? 0)%Z then AOpen (FhFile (ptr i)) else AErr rc
      | None => AErr ENOENT
      end
  | OOpendir i flags =>
      match t !! i with
      | Some n =>
          let rc := open_rc (is_dir n) ENOTDIR flags in
          if (rc =? 0)%Z then AOpen (FhDir (ptr i)) else AErr rc
      | None => AErr ENOENT
      end
  | ORelease _ | OReleasedir _ => AErr 0
  | OThreadEnds _ => ANone
  | OReaddir size off i =>
      match t !! i with
      | Some n => ABuf (take (Z.to_nat size) (drop (Z.to_nat off) (listing_of t i n)))
      | None => ANone
      end
  | ORefused r => default ANone (refusal r)
  end.

(** ** References *)

Definition at_inode (i : Z) (k : Z) : Z -> Z := fun j => if decide (j = i) then k else 0%Z.

(** By how much a request moves the references to each direntry. *)
Definition moves t (o : op) : Z -> Z :=
  match o with
  | OLookup par name =>
      match t !! par ≫= fun n => child_named t name (n_children n) with
      | Some c => at_inode c 1
      | None => fun _ => 0%Z
      end
  | OForget i nlookup =>
      match t !! i with Some _ => at_inode i (- Z.of_nat nlookup) | None => fun _ => 0%Z end
  | OAccess _ _ | OReaddir _ _ _ | ORefused _ => fun _ => 0%Z
  | OGetattr i | OThreadEnds i => at_inode i (-1)
  | OOpen i flags =>
      match t !! i with
      | Some n => at_inode i (if (open_rc (negb (is_dir n)) EISDIR flags =? 0)%Z then 2 else 1)
      | None => fun _ => 0%Z
      end
  | OOpendir i _ => match t !! i with Some _ => at_inode i 1 | None => fun _ => 0%Z end
  | ORelease i | OReleasedir i => at_inode i (-2)
  end.

(** Enough for the references a handler takes and gives back. *)
Definition room (c : Z) : Prop := (0 < c /\ c + 3 < 2 ^ 32)%Z.

(** ** The handlers *)

(** The request of the kernel. The thread's end is not one. *)
Definition request_of (o : op) : option request :=
  match o with
  | OLookup par name => Some (Lookup par name)
  | OForget i n => Some (Forget i n)
  | OAccess i mask => Some (Access i mask)
  | OGetattr i => Some (Getattr i (Some (FhFile (ptr i))))
  | OOpen i flags => Some (Open i flags)
  | ORelease i => Some (Release (FhFile (ptr i)))
  | OOpendir i flags => Some (Opendir i flags)
  | OReaddir size off i => Some (Readdir size off (FhDir (ptr i)))
  | OReleasedir i => Some (Releasedir (FhDir (ptr i)))
  | ORefused r => Some r
  | OThreadEnds _ => None
  end.

Variable fuel : nat.
Variable tryget : tryget_listing.

(** [thread_delete] gives the thread's reference back. *)
Definition handle_op (o : op) (f : fs) : outcome (answer * fs) :=
  match request_of o, o with
  | Some r, _ => fuse_methods config fuel tryget fuse_add_direntry entry_size r f
  | None, OThreadEnds i => h ← direntry_delete (ptr i) (direntries f); Ret (ANone, Fs h (inodes f) (lists f))
  | None, _ => Ret (ANone, f)
  end.

Fixpoint handle_ops (os : list op) (f : fs) : outcome (list answer * fs) :=
  match os with
  | [] => Ret ([], f)
  | o :: os =>
      '(a, f) ← handle_op o f;
      '(l, f) ← handle_ops os f;
      Ret (a :: l, f)
  end.

(** ** A tree in memory *)

Inductive chain (h : heap direntry) : option nat -> list Z -> Prop :=
| chain_end : chain h None []
| chain_next i ks r v :
    h !! ptr i = Some (r, v) -> chain h (next v) ks -> chain h (Some (ptr i)) (i :: ks).

Record node_at (h : heap direntry) (c : Z) (i : Z) (n : node) : Prop := {
  na_obj : exists v, h !! ptr i = Some (RefCount c, v) /\ counted v = true /\ inode v = i /\
    li v = n_li n /\ parent v = ptr <$> n_parent n /\
    (is_dir n = true -> looked_for_children v = true) /\ chain h (children v) (n_children n);
  na_name : is_Some (li_name (n_li n));
  na_few : length (n_children n) <= fuel
}.

(** Everything in memory is a node; node [i] has [refs i] references. *)
Record represents (f : fs) t (refs : Z -> Z) : Prop := {
  rep_node i n : t !! i = Some n -> node_at (direntries f) (refs i) i n;
  rep_map i : is_Some (t !! i) -> (0 <= i < InodeMap.s_inode_map_used (inodes f))%Z /\
    InodeMap.s_inode_map (inodes f) !! Z.to_nat i = Some (Some (ptr i));
  rep_children i n : t !! i = Some n -> Forall (fun j => is_Some (t !! j)) (n_children n);
  rep_parent i n j : t !! i = Some n -> n_parent n = Some j -> is_Some (t !! j);
  rep_refs i : is_Some (t !! i) -> room (refs i);
  rep_only p : is_Some (direntries f !! p) -> exists i, is_Some (t !! i) /\ p = ptr i
}.

(** What the kernel may ask: of inodes it was given, or of ones not given out
    yet; with handles it has open, of the right kind. *)
Definition asks (f : fs) t (o : op) : Prop :=
  let known i := is_Some (t !! i) \/ (InodeMap.s_inode_map_used (inodes f) <= i)%Z in
  let kind i b := is_dir <$> t !! i = Some b in
  match o with
  | OLookup par _ => kind par true \/ t !! par = None /\ (InodeMap.s_inode_map_used (inodes f) <= par)%Z
  | OForget i _ | OAccess i _ | OOpen i _ | OOpendir i _ => known i
  | OGetattr i | OThreadEnds i | ORelease i => kind i false
  | OReleasedir i => kind i true
  | OReaddir size off i =>
      (0 <= off < 2 ^ 32)%Z /\ (0 <= size)%Z /\ kind i true /\
      forall n, t !! i = Some n -> (Z.of_nat (length (listing_of t i n)) < 2 ^ 64)%Z
  | ORefused r => is_Some (refusal r)
  end.

(** ** What the handlers find *)

Implicit Types (f : fs) (h : heap direntry) (m : InodeMap.inode_map) (lm : Listing.store) (refs : Z -> Z).

Lemma node_value h m lm t refs i n :
  represents (Fs h m lm) t refs -> t !! i = Some n ->
  exists v, h !! ptr i = Some (RefCount (refs i), v) /\ counted v = true /\ inode v = i /\
    li v = n_li n /\ parent v = ptr <$> n_parent n /\
    (is_dir n = true -> looked_for_children v = true) /\ chain h (children v) (n_children n).
Proof. intros HR Hi. apply (na_obj _ _ _ _ (rep_node _ _ _ HR i n Hi)). Qed.

Lemma ptr_inj f t refs i j :
  represents f t refs -> is_Some (t !! i) -> is_Some (t !! j) -> ptr i = ptr j -> i = j.
Proof.
  destruct f as [h m lm]. intros HR [n Hi] [n' Hj] E.
  destruct (node_value _ _ _ _ _ _ _ HR Hi) as (v & Hv & _ & Ev & _).
  destruct (node_value _ _ _ _ _ _ _ HR Hj) as (w & Hw & _ & Ew & _). congruence.
Qed.

Lemma rep_live h m lm t refs i : represents (Fs h m lm) t refs -> is_Some (t !! i) -> live_de h (ptr i).
Proof.
  intros HR [n Hi]. destruct (node_value _ _ _ _ _ _ _ HR Hi) as (v & Hv & Hc & _). by eexists _, _.
Qed.

Lemma rep_counted h m lm t refs i :
  represents (Fs h m lm) t refs -> is_Some (t !! i) -> refs_of h (ptr i) = refs i.
Proof.
  intros HR [n Hi]. destruct (node_value _ _ _ _ _ _ _ HR Hi) as (v & Hv & _). unfold refs_of. by rewrite Hv.
Qed.

Lemma rep_room h m lm t refs : represents (Fs h m lm) t refs -> counts_ok 3 h.
Proof.
  intros HR p [r v] Hp. destruct (rep_only _ _ _ HR p) as (i & Hi & ->); [by eexists|].
  pose proof (rep_refs _ _ _ HR i Hi) as Hr. pose proof (rep_counted _ _ _ _ _ _ HR Hi) as Hc.
  unfold refs_of in Hc. cbn [direntries] in Hp. rewrite Hp in Hc. subst. unfold room in Hr. lia.
Qed.

Lemma chain_adds h d c ks : chain h c ks -> chain (adds h d) c ks.
Proof.
  induction 1 as [|i ks r v Hi Hc IH]; [constructor|].
  apply (chain_next _ i ks (RefCount (count r + d (ptr i))) v); [|done]. by rewrite lookup_adds, Hi.
Qed.

(** A request that only moves references. *)
Lemma rep_moves h m lm t refs d k :
  represents (Fs h m lm) t refs -> (forall i, is_Some (t !! i) -> d (ptr i) = k i) ->
  (forall i, is_Some (t !! i) -> room (refs i + k i)) ->
  represents (Fs (adds h d) m lm) t (fun i => refs i + k i)%Z.
Proof.
  intros HR Hd Hk. split; cbn [direntries inodes lists]; [|by apply HR..| |].
  - intros i n Hi. destruct (rep_node _ _ _ HR i n Hi) as [(v & Hv & H1 & H2 & H3 & H4 & H5 & H6) Hn Hf].
    split; [|done..]. exists v. cbn [direntries] in *.
    split_and!; try done; [|by apply chain_adds].
    rewrite lookup_adds, Hv. cbn. by rewrite Hd.
  - done.
  - intros p Hp. apply (rep_only _ _ _ HR). cbn [direntries]. rewrite lookup_adds in Hp.
    by destruct (h !! p); [eexists|destruct Hp].
Qed.

Lemma rep_same h m lm t refs :
  represents (Fs h m lm) t refs -> represents (Fs h m lm) t (fun i => refs i + 0)%Z.
Proof.
  intros HR. rewrite <- (adds_0 h (fun _ => 0%Z)) by done. apply (rep_moves h m lm t refs); try done.
  intros i Hi. rewrite Z.add_0_r. by apply (rep_refs _ _ _ HR).
Qed.

Lemma one_ptr h m lm t refs i j :
  represents (Fs h m lm) t refs -> is_Some (t !! i) -> is_Some (t !! j) ->
  one (ptr i) (ptr j) = if decide (j = i) then 1%Z else 0%Z.
Proof.
  intros HR Hi Hj. unfold one. destruct (decide (j = i)) as [->|Hne]; [by rewrite decide_True|].
  rewrite decide_False; [done|]. intros E. apply Hne. by apply (ptr_inj _ _ _ _ _ HR).
Qed.

(** ** Children and siblings *)

Definition name_at h (p : nat) : cstr := from_option (fun rv => default [] (li_name (li (snd rv)))) [] (h !! p).

Lemma name_at_ok h m lm t refs i :
  represents (Fs h m lm) t refs -> is_Some (t !! i) -> name_at h (ptr i) = node_name t i.
Proof.
  intros HR [n Hi]. destruct (node_value _ _ _ _ _ _ _ HR Hi) as (v & Hv & _ & _ & El & _).
  unfold name_at, node_name. rewrite Hv, Hi. cbn. by rewrite El.
Qed.

Lemma chain_siblings h m lm t refs c ks :
  represents (Fs h m lm) t refs -> chain h c ks -> Forall (fun j => is_Some (t !! j)) ks ->
  siblings h (name_at h) c (ptr <$> ks) /\
  child_entries config h c (child_entry t <$> ks).
Proof.
  intros HR. induction 1 as [|i ks r v Hv Hc IH]; intros HF; [split; constructor|].
  apply Forall_cons in HF as [[n Hi] HF]. destruct (IH HF) as [IH1 IH2].
  destruct (node_value _ _ _ _ _ _ _ HR Hi) as (w & Hw & Hcw & Ei & El & _).
  rewrite Hv in Hw. injection Hw as Er Ew. subst w.
  destruct (na_name _ _ _ _ (rep_node _ _ _ HR i n Hi)) as [x Hx].
  split; cbn [fmap list_fmap].
  - apply (siblings_next _ _ _ r v); [done|done| |done]. unfold name_at. rewrite Hv. cbn. by rewrite El, Hx.
  - assert (child_entry t i = (x, stat_of config v)) as ->.
    { unfold child_entry, node_name, n_name, stat_at, stat_of. rewrite Hi. cbn. unfold node_stat. by rewrite Hx, Ei, El. }
    apply (child_entries_next config h _ r); [done|done|by rewrite El|done].
Qed.

Lemma first_named_ok h m lm t refs name ks :
  represents (Fs h m lm) t refs -> Forall (fun j => is_Some (t !! j)) ks ->
  first_named (name_at h) name (ptr <$> ks) = ptr <$> child_named t name ks.
Proof.
  intros HR. unfold child_named. induction 1 as [|i ks Hi HF IH]; [done|]. cbn [fmap list_fmap].
  rewrite first_named_cons, IH, (name_at_ok _ _ _ _ _ _ HR Hi). cbn [list_find].
  destruct (decide (node_name t i = name)); [done|]. by destruct (list_find _ ks) as [[]|].
Qed.

Lemma named_elem t name ks c : child_named t name ks = Some c -> c ∈ ks.
Proof.
  unfold child_named. destruct (list_find _ ks) as [[j x]|] eqn:E; [|done]. intros [= <-].
  apply list_find_Some in E as (E & _). by eapply list_elem_of_lookup_2.
Qed.

(** ** Finding the direntry of an inode *)

Lemma found h m lm t refs i :
  represents (Fs h m lm) t refs -> is_Some (t !! i) ->
  direntry_get_by_inode i (Fs h m lm) = Ret (0%Z, Some (ptr i), Fs (adds h (one (ptr i))) m lm).
Proof.
  intros HR Hi. destruct (rep_map _ _ _ HR i Hi) as [H1 H2].
  apply by_inode_ok; [done|done|by eapply rep_live|]. eapply counts_ok_le; [|by eapply rep_room]. lia.
Qed.

Lemma not_found h m lm i :
  (InodeMap.s_inode_map_used m <= i)%Z ->
  direntry_get_by_inode i (Fs h m lm) = Ret (ENOENT, None, Fs h m lm).
Proof.
  intros Hi. unfold direntry_get_by_inode, InodeMap.inode_map_get. cbn [inodes].
  by rewrite (proj2 (Z.ltb_ge _ _)).
Qed.

(** ** One request *)

(** What it answers, and by how much it moves the references. *)
Definition served f t refs (o : op) : Prop :=
  exists f', handle_op o f = Ret (server_answer t o, f') /\ inodes f' = inodes f /\
    represents f' t (fun i => refs i + moves t o i)%Z.

(** A handler that moves references by [d]. *)
Lemma serves h m lm t refs o d :
  represents (Fs h m lm) t refs ->
  (forall i, is_Some (t !! i) -> d (ptr i) = moves t o i) ->
  (forall i, is_Some (t !! i) -> room (refs i + moves t o i)) ->
  handle_op o (Fs h m lm) = Ret (server_answer t o, Fs (adds h d) m lm) -> served (Fs h m lm) t refs o.
Proof. intros HR Hd Hk E. exists (Fs (adds h d) m lm). split_and!; [done|done|by apply rep_moves]. Qed.

Lemma serves_still h m lm t refs o :
  represents (Fs h m lm) t refs -> (forall i, moves t o i = 0%Z) ->
  handle_op o (Fs h m lm) = Ret (server_answer t o, Fs h m lm) -> served (Fs h m lm) t refs o.
Proof.
  intros HR Hz E. apply (serves h m lm t refs o (fun _ => 0%Z)); [done|by intros; rewrite Hz| |by rewrite adds_0].
  intros i Hi. rewrite Hz, Z.add_0_r. by apply (rep_refs _ _ _ HR).
Qed.

Lemma kind_node t i b : is_dir <$> t !! i = Some b -> exists n, t !! i = Some n /\ is_dir n = b.
Proof. destruct (t !! i) as [n|]; [|done]. intros [= <-]. eauto. Qed.

Lemma de2stat_ok h m lm t refs d i n :
  represents (Fs h m lm) t refs -> t !! i = Some n ->
  direntry_de2stat config (ptr i) (adds h d) = Ret (stat_at t i) /\
  direntry_get_type (ptr i) (adds h d) = Ret (li_type (n_li n)).
Proof.
  intros HR Hi. destruct (node_value _ _ _ _ _ _ _ HR Hi) as (v & Hv & _ & Ei & El & _).
  unfold direntry_de2stat, direntry_get_type, stat_at, node_stat.
  by rewrite (obj_get_ok _ _ _ _ _ Hv), !bind_ret_l, Hi, Ei, El.
Qed.

Lemma lookup_served h m lm t refs par name :
  represents (Fs h m lm) t refs -> asks (Fs h m lm) t (OLookup par name) ->
  (forall i, is_Some (t !! i) -> room (refs i + moves t (OLookup par name) i)) ->
  served (Fs h m lm) t refs (OLookup par name).
Proof.
  intros HR [Hk|[Hn Hu]] Hroom.
  2:{ apply serves_still; [done|cbn; by rewrite Hn|].
      unfold handle_op. cbn [request_of fuse_methods server_answer]. rewrite Hn. cbn [mbind option_bind].
      unfold fsfuse_lookup, direntry_get_child_by_name. by rewrite (not_found _ _ _ _ Hu). }
  apply kind_node in Hk as (n & Hi & Hdir).
  destruct (node_value _ _ _ _ _ _ _ HR Hi) as (v & Hv & Hc & _ & _ & _ & Hl & Hch).
  pose proof (rep_children _ _ _ HR _ _ Hi) as HF.
  destruct (chain_siblings _ _ _ _ _ _ _ HR Hch HF) as [Hsib _].
  destruct (rep_map _ _ _ HR par) as [H1 H2]; [by eexists|].
  assert (Hfew : length (ptr <$> n_children n) <= fuel).
  { rewrite length_fmap. apply (na_few _ _ _ _ (rep_node _ _ _ HR _ _ Hi)). }
  pose proof (child_by_name_ok fuel tryget par name m lm h (ptr par) _ v _ _ H1 H2 Hv Hc (Hl Hdir) Hsib Hfew
    (rep_room _ _ _ _ _ HR)) as E. cbv zeta in E.
  rewrite (first_named_ok _ _ _ _ _ name _ HR HF) in E.
  apply (serves h m lm t refs _ (one_more (ptr <$> child_named t name (n_children n)))); [done| |done|].
  - intros i Hi'. cbn [moves]. rewrite Hi. cbn [mbind option_bind]. destruct (child_named _ _ _) as [c|] eqn:Ec; [|done].
    cbn [fmap option_fmap option_map one_more]. rewrite (one_ptr h m lm t refs) by
      (done || by apply named_elem in Ec; rewrite Forall_forall in HF; apply HF). done.
  - unfold handle_op. cbn [request_of fuse_methods server_answer]. rewrite Hi. cbn [mbind option_bind].
    unfold fsfuse_lookup. rewrite E, bind_ret_l. destruct (child_named _ _ _) as [c|] eqn:Ec; [|done].
    cbn [fmap option_fmap option_map one_more]. apply named_elem in Ec. rewrite Forall_forall in HF.
    destruct (HF c Ec) as [nc Hnc]. unfold direntry_de2fuse_entry. cbn [direntries].
    destruct (node_value _ _ _ _ _ _ _ HR Hnc) as (w & Hw & _ & Ew & _).
    rewrite (obj_get_ok _ _ _ _ _ Hw), bind_ret_l.
    destruct (de2stat_ok _ _ _ _ _ (one (ptr c)) c nc HR Hnc) as [-> _]. by rewrite !bind_ret_l, Ew.
Qed.

Lemma delete_times_ok n : forall h d p,
  live_de h p -> (Z.of_nat n < refs_of h p + d p < 2 ^ 32)%Z ->
  delete_times n p (adds h d) = Ret (adds h (fun q => d q + - Z.of_nat n * one p q)%Z).
Proof.
  induction n as [|n IH]; intros h d p Hp Hd; cbn [delete_times].
  { f_equal. apply adds_ext. intros. lia. }
  rewrite de_delete_refs, bind_ret_l by (done || lia). rewrite IH; [|done|rewrite one_self; lia].
  f_equal. apply adds_ext. intros. lia.
Qed.

Lemma at_ptr f t refs i j k :
  represents f t refs -> is_Some (t !! i) -> is_Some (t !! j) -> (k * one (ptr i) (ptr j))%Z = at_inode i k j.
Proof.
  destruct f as [h m lm]. intros HR Hi Hj. rewrite (one_ptr h m lm t refs) by done. unfold at_inode.
  case_decide; lia.
Qed.

Lemma at_self i k : at_inode i k i = k.
Proof. unfold at_inode. by rewrite decide_True. Qed.

(** A handler that moves the references of one direntry. *)
Lemma serves_at h m lm t refs o i k :
  represents (Fs h m lm) t refs -> is_Some (t !! i) -> (forall j, moves t o j = at_inode i k j) ->
  (forall j, is_Some (t !! j) -> room (refs j + moves t o j)) ->
  handle_op o (Fs h m lm) = Ret (server_answer t o, Fs (adds h (fun q => k * one (ptr i) q)%Z) m lm) ->
  served (Fs h m lm) t refs o.
Proof.
  intros HR Hi Hm Hroom E. apply (serves h m lm t refs o _ HR) in E; [done| |done].
  intros j Hj. rewrite Hm. by eapply at_ptr.
Qed.

(** References given back, but not the last. *)
Lemma drop_one h m lm t refs d i :
  represents (Fs h m lm) t refs -> is_Some (t !! i) -> (1 < refs i + d (ptr i) < 2 ^ 32)%Z ->
  direntry_delete (ptr i) (adds h d) = Ret (adds h (fun q => d q - one (ptr i) q)%Z).
Proof.
  intros HR Hi Hd. apply de_delete_refs; [by eapply rep_live|]. by rewrite (rep_counted _ _ _ _ _ _ HR Hi).
Qed.

Lemma drop_first h m lm t refs i :
  represents (Fs h m lm) t refs -> is_Some (t !! i) -> (1 < refs i)%Z ->
  direntry_delete (ptr i) h = Ret (adds h (fun q => -1 * one (ptr i) q)%Z).
Proof.
  intros HR Hi Hd. pose proof (rep_refs _ _ _ HR i Hi) as Hr. unfold room in Hr.
  rewrite <- (adds_0 h (fun _ => 0%Z)) at 1 by done. rewrite (drop_one h m lm t refs) by (done || lia).
  apply f_equal, adds_ext. intros. lia.
Qed.

Lemma refs_room f t refs i : represents f t refs -> is_Some (t !! i) -> (0 < refs i < 2 ^ 32 - 3)%Z.
Proof. intros HR Hi. pose proof (rep_refs _ _ _ HR i Hi) as Hr. unfold room in Hr. lia. Qed.

Lemma forget_served h m lm t refs i n :
  represents (Fs h m lm) t refs -> asks (Fs h m lm) t (OForget i n) ->
  (forall j, is_Some (t !! j) -> room (refs j + moves t (OForget i n) j)) ->
  served (Fs h m lm) t refs (OForget i n).
Proof.
  intros HR Hk Hroom. destruct (t !! i) as [nd|] eqn:Hi.
  2:{ destruct Hk as [Hk|Hk]; [by rewrite Hi in Hk; destruct Hk|]. apply serves_still; [done|cbn; by rewrite Hi|].
      unfold handle_op. cbn [request_of fuse_methods server_answer]. unfold fsfuse_forget. by rewrite (not_found _ _ _ _ Hk). }
  assert (Hs : is_Some (t !! i)) by (by rewrite Hi). pose proof (Hroom i Hs) as Hr. cbn [moves] in Hr.
  rewrite Hi, at_self in Hr. unfold room in Hr. pose proof (refs_room _ _ _ _ HR Hs).
  apply (serves_at h m lm t refs _ i (- Z.of_nat n)); [done|done|intros; cbn; by rewrite Hi|done|].
  unfold handle_op. cbn [request_of fuse_methods server_answer]. unfold fsfuse_forget.
  rewrite (found _ _ _ _ _ _ HR Hs), bind_ret_l. cbn [direntries inodes lists].
  rewrite (drop_one _ _ _ _ _ _ _ HR Hs), bind_ret_l by (rewrite one_self; lia).
  rewrite delete_times_ok, bind_ret_l; [|by eapply rep_live|].
  2:{ rewrite (rep_counted _ _ _ _ _ _ HR Hs), one_self. lia. }
  do 3 f_equal. apply adds_ext. intros. lia.
Qed.

Lemma access_served h m lm t refs i mask :
  represents (Fs h m lm) t refs -> asks (Fs h m lm) t (OAccess i mask) -> served (Fs h m lm) t refs (OAccess i mask).
Proof.
  intros HR Hk. apply serves_still; [done|done|].
  unfold handle_op. cbn [request_of fuse_methods server_answer]. unfold fsfuse_access.
  destruct (t !! i) as [n|] eqn:Hi.
  2:{ destruct Hk as [Hk|Hk]; [by rewrite Hi in Hk; destruct Hk|]. by rewrite (not_found _ _ _ _ Hk). }
  assert (Hs : is_Some (t !! i)) by (by rewrite Hi). pose proof (refs_room _ _ _ _ HR Hs).
  rewrite (found _ _ _ _ _ _ HR Hs), bind_ret_l. cbn [direntries inodes lists].
  destruct (de2stat_ok _ _ _ _ _ (one (ptr i)) _ _ HR Hi) as [_ ->]. rewrite bind_ret_l.
  rewrite (drop_one _ _ _ _ _ _ _ HR Hs), bind_ret_l by (rewrite one_self; lia).
  rewrite adds_0 by (intros; lia). unfold is_dir. by destruct (li_type (n_li n)).
Qed.

Lemma getattr_served h m lm t refs i :
  represents (Fs h m lm) t refs -> asks (Fs h m lm) t (OGetattr i) ->
  (forall j, is_Some (t !! j) -> room (refs j + moves t (OGetattr i) j)) ->
  served (Fs h m lm) t refs (OGetattr i).
Proof.
  intros HR (n & Hi & _)%kind_node Hroom. assert (Hs : is_Some (t !! i)) by (by rewrite Hi).
  pose proof (Hroom i Hs) as Hr. cbn [moves] in Hr. rewrite at_self in Hr. unfold room in Hr.
  apply (serves_at h m lm t refs _ i (-1)); try done.
  unfold handle_op. cbn [request_of fuse_methods server_answer direntries inodes].
  unfold fsfuse_getattr. cbn [deref]. rewrite bind_ret_l. cbn [direntries inodes lists].
  destruct (de2stat_ok _ _ _ _ _ (fun _ => 0%Z) _ _ HR Hi) as [E _]. rewrite adds_0 in E by done.
  by rewrite E, bind_ret_l, (drop_first _ _ _ _ _ _ HR Hs), bind_ret_l by lia.
Qed.

Lemma thread_ends_served h m lm t refs i :
  represents (Fs h m lm) t refs -> asks (Fs h m lm) t (OThreadEnds i) ->
  (forall j, is_Some (t !! j) -> room (refs j + moves t (OThreadEnds i) j)) ->
  served (Fs h m lm) t refs (OThreadEnds i).
Proof.
  intros HR (n & Hi & _)%kind_node Hroom. assert (Hs : is_Some (t !! i)) by (by rewrite Hi).
  pose proof (Hroom i Hs) as Hr. cbn [moves] in Hr. rewrite at_self in Hr. unfold room in Hr.
  apply (serves_at h m lm t refs _ i (-1)); try done.
  unfold handle_op. cbn [request_of server_answer direntries inodes].
  by rewrite (drop_first _ _ _ _ _ _ HR Hs), bind_ret_l by lia.
Qed.

(** [release] and [releasedir] give two references back. *)
Lemma drop_twice h m lm t refs i :
  represents (Fs h m lm) t refs -> is_Some (t !! i) -> (2 < refs i)%Z ->
  (h ← direntry_delete (ptr i) h; h ← direntry_delete (ptr i) h; Ret (AErr 0, Fs h m lm)) =
    Ret (AErr 0, Fs (adds h (fun q => -2 * one (ptr i) q)%Z) m lm).
Proof.
  intros HR Hs Hr. pose proof (refs_room _ _ _ _ HR Hs).
  rewrite (drop_first _ _ _ _ _ _ HR Hs), bind_ret_l by lia.
  rewrite (drop_one _ _ _ _ _ _ _ HR Hs), bind_ret_l by (rewrite one_self; lia).
  do 3 f_equal. apply adds_ext. intros. lia.
Qed.

Lemma release_served h m lm t refs i (file : bool) :
  let o := if file then ORelease i else OReleasedir i in
  represents (Fs h m lm) t refs -> asks (Fs h m lm) t o ->
  (forall j, is_Some (t !! j) -> room (refs j + moves t o j)) -> served (Fs h m lm) t refs o.
Proof.
  intros o HR Hk Hroom. assert (Hs : is_Some (t !! i)).
  { destruct file; apply kind_node in Hk as (n & Hi & _); by rewrite Hi. }
  pose proof (Hroom i Hs) as Hr.
  assert (Hm : forall j, moves t o j = at_inode i (-2) j) by (by destruct file).
  rewrite Hm, at_self in Hr. unfold room in Hr.
  apply (serves_at h m lm t refs o i (-2)); try done.
  pose proof (drop_twice _ _ _ _ _ _ HR Hs ltac:(lia)) as E. by destruct file.
Qed.

Lemma open_served h m lm t refs i flags (file : bool) :
  let o := if file then OOpen i flags else OOpendir i flags in
  represents (Fs h m lm) t refs -> asks (Fs h m lm) t o ->
  (forall j, is_Some (t !! j) -> room (refs j + moves t o j)) -> served (Fs h m lm) t refs o.
Proof.
  intros o HR Hk Hroom. destruct (t !! i) as [n|] eqn:Hi.
  2:{ assert (InodeMap.s_inode_map_used m <= i)%Z as Hu.
      { destruct file, Hk as [Hk|Hk]; try done; rewrite Hi in Hk; by destruct Hk. }
      destruct file; cbn zeta in o; subst o; (apply serves_still; [done|intros; cbn; by rewrite Hi|]);
        unfold handle_op; cbn [request_of fuse_methods server_answer];
        unfold fsfuse_open, fsfuse_opendir; by rewrite (not_found _ _ _ _ Hu), bind_ret_l, Hi. }
  assert (Hs : is_Some (t !! i)) by (by rewrite Hi).
  destruct (de2stat_ok _ _ _ _ _ (one (ptr i)) _ _ HR Hi) as [_ Hty].
  destruct file; cbn zeta in o; subst o.
  - set (rc := open_rc (negb (is_dir n)) EISDIR flags).
    apply (serves_at h m lm t refs _ i (if (rc =? 0)%Z then 2 else 1)); [done|done|intros; cbn; by rewrite Hi|done|].
    unfold handle_op. cbn [request_of fuse_methods server_answer]. unfold fsfuse_open.
    rewrite (found _ _ _ _ _ _ HR Hs), bind_ret_l, Hi. cbn [direntries inodes lists]. rewrite Hty, bind_ret_l. fold rc.
    cbn zeta. replace (match li_type (n_li n) with listing_type_FILE => _ | _ => _ end) with rc
      by (unfold rc, open_rc, is_dir; by destruct (li_type (n_li n))).
    destruct (rc =? 0)%Z.
    + rewrite (de_copy_ok h 3 _ (ptr i) (rep_room _ _ _ _ _ HR) (rep_live _ _ _ _ _ _ HR Hs)), bind_ret_l
        by (rewrite one_self; lia).
      do 3 f_equal. apply adds_ext. intros. lia.
    + do 3 f_equal. apply adds_ext. intros. lia.
  - set (rc := open_rc (is_dir n) ENOTDIR flags).
    apply (serves_at h m lm t refs _ i 1); [done|done|intros; cbn; by rewrite Hi|done|].
    unfold handle_op. cbn [request_of fuse_methods server_answer]. unfold fsfuse_opendir.
    rewrite (found _ _ _ _ _ _ HR Hs), bind_ret_l, Hi. cbn [direntries inodes lists]. rewrite Hty, bind_ret_l. fold rc.
    cbn zeta. replace (match li_type (n_li n) with listing_type_DIRECTORY => _ | _ => _ end) with rc
      by (unfold rc, open_rc, is_dir; by destruct (li_type (n_li n))).
    do 3 f_equal. apply adds_ext. intros. lia.
Qed.

Lemma readdir_served h m lm t refs size off i :
  represents (Fs h m lm) t refs -> asks (Fs h m lm) t (OReaddir size off i) ->
  served (Fs h m lm) t refs (OReaddir size off i).
Proof.
  intros HR (Ho & Hz & (n & Hi & Hdir)%kind_node & Hlen). specialize (Hlen n Hi).
  destruct (node_value _ _ _ _ _ _ _ HR Hi) as (v & Hv & _ & Ei & El & Ep & Hl & Hch).
  destruct (chain_siblings _ _ _ _ _ _ _ HR Hch (rep_children _ _ _ HR _ _ Hi)) as [_ Hce].
  apply serves_still; [done|done|].
  unfold handle_op. cbn [request_of fuse_methods server_answer]. rewrite Hi.
  assert (Estat : stat_of config v = node_stat i n) by (unfold stat_of, node_stat; by rewrite Ei, El).
  assert (Epar : parent_stat config h v = stat_at t (default i (n_parent n))).
  { unfold parent_stat. rewrite Ep. destruct (n_parent n) as [j|] eqn:Ej; cbn [fmap option_fmap option_map default].
    - destruct (rep_parent _ _ _ HR _ _ _ Hi Ej) as [nj Hj].
      destruct (node_value _ _ _ _ _ _ _ HR Hj) as (w & Hw & _ & Ew & Elw & _). rewrite Hw. cbn.
      unfold stat_at, stat_of, node_stat. by rewrite Hj, Ew, Elw.
    - cbn. unfold stat_at. by rewrite Hi. }
  assert (Elist : listing_of t i n = dirbuf fuse_add_direntry entry_size
    ((cs ".", stat_of config v) :: (cs "..", parent_stat config h v) :: (child_entry t <$> n_children n))).
  { unfold listing_of. by rewrite Estat, Epar. }
  rewrite Elist in *.
  apply (readdir_ok config fuel tryget fuse_add_direntry entry_size size off m lm h (ptr i) (RefCount (refs i)) v
    (child_entry t <$> n_children n)); try done.
  - by apply Hl.
  - intros p Hp. rewrite Ep in Hp. destruct (n_parent n) as [j|] eqn:Ej; [|done]. injection Hp as <-.
    eapply rep_live; [done|by eapply rep_parent].
  - rewrite length_fmap. apply (na_few _ _ _ _ (rep_node _ _ _ HR _ _ Hi)).
  - eapply counts_ok_le; [|by eapply rep_room]. lia.
Qed.

Lemma refused_served h m lm t refs r :
  represents (Fs h m lm) t refs -> asks (Fs h m lm) t (ORefused r) -> served (Fs h m lm) t refs (ORefused r).
Proof.
  intros HR Hr. apply serves_still; [done|done|]. unfold handle_op. cbn [request_of server_answer].
  destruct r; cbn in *; try done; by destruct Hr.
Qed.

Lemma request_served f t refs o :
  represents f t refs -> asks f t o -> (forall i, is_Some (t !! i) -> room (refs i + moves t o i)) ->
  served f t refs o.
Proof.
  destruct f as [h m lm]. intros HR Hk Hroom.
  destruct o; [by apply lookup_served|by apply forget_served|by apply access_served|by apply getattr_served
    |by apply (open_served h m lm t refs i flags true)|by apply (release_served h m lm t refs i true)
    |by apply thread_ends_served|by apply (open_served h m lm t refs i flags false)|by apply readdir_served
    |by apply (release_served h m lm t refs i false)|by apply refused_served].
Qed.

(** ** Sessions *)

(** Every request may be asked, and leaves every direntry a reference. *)
Fixpoint affordable f t refs (os : list op) : Prop :=
  match os with
  | [] => True
  | o :: os =>
      asks f t o /\ (forall i, is_Some (t !! i) -> room (refs i + moves t o i)) /\
      affordable f t (fun i => refs i + moves t o i)%Z os
  end.

Definition all_moves t (os : list op) (i : Z) : Z := foldr (fun o k => moves t o i + k)%Z 0%Z os.

Lemma rep_ext f t refs refs' :
  represents f t refs -> (forall i, refs i = refs' i) -> represents f t refs'.
Proof.
  intros HR E. split; try by apply HR.
  - intros i n Hi. rewrite <- E. by apply (rep_node _ _ _ HR).
  - intros i Hi. rewrite <- E. by apply (rep_refs _ _ _ HR).
Qed.

Lemma asks_inodes f f' t o : inodes f' = inodes f -> asks f t o -> asks f' t o.
Proof. intros E. unfold asks. by rewrite E. Qed.

Lemma affordable_inodes os : forall f f' t refs,
  inodes f' = inodes f -> affordable f t refs os -> affordable f' t refs os.
Proof.
  induction os as [|o os IH]; intros f f' t refs E; [done|]. intros (H1 & H2 & H3). split_and!; [|done|].
  - by eapply asks_inodes.
  - by eapply IH.
Qed.

Lemma ops_served os : forall f t refs,
  represents f t refs -> affordable f t refs os ->
  exists f', handle_ops os f = Ret (server_answer t <$> os, f') /\ inodes f' = inodes f /\
    represents f' t (fun i => refs i + all_moves t os i)%Z.
Proof.
  induction os as [|o os IH]; intros f t refs HR Ha; cbn [handle_ops].
  { exists f. split_and!; [done|done|]. apply (rep_ext _ _ _ _ HR). intros. cbn. lia. }
  destruct Ha as (Hk & Hroom & Ha). destruct (request_served f t refs o HR Hk Hroom) as (f1 & E1 & Em1 & HR1).
  rewrite E1, bind_ret_l.
  destruct (IH f1 t _ HR1 (affordable_inodes _ _ _ _ _ Em1 Ha)) as (f2 & E2 & Em2 & HR2).
  rewrite E2, bind_ret_l. exists f2. split_and!; [done|by rewrite Em2|].
  apply (rep_ext _ _ _ _ HR2). intros. unfold all_moves. cbn [foldr]. lia.
Qed.

End Server.

Section Wear.
Variable config : attr_config.
Variable fuse_add_direntry : cstr -> Z * stat -> Z -> list ascii.
Variable entry_size : cstr -> Z.
Variable ptr : Z -> nat.
Variable fuel : nat.
Variable tryget : tryget_listing.
Abbreviation run := (handle_ops config fuse_add_direntry entry_size ptr fuel tryget).
Abbreviation rep := (represents ptr fuel).

Lemma run_app os os' f :
  run (os ++ os') f = ('(l, f) ← run os f; '(l', f) ← run os' f; Ret (l ++ l', f)).
Proof.
  revert f. induction os as [|o os IH]; intros f; cbn [handle_ops app].
  { rewrite bind_ret_l. by destruct (run os' f) as [[l f']| | |]. }
  destruct (handle_op _ _ _ _ _ _ o f) as [[a f']| | |]; [|done..]. rewrite !bind_ret_l, IH.
  destruct (run os f') as [[l f2]| | |]; [|done..]. rewrite !bind_ret_l.
  by destruct (run os' f2) as [[l' f3]| | |].
Qed.

(** A directory is opened and closed [k] times. *)
Definition visit (i : Z) : list op := [OOpendir i 0; OReleasedir i].
Definition visits (i : Z) (k : nat) : list op := concat (replicate k (visit i)).

Lemma visits_affordable f t i k : forall refs,
  (forall j, is_Some (t !! j) -> room (refs j)) -> is_dir <$> t !! i = Some true ->
  (Z.of_nat k < refs i)%Z -> (refs i + 4 < 2 ^ 32)%Z ->
  affordable config fuse_add_direntry entry_size f t refs (visits i k).
Proof.
  induction k as [|k IH]; intros refs HR Hi Hk Hb; [done|].
  pose proof Hi as (n & Hn & Hd)%kind_node. assert (Hs : is_Some (t !! i)) by (by rewrite Hn).
  assert (Hroom : forall c, (-2 < c <= 1)%Z -> forall j, is_Some (t !! j) -> room (refs j + at_inode i c j)).
  { intros c Hc j Hj. pose proof (HR j Hj) as Hr. unfold room, at_inode in *. case_decide; [subst; lia|lia]. }
  assert (Hback : forall j, (refs j + at_inode i 1 j + at_inode i (-2) j = refs j + at_inode i (-1) j)%Z).
  { intros j. unfold at_inode. case_decide; lia. }
  unfold visits. cbn [replicate concat visit app affordable moves]. rewrite Hn. split_and!.
  - by left.
  - apply Hroom. lia.
  - done.
  - intros j Hj. rewrite Hback. apply Hroom; [lia|done].
  - apply IH; [|done|rewrite at_self, at_self; lia|rewrite at_self, at_self; lia].
    intros j Hj. rewrite Hback. apply Hroom; [lia|done].
Qed.

Lemma visits_moves t i k j :
  is_Some (t !! i) -> all_moves t (visits i k) j = at_inode i (- Z.of_nat k) j.
Proof.
  intros [n Hn]. unfold visits. induction k as [|k IH]; [unfold at_inode; cbn; by case_decide|].
  cbn [replicate concat visit app all_moves foldr moves]. rewrite Hn.
  change (foldr _ 0%Z (concat (replicate k (visit i)))) with (all_moves t (visits i k) j).
  unfold visits. rewrite IH. unfold at_inode. case_decide; lia.
Qed.

(** The last visit: the direntry is freed while the inode map still has it. *)
Lemma last_visit f t refs i :
  rep f t refs -> is_dir <$> t !! i = Some true -> refs i = 1%Z ->
  exists f', run (visit i) f = Ret ([AOpen (FhDir (ptr i)); AErr 0], f') /\
    inodes f' = inodes f /\ direntries f' !! ptr i = None.
Proof.
  destruct f as [h m lm]. intros HR (n & Hn & Hd)%kind_node H1. assert (Hs : is_Some (t !! i)) by (by rewrite Hn).
  exists (Fs (delete (ptr i) h) m lm). split_and!; [|done|apply lookup_delete_eq].
  destruct (node_value _ _ _ _ _ _ _ _ _ HR Hn) as (v & Hv & Hc & _). rewrite H1 in Hv.
  unfold visit. cbn [handle_ops]. unfold handle_op. cbn [request_of fuse_methods].
  unfold fsfuse_opendir. rewrite (found _ _ _ _ _ _ _ _ HR Hs), bind_ret_l. cbn [direntries inodes lists].
  destruct (de2stat_ok config _ _ _ _ _ _ _ (one (ptr i)) _ _ HR Hn) as [_ ->]. rewrite !bind_ret_l.
  unfold is_dir in Hd. destruct (li_type (n_li n)); [done|].
  change (Z.land 0 3 =? 0)%Z with true. cbn iota. change (0 =? 0)%Z with true. cbn iota.
  unfold fsfuse_releasedir. cbn [direntries inodes lists].
  rewrite (drop_one _ _ _ _ _ _ _ _ _ HR Hs), !bind_ret_l by (rewrite one_self; lia).
  rewrite adds_0 by (intros; lia).
  unfold direntry_delete, obj_get. rewrite Hv. change (snd <$> deref (Some (RefCount 1, v))) with (Ret v).
  rewrite bind_ret_l, Hc, (obj_delete_last _ _ _ Hv). by rewrite !bind_ret_l.
Qed.

Lemma gone i mask h m lm :
  (0 <= i < InodeMap.s_inode_map_used m)%Z ->
  InodeMap.s_inode_map m !! Z.to_nat i = Some (Some (ptr i)) -> h !! ptr i = None ->
  fsfuse_access config i mask (Fs h m lm) = Undef.
Proof.
  intros H1 H2 Hg. unfold fsfuse_access, direntry_get_by_inode, InodeMap.inode_map_get. cbn [inodes direntries].
  rewrite (proj2 (Z.ltb_lt _ _)), H2 by lia. cbn [deref]. rewrite bind_ret_l. cbn [deref]. rewrite bind_ret_l.
  unfold direntry_copy, obj_get. by rewrite Hg.
Qed.

End Wear.

(** Prefixes that can be paid for. *)
Lemma prefixes_affordable config fuse_add_direntry entry_size f t os : forall refs,
  Forall (asks config fuse_add_direntry entry_size f t) os ->
  (forall k i, is_Some (t !! i) -> room (refs i + all_moves t (take k os) i)) ->
  affordable config fuse_add_direntry entry_size f t refs os.
Proof.
  induction os as [|o os IH]; intros refs HF Hp; cbn [affordable]; [done|].
  apply Forall_cons in HF as [Ho HF]. split_and!; [done| |].
  - intros i Hi. specialize (Hp 1 i Hi). cbn in Hp. by rewrite take_0, Z.add_0_r in Hp.
  - apply IH; [done|]. intros k i Hi. specialize (Hp (S k) i Hi). unfold all_moves in *. cbn [take foldr] in Hp.
    by rewrite Z.add_assoc in Hp.
Qed.

(** ** Properties *)

(** C2: over a tree whose directories have been looked into, any sequence of
    requests is answered as the specification answers each by itself: by inode,
    name and attributes, whatever was asked before; and moves the references to
    every direntry by exactly the sum of what each request moves. It does so as
    long as the sum leaves each direntry a reference at every point. Two requests
    have no answer, at any point: [readlink] aborts the program, and [getattr]
    of an inode that is not open (stat) reads through a null pointer. *)
Theorem session_refines_server (config : attr_config) (fuse_add_direntry : cstr -> Z * stat -> Z -> list ascii)
    (entry_size : cstr -> Z) (ptr : Z -> nat) (fuel : nat) (tryget : tryget_listing)
    (f : fs) (t : tree) (refs : Z -> Z) (os : list op)
    (Htree : represents ptr fuel f t refs)
    (Hasks : Forall (asks config fuse_add_direntry entry_size f t) os)
    (Hpaid : forall k i, is_Some (t !! i) -> room (refs i + all_moves t (take k os) i)) :
  exists f', handle_ops config fuse_add_direntry entry_size ptr fuel tryget os f =
      Ret (server_answer config fuse_add_direntry entry_size ptr t <$> os, f') /\
    represents ptr fuel f' t (fun i => refs i + all_moves t os i)%Z /\
    forall i, fuse_methods config fuel tryget fuse_add_direntry entry_size (Readlink i) f' = AssertFail /\
      fuse_methods config fuel tryget fuse_add_direntry entry_size (Getattr i None) f' = Undef.
Proof.
  destruct (ops_served config fuse_add_direntry entry_size ptr fuel tryget os f t refs Htree) as (f' & E & _ & HR);
    [by apply prefixes_affordable|]. exists f'. by split_and!.
Qed.

(** C40: each time a directory is opened and closed it loses a reference. After
    as many times as it has references its direntry is freed, with every request
    answered as it should be; the inode map keeps the freed direntry, and the
    next request for the inode uses it. *)
Theorem directory_wears_out (config : attr_config) (fuse_add_direntry : cstr -> Z * stat -> Z -> list ascii)
    (entry_size : cstr -> Z) (ptr : Z -> nat) (fuel : nat) (tryget : tryget_listing)
    (f : fs) (t : tree) (refs : Z -> Z) (i : Z)
    (Htree : represents ptr fuel f t refs) (Hdir : is_dir <$> t !! i = Some true)
    (Hrefs : (refs i + 4 < 2 ^ 32)%Z) :
  exists f', handle_ops config fuse_add_direntry entry_size ptr fuel tryget (visits i (Z.to_nat (refs i))) f =
      Ret (server_answer config fuse_add_direntry entry_size ptr t <$> visits i (Z.to_nat (refs i)), f') /\
    direntries f' !! ptr i = None /\ forall mask, fsfuse_access config i mask f' = Undef.
Proof.
  pose proof Hdir as (n & Hn & Hd)%kind_node. assert (Hs : is_Some (t !! i)) by (by rewrite Hn).
  pose proof (refs_room _ _ _ _ _ _ Htree Hs) as Hr.
  destruct (Z.to_nat (refs i)) as [|k] eqn:Ek; [lia|].
  assert (visits i (S k) = visits i k ++ visit i) as ->.
  { unfold visits. rewrite <- Nat.add_1_r, replicate_add, concat_app. cbn [replicate concat]. by rewrite app_nil_r. }
  destruct (ops_served config fuse_add_direntry entry_size ptr fuel tryget (visits i k) f t refs Htree)
    as (f1 & E1 & Em & HR1).
  { apply visits_affordable; [by apply (rep_refs _ _ _ _ _ Htree)|done|lia|done]. }
  destruct (last_visit config fuse_add_direntry entry_size ptr fuel tryget f1 t _ i HR1 Hdir) as (f2 & E2 & Em2 & Hg).
  { rewrite visits_moves by done. rewrite at_self. lia. }
  exists f2. rewrite run_app, E1, bind_ret_l, E2, bind_ret_l. split_and!; [|done|].
  - rewrite fmap_app. cbn [visit fmap list_fmap server_answer]. rewrite Hn. cbn [open_rc]. by rewrite Hd.
  - intros mask. destruct (rep_map _ _ _ _ _ Htree i Hs) as [H1 H2]. destruct f2 as [h2 m2]. cbn [inodes direntries] in *.
    apply (gone config ptr); by rewrite ?Em2, ?Em.
Qed.

(** A directory, inode 1, of a file "a" and a directory "d". *)
Definition demo_listing (name : cstr) (ty : listing_type_t) : listing :=
  Listing 0 (Some name) (Some (cs "d41d")) ty 4096 1 None None.
Definition demo_ptr (i : Z) : nat := 10 + Z.to_nat i.
Definition demo_session_tree : tree :=
  <[1%Z := Node (demo_listing [] listing_type_DIRECTORY) None [2; 3]%Z]>
  (<[2%Z := Node (demo_listing (cs "a") listing_type_FILE) (Some 1%Z) []]>
  {[3%Z := Node (demo_listing (cs "d") listing_type_DIRECTORY) (Some 1%Z) []]}).
Definition demo_refs (_ : Z) : Z := 3.
Definition demo_session : fs :=
  Fs (<[11 := (RefCount 3, Direntry (demo_listing [] listing_type_DIRECTORY) true 1 None None (Some 12) true)]>
     (<[12 := (RefCount 3, Direntry (demo_listing (cs "a") listing_type_FILE) true 2 (Some 13) (Some 11) None false)]>
     {[13 := (RefCount 3, Direntry (demo_listing (cs "d") listing_type_DIRECTORY) true 3 None (Some 11) None true)]}))
     (InodeMap.Map [None; Some 11; Some 12; Some 13] 4 4) no_listings.

Lemma demo_nodes (P : Z -> node -> Prop) :
  P 1%Z (Node (demo_listing [] listing_type_DIRECTORY) None [2; 3]%Z) ->
  P 2%Z (Node (demo_listing (cs "a") listing_type_FILE) (Some 1%Z) []) ->
  P 3%Z (Node (demo_listing (cs "d") listing_type_DIRECTORY) (Some 1%Z) []) ->
  forall i n, demo_session_tree !! i = Some n -> P i n.
Proof.
  intros H1 H2 H3 i n. unfold demo_session_tree.
  rewrite !lookup_insert_Some, lookup_singleton_Some. naive_solver.
Qed.

Lemma demo_represents : represents demo_ptr 2 demo_session demo_session_tree demo_refs.
Proof.
  split; cbn [direntries inodes demo_session].
  - apply demo_nodes; (split; [eexists; split_and!; [reflexivity..| |]|by eexists|cbn; lia]); try done; try constructor.
    eapply (chain_next demo_ptr _ 2 [3%Z]); [reflexivity|].
    eapply (chain_next demo_ptr _ 3 []); [reflexivity|constructor].
  - intros i [n Hi]. revert i n Hi. apply demo_nodes; (split; [cbn; lia|reflexivity]).
  - apply demo_nodes; repeat constructor; by eexists.
  - intros i n j Hi. revert i n Hi.
    apply (demo_nodes (fun _ n => n_parent n = Some j -> is_Some (demo_session_tree !! j)));
      intros [= <-]; by eexists.
  - intros i _. by split.
  - intros p [x Hp]. rewrite !lookup_insert_Some, lookup_singleton_Some in Hp.
    destruct Hp as [[<- _]|[_ [[<- _]|[_ [<- _]]]]]; [exists 1%Z|exists 2%Z|exists 3%Z]; split; try done; by eexists.
Qed.

(** Opened twice, with a file read, asked about and closed in between. *)
Definition demo_ops : list op :=
  [OLookup 1 (cs "a"); OOpen 2 0; OThreadEnds 2; OGetattr 2; ORelease 2; OForget 2 1;
   OOpendir 1 0; OReaddir 100 0 1; OLookup 1 (cs "b"); OAccess 7 4; OReleasedir 1; ORefused (Unlink 1 (cs "a"))].
Definition demo_add (n : cstr) (_ : Z * stat) (_ : Z) : list ascii := n ++ cs ";".

Lemma demo_rooms k i :
  is_Some (demo_session_tree !! i) -> room (demo_refs i + all_moves demo_session_tree (take k demo_ops) i).
Proof.
  intros [n Hi]. revert i n Hi.
  apply (demo_nodes (fun i _ => room (demo_refs i + all_moves demo_session_tree (take k demo_ops) i)));
    clear; unfold room.
  all: do 12 (destruct k as [|k]; [split; vm_compute; reflexivity|]); rewrite take_ge by (cbn; lia);
    split; vm_compute; reflexivity.
Qed.

Lemma session_refines_server_witness :
  exists f', handle_ops demo_config demo_add (fun n => Z.of_nat (length n) + 1)%Z demo_ptr 2 (fun _ => Ret (EIO, []))
      demo_ops demo_session =
    Ret (server_answer demo_config demo_add (fun n => Z.of_nat (length n) + 1)%Z demo_ptr demo_session_tree
           <$> demo_ops, f') /\
    represents demo_ptr 2 f' demo_session_tree
      (fun i => demo_refs i + all_moves demo_session_tree demo_ops i)%Z /\
    forall i, fuse_methods demo_config 2 (fun _ => Ret (EIO, [])) demo_add (fun n => Z.of_nat (length n) + 1)%Z
        (Readlink i) f' = AssertFail /\
      fuse_methods demo_config 2 (fun _ => Ret (EIO, [])) demo_add (fun n => Z.of_nat (length n) + 1)%Z
        (Getattr i None) f' = Undef.
Proof.
  apply (session_refines_server demo_config demo_add (fun n => Z.of_nat (length n) + 1)%Z demo_ptr 2
    (fun _ => Ret (EIO, [])) demo_session demo_session_tree demo_refs demo_ops).
  - exact demo_represents.
  - unfold demo_ops. repeat (apply Forall_cons; split); [..|apply Forall_nil; exact I]; cbn.
    all: try reflexivity; try (left; first [reflexivity|by eexists]); try (right; lia); try by eexists.
    split_and!; [lia|lia|lia|reflexivity|]. intros n [= <-]. reflexivity.
  - exact demo_rooms.
Defined.

Lemma directory_wears_out_witness :
  exists f', handle_ops demo_config demo_add (fun n => Z.of_nat (length n) + 1)%Z demo_ptr 2 (fun _ => Ret (EIO, []))
      (visits 3 3) demo_session =
    Ret (server_answer demo_config demo_add (fun n => Z.of_nat (length n) + 1)%Z demo_ptr demo_session_tree
           <$> visits 3 3, f') /\
    direntries f' !! demo_ptr 3 = None /\ forall mask, fsfuse_access demo_config 3 mask f' = Undef.
Proof.
  apply (directory_wears_out demo_config demo_add (fun n => Z.of_nat (length n) + 1)%Z demo_ptr 2
    (fun _ => Ret (EIO, [])) demo_session demo_session_tree demo_refs 3).
  - exact demo_represents.
  - reflexivity.
  - reflexivity.
Defined.
