(* ===== verification/Reads.v ===== *)
(** * read.c with downloader.c: what reads are answered

    Reads of an open file are queued by [fsfuse_read] on the threads of FUSE
    and answered by the download thread through [chunk_done]. Here the two are
    put together, with the query for alternatives and the fetch that the thread
    makes: what userspace gets for the reads of one file. *)
From S2P Require Import Counted Parsers Indexnode Listing Fetcher.
From S2P Require Import Prelude CLib Counted RefCount BinaryHeap ReadContext Downloader FuseMethods.

(** A call of [fsfuse_read]: the request, the size and offset asked for, and the
    addresses its two allocations get. *)
Record read_call := ReadCall {
  rq_req : Z; rq_size : Z; rq_off : Z; rq_buf : nat; rq_ctxt : Z
}.

Section Reads.
Context {Q : Type} `{PriQ chunk Q}.
Implicit Types t : downloader Q.

(** The calls, one after another: they take the downloader's mutex. *)
Definition read_all (l : list read_call) t : outcome (downloader Q) :=
  foldl (fun m x => t ← m; fsfuse_read (rq_req x) (rq_size x) (rq_off x) (rq_buf x) (rq_ctxt x) t) (Ret t) l.

(** ** What the calls ask for *)

Variable file : list ascii.

(** As much of what is asked for as the file has. *)
Definition got_size (x : read_call) : Z :=
  (Z.min (rq_off x + rq_size x) (file_size file) - rq_off x)%Z.
Definition refused (rc : Z) (x : read_call) : reply := ReplyErr (rq_req x) rc.

(** What FUSE may ask: any place and size that an [off_t] can add up. *)
Definition askable (x : read_call) : Prop :=
  (0 <= rq_off x)%Z /\ (0 <= rq_size x)%Z /\ (rq_off x + rq_size x < 2 ^ 63)%Z.

(** The calls the downloader's assertions let through: none past the end, and
    none over the end whose 32-bit sum falls before it. *)
Definition accepted (x : read_call) : bool :=
  bool_decide (rq_off x <= file_size file)%Z &&
  (bool_decide (rq_off x = file_size file) || bool_decide (file_size file <= u32 (rq_off x + rq_size x))%Z
   || bool_decide (rq_off x + rq_size x <= file_size file)%Z).

(** ** Queueing *)

Definition request_for (x : read_call) : Downloader.request :=
  Downloader.Request (rq_off x) (Z.min (rq_off x + rq_size x) (file_size file)) (rq_buf x) (rq_ctxt x).

(** The memory after the allocations of a read. *)
Definition after_read (x : read_call) (w : io) : io :=
  IO (<[rq_buf x := replicate (Z.to_nat (got_size x)) None]> (blocks w))
     (<[rq_ctxt x := ReadContext (rq_req x) (got_size x) (rq_buf x)]> (ctxts w)) (de_refs w) (replies w).

Lemma accepted_read_size x :
  askable x -> accepted x = true -> (file_size file < 2 ^ 63)%Z ->
  read_size (file_size file) (rq_off x) (rq_size x) = got_size x /\
  (0 <= rq_off x <= file_size file)%Z /\ (0 <= got_size x)%Z.
Proof.
  intros (Ho & Hs & Hb) Ha Hl. unfold accepted in Ha. apply andb_true_iff in Ha as [Ha1 Ha2].
  apply bool_decide_eq_true in Ha1. rewrite !orb_true_iff, !bool_decide_eq_true in Ha2.
  assert (0 <= file_size file)%Z by (unfold file_size; lia).
  assert (u32 (rq_off x + rq_size x) <= rq_off x + rq_size x)%Z as Hu by (unfold u32; apply Z.mod_le; lia).
  unfold read_size, got_size. split; [|lia].
  destruct (Z.leb_spec (file_size file) (rq_off x)); [lia|].
  destruct (Z.leb_spec (file_size file) (u32 (rq_off x + rq_size x))); [rewrite u64_id by lia; lia|lia].
Qed.

Lemma read_queues x t :
  de_size t = file_size file -> (file_size file < 2 ^ 63)%Z -> askable x -> accepted x = true ->
  pq_wf (chunks t) -> (Z.of_nat (length (queued (chunks t))) < pq_max)%Z ->
  exists q, fsfuse_read (rq_req x) (rq_size x) (rq_off x) (rq_buf x) (rq_ctxt x) t =
      Ret (set_chunks (set_world t (after_read x (world t))) q) /\ pq_wf q /\
    queued q ≡ₚ chunk_of (request_for x) :: queued (chunks t).
Proof.
  intros Hsz Hl Hx Ha Hwf Hm. unfold fsfuse_read. rewrite Hsz.
  destruct (accepted_read_size x Hx Ha Hl) as (Hr & Ho & Hg).
  rewrite Hr. unfold got_size in Hg |- *. rewrite u64_id, i64_id by lia. fold (got_size x) (after_read x (world t)).
  destruct (chunk_add_ok (request_for x) (set_world t (after_read x (world t)))) as (q & E & Hq & HP).
  - done.
  - unfold in_file. cbn [req_start req_end de_size set_world request_for]. lia.
  - done.
  - exists q. replace (rq_off x + got_size x)%Z with (req_end (request_for x))
      by (unfold got_size; cbn; lia). by split_and!.
Qed.

(** The others end the program. *)
Lemma read_refused x t :
  de_size t = file_size file -> askable x -> accepted x = false ->
  fsfuse_read (rq_req x) (rq_size x) (rq_off x) (rq_buf x) (rq_ctxt x) t = AssertFail.
Proof.
  intros Hsz (Ho & Hs & Hb) Ha. unfold fsfuse_read.
  apply (read_aborts_on _ _ _ _ (set_world t _)); [done|lia|]. cbn [de_size set_world].
  unfold accepted in Ha. apply andb_false_iff in Ha. rewrite !orb_false_iff, !bool_decide_eq_false in Ha.
  rewrite Hsz. lia.
Qed.

(** Its chunk joins the pending ones; one of the references kept is now its. *)
Lemma read_world req_of held x w P :
  world_ok file req_of (S held) w P -> (0 <= rq_off x <= file_size file)%Z -> (0 <= got_size x)%Z -> req_of (rq_ctxt x) = rq_req x ->
  rq_ctxt x ∉ ctxt <$> P -> rq_buf x ∉ (fun c => fst (buf c)) <$> P ->
  world_ok file req_of held (after_read x w) (chunk_of (request_for x) :: P).
Proof.
  intros (HF & HN & HB & HR & HL) Ho Hs Hreq Hc Hb. unfold world_ok. unfold got_size in Hs.
  split; [|split_and!].
  - apply Forall_cons. split.
    + unfold chunk_ok, chunk_of, chunk_new, origin, request_for, after_read. cbn.
      rewrite !lookup_insert_eq. eexists _, _. split_and!; try done; try lia.
      rewrite length_replicate. unfold got_size. lia.
    + rewrite Forall_forall in HF |- *. intros c Hin. eapply chunk_ok_other; [..|by apply HF]; cbn.
      * rewrite lookup_insert_ne; [done|]. intros E. apply Hc. rewrite E. by apply list_elem_of_fmap_2.
      * rewrite lookup_insert_ne; [done|]. intros E. apply Hb. rewrite E.
        by apply (list_elem_of_fmap_2 (fun c => fst (buf c))).
  - cbn. by constructor.
  - cbn. by constructor.
  - done.
  - change (refs (after_read x w)) with (refs w). cbn [length] in *. lia.
Qed.

(** ** All the calls *)

(** The memory after the allocations of some reads. *)
Definition after_reads (l : list read_call) (w : io) : io := foldl (fun w x => after_read x w) w l.

Lemma after_reads_world req_of l : forall held w P,
  (file_size file < 2 ^ 63)%Z -> Forall askable l -> forallb accepted l = true ->
  world_ok file req_of (length l + held) w P ->
  Forall (fun x => req_of (rq_ctxt x) = rq_req x) l ->
  NoDup ((rq_ctxt <$> l) ++ (ctxt <$> P)) -> NoDup ((rq_buf <$> l) ++ ((fun c => fst (buf c)) <$> P)) ->
  world_ok file req_of held (after_reads l w) ((chunk_of ∘ request_for <$> l) ++ P) /\
  replies (after_reads l w) = replies w.
Proof.
  induction l as [|x l IH]; intros held w P Hl HF Ha HW Hreq HNc HNb; [done|].
  apply Forall_cons in HF as [Hx HF]. apply Forall_cons in Hreq as [Hrx Hreq].
  cbn [forallb] in Ha. apply andb_true_iff in Ha as [Hax Ha].
  cbn [fmap list_fmap app] in HNc, HNb. apply NoDup_cons in HNc as [Hc HNc]. apply NoDup_cons in HNb as [Hb HNb].
  rewrite not_elem_of_app in Hc. rewrite not_elem_of_app in Hb. destruct Hc as [Hc1 Hc2]. destruct Hb as [Hb1 Hb2].
  destruct (accepted_read_size x Hx Hax Hl) as (_ & Ho & Hg). cbn [length] in HW.
  pose proof (read_world req_of _ x _ _ HW Ho Hg Hrx Hc2 Hb2) as HW1.
  destruct (IH held (after_read x w) (chunk_of (request_for x) :: P)) as [H1 H2]; try done.
  - rewrite fmap_cons. cbn [chunk_of chunk_new ctxt request_for req_ctxt].
    rewrite <- Permutation_middle. constructor; [|done]. rewrite not_elem_of_app. by split.
  - rewrite fmap_cons. cbn [chunk_of chunk_new buf fst request_for req_buf].
    rewrite <- Permutation_middle. constructor; [|done]. rewrite not_elem_of_app. by split.
  - cbn [after_reads foldl] in *. rewrite <- Permutation_middle in H1. by split.
Qed.

Lemma read_all_cons x l t :
  read_all (x :: l) t =
    (t ← fsfuse_read (rq_req x) (rq_size x) (rq_off x) (rq_buf x) (rq_ctxt x) t; read_all l t).
Proof.
  unfold read_all. cbn [foldl]. rewrite bind_ret_l.
  destruct (fsfuse_read _ _ _ _ _ t) as [t'| | |]; [by rewrite bind_ret_l|..];
    (induction l as [|y l IH]; [done|]; cbn [foldl]; exact IH).
Qed.

Lemma reads_queue l : forall t,
  de_size t = file_size file -> (file_size file < 2 ^ 63)%Z -> Forall askable l -> pq_wf (chunks t) ->
  (Z.of_nat (length (queued (chunks t)) + length l) <= pq_max)%Z ->
  if forallb accepted l then
    exists q, read_all l t = Ret (set_chunks (set_world t (after_reads l (world t))) q) /\ pq_wf q /\
      queued q ≡ₚ (chunk_of ∘ request_for <$> l) ++ queued (chunks t)
  else read_all l t = AssertFail.
Proof.
  induction l as [|x l IH]; intros t Hsz Hl HF Hwf Hm.
  { exists (chunks t). split_and!; try done. by destruct t. }
  apply Forall_cons in HF as [Hx HF]. cbn [length forallb] in *. rewrite read_all_cons.
  destruct (accepted x) eqn:Ha; cbn [andb]; [|by rewrite read_refused].
  destruct (read_queues x t Hsz Hl Hx Ha Hwf) as (q1 & E1 & Hwf1 & HP1); [lia|].
  rewrite E1, bind_ret_l. set (t1 := set_chunks (set_world t (after_read x (world t))) q1) in *.
  specialize (IH t1 Hsz Hl HF Hwf1). change (chunks t1) with q1 in IH.
  rewrite HP1 in IH. cbn [length] in IH. specialize (IH ltac:(lia)).
  destruct (forallb accepted l); [|done]. destruct IH as (q & E & Hq & HP).
  exists q. split_and!; [done|done|]. rewrite HP, HP1, fmap_cons. cbn [app compose]. symmetry. apply Permutation_middle.
Qed.

(** ** Reads while the thread runs *)

(** The two things a read does that others can see, its allocations apart. *)
Definition read_request (x : read_call) : Downloader.request :=
  Downloader.Request (rq_off x) (i64 (u64 (rq_off x + read_size (file_size file) (rq_off x) (rq_size x))))
    (rq_buf x) (rq_ctxt x).
Definition read_allocs (x : read_call) (w : io) : io :=
  IO (<[rq_buf x := replicate (Z.to_nat (read_size (file_size file) (rq_off x) (rq_size x))) None]> (blocks w))
     (<[rq_ctxt x := ReadContext (rq_req x) (read_size (file_size file) (rq_off x) (rq_size x)) (rq_buf x)]> (ctxts w))
     (de_refs w) (replies w).

Lemma read_in_two x t :
  de_size t = file_size file ->
  fsfuse_read (rq_req x) (rq_size x) (rq_off x) (rq_buf x) (rq_ctxt x) t =
    downloader_chunk_add (read_request x) (set_world t (read_allocs x (world t))).
Proof. intros Hsz. unfold fsfuse_read, read_request, read_allocs. by rewrite Hsz. Qed.

Lemma accepted_in_two x w :
  askable x -> accepted x = true -> (file_size file < 2 ^ 63)%Z ->
  read_request x = request_for x /\ read_allocs x w = after_read x w.
Proof.
  intros Hx Ha Hl. destruct (accepted_read_size x Hx Ha Hl) as (Hr & Ho & Hg).
  unfold read_request, read_allocs, after_read, request_for. rewrite Hr. split; [|done].
  unfold got_size in *. rewrite u64_id, i64_id by lia. f_equal. lia.
Qed.

Lemma all_in_two l : forall w,
  Forall askable l -> forallb accepted l = true -> (file_size file < 2 ^ 63)%Z ->
  (read_request <$> l) = (request_for <$> l) /\ foldl (fun w x => read_allocs x w) w l = after_reads l w.
Proof.
  induction l as [|x l IH]; intros w HF Ha Hl; [done|]. apply Forall_cons in HF as [Hx HF].
  cbn [forallb] in Ha. apply andb_true_iff in Ha as [Hax Ha].
  destruct (accepted_in_two x w Hx Hax Hl) as [E1 E2]. destruct (IH (after_read x w) HF Ha Hl) as [IH1 IH2].
  cbn [fmap list_fmap foldl after_reads]. by rewrite E1, E2, IH2, <- IH1.
Qed.

Lemma late_refused l : forall t,
  de_size t = file_size file -> (file_size file < 2 ^ 63)%Z -> Forall askable l -> pq_wf (chunks t) ->
  (Z.of_nat (length (queued (chunks t)) + length l) <= pq_max)%Z ->
  forallb accepted l = false -> arrive (read_request <$> l) t = AssertFail.
Proof.
  induction l as [|x l IH]; intros t Hsz Hl HF Hwf Hm Ha; [done|]. apply Forall_cons in HF as [Hx HF].
  cbn [length forallb] in *. unfold arrive. cbn [fmap list_fmap foldl]. rewrite bind_ret_l.
  destruct (accepted x) eqn:Hax; cbn [andb] in Ha.
  - destruct (accepted_read_size x Hx Hax Hl) as (_ & Ho & Hg).
    destruct (accepted_in_two x (world t) Hx Hax Hl) as [-> _].
    destruct (chunk_add_ok (request_for x) t Hwf) as (q & E & Hq & HP); [|lia|].
    { unfold in_file. unfold got_size in Hg. cbn [req_start req_end request_for]. lia. }
    rewrite E. apply (IH (set_chunks t q)); try done. cbn [chunks set_chunks]. rewrite HP. cbn [length]. lia.
  - assert (downloader_chunk_add (read_request x) t = AssertFail) as ->; [|by clear; induction l].
    destruct Hx as (H1 & H2 & H3). unfold read_request. rewrite <- Hsz. apply read_aborts_on; [done|lia|].
    unfold accepted in Hax. apply andb_false_iff in Hax. rewrite !orb_false_iff, !bool_decide_eq_false in Hax.
    rewrite Hsz. lia.
Qed.

End Reads.

Section Replies.
Context (file : list ascii) (l : list read_call).

(** The request that each context answers. *)
Definition req_of (c : Z) : Z :=
  default 0%Z ((list_to_map ((fun x => (rq_ctxt x, rq_req x)) <$> l) : gmap Z Z) !! c).

Lemma req_of_call x : NoDup (rq_ctxt <$> l) -> x ∈ l -> req_of (rq_ctxt x) = rq_req x.
Proof.
  intros HN Hx. unfold req_of. rewrite (elem_of_list_to_map_1 _ (rq_ctxt x) (rq_req x)); [done| |].
  - by rewrite <- list_fmap_compose.
  - by apply (list_elem_of_fmap_2 (fun x => (rq_ctxt x, rq_req x))).
Qed.

Lemma refusals_to l1 rc : NoDup (rq_ctxt <$> l) -> l1 ⊆ l ->
  failure req_of rc <$> (request_for file <$> l1) = refused rc <$> l1.
Proof.
  intros HN Hs. rewrite <- list_fmap_compose. apply list_fmap_ext. intros i x Hx%list_elem_of_lookup_2.
  unfold compose, failure, refused. cbn. by rewrite req_of_call by auto.
Qed.

End Replies.

(** ** The thread with some reads queued *)

Section Thread.
Context `{Curl} {Q : Type} `{PriQ chunk Q}.

(** The memory of reads queued, and of those to come as well. *)
Lemma reads_thread file (l late : list read_call) (w : io) :
  (file_size file < 2 ^ 63)%Z -> Forall askable (l ++ late) -> forallb (accepted file) (l ++ late) = true ->
  NoDup (rq_ctxt <$> l ++ late) -> NoDup (rq_buf <$> l ++ late) ->
  refs_ok w -> (Z.of_nat (S (length (l ++ late))) <= refs w)%Z ->
  world_ok file (req_of (l ++ late)) 1 (after_reads file late (after_reads file l w))
    ((chunk_of ∘ request_for file <$> late) ++ (chunk_of ∘ request_for file <$> l)) /\
  replies (after_reads file late (after_reads file l w)) = replies w.
Proof.
  intros Hl HF Ha Hc Hb Hr Hn. apply Forall_app in HF as [HF1 HF2].
  rewrite forallb_app in Ha. apply andb_true_iff in Ha as [Ha1 Ha2].
  assert (Hreq : forall x, x ∈ l ++ late -> req_of (l ++ late) (rq_ctxt x) = rq_req x)
    by (intros; by apply req_of_call).
  pose proof Hc as Hc'. pose proof Hb as Hb'. rewrite fmap_app in Hc'. rewrite fmap_app in Hb'.
  destruct (after_reads_world file (req_of (l ++ late)) l (length late + 1) w []) as [HW Hr1]; try done.
  { split_and!; [by constructor..|done|]. rewrite length_app in Hn. cbn [length]. lia. }
  { apply Forall_forall. intros x Hx. apply Hreq, elem_of_app. by left. }
  { rewrite app_nil_r. by apply NoDup_app in Hc' as (? & _). }
  { rewrite app_nil_r. by apply NoDup_app in Hb' as (? & _). }
  rewrite app_nil_r in HW.
  destruct (after_reads_world file (req_of (l ++ late)) late 1 (after_reads file l w)
    (chunk_of ∘ request_for file <$> l)) as [HW2 Hr2]; try done.
  { apply Forall_forall. intros x Hx. apply Hreq, elem_of_app. by right. }
  { rewrite <- list_fmap_compose. by rewrite (Permutation_app_comm (rq_ctxt <$> late)). }
  { rewrite <- list_fmap_compose. by rewrite (Permutation_app_comm (rq_buf <$> late)). }
  split; [done|]. by rewrite Hr2, Hr1.
Qed.

(** The run that reads end in: a new thread, reads, more reads while it runs. *)
Definition run_reads (file : list ascii) (l late : list read_call) (rs : list round) (st : Listing.store)
    (ws : list wait) (w : io) : outcome (io * Listing.store) :=
  t ← downloader_new (Q := Q) (file_size file) w ws;
  t ← read_all l t;
  downloaderead_main rs (read_request file <$> late) st
    (set_world t (foldl (fun w x => read_allocs file x w) (world t) late)).

(** With a read that comes late and is refused the thread ends in the assertion,
    if it gets there. *)
Lemma late_aborts file late r rs st (t t1 : downloader Q) c i hash tr :
  (file_size file < 2 ^ 63)%Z -> Forall askable late -> forallb (accepted file) late = false ->
  current_chunk t = None /\ seek t = false -> chunk_get_next t = Ret (Some c, t1) ->
  de_size t1 = file_size file -> pq_wf (chunks t1) ->
  (Z.of_nat (length (queued (chunks t1)) + length late) <= pq_max)%Z ->
  listed r st i hash -> alternatives_page r hash = Ret tr ->
  downloaderead_main (r :: rs) (read_request file <$> late) st t =
    if decide (empty_page tr) then AssertFail else Undef.
Proof.
  intros Hl HF Ha Hnew E Hsz Hwf Hm Hlist Hp. unfold downloaderead_main.
  rewrite (main_loop_start r rs st t t1 _ Hnew E).
  pose proof (fetch_from_outcome r c st (set_current t1 (Some c)) i hash tr Hlist Hp) as HP.
  destruct (decide (empty_page tr)); [|by rewrite HP]. destruct HP as (ins & -> & _).
  rewrite bind_ret_l. change (EBUSY =? 0)%Z with false. cbn iota. rewrite bind_ret_l.
  by rewrite (late_refused file late) by done.
Qed.

(** A thread that has been queued the reads [l], once it has its first chunk. *)
Lemma queued_runs file l late r rs st ws w (q : Q) i hash tr :
  (file_size file < 2 ^ 63)%Z -> l <> [] -> Forall askable (l ++ late) -> forallb (accepted file) l = true ->
  NoDup (rq_ctxt <$> l ++ late) -> NoDup (rq_buf <$> l ++ late) ->
  (Z.of_nat (length (l ++ late)) <= pq_max)%Z ->
  refs_ok w -> (Z.of_nat (S (length (l ++ late))) <= refs w)%Z -> arriving ws = [] ->
  pq_wf q -> queued q ≡ₚ (chunk_of ∘ request_for file <$> l) ->
  listed r st i hash -> alternatives_page r hash = Ret tr ->
  let t := Downloader (file_size file) q 0 None false false (after_reads file l w) ws in
  let run := downloaderead_main (r :: rs) (read_request file <$> late) st
    (set_world t (foldl (fun w x => read_allocs file x w) (world t) late)) in
  if decide (empty_page tr) then
    if forallb (accepted file) late then
      exists w' ins l', run = Ret (w', Listing.Store (listings st) ins) /\ l' ≡ₚ l ++ late /\
        replies w' = replies w ++ (refused EBUSY <$> l')
    else run = AssertFail
  else run = Undef.
Proof.
  intros Hl Hne HF Ha Hc Hb Hroom Hr Hn Harr Hwf HP Hlist Hp t run. set (t2 := set_world t _) in run.
  rewrite length_app in Hroom.
  destruct (get_next_queued t2 Hwf) as (c & q' & E & Hwf' & HP').
  { intros En. apply (f_equal length) in En. change (queued (chunks t2)) with (queued q) in En.
    rewrite HP, length_fmap in En. by destruct l. }
  { change (queued (chunks t2)) with (queued q). rewrite HP, length_fmap. lia. }
  change (queued (chunks t2)) with (queued q) in HP'.
  assert (S (length (queued q')) = length l) as Hlen.
  { apply Permutation_length in HP, HP'. rewrite length_fmap in HP. cbn in HP'. lia. }
  destruct (forallb (accepted file) late) eqn:Hlate.
  2:{ unfold run. rewrite (late_aborts file late r rs st t2 (set_chunks t2 q') c i hash tr); try done.
      - by destruct (decide (empty_page tr)).
      - by apply Forall_app in HF as [_ ?].
      - change (chunks (set_chunks t2 q')) with q'. lia. }
  destruct (reads_thread file l late w) as [HW Hrep]; try done; [by rewrite forallb_app, Ha|].
  apply Forall_app in HF as [_ HF2].
  destruct (all_in_two file late (after_reads file l w) HF2 Hlate Hl) as [Ereq Ew].
  assert (world t2 = after_reads file late (after_reads file l w)) as Hw2 by exact Ew.
  pose proof (session_with_chunk file (req_of (l ++ late)) 1 r rs (request_for file <$> late) st t2
    (set_chunks t2 q') c i hash tr) as HS. unfold run. clear run. rewrite Ereq.
  specialize (HS (conj eq_refl eq_refl) E). cbn [chunks set_chunks] in HS.
  assert (thread_ok file (req_of (l ++ late)) 1 (set_chunks t2 q') (c :: (chunk_of <$> (request_for file <$> late)))) as Hok.
  { split; cbn [chunks set_chunks de_size]; [done|done|..]; unfold to_come;
      cbn [chunks set_chunks waits world]; change (waits t2) with ws; rewrite Harr, app_nil_r; [lia|].
    rewrite Hw2, <- (list_fmap_compose (request_for file) chunk_of). cbn [app].
    rewrite Permutation_middle, <- HP', HP. exact HW. }
  specialize (HS Hok). unfold to_come in HS. cbn [chunks set_chunks waits] in HS. change (waits t2) with ws in HS.
  rewrite Harr, app_nil_r, length_fmap in HS. specialize (HS ltac:(lia) ltac:(lia) Hlist Hp).
  destruct (decide (empty_page tr)); [|exact HS]. destruct HS as (w' & fa & ins & E2 & HP2 & Hrep2 & _).
  assert (fa ≡ₚ request_for file <$> (l ++ late)) as HP3.
  { rewrite HP2, fmap_app, app_comm_cons, <- fmap_cons, <- HP', HP, <- (list_fmap_compose (chunk_of ∘ request_for file)).
    rewrite (list_fmap_ext _ (request_for file) l); [done|]. intros ? x _. apply request_of_chunk_of. }
  apply Permutation_map_inv in HP3 as (l' & -> & HP3).
  exists w', ins, l'. split; [exact E2|]. split; [done|].
  rewrite Hrep2. change (world (set_chunks t2 q')) with (world t2). rewrite Hw2, Hrep.
  f_equal. apply refusals_to; [done|]. intros x Hx. by rewrite HP3.
Qed.

End Thread.

(** ** Properties *)

(** C1: what userspace gets for the reads of an open file, any reads, before the
    thread takes its first and while it runs ([late]), with the program's own
    query and fetch. A read that starts past the end, or goes over it by a sum
    that wraps round 32 bits, ends the filesystem on an assertion. Otherwise the
    indexnode's answer decides: with no body and no error every read is answered
    exactly once, each with EBUSY; with anything else the thread's behaviour is
    undefined. No read is ever given its bytes. (Each answer drops a reference
    that no read took: the file has had no more reads than references.) *)
Theorem reads_are_refused `{Curl} {Q} `{PriQ chunk Q} (file : list ascii) (l late : list read_call)
    (r : round) (rs : list round) (st : Listing.store) (ws : list wait) (w : io) (n : ref_count)
    (i : nat) (hash : cstr) (tr : transfer)
    (Hfile : (file_size file < 2 ^ 63)%Z) (Hl : l <> []) (Hreads : Forall askable (l ++ late))
    (Hctxts : NoDup (rq_ctxt <$> l ++ late)) (Hbufs : NoDup (rq_buf <$> l ++ late))
    (Hroom : (Z.of_nat (length (l ++ late)) <= pq_max)%Z)
    (Hde : de_refs w = Some n) (Hrefs : (Z.of_nat (length (l ++ late)) <= count n < 2 ^ 32 - 1)%Z)
    (Hquiet : arriving ws = [])
    (Hlisted : listed r st i hash) (Hpage : alternatives_page r hash = Ret tr) :
  let run := run_reads (Q := Q) file l late (r :: rs) st ws w in
  if forallb (accepted file) l then
    if decide (empty_page tr) then
      if forallb (accepted file) late then
        exists w' ins l', run = Ret (w', Listing.Store (listings st) ins) /\ l' ≡ₚ l ++ late /\
          replies w' = replies w ++ (refused EBUSY <$> l')
      else run = AssertFail
    else run = Undef
  else run = AssertFail.
Proof.
  intros run. unfold run, run_reads. rewrite length_app in Hroom, Hrefs.
  assert (0 < length l) as Hpos by (destruct l; [done|cbn; lia]).
  destruct (inc_live n) as [E Hlive]; [unfold live; lia|lia|].
  unfold downloader_new, add_ref. rewrite Hde. cbn [deref]. rewrite bind_ret_l, E, !bind_ret_l.
  set (w0 := IO _ _ _ _). set (t0 := Downloader _ _ _ _ _ _ _ _). destruct pq_new_law as [Hwf0 Hq0].
  assert (queued (chunks t0) = []) as Hq0' by (unfold queued, t0; cbn [chunks]; by rewrite Hq0).
  pose proof Hreads as HF. apply Forall_app in HF as [HF _].
  pose proof (reads_queue file l t0) as HQ. rewrite Hq0' in HQ.
  specialize (HQ eq_refl Hfile HF Hwf0 ltac:(cbn; lia)).
  destruct (forallb (accepted file) l) eqn:Ha; [|by rewrite HQ].
  destruct HQ as (q & E1 & Hq & HP). rewrite E1, bind_ret_l. rewrite app_nil_r in HP.
  apply (queued_runs file l late r rs st ws w0 q i hash tr); try done.
  - by rewrite length_app.
  - unfold refs, w0. cbn [de_refs count]. rewrite length_app. lia.
Qed.

(** Two reads of the demo file, the second over its end, and a third late; an
    indexnode that has nothing to say. *)
Definition demo_reads : list read_call := [ReadCall 7 4 0 0 100; ReadCall 8 4096 6 1 101].
Definition demo_late_reads : list read_call := [ReadCall 9 1 8 2 102].

Lemma reads_are_refused_witness :
  exists w' ins l',
    @run_reads script_curl (binary_heap chunk) _ demo_file demo_reads demo_late_reads
      [demo_round (Transfer [] CURLE_OK 200)] demo_store [] (IO ∅ ∅ (Some (RefCount 3)) []) =
      Ret (w', Listing.Store (listings demo_store) ins) /\
    l' ≡ₚ demo_reads ++ demo_late_reads /\ replies w' = [] ++ (refused EBUSY <$> l').
Proof.
  apply (@reads_are_refused script_curl (binary_heap chunk) _ demo_file demo_reads demo_late_reads
    (demo_round (Transfer [] CURLE_OK 200)) [] demo_store [] (IO ∅ ∅ (Some (RefCount 3)) []) (RefCount 3)
    0 (cs "d41d") (Transfer [] CURLE_OK 200)).
  - reflexivity.
  - discriminate.
  - repeat (apply Forall_cons; split; [split_and!; vm_compute; first [discriminate|reflexivity]|]). constructor.
  - apply (bool_decide_unpack _). by vm_compute.
  - apply (bool_decide_unpack _). by vm_compute.
  - vm_compute. discriminate.
  - reflexivity.
  - split; vm_compute; [discriminate|reflexivity].
  - reflexivity.
  - apply demo_listed.
  - apply demo_page.
Defined.
