(* ===== verification/Alarm.v ===== *)
(** * alarm_simple.c: a thread that calls back at intervals

    The thread waits in [select] on the pipe of its owner: a timeout is a tick,
    a message stops it. The results of [select] and [read] are a schedule. *)
From S2P Require Import Prelude.

(** ** The code *)

Definition alarm_control_codes_STOP : Z := 1.

(** A return of [select] on the pipe. [SelectReady n isset read_rc msg]: [n]
    descriptors, whether the pipe's is one, what [read] then returned and wrote. *)
Inductive select_result :=
| SelectError
| SelectTimeout
| SelectReady (n : Z) (isset : bool) (read_rc msg : Z).

Record alarm (A : Type) := Alarm { interval : Z; cb_data : A; pipe_read : Z; pipe_write : Z }.
Arguments Alarm {A} _ _ _ _.
Arguments interval {A} _.
Arguments cb_data {A} _.
Arguments pipe_read {A} _.
Arguments pipe_write {A} _.

(** The alarms allocated, those whose thread runs, and the descriptors in use. *)
Record alarm_mem (A : Type) := AlarmMem {
  alarms : gmap nat (alarm A);
  threads : gset nat;
  open : gset Z
}.
Arguments AlarmMem {A} _ _ _.
Arguments alarms {A} _.
Arguments threads {A} _.
Arguments open {A} _.

(** [pipe_fds]: what [pipe] gives, [None] if it fails; [create_rc]: the result
    of [pthread_create]. The interval is an [unsigned]. *)
Definition alarm_new {A} (pipe_fds : option (Z * Z)) (create_rc : Z) (interval : Z) (cb_data : A)
    (m : alarm_mem A) : outcome (nat * alarm_mem A) :=
  fds ← (match pipe_fds with Some fds => Ret fds | None => AssertFail end);
  let p := stdpp.base.fresh (dom (alarms m)) in
  let alarm := Alarm (u32 interval) cb_data fds.1 fds.2 in
  _ ← c_assert (create_rc =? 0)%Z;
  Ret (p, AlarmMem (<[p := alarm]> (alarms m)) ({[ p ]} ∪ threads m) ({[ fds.1; fds.2 ]} ∪ open m)).

(** [sizeof(msg)]; an [int]. *)
Definition sizeof_msg : Z := 4.

(** One turn of the loop of [alarm_thread_main]: the memory, and whether it
    exits. *)
Definition alarm_turn {A S} (cb : A -> S -> outcome S) (a : alarm A) (r : select_result) (s : S)
  : outcome (S * bool) :=
  match r with
  | SelectError => Ret (s, false)
  | SelectTimeout => s ← cb (cb_data a) s; Ret (s, false)
  | SelectReady n isset read_rc msg =>
      _ ← c_assert (n =? 1)%Z;
      _ ← c_assert isset;
      _ ← c_assert (read_rc =? sizeof_msg)%Z;
      _ ← c_assert (msg =? alarm_control_codes_STOP)%Z;
      Ret (s, true)
  end.

(** One alarm's thread by itself. *)
Fixpoint alarm_thread_main {A S} (cb : A -> S -> outcome S) (a : alarm A) (rs : list select_result)
    (s : S) : outcome S :=
  match rs with
  | [] => Blocked
  | r :: rs => '(s, exiting) ← alarm_turn cb a r s;
               if exiting : bool then Ret s else alarm_thread_main cb a rs s
  end.

(** The turns of all the alarms' threads, as they come: each names its alarm. A
    turn of a thread that does not run is none. *)
Fixpoint run_threads {A S} (cb : A -> S -> outcome S) (turns : list (nat * select_result))
    (m : alarm_mem A) (s : S) : outcome (S * alarm_mem A) :=
  match turns with
  | [] => Ret (s, m)
  | (p, r) :: turns =>
      if decide (p ∈ threads m) then
        a ← deref (alarms m !! p);
        '(s, exiting) ← alarm_turn cb a r s;
        let m := if exiting : bool then AlarmMem (alarms m) (threads m ∖ {[ p ]}) (open m) else m in
        run_threads cb turns m s
      else run_threads cb turns m s
  end.

(** [turns]: those between the [write] and the end of [pthread_join], which
    waits for the alarm's thread to exit. *)
Definition alarm_delete {A S} (cb : A -> S -> outcome S) (write_rc : Z) (turns : list (nat * select_result))
    (p : nat) (m : alarm_mem A) (s : S) : outcome (S * alarm_mem A) :=
  alarm ← deref (alarms m !! p);
  _ ← c_assert (write_rc =? sizeof_msg)%Z;
  '(s, m) ← run_threads cb turns m s;
  if decide (p ∈ threads m) then Blocked
  else
    let open := open m ∖ {[ pipe_write alarm ]} ∖ {[ pipe_read alarm ]} in
    Ret (s, AlarmMem (base.delete p (alarms m)) (threads m) open).

(** What the thread finds after [alarm_delete]'s [write]. *)
Definition stopped : select_result := SelectReady 1 true sizeof_msg alarm_control_codes_STOP.

(** ** Facts *)

Definition waking (r : select_result) : Prop := r = SelectError \/ r = SelectTimeout.
Instance is_timeout_dec r : Decision (r = SelectTimeout).
Proof. destruct r; (by left) || by right. Defined.

(** The calls for the timeouts of a run of turns, in their order. *)
Fixpoint calls {A S} (cb : A -> S -> outcome S) (data : nat -> option A) (turns : list (nat * select_result))
    (s : S) : outcome S :=
  match turns with
  | [] => Ret s
  | (p, r) :: turns =>
      s ← (match data p with
           | Some d => if decide (r = SelectTimeout) then cb d s else Ret s
           | None => Ret s
           end);
      calls cb data turns s
  end.

(** Turns of running threads that only wake, or tick. *)
Definition quiet (ps : gset nat) (turns : list (nat * select_result)) : Prop :=
  Forall (fun t => t.1 ∈ ps /\ waking t.2) turns.

Lemma run_quiet {A S} (cb : A -> S -> outcome S) (m : alarm_mem A) turns rest s :
  threads m ⊆ dom (alarms m) -> quiet (threads m) turns ->
  run_threads cb (turns ++ rest) m s =
    (s ← calls cb (fun p => cb_data <$> alarms m !! p) turns s; run_threads cb rest m s).
Proof.
  intros Hd HF. revert s. induction HF as [|[p r] turns [Hp Hr] HF IH]; intros s; [done|].
  cbn [fst snd] in *. cbn [app run_threads calls]. rewrite decide_True by done.
  apply Hd, elem_of_dom in Hp as [a Ha]. rewrite Ha. cbn [deref fmap option_fmap option_map].
  rewrite bind_ret_l. destruct Hr as [-> | ->]; cbn [alarm_turn].
  - rewrite decide_False, !bind_ret_l by done. apply IH.
  - rewrite decide_True by done. destruct (cb (cb_data a) s) as [s'| | |]; [|done..].
    rewrite !bind_ret_l. apply IH.
Qed.

(** The deletion of an alarm whose thread gets to the message. *)
Lemma alarm_delete_ok {A S} (cb : A -> S -> outcome S) (m : alarm_mem A) turns p a s :
  threads m ⊆ dom (alarms m) -> p ∈ threads m -> alarms m !! p = Some a -> quiet (threads m) turns ->
  alarm_delete cb sizeof_msg (turns ++ [(p, stopped)]) p m s =
    (s ← calls cb (fun p => cb_data <$> alarms m !! p) turns s;
     Ret (s, AlarmMem (base.delete p (alarms m)) (threads m ∖ {[ p ]})
               (open m ∖ {[ pipe_write a ]} ∖ {[ pipe_read a ]}))).
Proof.
  intros Hd Hp Ha HF. unfold alarm_delete. rewrite Ha. cbn [deref]. rewrite bind_ret_l.
  rewrite (proj2 (Z.eqb_eq _ _)) by done. cbn [c_assert]. rewrite bind_ret_l, run_quiet by done.
  destruct (calls _ _ turns s) as [s'| | |]; [|done..]. rewrite !bind_ret_l.
  cbn [run_threads]. rewrite decide_True by done. rewrite Ha. cbn [deref]. rewrite bind_ret_l.
  cbn [alarm_turn stopped]. rewrite !Z.eqb_refl. cbn [c_assert]. rewrite !bind_ret_l.
  cbn [threads]. rewrite decide_False by set_solver. done.
Qed.
