(* ===== verification/Indexnodes.v ===== *)
(** * indexnodes.c, indexnodes_list.c, indexnodes_iterator.c: the known
      indexnodes

    [indexnodes_t] keeps a list of the indexnodes heard of; every consumer gets
    a copy of it without the expired ones. A list is an object of its own that
    holds a reference to each of its items, the newest first. *)
From S2P Require Import Prelude CLib Utils RefCount Counted Fetcher Indexnode.

(** ** The data *)

(** The list objects, each with its items ([None]: freed; no address is used
    twice), and the rest of the memory. *)
Record world := World {
  lists : gmap nat (option (list nat));
  st : store
}.

(** The [list] pointer of [indexnodes_t]. *)
Record indexnodes := Indexnodes { list_ : nat }.

(** ** The code: indexnodes_list.c *)

Definition indexnodes_list_new (w : world) : nat * world :=
  let p := stdpp.base.fresh (dom (lists w)) in (p, World (<[p := Some []]> (lists w)) (st w)).

Definition items_of (ins : nat) (w : world) : outcome (list nat) :=
  l ← deref (lists w !! ins); deref l.

(** [TAILQ_INSERT_HEAD] *)
Definition indexnodes_list_add (ins in_ : nat) (w : world) : outcome world :=
  items ← items_of ins w;
  Ret (World (<[ins := Some (in_ :: items)]> (lists w)) (st w)).

Fixpoint find_loop (items : list nat) (id : cstr) (s : store) : outcome (option nat * store) :=
  match items with
  | [] => Ret (None, s)
  | item :: items =>
      eq ← indexnode_equals item id s;
      if eq : bool then s ← indexnode_copy item s; Ret (Some item, s)
      else find_loop items id s
  end.

Definition indexnodes_list_find (ins : nat) (id : cstr) (w : world) : outcome (option nat * world) :=
  items ← items_of ins w;
  '(in_, s) ← find_loop items id (st w);
  Ret (in_, World (lists w) s).

(** [TAILQ_FOREACH(item, &orig->list, next)], adding copies to [ret]. *)
Fixpoint copy_loop (items : list nat) (ret : nat) (w : world) : outcome world :=
  match items with
  | [] => Ret w
  | item :: items =>
      s ← indexnode_copy item (st w);
      w ← indexnodes_list_add ret item (World (lists w) s);
      copy_loop items ret w
  end.

Definition indexnodes_list_copy (orig : nat) (w : world) : outcome (nat * world) :=
  let '(ret, w) := indexnodes_list_new w in
  items ← items_of orig w;
  w ← copy_loop items ret w;
  Ret (ret, w).

(** [now item] is the time when an item is looked at. *)
Fixpoint valid_loop (now : nat -> Z) (timeout : Z) (items : list nat) (ret : nat) (w : world)
  : outcome world :=
  match items with
  | [] => Ret w
  | item :: items =>
      ok ← indexnode_still_valid item (now item) timeout (st w);
      w ← (if ok : bool then
             s ← indexnode_copy item (st w);
             indexnodes_list_add ret item (World (lists w) s)
           else Ret w);
      valid_loop now timeout items ret w
  end.

Fixpoint delete_loop (items : list nat) (s : store) : outcome store :=
  match items with
  | [] => Ret s
  | item :: items => s ← indexnode_delete item s; delete_loop items s
  end.

Definition indexnodes_list_delete (ins : nat) (w : world) : outcome world :=
  items ← items_of ins w;
  s ← delete_loop items (st w);
  Ret (World (<[ins := None]> (lists w)) s).

Definition indexnodes_list_remove_expired (now : nat -> Z) (timeout : Z) (orig : nat) (w : world)
  : outcome (nat * world) :=
  let '(ret, w) := indexnodes_list_new w in
  items ← items_of orig w;
  w ← valid_loop now timeout items ret w;
  w ← indexnodes_list_delete orig w;
  Ret (ret, w).

(** ** The code: indexnodes_iterator.c *)

(** [current] and the items after it; null is the empty list. *)
Definition indexnodes_iterator_begin (ins : nat) (w : world) : outcome (list nat) :=
  items_of ins w.
Definition indexnodes_iterator_current (iter : list nat) (w : world) : outcome (nat * world) :=
  in_ ← deref (head iter);
  s ← indexnode_copy in_ (st w);
  Ret (in_, World (lists w) s).
Definition indexnodes_iterator_next (iter : list nat) : outcome (list nat) :=
  match iter with [] => Undef | _ :: rest => Ret rest end.
Definition indexnodes_iterator_end (iter : list nat) : bool :=
  match iter with [] => true | _ => false end.

(** ** The code: indexnodes.c *)

(** The caller's list. *)
Definition indexnodes_get (now : nat -> Z) (timeout : Z) (ins : indexnodes) (w : world)
  : outcome (nat * indexnodes * world) :=
  '(l, w) ← indexnodes_list_remove_expired now timeout (list_ ins) w;
  let ins := Indexnodes l in
  '(list, w) ← indexnodes_list_copy (list_ ins) w;
  Ret (list, ins, w).

Definition prefix : cstr := cs "fs2protocol-".

Fixpoint word (s : cstr) : cstr :=
  match s with
  | c :: s => if isspace c then [] else c :: word s
  | [] => []
  end.

(** [sscanf(fs2protocol, "fs2protocol-%s", v)]: what it converts. *)
Definition scan_version (fs2protocol : cstr) : cstr :=
  word (skip_spaces (drop (length prefix) fs2protocol)).

Definition parse_fs2protocol (fs2protocol : str) (s : store) : outcome (option str * store) :=
  '(v, s) ← (if strprefix prefix (text fs2protocol) then
               let v := scan_version (text fs2protocol) in
               _ ← c_assert (negb (length v =? 0));
               let '(v, l) := str_new v (live s) in Ret (Some v, Store (nodes s) l)
             else Ret (None, s));
  s ← free_const fs2protocol s;
  Ret (v, s).

Definition on_store (s : outcome store) (w : world) : outcome world :=
  s ← s; Ret (World (lists w) s).

(** [found_in] was heard of again; or a new one, unless its version is bad. *)
Definition note_indexnode (now : Z) (ins : indexnodes) (host port version id : str) (w : world)
  : outcome (option nat * world) :=
  '(found_in, w) ← indexnodes_list_find (list_ ins) (text id) w;
  match found_in with
  | Some found_in =>
      w ← on_store (indexnode_seen found_in now (st w)) w;
      w ← on_store (indexnode_delete found_in (st w)) w;
      Ret (None, w)
  | None =>
      '(new_in, s) ← indexnode_new now host port version id (st w);
      let w := World (lists w) s in
      match new_in with
      | Some in_ => w ← indexnodes_list_add (list_ ins) in_ w; Ret (Some in_, w)
      | None => w ← on_store (free_const version (st w)) w; Ret (None, w)
      end
  end.

Definition new_indexnode_event (now : Z) (ins : indexnodes) (host port fs2protocol id : str)
    (w : world) : outcome world :=
  '(version, s) ← parse_fs2protocol fs2protocol (st w);
  let w := World (lists w) s in
  '(new_in, w) ← (match version with
                  | Some version => note_indexnode now ins host port version id w
                  | None => w ← on_store (free_const fs2protocol (st w)) w; Ret (None, w)
                  end);
  match new_in with
  | Some _ => Ret w
  | None =>
      w ← on_store (free_const host (st w)) w;
      w ← on_store (free_const port (st w)) w;
      on_store (free_const id (st w)) w
  end.

(** ** Ownership *)

Definition blocks (v : indexnode) : list nat :=
  addr <$> [host (pin v); port (pin v); version v; id v].

(** Every indexnode's four strings are allocated and its own. *)
Record owned (s : store) : Prop := {
  owned_distinct p r v : nodes s !! p = Some (r, v) -> NoDup (blocks v);
  owned_live p r v b : nodes s !! p = Some (r, v) -> b ∈ blocks v -> b ∈ live s;
  owned_disjoint p q r v r' v' b : nodes s !! p = Some (r, v) -> nodes s !! q = Some (r', v') ->
    b ∈ blocks v -> b ∈ blocks v' -> p = q
}.

(** [s'] is [s] with the counts changed by [d]: an indexnode whose count
    reached 0 is freed, with its strings. *)
Record settled (s s' : store) (d : nat -> Z) : Prop := {
  settled_nodes q : nodes s' !! q =
    '(r, v) ← nodes s !! q;
    if (count r + d q =? 0)%Z then None else Some (RefCount (count r + d q), v);
  settled_live b : b ∈ live s' <-> b ∈ live s /\
    forall q r v, nodes s !! q = Some (r, v) -> b ∈ blocks v -> (count r + d q <> 0)%Z
}.

Lemma settled_refl s d :
  (forall q r v, nodes s !! q = Some (r, v) -> (0 < count r /\ d q = 0)%Z) -> settled s s d.
Proof.
  intros H. split.
  - intros q. destruct (nodes s !! q) as [[[c] v]|] eqn:E; [|done]. cbn.
    destruct (H q _ _ E) as [Hc ->]. cbn in Hc. rewrite Z.add_0_r.
    by rewrite (proj2 (Z.eqb_neq _ _)) by lia.
  - intros b. split; [|by intros [??]]. intros Hb. split; [done|].
    intros q r v Hq _. specialize (H q r v Hq). lia.
Qed.

Lemma settled_ext s s' d d' :
  (forall q, is_Some (nodes s !! q) -> d q = d' q) -> settled s s' d -> settled s s' d'.
Proof.
  intros Hd [H1 H2]. split.
  - intros q. rewrite H1. specialize (Hd q). destruct (nodes s !! q) as [[r v]|]; [|done].
    cbn. by rewrite Hd.
  - intros b. rewrite H2. apply and_iff_compat_l.
    split; intros H q r v Hq; specialize (H q r v Hq); [rewrite <- Hd|rewrite Hd]; eauto.
Qed.

(** What a live indexnode looks like after. *)
Lemma settled_lookup s s' d p r v :
  settled s s' d -> nodes s !! p = Some (r, v) -> (count r + d p <> 0)%Z ->
  nodes s' !! p = Some (RefCount (count r + d p), v).
Proof.
  intros [H1 _] Hp Hc. rewrite H1, Hp. cbn. by rewrite (proj2 (Z.eqb_neq _ _)).
Qed.

Lemma settled_back s s' d p r' v :
  settled s s' d -> nodes s' !! p = Some (r', v) ->
  exists r, nodes s !! p = Some (r, v) /\ r' = RefCount (count r + d p) /\ (count r + d p <> 0)%Z.
Proof.
  intros [H1 _]. rewrite H1. destruct (nodes s !! p) as [[r w]|]; [|done]. cbn.
  destruct (Z.eqb_spec (count r + d p) 0); [done|]. intros [= <- <-]. eauto.
Qed.

Lemma settled_owned s s' d : owned s -> settled s s' d -> owned s'.
Proof.
  intros [O1 O2 O3] Hs. split.
  - intros p r v Hp. destruct (settled_back _ _ _ _ _ _ Hs Hp) as (r0 & H0 & _). eauto.
  - intros p r v b Hp Hb. destruct (settled_back _ _ _ _ _ _ Hs Hp) as (r0 & H0 & _ & Hc).
    apply (settled_live _ _ _ Hs). split; [eauto|]. intros q rq vq Hq Hbq.
    assert (p = q) as <- by eauto. by simplify_eq.
  - intros p q r v r' v' b Hp Hq. destruct (settled_back _ _ _ _ _ _ Hs Hp) as (r0 & H0 & _).
    destruct (settled_back _ _ _ _ _ _ Hs Hq) as (r1 & H1 & _). eauto.
Qed.

Lemma copy_settles s s' d p r v :
  settled s s' d -> nodes s !! p = Some (r, v) -> (0 < count r + d p < 2 ^ 32 - 1)%Z ->
  exists s'', indexnode_copy p s' = Ret s'' /\ settled s s'' (fun q => d q + one p q)%Z.
Proof.
  intros Hs Hp Hc. pose proof (settled_lookup _ _ _ _ _ _ Hs Hp ltac:(lia)) as Hp'.
  unfold indexnode_copy, obj_copy. rewrite Hp'. cbn [deref]. rewrite bind_ret_l.
  destruct (inc_live (RefCount (count r + d p))) as [E _]; [red; cbn; lia|cbn; lia|].
  rewrite E, !bind_ret_l. eexists. split; [done|]. cbn [count]. split; cbn [nodes live].
  - intros q. destruct (decide (q = p)) as [->|Hne].
    + rewrite lookup_insert_eq, Hp. cbn. unfold one. rewrite decide_True by done.
      rewrite (proj2 (Z.eqb_neq _ _)) by lia. by rewrite Z.add_assoc.
    + rewrite lookup_insert_ne, (settled_nodes _ _ _ Hs) by done. unfold one.
      rewrite decide_False by done. by rewrite Z.add_0_r.
  - intros b. rewrite (settled_live _ _ _ Hs). apply and_iff_compat_l.
    split; intros H q rq vq Hq Hb; specialize (H q rq vq Hq Hb); unfold one in *;
      case_decide; simplify_eq; lia.
Qed.

Lemma free_const_ok x (s : store) :
  addr x ∈ live s -> free_const x s = Ret (Store (nodes s) (live s ∖ {[ addr x ]})).
Proof. intros H. unfold free_const. by rewrite str_free_ok, bind_ret_l. Qed.

Lemma free_strings v (s : store) :
  NoDup (blocks v) -> (forall b, b ∈ blocks v -> b ∈ live s) ->
  (s ← proto_indexnode_teardown (pin v) s; s ← free_const (version v) s; free_const (id v) s)
    = Ret (Store (nodes s) (live s ∖ list_to_set (blocks v))).
Proof.
  unfold blocks. cbn [fmap list_fmap]. intros HN Hl.
  rewrite !NoDup_cons, !not_elem_of_cons in HN.
  pose proof (Hl (addr (host (pin v))) ltac:(set_solver)).
  pose proof (Hl (addr (port (pin v))) ltac:(set_solver)).
  pose proof (Hl (addr (version v)) ltac:(set_solver)).
  pose proof (Hl (addr (id v)) ltac:(set_solver)).
  unfold proto_indexnode_teardown. rewrite free_const_ok, bind_ret_l by done.
  do 3 (rewrite free_const_ok by (cbn [live]; set_solver); rewrite ?bind_ret_l).
  cbn [nodes live]. do 2 f_equal. apply set_eq. intros b. set_solver.
Qed.

Lemma delete_settles s s' d p r v :
  owned s -> settled s s' d -> nodes s !! p = Some (r, v) -> (0 < count r + d p < 2 ^ 32)%Z ->
  exists s'', indexnode_delete p s' = Ret s'' /\ settled s s'' (fun q => d q - one p q)%Z.
Proof.
  intros Ho Hs Hp Hc. pose proof (settled_lookup _ _ _ _ _ _ Hs Hp ltac:(lia)) as Hp'.
  unfold indexnode_delete, obj_delete. rewrite Hp'. cbn [deref]. rewrite bind_ret_l.
  rewrite dec_live, bind_ret_l by (red; cbn; lia). cbn [count].
  assert (Hone : forall q, one p q = if decide (q = p) then 1%Z else 0%Z) by done.
  destruct (Z.eqb_spec (count r + d p - 1) 0) as [E|E]; rewrite bind_ret_l.
  - pose proof (settled_owned _ _ _ Ho Hs) as [O1 O2 _].
    rewrite free_strings; cbn [live nodes]; [|by eauto..].
    eexists. split; [done|]. split; cbn [nodes live].
    + intros q. rewrite Hone. case_decide as Hq; [subst q|].
      * rewrite lookup_delete_eq, Hp. cbn. by rewrite (proj2 (Z.eqb_eq _ 0)) by lia.
      * rewrite lookup_delete_ne, (settled_nodes _ _ _ Hs), Z.sub_0_r by done. done.
    + intros b. rewrite elem_of_difference, elem_of_list_to_set, (settled_live _ _ _ Hs).
      split.
      * intros [[Hb H] Hn]. split; [done|]. intros q rq vq Hq Hbq. rewrite Hone.
        case_decide as Hqp; [subst q; simplify_eq; done|]. rewrite Z.sub_0_r. eauto.
      * intros [Hb H]. split; [split; [done|]|].
        -- intros q rq vq Hq Hbq. specialize (H q rq vq Hq Hbq). rewrite Hone in H.
           case_decide; [subst q; simplify_eq; lia|lia].
        -- intros Hbv. specialize (H p r v Hp Hbv). rewrite Hone, decide_True in H by done. lia.
  - eexists. split; [done|]. split; cbn [nodes live].
    + intros q. rewrite Hone. case_decide as Hq; [subst q|].
      * rewrite lookup_insert_eq, Hp. cbn. rewrite (proj2 (Z.eqb_neq _ _)) by lia.
        by rewrite Z.add_sub_assoc.
      * rewrite lookup_insert_ne, (settled_nodes _ _ _ Hs), Z.sub_0_r by done. done.
    + intros b. rewrite (settled_live _ _ _ Hs). apply and_iff_compat_l.
      split; intros H q rq vq Hq Hb; specialize (H q rq vq Hq Hb); rewrite Hone in *;
        case_decide; simplify_eq; lia.
Qed.

(** ** Lists *)

(** A reference to [p] for each time it is in [ps], and room for as many more. *)
Definition holds (s : store) (ps : list nat) (d : nat -> Z) : Prop :=
  forall p, p ∈ ps -> exists r v, nodes s !! p = Some (r, v) /\
    (each ps p <= count r + d p /\ count r + d p + each ps p < 2 ^ 32)%Z.

Lemma holds_head s p ps d :
  holds s (p :: ps) d -> exists r v, nodes s !! p = Some (r, v) /\ (0 < count r + d p < 2 ^ 32 - 1)%Z.
Proof.
  intros H. destruct (H p (list_elem_of_here _ _)) as (r & v & Hp & H1 & H2). exists r, v.
  rewrite each_cons in *. unfold one in *. rewrite decide_True in * by done.
  pose proof (each_bounds ps p). split; [done|lia].
Qed.

(** A weaker form that stays true while references are added. *)
Definition copyable (s : store) (ps : list nat) (d : nat -> Z) : Prop :=
  forall p, p ∈ ps -> exists r v, nodes s !! p = Some (r, v) /\
    (0 < count r + d p /\ count r + d p + each ps p < 2 ^ 32)%Z.

Lemma copyable_cons s p ps d :
  copyable s (p :: ps) d ->
  (exists r v, nodes s !! p = Some (r, v) /\ (0 < count r + d p < 2 ^ 32 - 1)%Z) /\
  copyable s ps d /\ copyable s ps (fun q => d q + one p q)%Z.
Proof.
  intros H. assert (H' : forall q, q ∈ p :: ps -> exists r v, nodes s !! q = Some (r, v) /\
    (0 < count r + d q /\ count r + d q + (one p q + each ps q) < 2 ^ 32)%Z).
  { intros q Hq. destruct (H q Hq) as (r & v & Hn & H1 & H2). rewrite each_cons in H2. eauto. }
  split_and!.
  - destruct (H' p (list_elem_of_here _ _)) as (r & v & Hp & H1 & H2). exists r, v.
    unfold one in H2. rewrite decide_True in H2 by done. pose proof (each_bounds ps p).
    split; [done|lia].
  - intros q Hq. destruct (H' q ltac:(by apply list_elem_of_further)) as (r & v & Hn & H1 & H2).
    exists r, v. unfold one in H2. split; [done|case_decide; lia].
  - intros q Hq. destruct (H' q ltac:(by apply list_elem_of_further)) as (r & v & Hn & H1 & H2).
    exists r, v. unfold one in *. split; [done|case_decide; lia].
Qed.

Lemma items_of_ok ins items w : lists w !! ins = Some (Some items) -> items_of ins w = Ret items.
Proof. intros H. unfold items_of. by rewrite H. Qed.

Lemma list_add_ok ins in_ w items :
  lists w !! ins = Some (Some items) ->
  indexnodes_list_add ins in_ w = Ret (World (<[ins := Some (in_ :: items)]> (lists w)) (st w)).
Proof. intros H. unfold indexnodes_list_add. by rewrite (items_of_ok _ items). Qed.

Lemma copy_loop_ok s ps ret acc w d :
  lists w !! ret = Some (Some acc) -> settled s (st w) d -> copyable s ps d ->
  exists s', copy_loop ps ret w = Ret (World (<[ret := Some (rev ps ++ acc)]> (lists w)) s') /\
    settled s s' (fun q => d q + each ps q)%Z.
Proof.
  revert acc w d. induction ps as [|p ps IH]; intros acc w d Hl Hs Hc; cbn [copy_loop].
  { exists (st w). rewrite insert_id by done. destruct w. split; [done|].
    eapply settled_ext; [|exact Hs]. intros q _. unfold each. cbn. lia. }
  destruct (copyable_cons _ _ _ _ Hc) as ((r & v & Hp & Hr) & _ & Hc').
  destruct (copy_settles _ _ _ _ _ _ Hs Hp Hr) as (s1 & E & Hs1). rewrite E, bind_ret_l.
  rewrite (list_add_ok _ _ _ acc) by done. cbn [lists st]. rewrite bind_ret_l.
  destruct (IH (p :: acc) (World (<[ret := Some (p :: acc)]> (lists w)) s1) (fun q => d q + one p q)%Z)
    as (s2 & E2 & Hs2); [apply lookup_insert_eq|done|done|].
  exists s2. rewrite E2. cbn [lists]. rewrite insert_insert_eq. cbn [rev]. rewrite <- app_assoc.
  split; [done|]. eapply settled_ext; [|exact Hs2]. intros q _. cbn beta. rewrite each_cons. lia.
Qed.

(** [now p - last_seen < timeout] *)
Definition valid (s : store) (now : nat -> Z) (timeout : Z) (p : nat) : Prop :=
  match nodes s !! p with Some (_, v) => (now p - last_seen v < timeout)%Z | None => False end.
#[export] Instance valid_dec s now timeout p : Decision (valid s now timeout p).
Proof. unfold valid. destruct (nodes s !! p) as [[]|]; apply _. Defined.

Lemma valid_loop_ok s now timeout ps ret acc w d :
  lists w !! ret = Some (Some acc) -> settled s (st w) d -> copyable s ps d ->
  exists s', valid_loop now timeout ps ret w =
      Ret (World (<[ret := Some (rev (filter (valid s now timeout) ps) ++ acc)]> (lists w)) s') /\
    settled s s' (fun q => d q + each (filter (valid s now timeout) ps) q)%Z.
Proof.
  revert acc w d. induction ps as [|p ps IH]; intros acc w d Hl Hs Hc; cbn [valid_loop].
  { exists (st w). rewrite insert_id by done. destruct w. split; [done|].
    eapply settled_ext; [|exact Hs]. intros q _. unfold each. cbn. lia. }
  destruct (copyable_cons _ _ _ _ Hc) as ((r & v & Hp & Hr) & Hc1 & Hc').
  unfold indexnode_still_valid, obj_get.
  rewrite (settled_lookup _ _ _ _ _ _ Hs Hp) by lia. cbn [deref fmap outcome_fmap snd].
  rewrite !bind_ret_l. cbn [snd]. rewrite filter_cons.
  assert (Hv : valid s now timeout p <-> (now p - last_seen v < timeout)%Z)
    by (unfold valid; by rewrite Hp).
  destruct (Z.ltb_spec (now p - last_seen v) timeout) as [Hlt|Hge].
  - rewrite decide_True by by apply Hv.
    destruct (copy_settles _ _ _ _ _ _ Hs Hp Hr) as (s1 & E & Hs1). rewrite E, bind_ret_l.
    rewrite (list_add_ok _ _ _ acc) by done. cbn [lists st]. rewrite bind_ret_l.
    destruct (IH (p :: acc) (World (<[ret := Some (p :: acc)]> (lists w)) s1) (fun q => d q + one p q)%Z)
      as (s2 & E2 & Hs2); [apply lookup_insert_eq|done|done|].
    exists s2. rewrite E2. cbn [lists]. rewrite insert_insert_eq. cbn [rev]. rewrite <- app_assoc.
    split; [done|]. eapply settled_ext; [|exact Hs2]. intros q _. cbn beta. rewrite each_cons. lia.
  - rewrite decide_False by (rewrite Hv; lia). rewrite bind_ret_l. by apply IH.
Qed.

Lemma delete_loop_ok s s' ps d :
  owned s -> settled s s' d -> holds s ps d ->
  exists s'', delete_loop ps s' = Ret s'' /\ settled s s'' (fun q => d q - each ps q)%Z.
Proof.
  intros Ho. revert s' d. induction ps as [|p ps IH]; intros s' d Hs Hh; cbn [delete_loop].
  { exists s'. split; [done|]. eapply settled_ext; [|exact Hs]. intros q _. unfold each. cbn. lia. }
  destruct (holds_head _ _ _ _ Hh) as (r & v & Hp & Hr).
  destruct (delete_settles _ _ _ _ _ _ Ho Hs Hp ltac:(lia)) as (s1 & E & Hs1). rewrite E, bind_ret_l.
  destruct (IH s1 (fun q => d q - one p q)%Z Hs1) as (s2 & E2 & Hs2).
  { intros q Hq. destruct (Hh q ltac:(by apply list_elem_of_further)) as (rq & vq & Hn & H1 & H2).
    exists rq, vq. rewrite each_cons in *. split; [done|]. unfold one in *. case_decide; lia. }
  exists s2. split; [done|]. eapply settled_ext; [|exact Hs2]. intros q _. cbn beta.
  rewrite each_cons. lia.
Qed.

Lemma each_filter (P : nat -> Prop) `{forall p, Decision (P p)} ps q :
  each (filter P ps) q = if decide (P q) then each ps q else 0%Z.
Proof.
  induction ps as [|p ps IH]; [by destruct (decide (P q))|].
  rewrite filter_cons, each_cons. unfold one. destruct (decide (P p)) as [Hp|Hp].
  - rewrite each_cons, IH. unfold one. destruct (decide (q = p)) as [->|]; [|by repeat case_decide].
    by rewrite !(decide_True (P := P p)).
  - rewrite IH. destruct (decide (q = p)) as [->|]; [|done]. by rewrite !(decide_False (P := P p)).
Qed.

Lemma each_rev ps q : each (rev ps) q = each ps q.
Proof. apply each_perm. symmetry. apply Permutation_rev. Qed.

(** A well-formed collection: its list's items are held by it, and there is
    room for two more copies of it. *)
Record ins_ok (ins : indexnodes) (w : world) (ps : list nat) : Prop := {
  ok_list : lists w !! list_ ins = Some (Some ps);
  ok_owned : owned (st w);
  ok_counts q r v : nodes (st w) !! q = Some (r, v) -> (0 < count r)%Z;
  ok_held p : p ∈ ps -> exists r v, nodes (st w) !! p = Some (r, v) /\
    (each ps p <= count r /\ count r + 2 * each ps p < 2 ^ 32)%Z
}.

Lemma new_list_fresh w : lists w !! fst (indexnodes_list_new w) = None.
Proof. cbn. apply not_elem_of_dom, is_fresh. Qed.

Lemma remove_expired_ok now timeout ins w ps :
  ins_ok ins w ps ->
  let good := filter (valid (st w) now timeout) ps in
  exists ret s', indexnodes_list_remove_expired now timeout (list_ ins) w =
      Ret (ret, World (<[list_ ins := None]> (<[ret := Some (rev good)]> (lists w))) s') /\
    lists w !! ret = None /\ settled (st w) s' (fun q => each good q - each ps q)%Z.
Proof.
  intros [Hl Ho Hc Hh] good. unfold indexnodes_list_remove_expired.
  pose proof (new_list_fresh w) as Hf. destruct (indexnodes_list_new w) as [ret w1] eqn:En.
  unfold indexnodes_list_new in En. injection En as Eret <-. cbn [fst] in Hf. rewrite Eret.
  assert (Hne : ret <> list_ ins) by (intros ->; by rewrite Hl in Hf).
  rewrite (items_of_ok _ ps), bind_ret_l by (cbn; by rewrite lookup_insert_ne).
  set (w1 := World (<[ret := Some []]> (lists w)) (st w)).
  destruct (valid_loop_ok (st w) now timeout ps ret [] w1 (fun _ => 0%Z)) as (s1 & E1 & Hs1).
  { apply lookup_insert_eq. }
  { apply settled_refl. intros q r v Hq. split; [by eauto|done]. }
  { intros p Hp. destruct (Hh p Hp) as (r & v & Hn & H1 & H2). exists r, v. split; [done|].
    pose proof (each_elem ps p Hp). lia. }
  fold good in E1, Hs1. rewrite E1, bind_ret_l. unfold indexnodes_list_delete, w1. cbn [lists st].
  rewrite insert_insert_eq, app_nil_r, (items_of_ok _ ps), bind_ret_l
    by (cbn; by rewrite lookup_insert_ne).
  cbn [lists st]. destruct (delete_loop_ok (st w) s1 ps _ Ho Hs1) as (s2 & E2 & Hs2).
  { intros p Hp. destruct (Hh p Hp) as (r & v & Hn & H1 & H2). exists r, v. split; [done|].
    unfold good. rewrite each_filter. pose proof (each_bounds ps p). case_decide; lia. }
  rewrite E2, !bind_ret_l. exists ret, s2. split_and!; [done|done|].
  eapply settled_ext; [|exact Hs2]. intros q _. cbn beta. lia.
Qed.

Lemma list_copy_ok s orig w items d :
  lists w !! orig = Some (Some items) -> settled s (st w) d -> copyable s items d ->
  exists l s', indexnodes_list_copy orig w = Ret (l, World (<[l := Some (rev items)]> (lists w)) s') /\
    lists w !! l = None /\ settled s s' (fun q => d q + each items q)%Z.
Proof.
  intros Hl Hs Hc. unfold indexnodes_list_copy.
  pose proof (new_list_fresh w) as Hf. destruct (indexnodes_list_new w) as [l w1] eqn:En.
  unfold indexnodes_list_new in En. injection En as El <-. cbn [fst] in Hf. rewrite El.
  assert (Hne : l <> orig) by (intros ->; by rewrite Hl in Hf).
  rewrite (items_of_ok _ items), bind_ret_l by (cbn; by rewrite lookup_insert_ne).
  destruct (copy_loop_ok s items l [] (World (<[l := Some []]> (lists w)) (st w)) d
    (lookup_insert_eq _ _ _) Hs Hc) as (s2 & E2 & Hs2).
  rewrite E2, bind_ret_l. exists l, s2. cbn [lists]. by rewrite insert_insert_eq, app_nil_r.
Qed.

Lemma indexnodes_get_ok now timeout ins w ps :
  ins_ok ins w ps ->
  let good := filter (valid (st w) now timeout) ps in
  exists l ins' w', indexnodes_get now timeout ins w = Ret (l, ins', w') /\
    lists w' !! list_ ins' = Some (Some (rev good)) /\ lists w' !! l = Some (Some good) /\ l <> list_ ins' /\
    settled (st w) (st w') (fun q => 2 * each good q - each ps q)%Z.
Proof.
  intros Hok good. destruct (remove_expired_ok now timeout ins w ps Hok) as (ret & s1 & E1 & Hf & Hs1).
  fold good in E1, Hs1. destruct Hok as [Hl Ho Hc Hh].
  unfold indexnodes_get. rewrite E1, bind_ret_l. cbn [list_].
  assert (Hne : ret <> list_ ins) by (intros ->; by rewrite Hl in Hf).
  destruct (list_copy_ok (st w) ret (World (<[list_ ins := None]> (<[ret := Some (rev good)]> (lists w))) s1)
    (rev good) _ ltac:(cbn; by rewrite lookup_insert_ne, lookup_insert_eq) Hs1)
    as (l & s2 & E2 & Hf2 & Hs2).
  { intros p Hp. rewrite each_rev. apply list_elem_of_In, in_rev, list_elem_of_In in Hp.
    apply list_elem_of_filter in Hp as [Hv Hp]. destruct (Hh p Hp) as (r & v & Hn & H1 & H2).
    exists r, v. split; [done|]. unfold good. rewrite each_filter, decide_True by done.
    pose proof (each_elem ps p Hp). lia. }
  cbn [lists] in *. rewrite E2, bind_ret_l. eexists _, _, _. split; [done|].
  rewrite rev_involutive. cbn [lists st list_].
  assert (Hl1 : l <> ret).
  { intros ->. by rewrite lookup_insert_ne, lookup_insert_eq in Hf2. }
  split_and!; [|by rewrite lookup_insert_eq|done|].
  - by rewrite lookup_insert_ne, lookup_insert_ne, lookup_insert_eq.
  - eapply settled_ext; [|exact Hs2]. intros q _. cbn beta. rewrite each_rev. lia.
Qed.

(** ** Adverts *)

Definition id_of (s : store) (p : nat) : cstr :=
  match nodes s !! p with Some (_, v) => text (id v) | None => [] end.

(** The first indexnode with that id. *)
Definition known (s : store) (ps : list nat) (i : cstr) : option nat :=
  head (filter (fun p => id_of s p = i) ps).

Lemma known_elem s ps i p : known s ps i = Some p -> p ∈ ps /\ id_of s p = i.
Proof.
  unfold known. intros H. assert (Hp : p ∈ filter (fun p => id_of s p = i) ps).
  { destruct (filter _ ps); [done|]. injection H as ->. apply list_elem_of_here. }
  by apply list_elem_of_filter in Hp as [? ?].
Qed.

Lemma find_loop_ok s ps i :
  (forall p, p ∈ ps -> is_Some (nodes s !! p)) ->
  find_loop ps i s = match known s ps i with
                     | Some p => s ← indexnode_copy p s; Ret (Some p, s)
                     | None => Ret (None, s)
                     end.
Proof.
  unfold known. induction ps as [|p ps IH]; intros Hn; [done|]. cbn [find_loop].
  destruct (Hn p (list_elem_of_here _ _)) as [[r v] Hp].
  unfold indexnode_equals, obj_get. rewrite Hp. cbn [deref]. change (snd <$> Ret (r, v)) with (Ret v).
  rewrite !bind_ret_l, filter_cons.
  assert (Hid : id_of s p = text (id v)) by (unfold id_of; by rewrite Hp).
  unfold streq. destruct (decide (text (id v) = i)) as [E|E].
  - by rewrite bool_decide_true, decide_True by congruence.
  - rewrite bool_decide_false, decide_False by congruence. apply IH.
    intros q Hq. apply Hn. by apply list_elem_of_further.
Qed.

Definition nonspace (c : ascii) : Prop := isspace c = false.

Lemma word_id s : Forall nonspace s -> word s = s.
Proof. induction 1 as [|c s Hc Hs IH]; cbn; [done|]. by rewrite Hc, IH. Qed.

Lemma skip_nonspace s : Forall nonspace s -> skip_spaces s = s.
Proof. intros H. destruct H as [|c s Hc Hs]; cbn; [done|]. by rewrite Hc. Qed.

Lemma dec_nonspace c : is_dec c = true -> nonspace c.
Proof. unfold nonspace. all_chars c; intros H; vm_compute in H |- *; done. Qed.

Lemma render_nonspace v : well_formed_version v -> Forall nonspace (render v).
Proof.
  assert (Hd : forall d, component d -> Forall nonspace d).
  { intros d (_ & H & _). apply Forall_forall. intros c Hc. apply dec_nonspace.
    eapply forallb_forall in H; [exact H|]. by apply list_elem_of_In. }
  induction 1 as [|d v H HF IH]; [constructor|]. cbn. destruct v as [|d' v]; [by apply Hd|].
  apply Forall_app. split; [by apply Hd|]. constructor; [done|exact IH].
Qed.

(** The strings of an advert: allocated, apart from each other and from those
    of the indexnodes, none of them empty. *)
Record advert_ok (host port fs2protocol id : str) (s : store) : Prop := {
  ad_distinct : NoDup (addr <$> [host; port; fs2protocol; id]);
  ad_live b : b ∈ addr <$> [host; port; fs2protocol; id] -> b ∈ live s;
  ad_apart p r v b : nodes s !! p = Some (r, v) -> b ∈ blocks v ->
    b ∉ addr <$> [host; port; fs2protocol; id];
  ad_text : text host <> [] /\ text port <> [] /\ text id <> []
}.

Lemma nonempty_true x : text x <> [] -> nonempty x = true.
Proof. unfold nonempty. by destruct (text x). Qed.

Lemma parse_ok fs2protocol (s : store) (v : list cstr) :
  well_formed_version v -> v <> [] -> text fs2protocol = prefix ++ render v ->
  addr fs2protocol ∈ live s ->
  exists ver, parse_fs2protocol fs2protocol s =
      Ret (Some ver, Store (nodes s) (({[ addr ver ]} ∪ live s) ∖ {[ addr fs2protocol ]})) /\
    text ver = render v /\ render v <> [] /\ addr ver ∉ live s.
Proof.
  intros Hv Hne Ht Hl. unfold parse_fs2protocol, scan_version.
  rewrite Ht, strprefix_app, (drop_app_length prefix (render v)).
  rewrite (skip_nonspace (render v)) by (by apply render_nonspace).
  rewrite (word_id (render v)) by (by apply render_nonspace).
  assert (Hr : render v <> []).
  { destruct Hv as [|d v (Hd & _) _]; [done|]. destruct d; [done|]. by destruct v. }
  assert (Ha : negb (length (render v) =? 0) = true) by by destruct (render v).
  cbn zeta. rewrite Ha. cbn [c_assert]. rewrite bind_ret_l.
  pose proof (str_new_fresh (render v) (live s)) as Hf.
  destruct (str_new (render v) (live s)) as [ver l] eqn:E. unfold str_new in E.
  injection E as <- <-. cbn [fst] in Hf. rewrite bind_ret_l, free_const_ok by (cbn [live]; set_solver).
  rewrite bind_ret_l. exists (Str (stdpp.base.fresh (live s)) (render v)).
  split_and!; [reflexivity|reflexivity|exact Hr|exact Hf].
Qed.

Definition seen_at (now : Z) (v : indexnode) : indexnode := Indexnode (pin v) (version v) (id v) now.

(** Copied by the search, touched, given back. *)
Lemma note_known now ins hst prt ver i w ps p r v :
  lists w !! list_ ins = Some (Some ps) -> (forall q, q ∈ ps -> is_Some (nodes (st w) !! q)) ->
  known (st w) ps (text i) = Some p -> nodes (st w) !! p = Some (r, v) ->
  (0 < count r < 2 ^ 32 - 1)%Z ->
  note_indexnode now ins hst prt ver i w =
    Ret (None, World (lists w) (Store (<[p := (r, seen_at now v)]> (nodes (st w))) (live (st w)))).
Proof.
  intros Hl Hn Hk Hp Hr. unfold note_indexnode, indexnodes_list_find.
  rewrite (items_of_ok _ ps), bind_ret_l by done. rewrite find_loop_ok, Hk by done.
  unfold indexnode_copy, obj_copy. rewrite Hp. cbn [deref]. rewrite bind_ret_l.
  destruct (inc_live r) as [E _]; [red; lia|lia|]. rewrite E, !bind_ret_l. cbn [lists st].
  unfold indexnode_seen. cbn [nodes live]. rewrite lookup_insert_eq. cbn [deref].
  rewrite bind_ret_l, insert_insert_eq. cbn [on_store].
  unfold on_store. rewrite !bind_ret_l. cbn [lists st nodes live].
  unfold indexnode_delete, obj_delete. cbn [nodes]. rewrite lookup_insert_eq. cbn [deref].
  rewrite bind_ret_l, dec_live, bind_ret_l by (red; cbn; lia). cbn [count].
  rewrite (proj2 (Z.eqb_neq _ _)) by lia. rewrite !bind_ret_l, insert_insert_eq. cbn [lists st live].
  do 5 f_equal. replace (count r + 1 - 1)%Z with (count r) by lia. by destruct r.
Qed.

(** A new object at the head of the list. *)
Lemma note_new now ins hst prt ver i w ps (vs : list cstr) :
  lists w !! list_ ins = Some (Some ps) -> (forall q, q ∈ ps -> is_Some (nodes (st w) !! q)) ->
  known (st w) ps (text i) = None -> well_formed_version vs -> text ver = render vs ->
  render vs <> [] -> text hst <> [] -> text prt <> [] -> text i <> [] ->
  exists p, nodes (st w) !! p = None /\
  note_indexnode now ins hst prt ver i w =
    Ret (Some p, World (<[list_ ins := Some (p :: ps)]> (lists w))
      (Store (<[p := (RefCount 1, Indexnode (ProtoIndexnode hst prt) ver i now)]> (nodes (st w)))
         (live (st w)))).
Proof.
  intros Hl Hn Hk Hv Ht Hne Hh Hp Hi. unfold note_indexnode, indexnodes_list_find.
  rewrite (items_of_ok _ ps), bind_ret_l by done. rewrite find_loop_ok, Hk, !bind_ret_l by done.
  cbn [lists st]. unfold indexnode_new, proto_indexnode_init.
  rewrite !nonempty_true by congruence. cbn [c_assert]. rewrite !bind_ret_l, Ht, check_version_ok by done.
  rewrite !bind_ret_l.
  pose proof (obj_new_fresh (Indexnode (ProtoIndexnode hst prt) ver i now) (nodes (st w))) as Hf.
  destruct (obj_new _ (nodes (st w))) as [p h] eqn:E. cbn [fst] in Hf.
  unfold obj_new in E. injection E as Ep Eh. exists p. split; [done|]. rewrite bind_ret_l.
  cbn [lists st]. rewrite (list_add_ok _ _ _ ps) by done. rewrite bind_ret_l. cbn [lists st].
  by rewrite <- Eh, Ep.
Qed.

Lemma owned_update (s : store) p r v r' v' l :
  owned s -> nodes s !! p = Some (r, v) -> blocks v' = blocks v ->
  (forall q rq vq b, nodes s !! q = Some (rq, vq) -> b ∈ blocks vq -> b ∈ l) ->
  owned (Store (<[p := (r', v')]> (nodes s)) l).
Proof.
  intros [O1 O2 O3] Hp Hb Hl.
  assert (Hback : forall q rq vq, <[p := (r', v')]> (nodes s) !! q = Some (rq, vq) ->
    exists r0 v0, nodes s !! q = Some (r0, v0) /\ blocks vq = blocks v0).
  { intros q rq vq. destruct (decide (q = p)) as [->|Hne].
    - rewrite lookup_insert_eq. intros [= <- <-]. eauto.
    - rewrite lookup_insert_ne by done. eauto. }
  split; cbn [nodes live].
  - intros q rq vq Hq. destruct (Hback q rq vq Hq) as (r0 & v0 & H0 & ->). eauto.
  - intros q rq vq b Hq. destruct (Hback q rq vq Hq) as (r0 & v0 & H0 & ->). eauto.
  - intros q1 q2 r1 v1 r2 v2 b H1 H2. destruct (Hback _ _ _ H1) as (? & ? & ? & ->).
    destruct (Hback _ _ _ H2) as (? & ? & ? & ->). eauto.
Qed.

Lemma owned_insert (s : store) p r v l :
  owned s -> nodes s !! p = None -> NoDup (blocks v) ->
  (forall b, b ∈ blocks v -> b ∈ l) ->
  (forall q rq vq b, nodes s !! q = Some (rq, vq) -> b ∈ blocks vq -> b ∈ l /\ b ∉ blocks v) ->
  owned (Store (<[p := (r, v)]> (nodes s)) l).
Proof.
  intros [O1 O2 O3] Hp Hd Hl Ha. split; cbn [nodes live].
  - intros q rq vq. rewrite lookup_insert_Some. intros [[<- [= <- <-]]|[_ Hq]]; eauto.
  - intros q rq vq b. rewrite lookup_insert_Some. intros [[<- [= <- <-]]|[_ Hq]] Hb; [eauto|].
    by eapply Ha.
  - intros q1 q2 r1 v1 r2 v2 b. rewrite !lookup_insert_Some.
    intros [[<- [= <- <-]]|[_ H1]] [[<- [= <- <-]]|[_ H2]] Hb1 Hb2; [done|..|eauto].
    + by destruct (Ha _ _ _ _ H2 Hb2).
    + by destruct (Ha _ _ _ _ H1 Hb1).
Qed.

Lemma ins_ok_nodes ins w ps q : ins_ok ins w ps -> q ∈ ps -> is_Some (nodes (st w) !! q).
Proof. intros Hok Hq. destruct (ok_held _ _ _ Hok q Hq) as (r & v & -> & _). done. Qed.

Lemma ins_ok_room ins w ps p r v :
  ins_ok ins w ps -> p ∈ ps -> nodes (st w) !! p = Some (r, v) -> (0 < count r < 2 ^ 32 - 1)%Z.
Proof.
  intros Hok Hp Hn. destruct (ok_held _ _ _ Hok p Hp) as (r0 & v0 & H0 & H1 & H2). simplify_eq.
  pose proof (each_elem ps p Hp). lia.
Qed.

(** The collection after an advert: touched, or one longer. *)
Lemma ins_ok_seen ins w ps p r v now l :
  ins_ok ins w ps -> nodes (st w) !! p = Some (r, v) ->
  (forall q rq vq b, nodes (st w) !! q = Some (rq, vq) -> b ∈ blocks vq -> b ∈ l) ->
  ins_ok ins (World (lists w) (Store (<[p := (r, seen_at now v)]> (nodes (st w))) l)) ps.
Proof.
  intros [H1 H2 H3 H4] Hp Hl. split; cbn [lists st nodes live].
  - done.
  - by eapply owned_update.
  - intros q rq vq. rewrite lookup_insert_Some. intros [[<- [= <- <-]]|[_ Hq]]; eauto.
  - intros q Hq. destruct (H4 q Hq) as (rq & vq & Hn & Hb). cbn [nodes].
    destruct (decide (q = p)) as [->|Hne].
    + simplify_eq. exists r, (seen_at now v). by rewrite lookup_insert_eq.
    + exists rq, vq. by rewrite lookup_insert_ne.
Qed.

Lemma ins_ok_new ins w ps p v l :
  ins_ok ins w ps -> nodes (st w) !! p = None -> NoDup (blocks v) ->
  (forall b, b ∈ blocks v -> b ∈ l) ->
  (forall q rq vq b, nodes (st w) !! q = Some (rq, vq) -> b ∈ blocks vq -> b ∈ l /\ b ∉ blocks v) ->
  ins_ok ins (World (<[list_ ins := Some (p :: ps)]> (lists w))
    (Store (<[p := (RefCount 1, v)]> (nodes (st w))) l)) (p :: ps).
Proof.
  intros Hok Hp Hd Hl Ha. pose proof Hok as [H1 H2 H3 H4].
  assert (Hnp : p ∉ ps) by (intros Hin; destruct (ins_ok_nodes _ _ _ _ Hok Hin) as [? E]; by rewrite Hp in E).
  split; cbn [lists st nodes live].
  - by rewrite lookup_insert_eq.
  - by apply owned_insert.
  - intros q rq vq. rewrite lookup_insert_Some. intros [[<- [= <- <-]]|[_ Hq]]; [done|eauto].
  - intros q Hq. cbn [nodes]. rewrite each_cons. unfold one. case_decide as E.
    + subst q. exists (RefCount 1), v. rewrite lookup_insert_eq. split; [done|].
      unfold each. rewrite (proj1 (count_occ_not_In Nat.eq_dec ps p)); [cbn; lia|].
      by rewrite <- list_elem_of_In.
    + apply elem_of_cons in Hq as [|Hq]; [done|]. destruct (H4 q Hq) as (rq & vq & Hn & Hb).
      exists rq, vq. rewrite lookup_insert_ne by done. split; [done|lia].
Qed.

Definition advert_blocks (host port fs2protocol id : str) : gset nat :=
  list_to_set (addr <$> [host; port; fs2protocol; id]).

Lemma free_three (host port fs2protocol id : str) (w : world) L b :
  NoDup (addr <$> [host; port; fs2protocol; id]) ->
  (forall x, x ∈ addr <$> [host; port; fs2protocol; id] -> x ∈ L) -> b ∉ L ->
  live (st w) = ({[ b ]} ∪ L) ∖ {[ addr fs2protocol ]} ->
  (w ← on_store (free_const host (st w)) w;
   w ← on_store (free_const port (st w)) w;
   on_store (free_const id (st w)) w) =
  Ret (World (lists w) (Store (nodes (st w))
    ({[ b ]} ∪ (L ∖ advert_blocks host port fs2protocol id)))).
Proof.
  cbn [fmap list_fmap]. intros HN HL Hb Hw. rewrite !NoDup_cons, !not_elem_of_cons in HN.
  pose proof (HL (addr host) ltac:(set_solver)). pose proof (HL (addr port) ltac:(set_solver)).
  pose proof (HL (addr fs2protocol) ltac:(set_solver)). pose proof (HL (addr id) ltac:(set_solver)).
  unfold on_store. rewrite free_const_ok, !bind_ret_l by (rewrite Hw; set_solver). cbn [lists st nodes live].
  rewrite free_const_ok, !bind_ret_l by (cbn [live]; rewrite Hw; set_solver). cbn [lists st nodes live].
  rewrite free_const_ok, !bind_ret_l by (cbn [live]; rewrite Hw; set_solver). cbn [lists st nodes live].
  do 3 f_equal. rewrite Hw. unfold advert_blocks. cbn [fmap list_fmap].
  apply set_eq. intros x. set_solver.
Qed.

(** ** Properties *)

(** C10: [indexnodes_get] gives its caller a list of its own of the indexnodes
    that are still valid, in the order of the collection's list, and leaves the
    collection with the same ones in reverse. Each of them has gained the
    caller's reference, each expired one has lost the collection's: those are
    freed with their strings unless some consumer still holds them, and every
    other object and string is as it was. *)
Theorem indexnodes_get_correct (now : nat -> Z) (timeout : Z) (ins : indexnodes) (w : world)
    (ps : list nat) (Hok : ins_ok ins w ps) :
  let good := filter (valid (st w) now timeout) ps in
  exists l ins' w', indexnodes_get now timeout ins w = Ret (l, ins', w') /\
    lists w' !! list_ ins' = Some (Some (rev good)) /\ lists w' !! l = Some (Some good) /\
    l <> list_ ins' /\
    settled (st w) (st w') (fun q => 2 * each good q - each ps q)%Z.
Proof. by apply indexnodes_get_ok. Qed.

(** Two indexnodes of the list, the second not seen for an hour, and the first
    in use elsewhere too. *)
Definition demo_indexnode (n : nat) (name : cstr) (t : Z) : indexnode :=
  Indexnode (ProtoIndexnode (Str n (cs "10.0.0.1")) (Str (n + 1) (cs "42000")))
    (Str (n + 2) (cs "0.13")) (Str (n + 3) name) t.
Definition demo_store : store :=
  Store {[ 0 := (RefCount 2, demo_indexnode 0 (cs "a") 3600);
           1 := (RefCount 1, demo_indexnode 4 (cs "b") 0) ]}
        (list_to_set (seq 0 12)).
Definition demo_world : world := World {[ 0 := Some [0; 1] ]} demo_store.

Lemma demo_lookup p r v :
  nodes demo_store !! p = Some (r, v) ->
  p = 0 /\ r = RefCount 2 /\ v = demo_indexnode 0 (cs "a") 3600 \/
  p = 1 /\ r = RefCount 1 /\ v = demo_indexnode 4 (cs "b") 0.
Proof.
  cbn [demo_store nodes]. rewrite lookup_insert_Some, lookup_singleton_Some. naive_solver.
Qed.

Lemma demo_block p r v b :
  nodes demo_store !! p = Some (r, v) -> b ∈ blocks v -> p * 4 <= b < p * 4 + 4 /\ p < 2.
Proof.
  intros Hp Hb. unfold blocks in Hb. cbn [fmap list_fmap] in Hb. rewrite !elem_of_cons in Hb.
  destruct (demo_lookup p r v Hp) as [(-> & _ & ->)|(-> & _ & ->)];
    cbn in Hb; destruct Hb as [->|[->|[->|[->|Hb]]]]; try lia; by apply elem_of_nil in Hb.
Qed.

Lemma demo_ins_ok : ins_ok (Indexnodes 0) demo_world [0; 1].
Proof.
  split; cbn [demo_world lists st].
  - reflexivity.
  - split.
    + intros p r v Hp. destruct (demo_lookup p r v Hp) as [(_ & _ & ->)|(_ & _ & ->)];
        apply (bool_decide_unpack _); vm_compute; exact I.
    + intros p r v b Hp Hb. destruct (demo_block p r v b Hp Hb). cbn [demo_store live].
      apply elem_of_list_to_set, elem_of_seq. lia.
    + intros p q r v r' v' b Hp Hq Hb Hb'. destruct (demo_block p r v b Hp Hb).
      destruct (demo_block q r' v' b Hq Hb'). lia.
  - intros q r v Hq. destruct (demo_lookup q r v Hq) as [(_ & -> & _)|(_ & -> & _)]; cbn; lia.
  - intros p Hp. rewrite !elem_of_cons in Hp. destruct Hp as [->|[->|Hp]]; [..|by apply elem_of_nil in Hp].
    + exists (RefCount 2), (demo_indexnode 0 (cs "a") 3600). split; [reflexivity|vm_compute].
      split; [discriminate|reflexivity].
    + exists (RefCount 1), (demo_indexnode 4 (cs "b") 0). split; [reflexivity|vm_compute].
      split; [discriminate|reflexivity].
Qed.

Lemma indexnodes_get_correct_witness :
  exists l ins' w', indexnodes_get (fun _ => 3602%Z) 5 (Indexnodes 0) demo_world = Ret (l, ins', w') /\
    lists w' !! list_ ins' = Some (Some [0]) /\ lists w' !! l = Some (Some [0]) /\ l <> list_ ins' /\
    settled demo_store (st w') (fun q => 2 * each [0%nat] q - each [0%nat; 1%nat] q)%Z.
Proof. exact (indexnodes_get_correct (fun _ => 3602%Z) 5 (Indexnodes 0) demo_world [0; 1] demo_ins_ok). Defined.

(** The list that is left is freed, whatever it was. *)
Lemma remove_expired_frees (now : nat -> Z) (timeout : Z) (orig l : nat) (w w' : world) :
  indexnodes_list_remove_expired now timeout orig w = Ret (l, w') -> lists w' !! orig = Some None.
Proof.
  unfold indexnodes_list_remove_expired. destruct (indexnodes_list_new w) as [ret w1].
  intros H. apply bind_ret_inv in H as (items & _ & H). apply bind_ret_inv in H as (w2 & _ & H).
  apply bind_ret_inv in H as (w3 & Hd & [= <- <-]). unfold indexnodes_list_delete in Hd.
  apply bind_ret_inv in Hd as (its & _ & Hd). apply bind_ret_inv in Hd as (s & _ & [= <-]).
  cbn. apply lookup_insert_eq.
Qed.

(** [indexnodes_get] replaces the collection's list, and frees the old one,
    under the lock that only shuts out writers: a second thread that has
    fetched the [list] pointer too walks a freed list, whatever the list, the
    indexnodes and the time. *)
Theorem concurrent_get_walks_freed_list (now now' : nat -> Z) (timeout timeout' : Z)
    (ins : indexnodes) (l : nat) (w w' : world)
    (Hfirst : indexnodes_list_remove_expired now timeout (list_ ins) w = Ret (l, w')) :
  indexnodes_list_remove_expired now' timeout' (list_ ins) w' = Undef.
Proof.
  pose proof (remove_expired_frees _ _ _ _ _ _ Hfirst) as Hl.
  unfold indexnodes_list_remove_expired. pose proof (new_list_fresh w') as Hf.
  destruct (indexnodes_list_new w') as [ret w1] eqn:E. unfold indexnodes_list_new in E.
  injection E as Er <-. cbn [fst] in Hf. unfold items_of. cbn [lists].
  rewrite Er, lookup_insert_ne, Hl by (intros E; rewrite E in Hf; congruence). reflexivity.
Qed.

Lemma concurrent_get_walks_freed_list_witness :
  exists l w', indexnodes_list_remove_expired (fun _ => 3602%Z) 5 0 demo_world = Ret (l, w') /\
    indexnodes_list_remove_expired (fun _ => 3602%Z) 5 0 w' = Undef.
Proof.
  destruct (remove_expired_ok (fun _ => 3602%Z) 5 (Indexnodes 0) demo_world [0; 1] demo_ins_ok)
    as (l & s' & E & _). eexists l, _. split; [exact E|].
  exact (concurrent_get_walks_freed_list (fun _ => 3602%Z) (fun _ => 3602%Z) 5 5 (Indexnodes 0) l _ _ E).
Defined.

(** The collection once the advert's strings are freed. *)
Lemma advert_seen ins w ps host port fs2protocol id p r v now b :
  ins_ok ins w ps -> advert_ok host port fs2protocol id (st w) -> nodes (st w) !! p = Some (r, v) ->
  ins_ok ins (World (lists w) (Store (<[p := (r, seen_at now v)]> (nodes (st w)))
    ({[ b ]} ∪ (live (st w) ∖ advert_blocks host port fs2protocol id)))) ps.
Proof.
  intros Hok Had Hp. apply ins_ok_seen; [done..|]. intros q rq vq x Hq Hx. unfold advert_blocks.
  pose proof (ad_apart _ _ _ _ _ Had q rq vq x Hq Hx).
  pose proof (owned_live _ (ok_owned _ _ _ Hok) q rq vq x Hq Hx).
  rewrite elem_of_union, elem_of_difference, elem_of_list_to_set. by right.
Qed.

(** The collection with an indexnode that owns the advert's strings. *)
Lemma advert_new ins w ps host port fs2protocol id ver p now :
  ins_ok ins w ps -> advert_ok host port fs2protocol id (st w) -> nodes (st w) !! p = None ->
  addr ver ∉ live (st w) ->
  ins_ok ins (World (<[list_ ins := Some (p :: ps)]> (lists w))
    (Store (<[p := (RefCount 1, Indexnode (ProtoIndexnode host port) ver id now)]> (nodes (st w)))
       (({[ addr ver ]} ∪ live (st w)) ∖ {[ addr fs2protocol ]}))) (p :: ps).
Proof.
  intros Hok [A1 A2 A3 _] Hp Hf. pose proof (ok_owned _ _ _ Hok) as [_ OL _].
  cbn [fmap list_fmap] in A1, A2, A3. rewrite !NoDup_cons, !not_elem_of_cons in A1.
  assert (Hv4 : forall b, b ∈ blocks (Indexnode (ProtoIndexnode host port) ver id now) ->
    b = addr host \/ b = addr port \/ b = addr ver \/ b = addr id).
  { intros b Hb. unfold blocks in Hb. cbn in Hb. set_solver. }
  assert (Hver : forall b, b ∈ [addr host; addr port; addr fs2protocol; addr id] -> b <> addr ver)
    by (intros b Hb ->; by apply Hf, A2).
  pose proof (Hver (addr host) ltac:(set_solver)) as N1.
  pose proof (Hver (addr port) ltac:(set_solver)) as N2.
  pose proof (Hver (addr fs2protocol) ltac:(set_solver)) as N3.
  pose proof (Hver (addr id) ltac:(set_solver)) as N4. destruct A1 as (D1 & D2 & D3 & _).
  apply ins_ok_new; [done|done|..].
  - unfold blocks. cbn. rewrite !NoDup_cons, !not_elem_of_cons.
    clear - N1 N2 N4 D1 D2 D3. split_and!; try apply not_elem_of_nil; try apply NoDup_nil_2;
      intuition congruence.
  - clear A3 OL Hf. intros b Hb. rewrite elem_of_difference, elem_of_union, !elem_of_singleton.
    destruct (Hv4 b Hb) as [Eb|[Eb|[Eb|Eb]]]; subst b; (split; [|intuition congruence]); [right..|by left|right];
      apply A2; set_solver.
  - clear Hok. intros q rq vq b Hq Hb. specialize (A3 q rq vq b Hq Hb). specialize (OL q rq vq b Hq Hb).
    rewrite !not_elem_of_cons in A3. rewrite elem_of_difference, elem_of_union, !elem_of_singleton.
    split; [tauto|]. intros Hb'. destruct (Hv4 b Hb') as [Eb|[Eb|[Eb|Eb]]]; subst b; tauto.
Qed.

(** ** Properties of adverts *)

(** What [new_indexnode_event] does with an advert. *)
Lemma advert_noted (now : Z) (ins : indexnodes) (host port fs2protocol id : str)
    (w : world) (ps : list nat) (v : list cstr)
    (Hok : ins_ok ins w ps) (Had : advert_ok host port fs2protocol id (st w))
    (Hv : well_formed_version v) (Hne : v <> []) (Htext : text fs2protocol = prefix ++ render v) :
  exists w' ver, new_indexnode_event now ins host port fs2protocol id w = Ret w' /\
    (addr ver ∉ live (st w)) /\ text ver = render v /\
    match known (st w) ps (text id) with
    | Some p => ins_ok ins w' ps /\ exists r x, nodes (st w) !! p = Some (r, x) /\
        w' = World (lists w) (Store (<[p := (r, seen_at now x)]> (nodes (st w)))
          ({[ addr ver ]} ∪ (live (st w) ∖ advert_blocks host port fs2protocol id)))
    | None => exists p, ins_ok ins w' (p :: ps) /\ nodes (st w) !! p = None /\
        w' = World (<[list_ ins := Some (p :: ps)]> (lists w))
          (Store (<[p := (RefCount 1, Indexnode (ProtoIndexnode host port) ver id now)]>
                    (nodes (st w)))
             (({[ addr ver ]} ∪ live (st w)) ∖ {[ addr fs2protocol ]}))
    end.
Proof.
  pose proof Had as [A1 A2 _ (A4 & A5 & A6)].
  destruct (parse_ok fs2protocol (st w) v Hv Hne Htext ltac:(apply A2; set_solver))
    as (ver & E & Ht & Hr & Hf). unfold new_indexnode_event. rewrite E, bind_ret_l.
  set (w1 := World (lists w) _).
  assert (Hn : forall q, q ∈ ps -> is_Some (nodes (st w1) !! q)) by (intros q; by apply (ins_ok_nodes ins w)).
  change (known (st w)) with (known (st w1)). destruct (known (st w1) ps (text id)) as [p|] eqn:Ek.
  - destruct (known_elem _ _ _ _ Ek) as [Hp _].
    destruct (ok_held _ _ _ Hok p Hp) as (r & x & Hx & _).
    rewrite (note_known now ins host port ver id w1 ps p r x (ok_list _ _ _ Hok) Hn Ek Hx
      (ins_ok_room _ _ _ _ _ _ Hok Hp Hx)), bind_ret_l.
    rewrite (free_three host port fs2protocol id (World (lists w1)
      (Store (<[p := (r, seen_at now x)]> (nodes (st w1))) (live (st w1))))
      (live (st w)) (addr ver) A1 A2 Hf eq_refl).
    eexists _, ver. split_and!; [reflexivity|done|done| |by exists r, x].
    exact (advert_seen _ _ _ _ _ _ _ _ _ _ _ _ Hok Had Hx).
  - destruct (note_new now ins host port ver id w1 ps v (ok_list _ _ _ Hok) Hn Ek Hv Ht Hr A4 A5 A6)
      as (p & Hp & E2). rewrite E2, bind_ret_l.
    eexists _, ver. split_and!; [reflexivity|done|done|]. exists p.
    split_and!; [|done|done]. exact (advert_new _ _ _ _ _ _ _ _ _ _ Hok Had Hp Hf).
Qed.

(** C14: an advert from an indexnode with a well-formed version keeps the
    collection well formed. If its id is known, the first indexnode with that
    id is touched, nothing else changes, and the advert's strings are freed;
    the copy of the version is not: it stays allocated with no owner. If its id
    is new, an indexnode with one reference that owns the host, port, id and
    version goes to the head of the list. *)
Theorem advert_is_noted (now : Z) (ins : indexnodes) (host port fs2protocol id : str)
    (w : world) (ps : list nat) (v : list cstr)
    (Hok : ins_ok ins w ps) (Had : advert_ok host port fs2protocol id (st w))
    (Hv : well_formed_version v) (Hne : v <> []) (Htext : text fs2protocol = prefix ++ render v) :
  exists w' ver, new_indexnode_event now ins host port fs2protocol id w = Ret w' /\
    (addr ver ∉ live (st w)) /\ text ver = render v /\
    match known (st w) ps (text id) with
    | Some p => ins_ok ins w' ps /\ exists r x, nodes (st w) !! p = Some (r, x) /\
        w' = World (lists w) (Store (<[p := (r, seen_at now x)]> (nodes (st w)))
          ({[ addr ver ]} ∪ (live (st w) ∖ advert_blocks host port fs2protocol id)))
    | None => exists p, ins_ok ins w' (p :: ps) /\ nodes (st w) !! p = None /\
        w' = World (<[list_ ins := Some (p :: ps)]> (lists w))
          (Store (<[p := (RefCount 1, Indexnode (ProtoIndexnode host port) ver id now)]>
                    (nodes (st w)))
             (({[ addr ver ]} ∪ live (st w)) ∖ {[ addr fs2protocol ]}))
    end.
Proof. by apply advert_noted. Qed.

Definition demo_host : str := Str 8 (cs "10.0.0.1").
Definition demo_port : str := Str 9 (cs "42000").
Definition demo_protocol : str := Str 10 (cs "fs2protocol-0.13").

Lemma demo_advert_ok (name : cstr) :
  name <> [] -> advert_ok demo_host demo_port demo_protocol (Str 11 name) demo_store.
Proof.
  intros Hn. split.
  - apply (bool_decide_unpack _). vm_compute. exact I.
  - intros b Hb. cbn in Hb. cbn [demo_store live]. apply elem_of_list_to_set, elem_of_seq.
    rewrite !elem_of_cons in Hb. destruct Hb as [->|[->|[->|[->|Hb]]]]; [lia..|by apply elem_of_nil in Hb].
  - intros p r v b Hp Hb. destruct (demo_block p r v b Hp Hb) as [Hr Hp2]. cbn.
    rewrite !not_elem_of_cons. split_and!; try lia. apply not_elem_of_nil.
  - done.
Qed.

(** The first indexnode is heard of again, and a new one for the first time. *)
Lemma advert_is_noted_witness :
  (exists w' ver, new_indexnode_event 7200 (Indexnodes 0) demo_host demo_port demo_protocol
      (Str 11 (cs "a")) demo_world = Ret w' /\ text ver = cs "0.13" /\ ins_ok (Indexnodes 0) w' [0; 1]) /\
  (exists w' p, new_indexnode_event 7200 (Indexnodes 0) demo_host demo_port demo_protocol
      (Str 11 (cs "c")) demo_world = Ret w' /\ ins_ok (Indexnodes 0) w' [p; 0; 1]).
Proof.
  assert (Hv : well_formed_version [cs "0"; cs "13"]).
  { constructor; [|constructor; [|constructor]]; split_and!; vm_compute; done. }
  split.
  - destruct (advert_is_noted 7200 (Indexnodes 0) demo_host demo_port demo_protocol (Str 11 (cs "a"))
      demo_world [0; 1] [cs "0"; cs "13"] demo_ins_ok (demo_advert_ok (cs "a") ltac:(discriminate)) Hv
      ltac:(discriminate) ltac:(reflexivity)) as (w' & ver & E & _ & Ht & H).
    change (known (st demo_world) [0; 1] (text (Str 11 (cs "a")))) with (Some 0) in H.
    exists w', ver. split; [exact E|]. split; [exact Ht|apply H].
  - destruct (advert_is_noted 7200 (Indexnodes 0) demo_host demo_port demo_protocol (Str 11 (cs "c"))
      demo_world [0; 1] [cs "0"; cs "13"] demo_ins_ok (demo_advert_ok (cs "c") ltac:(discriminate)) Hv
      ltac:(discriminate) ltac:(reflexivity)) as (w' & ver & E & _ & Ht & H).
    change (known (st demo_world) [0; 1] (text (Str 11 (cs "c")))) with (@None nat) in H.
    destruct H as (p & H & _). exists w', p. split; [exact E|exact H].
Defined.

(** An advert whose protocol field does not start with "fs2protocol-" makes
    [new_indexnode_event] free that string twice: any packet that is not an
    advert, from anyone, is undefined behaviour in the listener thread. *)
Theorem bad_protocol_is_freed_twice (now : Z) (ins : indexnodes) (host port fs2protocol id : str)
    (w : world) (Hbad : strprefix prefix (text fs2protocol) = false) :
  new_indexnode_event now ins host port fs2protocol id w = Undef.
Proof.
  unfold new_indexnode_event, parse_fs2protocol. rewrite Hbad, bind_ret_l.
  unfold free_const, str_free. case_bool_decide; [|done]. rewrite !bind_ret_l. unfold on_store.
  cbn [st live]. rewrite bool_decide_false; [done|set_solver].
Qed.

Lemma bad_protocol_is_freed_twice_witness :
  new_indexnode_event 0 (Indexnodes 0) demo_host demo_port (Str 10 (cs "hello")) (Str 11 (cs "x"))
    demo_world = Undef.
Proof. apply bad_protocol_is_freed_twice. reflexivity. Defined.
