(* ===== verification/Interleaving.v ===== *)
(** * The collection of indexnodes among its threads

    The listener's thread and the alarms' call [new_indexnode_event]; libfuse's
    thread calls [fsfuse_statfs], which takes the collection's list and loops
    over a copy. Here each thread is where it is in that code, and one step of
    one thread is one access to what they share; the lock is [Locks]'s.
    [new_indexnode_event] searches the list without the lock. *)
From S2P Require Import Prelude CLib Utils RefCount Counted Locks Indexnode Indexnodes.

(** ** Where the threads are *)

(** The strings a call of [new_indexnode_event] was given. *)
Record advert := Advert { a_host : str; a_port : str; a_protocol : str; a_id : str }.

(** A thread that announces. [Walk]: in [indexnodes_list_find], the list it
    walks and the items still ahead. *)
Inductive announcer :=
| Quiet
| Heard (a : advert)
| Parsed (a : advert) (version : str)
| Walk (a : advert) (version : str) (l : nat) (rest : list nat)
| Found (a : advert) (found_in : nat)
| Seen (a : advert) (found_in : nat)
| Dropped (a : advert)
| Made (new_in : nat)
| Waiting (new_in : nat)
| Adding (new_in : nat)
| Added.

(** The thread that runs statfs. [items] are those of its list [l]; [rounds]
    loops over it are still to come. *)
Inductive consumer :=
| Resting
| Wanting
| Getting
| Expired (l : nat)
| Copied (l : nat) (items : list nat)
| Loop (rounds : nat) (l : nat) (items : list nat) (iter : list nat)
| Holding (rounds : nat) (l : nat) (items : list nat) (current : nat) (iter : list nat)
| Deleting (l : nat) (rest : list nat).

Record shared := Shared {
  lk : rw_lock;
  ins : indexnodes;
  w : world;
  reader : consumer;
  writers : list announcer
}.

(** ** The code, an access at a time *)

(** The strings are copies made for the call. *)
Definition call_strings (host port fs2protocol id : cstr) (s : store) : advert * store :=
  let '(host, l) := str_new host (live s) in
  let '(port, l) := str_new port l in
  let '(fs2protocol, l) := str_new fs2protocol l in
  let '(id, l) := str_new id l in
  (Advert host port fs2protocol id, Store (nodes s) l).

Definition free_advert (a : advert) (s : store) : outcome store :=
  s ← free_const (a_host a) s;
  s ← free_const (a_port a) s;
  free_const (a_id a) s.

(** [new_indexnode_event], but for the lock. *)
Definition announcer_step (now : Z) (ins : indexnodes) (k : announcer) (w : world)
  : outcome (announcer * world) :=
  match k with
  | Heard a =>
      '(version, s) ← parse_fs2protocol (a_protocol a) (st w);
      match version with
      | Some version => Ret (Parsed a version, World (lists w) s)
      | None => s ← free_const (a_protocol a) s; Ret (Dropped a, World (lists w) s)
      end
  | Parsed a version =>
      items ← items_of (list_ ins) w;                       (* TAILQ_FIRST *)
      Ret (Walk a version (list_ ins) items, w)
  | Walk a version l (item :: rest) =>
      _ ← items_of l w;                                     (* the item is the list's *)
      eq ← indexnode_equals item (text (a_id a)) (st w);
      if eq : bool
      then s ← indexnode_copy item (st w); Ret (Found a item, World (lists w) s)
      else Ret (Walk a version l rest, w)
  | Walk a version l [] =>
      '(new_in, s) ← indexnode_new now (a_host a) (a_port a) version (a_id a) (st w);
      match new_in with
      | Some new_in => Ret (Made new_in, World (lists w) s)
      | None => s ← free_const version s; Ret (Dropped a, World (lists w) s)
      end
  | Found a found_in =>
      w ← on_store (indexnode_seen found_in now (st w)) w; Ret (Seen a found_in, w)
  | Seen a found_in =>
      w ← on_store (indexnode_delete found_in (st w)) w; Ret (Dropped a, w)
  | Dropped a => w ← on_store (free_advert a (st w)) w; Ret (Quiet, w)
  | Adding new_in => w ← indexnodes_list_add (list_ ins) new_in w; Ret (Added, w)
  | Quiet | Made _ | Waiting _ | Added => Blocked
  end.

(** [fsfuse_statfs] with [indexnodes_get], but for the lock. *)
Definition consumer_step (now : nat -> Z) (timeout : Z) (ins : indexnodes) (k : consumer) (w : world)
  : outcome (consumer * indexnodes * world) :=
  match k with
  | Getting =>
      '(l, w) ← indexnodes_list_remove_expired now timeout (list_ ins) w; Ret (Expired l, ins, w)
  | Expired l =>
      let ins := Indexnodes l in
      '(l, w) ← indexnodes_list_copy (list_ ins) w;
      items ← items_of l w;
      Ret (Copied l items, ins, w)
  | Loop rounds l items (item :: iter) =>
      '(current, w) ← indexnodes_iterator_current (item :: iter) w;
      Ret (Holding rounds l items current (item :: iter), ins, w)
  | Holding rounds l items current iter =>
      w ← on_store (indexnode_delete current (st w)) w;
      iter ← indexnodes_iterator_next iter;
      Ret (Loop rounds l items iter, ins, w)
  | Loop (S rounds) l items [] =>
      iter ← indexnodes_iterator_begin l w; Ret (Loop rounds l items iter, ins, w)
  | Loop 0 l items [] => rest ← items_of l w; Ret (Deleting l rest, ins, w)
  | Deleting l (item :: rest) =>
      w ← on_store (indexnode_delete item (st w)) w; Ret (Deleting l rest, ins, w)
  | Deleting l [] => Ret (Resting, ins, World (<[l := None]> (lists w)) (st w))
  | Resting | Wanting | Copied _ _ => Blocked
  end.

(** The calls of the lock: the test of [locking_thread] returns at once or
    leaves the thread waiting. *)
Definition announcer_lock (self : tid) (k : announcer) (m : rw_lock) : option (announcer * rw_lock) :=
  match k with
  | Made p => Some (if already_locking self m then Adding p else Waiting p, m)
  | Waiting p => (fun m => (Adding p, m)) <$> rw_lock_wlock self m
  | Added => Some (Quiet, snd (rw_lock_wunlock m))
  | _ => None
  end.

Definition consumer_lock (self : tid) (k : consumer) (m : rw_lock) : option (consumer * rw_lock) :=
  match k with
  | Resting => Some (if already_locking self m then Getting else Wanting, m)
  | Wanting => (fun m => (Getting, m)) <$> rw_lock_rlock self m
  | Copied l items => Some (Loop 2 l items [], snd (rw_lock_runlock m))
  | _ => None
  end.

(** libfuse's thread is 1, the others follow. *)
Definition consumer_tid : tid := 1.
Definition writer_tid (i : nat) : tid := Z.of_nat i + 2.

(** An advert as indexnodes send it; others are the subject of
    [bad_protocol_is_freed_twice]. *)
Record announced (host port fs2protocol id : cstr) : Prop := {
  an_host : host <> [];
  an_port : port <> [];
  an_id : id <> [];
  an_version : exists v, well_formed_version v /\ v <> [] /\ fs2protocol = prefix ++ render v
}.

Section System.
Variable timeout : Z.

Inductive step : shared -> shared -> Prop :=
| hear_step m ins w r ks i host port fs2protocol id a s :
    ks !! i = Some Quiet -> announced host port fs2protocol id ->
    call_strings host port fs2protocol id (st w) = (a, s) ->
    step (Shared m ins w r ks) (Shared m ins (World (lists w) s) r (<[i := Heard a]> ks))
| writer_step m ins w r ks i k now k' w' :
    ks !! i = Some k -> announcer_step now ins k w = Ret (k', w') ->
    step (Shared m ins w r ks) (Shared m ins w' r (<[i := k']> ks))
| writer_lock_step m ins w r ks i k k' m' :
    ks !! i = Some k -> announcer_lock (writer_tid i) k m = Some (k', m') ->
    step (Shared m ins w r ks) (Shared m' ins w r (<[i := k']> ks))
| reader_step m ins w r ks now r' ins' w' :
    consumer_step now timeout ins r w = Ret (r', ins', w') ->
    step (Shared m ins w r ks) (Shared m ins' w' r' ks)
| reader_lock_step m ins w r ks r' m' :
    consumer_lock consumer_tid r m = Some (r', m') ->
    step (Shared m ins w r ks) (Shared m' ins w r' ks).

(** Some thread's next access is undefined or fails an assertion. *)
Definition bad {A} (o : outcome A) : Prop := o = Undef \/ o = AssertFail.
Definition goes_wrong (s : shared) : Prop :=
  (exists i k now, writers s !! i = Some k /\ bad (announcer_step now (ins s) k (w s))) \/
  (exists now, bad (consumer_step now timeout (ins s) (reader s) (w s))).

End System.

(** A search of the list during [indexnodes_get]. *)
Definition searching (k : announcer) : bool :=
  match k with Parsed _ _ | Walk _ _ _ _ => true | _ => false end.
Definition in_get (r : consumer) : bool :=
  match r with Getting | Expired _ => true | _ => false end.
Definition overlap (s : shared) : Prop :=
  in_get (reader s) = true /\ exists i k, writers s !! i = Some k /\ searching k = true.

(** Runs in which no search overlaps a get. *)
Definition apart_step (timeout : Z) (s s' : shared) : Prop := step timeout s s' /\ ~ overlap s'.

(** ** The account of the store *)

(** Every indexnode has the references that [T] counts and is freed without
    any; the blocks [bs] are allocated and nobody's else. *)
Record accounted (s : store) (T : nat -> Z) (bs : list nat) : Prop := {
  ac_owned : owned s;
  ac_count q : match nodes s !! q with Some (r, _) => count r = T q /\ (0 < T q)%Z | None => T q = 0%Z end;
  ac_nodup : NoDup bs;
  ac_live b : b ∈ bs -> b ∈ live s;
  ac_apart q r v b : nodes s !! q = Some (r, v) -> b ∈ blocks v -> b ∉ bs
}.

Lemma accounted_ext s T T' bs bs' :
  accounted s T bs -> (forall q, T q = T' q) -> bs ≡ₚ bs' -> accounted s T' bs'.
Proof.
  intros [H1 H2 H3 H4 H5] HT Hb. split; [done|..].
  - intros q. rewrite <- HT. apply H2.
  - by rewrite <- Hb.
  - intros b. rewrite <- Hb. apply H4.
  - intros q r v b. rewrite <- Hb. apply H5.
Qed.

(** Blocks may be given up for lost. *)
Lemma accounted_leak s T bs bs' : accounted s T (bs ++ bs') -> accounted s T bs'.
Proof.
  intros [H1 H2 H3 H4 H5]. apply NoDup_app in H3 as (_ & _ & H3). split; [done|done|done|..].
  - intros b Hb. apply H4, elem_of_app. by right.
  - intros q r v b Hq Hv Hb. apply (H5 q r v b Hq Hv), elem_of_app. by right.
Qed.

Lemma accounted_node s T bs q : accounted s T bs -> (0 < T q)%Z -> exists r v, nodes s !! q = Some (r, v) /\ count r = T q.
Proof.
  intros H Hq. pose proof (ac_count _ _ _ H q) as Hc. destruct (nodes s !! q) as [[r v]|]; [|lia]. destruct Hc. eauto.
Qed.

Lemma accounted_refs s T bs q r v : accounted s T bs -> nodes s !! q = Some (r, v) -> count r = T q /\ (0 < T q)%Z.
Proof. intros H Hq. pose proof (ac_count _ _ _ H q) as Hc. by rewrite Hq in Hc. Qed.

Lemma accounted_settles s T bs : accounted s T bs -> settled s s (fun _ => 0%Z).
Proof. intros H. apply settled_refl. intros q r v Hq. destruct (accounted_refs _ _ _ _ _ _ H Hq). lia. Qed.

Lemma accounted_settled s s' T d bs :
  accounted s T bs -> settled s s' d -> (forall q, 0 <= T q + d q)%Z -> (forall q, T q = 0 -> d q = 0)%Z ->
  accounted s' (fun q => T q + d q)%Z bs.
Proof.
  intros HA Hs Hd H0. pose proof HA as [H1 H2 H3 H4 H5]. split.
  - by eapply settled_owned.
  - intros q. rewrite (settled_nodes _ _ _ Hs). specialize (H2 q). specialize (Hd q). specialize (H0 q).
    destruct (nodes s !! q) as [[r v]|]; cbn.
    + destruct H2 as [-> _]. destruct (Z.eqb_spec (T q + d q) 0); cbn; lia.
    + rewrite H2, H0; lia.
  - done.
  - intros b Hb. apply (settled_live _ _ _ Hs). split; [by apply H4|]. intros q r v Hq Hv. by destruct (H5 q r v b).
  - intros q r v b Hq. destruct (settled_back _ _ _ _ _ _ Hs Hq) as (r0 & H0' & _). eauto.
Qed.

Lemma accounted_free x s T bs :
  accounted s T (addr x :: bs) ->
  free_const x s = Ret (Store (nodes s) (live s ∖ {[ addr x ]})) /\
  accounted (Store (nodes s) (live s ∖ {[ addr x ]})) T bs.
Proof.
  intros [[O1 O2 O3] H2 H3 H4 H5]. apply NoDup_cons in H3 as [Hx H3].
  split; [apply free_const_ok, H4, list_elem_of_here|]. split; cbn [nodes live]; [split; cbn [nodes live]|..]; try done.
  - intros p r v b Hp Hb. pose proof (H5 p r v b Hp Hb). specialize (O2 p r v b Hp Hb). set_solver.
  - intros b Hb. specialize (H4 b). set_solver.
  - intros q r v b Hq Hb. specialize (H5 q r v b Hq Hb). set_solver.
Qed.

Lemma accounted_alloc t s T bs :
  accounted s T bs ->
  accounted (Store (nodes s) (snd (str_new t (live s)))) T (addr (fst (str_new t (live s))) :: bs).
Proof.
  intros [[O1 O2 O3] H2 H3 H4 H5]. pose proof (str_new_fresh t (live s)) as Hf.
  unfold str_new in *. cbn [fst snd addr] in *. set (x := stdpp.base.fresh (live s)) in *. clearbody x.
  split; cbn [nodes live]; [split; cbn [nodes live]|..]; try done.
  - intros p r v b Hp Hb. specialize (O2 p r v b Hp Hb). set_solver.
  - apply NoDup_cons. split; [|done]. intros Hx. by apply Hf, H4.
  - intros b Hb. apply elem_of_cons in Hb as [->|Hb]; [set_solver|]. specialize (H4 b Hb). set_solver.
  - intros q r v b Hq Hb. apply not_elem_of_cons. split; [|by eapply H5]. intros ->. by apply Hf, (O2 q r v).
Qed.

(** A new object takes the blocks over. *)
Lemma accounted_new s T bs p v :
  accounted s T (blocks v ++ bs) -> nodes s !! p = None ->
  accounted (Store (<[p := (RefCount 1, v)]> (nodes s)) (live s)) (fun q => T q + one p q)%Z bs.
Proof.
  intros [H1 H2 H3 H4 H5] Hp. apply NoDup_app in H3 as (Hd & Hdis & H3). split; cbn [nodes live].
  - apply owned_insert; [done|done|done|..].
    + intros b Hb. apply H4, elem_of_app. by left.
    + intros q r x b Hq Hb. split; [by apply (owned_live _ H1 q r x)|]. intros Hv.
      apply (H5 q r x b Hq Hb), elem_of_app. by left.
  - intros q. specialize (H2 q). unfold one. destruct (decide (q = p)) as [->|Hne].
    + rewrite Hp in H2. rewrite lookup_insert_eq, H2. cbn. lia.
    + rewrite lookup_insert_ne by done. destruct (nodes s !! q) as [[r x]|]; lia.
  - done.
  - intros b Hb. apply H4, elem_of_app. by right.
  - intros q r x b. rewrite lookup_insert_Some. intros [[<- [= <- <-]]|[_ Hq]] Hb; [by apply Hdis|].
    intros Hb'. apply (H5 q r x b Hq Hb), elem_of_app. by right.
Qed.

Lemma accounted_seen s T bs p r v now :
  accounted s T bs -> nodes s !! p = Some (r, v) ->
  accounted (Store (<[p := (r, seen_at now v)]> (nodes s)) (live s)) T bs.
Proof.
  intros [H1 H2 H3 H4 H5] Hp. split; cbn [nodes live]; [|..|done|done|].
  - eapply owned_update; [done|exact Hp|done|]. intros q rq vq b. apply (owned_live _ H1).
  - intros q. specialize (H2 q). destruct (decide (q = p)) as [->|Hne].
    + rewrite lookup_insert_eq. by rewrite Hp in H2.
    + by rewrite lookup_insert_ne.
  - intros q rq vq b. rewrite lookup_insert_Some. intros [[<- [= <- <-]]|[_ Hq]] Hb; [by apply (H5 p r v)|by eapply H5].
Qed.

(** ** What the threads hold *)

Definition strings (k : announcer) : list nat :=
  match k with
  | Heard a => addr <$> [a_protocol a; a_host a; a_port a; a_id a]
  | Parsed a version | Walk a version _ _ => addr <$> [a_host a; a_port a; version; a_id a]
  | Found a _ | Seen a _ | Dropped a => addr <$> [a_host a; a_port a; a_id a]
  | _ => []
  end.

Definition refs (k : announcer) : list nat :=
  match k with Found _ p | Seen _ p | Made p | Waiting p | Adding p => [p] | _ => [] end.

(** New indexnodes that are not in the list yet. *)
Definition made (k : announcer) : list nat :=
  match k with Made p | Waiting p | Adding p => [p] | _ => [] end.

Definition reader_refs (r : consumer) : list nat :=
  match r with
  | Copied _ items | Loop _ _ items _ => items
  | Holding _ _ items p _ => p :: items
  | Deleting _ rest => rest
  | _ => []
  end.

Definition writer_state (k : announcer) : thread_state :=
  match k with Waiting _ => WantW | Adding _ | Added => HoldW | _ => Idle end.
Definition reader_state (r : consumer) : thread_state :=
  match r with Wanting => WantR | Getting | Expired _ | Copied _ _ => HoldR | _ => Idle end.

(** A call's strings are as [announced]; a walk is in the collection's list. *)
Definition texts_ok (a : advert) : Prop := text (a_host a) <> [] /\ text (a_port a) <> [] /\ text (a_id a) <> [].
Definition version_ok (t : cstr) : Prop := exists v, well_formed_version v /\ render v <> [] /\ t = render v.
Definition writer_ok (cur : nat) (ps : list nat) (k : announcer) : Prop :=
  match k with
  | Heard a => texts_ok a /\ exists v, well_formed_version v /\ v <> [] /\ text (a_protocol a) = prefix ++ render v
  | Parsed a version => texts_ok a /\ version_ok (text version)
  | Walk a version l rest => texts_ok a /\ version_ok (text version) /\ l = cur /\ Forall (.∈ ps) rest
  | _ => True
  end.

Definition reader_ok (cur : nat) (lists : gmap nat (option (list nat))) (r : consumer) : Prop :=
  match r with
  | Copied l items => lists !! l = Some (Some items) /\ l <> cur /\ NoDup items
  | Loop _ l items iter => lists !! l = Some (Some items) /\ l <> cur /\ NoDup items /\ iter `suffix_of` items
  | Holding _ l items p iter =>
      lists !! l = Some (Some items) /\ l <> cur /\ NoDup items /\ iter `suffix_of` items /\ head iter = Some p
  | Deleting l rest => is_Some (lists !! l) /\ l <> cur /\ NoDup rest
  | _ => True
  end.

(** Uses the collection's list. *)
Definition touching (k : announcer) : bool :=
  match k with Parsed _ _ | Walk _ _ _ _ | Adding _ => true | _ => false end.

(** At a call of the lock, or at rest. *)
Definition writer_waits (k : announcer) : bool :=
  match k with Quiet | Made _ | Waiting _ | Added => true | _ => false end.
Definition reader_waits (r : consumer) : bool :=
  match r with Resting | Wanting | Copied _ _ => true | _ => false end.

(** ** A writer's step *)

Section Writer.
Variables (cur : nat) (ps : list nat) (R : nat -> Z) (bs ms : list nat).
Hypothesis HR : forall q, (0 <= R q)%Z.
Hypothesis Hms : forall q, q ∈ ms -> (0 < R q)%Z.

(** The references of the list, a writer, and the rest. *)
Definition counts (ps ps' : list nat) (q : nat) : Z := (each ps q + each ps' q + R q)%Z.

Definition writer_after (k : announcer) (w : world) (k' : announcer) (w' : world) : Prop :=
  exists ps', accounted (st w') (counts ps' (refs k')) (strings k' ++ bs) /\
    lists w' !! cur = Some (Some ps') /\ (forall l, l <> cur -> lists w' !! l = lists w !! l) /\
    NoDup (ps' ++ made k' ++ ms) /\ ps ⊆ ps' /\ writer_ok cur ps' k' /\ writer_state k' = writer_state k.

(** Steps that leave the lists alone. *)
Lemma after_store k w k' s' :
  lists w !! cur = Some (Some ps) -> NoDup (ps ++ made k' ++ ms) ->
  accounted s' (counts ps (refs k')) (strings k' ++ bs) -> writer_ok cur ps k' ->
  writer_state k' = writer_state k -> writer_after k w k' (World (lists w) s').
Proof. intros Hl HN HA Hk Hs. by exists ps. Qed.

Lemma parse_account (s : store) T a (v : list cstr) bs' :
  accounted s T (addr (a_protocol a) :: bs') ->
  well_formed_version v -> v <> [] -> text (a_protocol a) = prefix ++ render v ->
  exists ver s', parse_fs2protocol (a_protocol a) s = Ret (Some ver, s') /\ version_ok (text ver) /\
    accounted s' T (addr ver :: bs').
Proof.
  intros HA Hv Hne Ht. pose proof (accounted_alloc (render v) _ _ _ HA) as HB.
  destruct (parse_ok (a_protocol a) s v Hv Hne Ht) as (ver0 & _ & _ & Hr & _).
  { apply (ac_live _ _ _ HA), list_elem_of_here. }
  unfold parse_fs2protocol, scan_version. rewrite Ht, strprefix_app, (drop_app_length prefix (render v)).
  rewrite skip_nonspace, word_id by (by apply render_nonspace). cbn zeta.
  rewrite (proj2 (negb_true_iff _)) by (apply Nat.eqb_neq; by destruct (render v)). cbn [c_assert]. rewrite bind_ret_l.
  destruct (str_new (render v) (live s)) as [ver l] eqn:E. cbn [fst snd] in HB. rewrite bind_ret_l.
  destruct (accounted_free (a_protocol a) (Store (nodes s) l) T (addr ver :: bs')) as [-> HC].
  { eapply accounted_ext; [exact HB|done|by apply perm_swap]. }
  rewrite bind_ret_l. eexists ver, _. split; [done|]. split; [|done]. exists v. split_and!; [done|done|].
  unfold str_new in E. by injection E as <- _.
Qed.

Lemma counts_pos p k : p ∈ k \/ p ∈ ps -> (0 < counts ps k p)%Z.
Proof.
  intros H. unfold counts. pose proof (HR p). pose proof (each_bounds ps p). pose proof (each_bounds k p).
  destruct H as [H|H]; pose proof (each_elem _ _ H); lia.
Qed.

(** Each of the steps; [now] is the time it is made at. *)
Lemma heard_ok now ins a w :
  lists w !! cur = Some (Some ps) -> NoDup (ps ++ ms) ->
  accounted (st w) (counts ps []) (strings (Heard a) ++ bs) -> writer_ok cur ps (Heard a) ->
  exists k' w', announcer_step now ins (Heard a) w = Ret (k', w') /\ writer_after (Heard a) w k' w'.
Proof.
  intros Hl HN HA (Ht & v & Hv & Hne & Hp). cbn [strings fmap list_fmap app] in HA.
  destruct (parse_account _ _ _ _ _ HA Hv Hne Hp) as (ver & s' & E & Hver & HA').
  exists (Parsed a ver), (World (lists w) s'). cbn [announcer_step]. rewrite E, bind_ret_l. split; [done|].
  apply after_store; [done|done| |done|done]. eapply accounted_ext; [exact HA'|done|].
  cbn [strings fmap list_fmap app]. solve_Permutation.
Qed.

Lemma parsed_ok now ins a ver w :
  lists w !! cur = Some (Some ps) -> NoDup (ps ++ ms) -> cur = list_ ins ->
  accounted (st w) (counts ps []) (strings (Parsed a ver) ++ bs) -> writer_ok cur ps (Parsed a ver) ->
  exists k' w', announcer_step now ins (Parsed a ver) w = Ret (k', w') /\ writer_after (Parsed a ver) w k' w'.
Proof.
  intros Hl HN Ec HA (Ht & Hver). exists (Walk a ver cur ps), w. cbn [announcer_step].
  rewrite (items_of_ok _ ps), bind_ret_l, Ec by congruence. split; [done|]. destruct w as [ls s]. cbn [lists st] in *.
  rewrite <- Ec. apply (after_store _ (World ls s)); [done|done|done| |done]. split_and!; [done..|]. by apply Forall_forall.
Qed.

Lemma walk_ok now ins a ver l item rest w :
  lists w !! cur = Some (Some ps) -> NoDup (ps ++ ms) ->
  (forall q, counts ps [] q < 2 ^ 32 - 1)%Z ->
  accounted (st w) (counts ps []) (strings (Walk a ver l (item :: rest)) ++ bs) ->
  writer_ok cur ps (Walk a ver l (item :: rest)) ->
  exists k' w', announcer_step now ins (Walk a ver l (item :: rest)) w = Ret (k', w') /\
    writer_after (Walk a ver l (item :: rest)) w k' w'.
Proof.
  intros Hl HN Hroom HA (Ht & Hver & -> & HF). apply Forall_cons in HF as [Hi HF].
  cbn [announcer_step]. rewrite (items_of_ok _ ps), bind_ret_l by done.
  destruct (accounted_node _ _ _ item HA (counts_pos _ _ (or_intror Hi))) as (r & v & Hn & Hr).
  unfold indexnode_equals, obj_get. rewrite Hn. cbn [deref]. change (snd <$> Ret (r, v)) with (Ret v).
  rewrite !bind_ret_l. destruct (streq _ _).
  - pose proof (counts_pos item [] (or_intror Hi)). specialize (Hroom item).
    destruct (copy_settles _ _ _ item r v (accounted_settles _ _ _ HA) Hn ltac:(lia)) as (s' & E & Hs).
    rewrite E, bind_ret_l. eexists _, _. split; [done|]. apply after_store; [done|done| |done|done].
    apply (accounted_leak _ _ [addr ver]).
    eapply accounted_ext; [eapply accounted_settled; [exact HA|exact Hs|..]| |].
    + intros q. unfold counts, one. pose proof (HR q). pose proof (each_bounds ps q). pose proof (each_bounds [] q). case_decide; lia.
    + intros q Hq. unfold one. case_decide; [subst q|lia]. lia.
    + intros q. unfold counts. cbn [refs]. rewrite each_cons. change (each [] q) with 0%Z. lia.
    + cbn [strings fmap list_fmap app]. solve_Permutation.
  - eexists _, w. split; [done|]. destruct w as [ls s]. by apply (after_store _ (World ls s)).
Qed.

Lemma walk_end_ok now ins a ver l w :
  lists w !! cur = Some (Some ps) -> NoDup (ps ++ ms) ->
  accounted (st w) (counts ps []) (strings (Walk a ver l []) ++ bs) -> writer_ok cur ps (Walk a ver l []) ->
  exists k' w', announcer_step now ins (Walk a ver l []) w = Ret (k', w') /\
    writer_after (Walk a ver l []) w k' w'.
Proof.
  intros Hl HN HA ((Hh & Hp & Hi) & (v & Hv & Hne & Ev) & _). cbn [announcer_step].
  unfold indexnode_new, proto_indexnode_init. rewrite !nonempty_true by congruence. cbn [c_assert].
  rewrite !bind_ret_l, Ev, check_version_ok, !bind_ret_l by done.
  set (x := Indexnode (ProtoIndexnode (a_host a) (a_port a)) ver (a_id a) now).
  pose proof (obj_new_fresh x (nodes (st w))) as Hf.
  destruct (obj_new x (nodes (st w))) as [p h] eqn:E. cbn [fst] in Hf. unfold obj_new in E. injection E as Ep <-.
  rewrite Ep, bind_ret_l. eexists _, _. split; [done|]. apply after_store; [done| | |done|done].
  - assert (counts ps [] p = 0)%Z as H0 by (pose proof (ac_count _ _ _ HA p) as Hc; by rewrite Hf in Hc).
    unfold counts in H0. pose proof (HR p). pose proof (each_bounds ps p). pose proof (each_bounds [] p).
    cbn [made app]. rewrite <- Permutation_middle. apply NoDup_cons. split; [|done].
    rewrite elem_of_app. intros [Hin|Hin]; [pose proof (each_elem _ _ Hin)|pose proof (Hms _ Hin)]; lia.
  - eapply accounted_ext; [eapply (accounted_new _ _ bs p x); [exact HA|done]| |done].
    intros q. unfold counts. cbn [refs]. rewrite each_cons. lia.
Qed.

Lemma found_ok now ins a p w :
  lists w !! cur = Some (Some ps) -> NoDup (ps ++ ms) ->
  accounted (st w) (counts ps [p]) (strings (Found a p) ++ bs) ->
  exists k' w', announcer_step now ins (Found a p) w = Ret (k', w') /\ writer_after (Found a p) w k' w'.
Proof.
  intros Hl HN HA. destruct (accounted_node _ _ _ p HA (counts_pos p [p] ltac:(left; apply list_elem_of_here)))
    as (r & v & Hn & Hr).
  cbn [announcer_step]. unfold indexnode_seen, on_store. rewrite Hn. cbn [deref]. rewrite !bind_ret_l.
  eexists _, _. split; [done|]. apply after_store; [done|done| |done|done]. by apply accounted_seen.
Qed.

(** One reference less, to an indexnode that a thread holds. *)
Lemma give_back s T bs' p :
  accounted s (fun q => T q + one p q)%Z bs' -> (forall q, 0 <= T q)%Z -> (T p + 1 < 2 ^ 32)%Z ->
  exists s', indexnode_delete p s = Ret s' /\ accounted s' T bs'.
Proof.
  intros HA HT Hb. assert (one p p = 1%Z) as E1 by (unfold one; by rewrite decide_True).
  destruct (accounted_node _ _ _ p HA) as (r & v & Hn & Hr); [specialize (HT p); lia|].
  destruct (delete_settles s s (fun _ => 0%Z) p r v (ac_owned _ _ _ HA) (accounted_settles _ _ _ HA) Hn)
    as (s' & E & Hs); [specialize (HT p); lia|].
  exists s'. split; [done|]. eapply accounted_ext; [eapply accounted_settled; [exact HA|exact Hs|..]| |done].
  - intros q. cbn beta. specialize (HT q). lia.
  - intros q Hq. unfold one in *. specialize (HT q). case_decide; lia.
  - intros q. cbn beta. lia.
Qed.

Lemma seen_ok now ins a p w :
  lists w !! cur = Some (Some ps) -> NoDup (ps ++ ms) -> (forall q, counts ps [] q < 2 ^ 32 - 1)%Z ->
  accounted (st w) (counts ps [p]) (strings (Seen a p) ++ bs) ->
  exists k' w', announcer_step now ins (Seen a p) w = Ret (k', w') /\ writer_after (Seen a p) w k' w'.
Proof.
  intros Hl HN Hroom HA. destruct (give_back (st w) (counts ps []) (strings (Seen a p) ++ bs) p) as (s' & E & HA').
  { eapply accounted_ext; [exact HA| |done]. intros q. unfold counts. rewrite each_cons. lia. }
  { intros q. unfold counts. pose proof (HR q). pose proof (each_bounds ps q). pose proof (each_bounds [] q). lia. }
  { specialize (Hroom p). lia. }
  cbn [announcer_step]. unfold on_store. rewrite E, !bind_ret_l. eexists _, _. split; [done|]. by apply after_store.
Qed.

Lemma dropped_ok now ins a w :
  lists w !! cur = Some (Some ps) -> NoDup (ps ++ ms) ->
  accounted (st w) (counts ps []) (strings (Dropped a) ++ bs) ->
  exists k' w', announcer_step now ins (Dropped a) w = Ret (k', w') /\ writer_after (Dropped a) w k' w'.
Proof.
  intros Hl HN HA. cbn [strings fmap list_fmap app] in HA. cbn [announcer_step]. unfold on_store, free_advert.
  destruct (accounted_free _ _ _ _ HA) as [-> HA1]. rewrite bind_ret_l.
  destruct (accounted_free _ _ _ _ HA1) as [-> HA2]. rewrite bind_ret_l.
  destruct (accounted_free _ _ _ _ HA2) as [-> HA3]. rewrite !bind_ret_l.
  eexists _, _. split; [done|]. by apply after_store.
Qed.

Lemma adding_ok now ins p w :
  lists w !! cur = Some (Some ps) -> NoDup (ps ++ p :: ms) -> cur = list_ ins ->
  accounted (st w) (counts ps [p]) bs ->
  exists k' w', announcer_step now ins (Adding p) w = Ret (k', w') /\ writer_after (Adding p) w k' w'.
Proof.
  intros Hl HN Ec HA. cbn [announcer_step]. rewrite (list_add_ok _ _ _ ps), bind_ret_l by congruence.
  eexists _, _. split; [done|]. exists (p :: ps). cbn [st lists made strings refs app]. rewrite <- Ec.
  split_and!; [|by rewrite lookup_insert_eq|intros l Hne; by rewrite lookup_insert_ne| |set_solver|done|done].
  - eapply accounted_ext; [exact HA| |done]. intros q. unfold counts. rewrite !each_cons.
    change (each [] q) with 0%Z. lia.
  - cbn [app]. by rewrite Permutation_middle.
Qed.

(** Whatever a writer does next with what it holds is defined. *)
Lemma writer_step_ok now ins k w :
  lists w !! cur = Some (Some ps) -> NoDup (ps ++ made k ++ ms) ->
  (forall q, counts ps (refs k) q < 2 ^ 32 - 1)%Z -> (touching k = true -> cur = list_ ins) ->
  accounted (st w) (counts ps (refs k)) (strings k ++ bs) -> writer_ok cur ps k ->
  writer_waits k = true \/
  exists k' w', announcer_step now ins k w = Ret (k', w') /\ writer_after k w k' w'.
Proof.
  intros Hl HN Hroom Hc HA Hk. destruct k as [|a|a ver|a ver l [|item rest]|a p|a p|a|p|p|p|]; try (by left); right.
  - by apply heard_ok.
  - apply parsed_ok; [done|done|by apply Hc|done|done].
  - by apply walk_end_ok.
  - by apply walk_ok.
  - by apply found_ok.
  - apply seen_ok; [done|done| |done]. intros q. specialize (Hroom q). unfold counts in *. cbn [refs] in Hroom.
    rewrite each_cons in Hroom. unfold one in Hroom. change (each [] q) with 0%Z in *. case_decide; lia.
  - by apply dropped_ok.
  - apply adding_ok; [done|done|by apply Hc|done].
Qed.

End Writer.

(** ** The reader's step *)

(** The collection's list; [ins] points to a freed one until the new list is
    stored. *)
Definition current_list (r : consumer) (ins : indexnodes) : nat :=
  match r with Expired l => l | _ => list_ ins end.

Section Reader.
Variables (timeout : Z) (ps : list nat) (R : nat -> Z) (bs ms : list nat).
Hypothesis HR : forall q, (0 <= R q)%Z.

Definition reader_after (r : consumer) (ins : indexnodes) (w : world) (r' : consumer) (ins' : indexnodes) (w' : world) : Prop :=
  exists ps', accounted (st w') (counts R ps' (reader_refs r')) bs /\
    lists w' !! current_list r' ins' = Some (Some ps') /\ NoDup (ps' ++ ms) /\
    reader_ok (current_list r' ins') (lists w') r' /\ reader_state r' = reader_state r /\
    (in_get r = false -> in_get r' = false /\ ins' = ins /\ ps' = ps).

Lemma nodup_each q : NoDup (ps ++ ms) -> (each ps q <= 1)%Z.
Proof.
  intros HN. apply NoDup_app in HN as (HN & _). apply NoDup_ListNoDup in HN.
  unfold each. apply (NoDup_count_occ Nat.eq_dec) with (x := q) in HN. lia.
Qed.

Lemma counts_each r q : (each ps q <= counts R ps r q)%Z.
Proof. unfold counts. pose proof (HR q). pose proof (each_bounds r q). lia. Qed.

Lemma getting_ok now ins w :
  lists w !! list_ ins = Some (Some ps) -> NoDup (ps ++ ms) -> (forall q, counts R ps [] q < 2 ^ 32 - 2)%Z ->
  accounted (st w) (counts R ps []) bs ->
  exists r' ins' w', consumer_step now timeout ins Getting w = Ret (r', ins', w') /\ reader_after Getting ins w r' ins' w'.
Proof.
  intros Hl HN Hroom HA. assert (ins_ok ins w ps) as Hok.
  { split; [done|apply (ac_owned _ _ _ HA)|..].
    - intros q r v Hq. destruct (accounted_refs _ _ _ _ _ _ HA Hq). lia.
    - intros p Hp. pose proof (each_elem _ _ Hp). pose proof (counts_each [] p). pose proof (nodup_each p HN).
      specialize (Hroom p). destruct (accounted_node _ _ _ p HA ltac:(lia)) as (r & v & Hn & Er). exists r, v. rewrite Er. split; [done|lia]. }
  destruct (remove_expired_ok now timeout ins w ps Hok) as (l & s' & E & Hf & Hs). cbn [consumer_step].
  rewrite E, bind_ret_l. eexists _, _, _. split; [done|]. set (good := filter _ ps) in *. exists (rev good).
  cbn [st lists current_list reader_refs]. assert (l <> list_ ins) as Hne by (intros ->; by rewrite Hl in Hf).
  split_and!; [|by rewrite lookup_insert_ne, lookup_insert_eq| |done|done|done].
  - assert (forall q, 0 <= each good q <= each ps q)%Z as Hg.
    { intros q. unfold good. rewrite each_filter. pose proof (each_bounds ps q). case_decide; lia. }
    eapply accounted_ext; [eapply accounted_settled; [exact HA|exact Hs|..]| |done].
    + intros q. cbn beta. pose proof (counts_each [] q). specialize (Hg q). lia.
    + intros q Hq. cbn beta. pose proof (counts_each [] q). specialize (Hg q). lia.
    + intros q. unfold counts. rewrite each_rev. lia.
  - apply NoDup_app in HN as (H1 & H2 & H3). rewrite <- Permutation_rev. apply NoDup_app. split; [by apply NoDup_filter|].
    split; [|done]. intros x [_ Hx]%list_elem_of_filter. by apply H2.
Qed.

Lemma expired_ok now ins l w :
  lists w !! l = Some (Some ps) -> NoDup (ps ++ ms) -> (forall q, counts R ps [] q < 2 ^ 32 - 2)%Z ->
  accounted (st w) (counts R ps []) bs ->
  exists r' ins' w', consumer_step now timeout ins (Expired l) w = Ret (r', ins', w') /\
    reader_after (Expired l) ins w r' ins' w'.
Proof.
  intros Hl HN Hroom HA. cbn [consumer_step list_].
  destruct (list_copy_ok (st w) l w ps (fun _ => 0%Z) Hl (accounted_settles _ _ _ HA)) as (c & s' & E & Hf & Hs).
  { intros p Hp. pose proof (each_elem _ _ Hp). pose proof (counts_each [] p). pose proof (nodup_each p HN).
    specialize (Hroom p). destruct (accounted_node _ _ _ p HA ltac:(lia)) as (r & v & Hn & Er). exists r, v. rewrite Er. split; [done|lia]. }
  assert (c <> l) as Hne by (intros ->; by rewrite Hl in Hf).
  rewrite E, bind_ret_l, (items_of_ok _ (rev ps)), bind_ret_l by (cbn [lists]; apply lookup_insert_eq).
  eexists _, _, _. split; [done|]. exists ps. cbn [st lists current_list list_ reader_refs reader_ok].
  rewrite lookup_insert_eq, lookup_insert_ne by done. split_and!; try done.
  - eapply accounted_ext; [eapply accounted_settled; [exact HA|exact Hs|..]| |done].
    + intros q. cbn beta. pose proof (counts_each [] q). pose proof (each_bounds ps q). lia.
    + intros q Hq. cbn beta. pose proof (counts_each [] q). pose proof (each_bounds ps q). lia.
    + intros q. unfold counts. rewrite each_rev. change (each [] q) with 0%Z. lia.
  - apply NoDup_app in HN as (H1 & _). by rewrite <- Permutation_rev.
Qed.

Lemma loop_ok now ins n l items p iter w :
  lists w !! list_ ins = Some (Some ps) -> NoDup (ps ++ ms) -> (forall q, counts R ps items q < 2 ^ 32 - 2)%Z ->
  accounted (st w) (counts R ps items) bs -> reader_ok (list_ ins) (lists w) (Loop n l items (p :: iter)) ->
  exists r' ins' w', consumer_step now timeout ins (Loop n l items (p :: iter)) w = Ret (r', ins', w') /\
    reader_after (Loop n l items (p :: iter)) ins w r' ins' w'.
Proof.
  intros Hl HN Hroom HA (Hc & Hne & HNi & Hsuf). cbn [consumer_step]. destruct n; unfold indexnodes_iterator_current; cbn [head deref];
  rewrite bind_ret_l.
  all: assert (p ∈ items) as Hp by (destruct Hsuf as [k ->]; apply elem_of_app; right; apply list_elem_of_here).
  all: pose proof (each_elem _ _ Hp); pose proof (each_bounds ps p); pose proof (HR p); pose proof (Hroom p) as Hrp;
    assert (0 < counts R ps items p)%Z as Hpos by (unfold counts; lia);
    destruct (accounted_node _ _ _ p HA Hpos) as (r & v & Hn & Hr);
    destruct (copy_settles _ _ _ p r v (accounted_settles _ _ _ HA) Hn ltac:(lia)) as (s' & E & Hs);
    rewrite E, !bind_ret_l; eexists _, _, _; (split; [done|]); exists ps;
    cbn [st lists current_list list_ reader_refs reader_ok]; split_and!; try done.
  all: eapply accounted_ext; [eapply accounted_settled; [exact HA|exact Hs|..]| |done].
  all: intros q; unfold counts, one; rewrite ?each_cons; unfold one; pose proof (HR q); pose proof (each_bounds ps q);
    pose proof (each_bounds items q); try case_decide; try subst q; lia.
Qed.

Lemma holding_ok now ins n l items p iter w :
  lists w !! list_ ins = Some (Some ps) -> NoDup (ps ++ ms) -> (forall q, counts R ps (p :: items) q < 2 ^ 32 - 2)%Z ->
  accounted (st w) (counts R ps (p :: items)) bs -> reader_ok (list_ ins) (lists w) (Holding n l items p iter) ->
  exists r' ins' w', consumer_step now timeout ins (Holding n l items p iter) w = Ret (r', ins', w') /\
    reader_after (Holding n l items p iter) ins w r' ins' w'.
Proof.
  intros Hl HN Hroom HA (Hc & Hne & HNi & Hsuf & Hh). destruct iter as [|x iter]; [done|]. injection Hh as ->.
  destruct (give_back (st w) (counts R ps items) bs p) as (s' & E & HA').
  { eapply accounted_ext; [exact HA| |done]. intros q. unfold counts. rewrite each_cons. lia. }
  { intros q. unfold counts. pose proof (HR q). pose proof (each_bounds ps q). pose proof (each_bounds items q). lia. }
  { specialize (Hroom p). unfold counts in *. rewrite each_cons in Hroom. unfold one in Hroom. rewrite decide_True in Hroom by done. lia. }
  cbn [consumer_step]. unfold on_store. rewrite E, !bind_ret_l. cbn [indexnodes_iterator_next]. rewrite bind_ret_l.
  eexists _, _, _. split; [done|]. exists ps. cbn [st lists current_list reader_refs reader_ok].
  split_and!; try done. etrans; [|exact Hsuf]. by apply suffix_cons_r.
Qed.

Lemma deleting_ok now ins l p rest w :
  lists w !! list_ ins = Some (Some ps) -> NoDup (ps ++ ms) -> (forall q, counts R ps (p :: rest) q < 2 ^ 32 - 2)%Z ->
  accounted (st w) (counts R ps (p :: rest)) bs -> reader_ok (list_ ins) (lists w) (Deleting l (p :: rest)) ->
  exists r' ins' w', consumer_step now timeout ins (Deleting l (p :: rest)) w = Ret (r', ins', w') /\
    reader_after (Deleting l (p :: rest)) ins w r' ins' w'.
Proof.
  intros Hl HN Hroom HA (Hc & Hne & HNi). apply NoDup_cons in HNi as [_ HNi].
  destruct (give_back (st w) (counts R ps rest) bs p) as (s' & E & HA').
  { eapply accounted_ext; [exact HA| |done]. intros q. unfold counts. rewrite each_cons. lia. }
  { intros q. unfold counts. pose proof (HR q). pose proof (each_bounds ps q). pose proof (each_bounds rest q). lia. }
  { specialize (Hroom p). unfold counts in *. rewrite each_cons in Hroom. unfold one in Hroom. rewrite decide_True in Hroom by done. lia. }
  cbn [consumer_step]. unfold on_store. rewrite E, !bind_ret_l.
  eexists _, _, _. split; [done|]. by exists ps.
Qed.

Lemma reader_step_ok now ins r w :
  lists w !! current_list r ins = Some (Some ps) -> NoDup (ps ++ ms) ->
  (forall q, counts R ps (reader_refs r) q < 2 ^ 32 - 2)%Z ->
  accounted (st w) (counts R ps (reader_refs r)) bs -> reader_ok (current_list r ins) (lists w) r ->
  reader_waits r = true \/
  exists r' ins' w', consumer_step now timeout ins r w = Ret (r', ins', w') /\ reader_after r ins w r' ins' w'.
Proof.
  intros Hl HN Hroom HA Hr.
  destruct r as [| | |l|l items|n l items [|p iter]|n l items p iter|l [|p rest]]; try (by left); right; cbn [current_list] in *.
  - by apply getting_ok.
  - by apply expired_ok.
  - destruct Hr as (Hc & Hne & HNi & Hsuf). destruct n as [|n]; cbn [consumer_step]; unfold indexnodes_iterator_begin;
      rewrite (items_of_ok _ items), bind_ret_l by done; eexists _, _, _; (split; [done|]); exists ps; by rewrite ?Hc.
  - by apply loop_ok.
  - by apply holding_ok.
  - destruct Hr as (Hc & Hne & HNi). eexists _, _, _. split; [done|]. exists ps.
    cbn [st lists current_list]. rewrite lookup_insert_ne by done. by split_and!.
  - by apply deleting_ok.
Qed.

End Reader.

(** ** The invariant *)

Definition all (f : announcer -> list nat) (ks : list announcer) : list nat := concat (f <$> ks).

Lemma all_take f ks i k : ks !! i = Some k -> all f ks ≡ₚ f k ++ all f (delete i ks).
Proof. intros H. unfold all. by rewrite (delete_Permutation _ _ _ H) at 1. Qed.

Lemma all_put f ks i k k' : ks !! i = Some k -> all f (<[i := k']> ks) ≡ₚ f k' ++ all f (delete i ks).
Proof.
  revert i. induction ks as [|x ks IH]; intros [|i] H; [done..|]. unfold all in *. cbn.
  rewrite (IH i H). solve_Permutation.
Qed.

Definition threads (r : consumer) (ks : list announcer) (t : tid) : thread_state :=
  if (t =? consumer_tid)%Z then reader_state r
  else if (2 <=? t)%Z then from_option writer_state Idle (ks !! Z.to_nat (t - 2)) else Idle.

Definition others (c : nat -> Z) (ks : list announcer) (q : nat) : Z := (each (all refs ks) q + c q)%Z.

Record inv (n : nat) (c : nat -> Z) (s : shared) (ps : list nat) : Prop := {
  v_lock : one_holder consumer_tid (System (lk s) (threads (reader s) (writers s)));
  v_store : accounted (st (w s)) (counts (others c (writers s)) ps (reader_refs (reader s)))
              (all strings (writers s));
  v_list : lists (w s) !! current_list (reader s) (ins s) = Some (Some ps);
  v_nodup : NoDup (ps ++ all made (writers s));
  v_reader : reader_ok (current_list (reader s) (ins s)) (lists (w s)) (reader s);
  v_writers i k : writers s !! i = Some k -> writer_ok (current_list (reader s) (ins s)) ps k;
  v_apart : ~ overlap s;
  v_length : length (writers s) = n
}.

Lemma threads_writer r ks i k k' t :
  ks !! i = Some k -> threads r (<[i := k']> ks) t = set_thread (threads r ks) (writer_tid i) (writer_state k') t.
Proof.
  intros Hi. pose proof (lookup_lt_Some _ _ _ Hi). unfold set_thread, threads, consumer_tid, writer_tid.
  destruct (Z.eqb_spec t (Z.of_nat i + 2)) as [->|Hne].
  - rewrite (proj2 (Z.eqb_neq _ _)), (proj2 (Z.leb_le _ _)) by lia.
    replace (Z.to_nat (Z.of_nat i + 2 - 2)) with i by lia. by rewrite list_lookup_insert_eq.
  - destruct (t =? 1)%Z; [done|]. destruct (Z.leb_spec 2 t); [|done]. rewrite list_lookup_insert_ne by lia. done.
Qed.

Lemma threads_at r ks i k : ks !! i = Some k -> threads r ks (writer_tid i) = writer_state k.
Proof.
  intros Hi. unfold threads, consumer_tid, writer_tid.
  rewrite (proj2 (Z.eqb_neq _ _)), (proj2 (Z.leb_le _ _)) by lia.
  replace (Z.to_nat (Z.of_nat i + 2 - 2)) with i by lia. by rewrite Hi.
Qed.

Lemma threads_reader r r' ks t :
  threads r' ks t = set_thread (threads r ks) consumer_tid (reader_state r') t.
Proof. unfold set_thread, threads. by destruct (t =? consumer_tid)%Z. Qed.

(** Where no thread asks for the lock or returns it, its part stays. *)
Lemma lock_same_writer m r ks i k k' :
  ks !! i = Some k -> writer_state k' = writer_state k ->
  one_holder consumer_tid (System m (threads r ks)) -> one_holder consumer_tid (System m (threads r (<[i := k']> ks))).
Proof.
  intros Hi Hs. apply one_holder_ext. intros t. rewrite (threads_writer _ _ _ k) by done. unfold set_thread.
  destruct (Z.eqb_spec t (writer_tid i)) as [->|]; [|done]. by rewrite (threads_at _ _ _ k), Hs.
Qed.

Lemma lock_same_reader m r r' ks :
  reader_state r' = reader_state r ->
  one_holder consumer_tid (System m (threads r ks)) -> one_holder consumer_tid (System m (threads r' ks)).
Proof.
  intros Hs. apply one_holder_ext. intros t. rewrite (threads_reader r r'). unfold set_thread.
  destruct (Z.eqb_spec t consumer_tid) as [->|]; [|done]. by rewrite Hs.
Qed.

Lemma lock_writer m r ks i k k' m' :
  ks !! i = Some k -> announcer_lock (writer_tid i) k m = Some (k', m') ->
  one_holder consumer_tid (System m (threads r ks)) -> one_holder consumer_tid (System m' (threads r (<[i := k']> ks))).
Proof.
  intros Hi Hl HI. eapply one_holder_ext; [intros t; symmetry; by apply (threads_writer r ks i k)|].
  eapply one_holder_step; [|exact HI]. pose proof (threads_at r ks i k Hi) as Ht.
  assert (writer_tid i <> 0%Z) by (unfold writer_tid; lia).
  destruct k as [|a|a ver|a ver l rest|a p|a p|a|p|p|p|]; try done; cbn [announcer_lock] in Hl.
  - injection Hl as <- <-. destruct (already_locking _ m) eqn:E; [by apply step_wlock_fast|by apply step_wlock_test].
  - destruct (rw_lock_wlock _ m) eqn:E; [|done]. cbn in Hl. injection Hl as <- <-. by apply step_wlock.
  - injection Hl as <- <-. by apply step_wunlock.
Qed.

Lemma lock_reader m r ks r' m' :
  consumer_lock consumer_tid r m = Some (r', m') ->
  one_holder consumer_tid (System m (threads r ks)) -> one_holder consumer_tid (System m' (threads r' ks)).
Proof.
  intros Hl HI. eapply one_holder_ext; [intros t; symmetry; by apply (threads_reader r)|].
  eapply one_holder_step; [|exact HI].
  destruct r as [| | |l|l items|rounds l items iter|rounds l items p iter|l rest]; try done; cbn [consumer_lock] in Hl.
  - injection Hl as <- <-. destruct (already_locking _ m) eqn:E; [by apply step_rlock_fast|by apply step_rlock_test].
  - destruct (rw_lock_rlock _ m) eqn:E; [|done]. cbn in Hl. injection Hl as <- <-. by apply step_rlock.
  - injection Hl as <- <-. by apply step_runlock.
Qed.

Lemma writer_ok_apart cur cur' ps ps' k : searching k = false -> writer_ok cur ps k -> writer_ok cur' ps' k.
Proof. by destruct k. Qed.

Lemma writer_ok_more cur ps ps' k : ps ⊆ ps' -> writer_ok cur ps k -> writer_ok cur ps' k.
Proof.
  intros Hs. destruct k; try done. cbn. intros (H1 & H2 & H3 & HF). split_and!; [done..|].
  eapply Forall_impl; [exact HF|]. intros x. apply Hs.
Qed.

Lemma reader_ok_lists cur cur' (ls ls' : gmap nat (option (list nat))) r :
  (forall l, l <> cur -> ls' !! l = ls !! l) -> cur = cur' -> reader_ok cur ls r -> reader_ok cur' ls' r.
Proof.
  intros Hl <-. destruct r; try done; cbn; intros (H1 & H2 & H3); rewrite Hl by done; done.
Qed.

(** At most two references to an indexnode for the reader and one for a writer. *)
Lemma each_nodup ps q : NoDup ps -> (each ps q <= 1)%Z.
Proof.
  intros HN. apply NoDup_ListNoDup in HN. unfold each. apply (NoDup_count_occ Nat.eq_dec) with (x := q) in HN. lia.
Qed.

Lemma reader_few cur ls r q : reader_ok cur ls r -> (each (reader_refs r) q <= 2)%Z.
Proof.
  assert (each [] q = 0%Z) as E0 by done.
  destruct r as [| | |l|l items|rounds l items iter|rounds l items p iter|l rest]; cbn [reader_refs reader_ok]; try lia.
  - intros (_ & _ & HN). pose proof (each_nodup _ q HN). lia.
  - intros (_ & _ & HN & _). pose proof (each_nodup _ q HN). lia.
  - intros (_ & _ & HN & _). pose proof (each_nodup _ q HN). rewrite each_cons. unfold one. case_decide; lia.
  - intros (_ & _ & HN). pose proof (each_nodup _ q HN). lia.
Qed.

Lemma writers_few ks q : (0 <= each (all refs ks) q <= Z.of_nat (length ks))%Z.
Proof.
  unfold all. induction ks as [|k ks IH]; [done|]. cbn [fmap list_fmap concat length]. rewrite each_app.
  assert (0 <= each (refs k) q <= 1)%Z by (pose proof (each_bounds (refs k) q); destruct k; cbn [refs length] in *; lia). lia.
Qed.

Section Invariant.
Variables (timeout : Z) (n : nat) (c : nat -> Z).
Hypothesis Hroom : forall q, (0 <= c q /\ c q + Z.of_nat n + 8 < 2 ^ 32)%Z.

Lemma others_bounds ks q : length ks = n -> (0 <= others c ks q /\ others c ks q + 8 < 2 ^ 32)%Z.
Proof. intros <-. unfold others. pose proof (writers_few ks q). specialize (Hroom q). lia. Qed.

Lemma inv_room s ps q :
  inv n c s ps -> (counts (others c (writers s)) ps (reader_refs (reader s)) q < 2 ^ 32 - 4)%Z.
Proof.
  intros HI. pose proof (others_bounds (writers s) q (v_length _ _ _ _ HI)).
  pose proof (reader_few _ _ _ q (v_reader _ _ _ _ HI)). pose proof (v_nodup _ _ _ _ HI) as HN.
  apply NoDup_app in HN as [HN _]. pose proof (each_nodup ps q HN). unfold counts. lia.
Qed.

(** A writer's share of the account, and the rest. *)
Definition beside (s : shared) (i : nat) (q : nat) : Z :=
  (each (reader_refs (reader s)) q + others c (delete i (writers s)) q)%Z.

Lemma split_writer s ps i k :
  inv n c s ps -> writers s !! i = Some k ->
  accounted (st (w s)) (counts (beside s i) ps (refs k)) (strings k ++ all strings (delete i (writers s))) /\
  NoDup (ps ++ made k ++ all made (delete i (writers s))) /\
  (forall q, 0 <= beside s i q)%Z /\ (forall q, q ∈ all made (delete i (writers s)) -> 0 < beside s i q)%Z /\
  (forall q, counts (beside s i) ps (refs k) q < 2 ^ 32 - 1)%Z.
Proof.
  intros HI Hi.
  assert (forall q, counts (others c (writers s)) ps (reader_refs (reader s)) q = counts (beside s i) ps (refs k) q) as E.
  { intros q. unfold counts, beside, others. rewrite (each_perm _ _ q (all_take refs _ _ _ Hi)), each_app. lia. }
  split_and!.
  - eapply accounted_ext; [exact (v_store _ _ _ _ HI)|exact E|]. by apply all_take.
  - rewrite <- (all_take made _ _ _ Hi). apply (v_nodup _ _ _ _ HI).
  - intros q. unfold beside, others. pose proof (each_bounds (reader_refs (reader s)) q).
    pose proof (writers_few (delete i (writers s)) q). specialize (Hroom q). lia.
  - intros q Hq. unfold beside, others. pose proof (each_bounds (reader_refs (reader s)) q). specialize (Hroom q).
    assert (q ∈ all refs (delete i (writers s))) as Hr; [|pose proof (each_elem _ _ Hr); lia].
    unfold all in *. rewrite !list_elem_of_In, in_concat in *. destruct Hq as (l & Hl & Hq).
    rewrite <- list_elem_of_In in Hl. apply list_elem_of_fmap in Hl as (x & -> & Hx). exists (refs x).
    rewrite <- list_elem_of_In. split; [by apply list_elem_of_fmap_2|]. by destruct x.
  - intros q. rewrite <- E. pose proof (inv_room s ps q HI). lia.
Qed.

(** What a writer touches is where it is. *)
Lemma touching_current s ps i k :
  inv n c s ps -> writers s !! i = Some k -> touching k = true -> current_list (reader s) (ins s) = list_ (ins s).
Proof.
  intros HI Hi Ht. destruct (reader s) as [| | |l|l items|n0 l items iter|n0 l items p iter|l rest] eqn:Er; try done. exfalso.
  destruct (searching k) eqn:Es.
  - apply (v_apart _ _ _ _ HI). split; [by rewrite Er|]. eauto.
  - apply (one_holder_exclusive _ _ (v_lock _ _ _ _ HI)). rewrite Er. exists (writer_tid i), consumer_tid. cbn [thread].
    rewrite (threads_at _ _ _ k) by done. split; [unfold writer_tid, consumer_tid; lia|]. split; [by destruct k|by right].
Qed.

(** A writer's step puts its new share back. *)
Lemma join_writer s ps i k k' w' :
  inv n c s ps -> writers s !! i = Some k ->
  writer_after (current_list (reader s) (ins s)) ps (beside s i) (all strings (delete i (writers s)))
    (all made (delete i (writers s))) k (w s) k' w' ->
  ~ overlap (Shared (lk s) (ins s) w' (reader s) (<[i := k']> (writers s))) ->
  exists ps', inv n c (Shared (lk s) (ins s) w' (reader s) (<[i := k']> (writers s))) ps'.
Proof.
  intros HI Hi (ps' & HA & Hl & Hls & HN & Hsub & Hk' & Hst) Hap. exists ps'.
  split; cbn [lk ins w reader writers].
  - by eapply lock_same_writer, (v_lock _ _ _ _ HI).
  - eapply accounted_ext; [exact HA| |by rewrite (all_put strings _ _ _ k' Hi)].
    intros q. unfold counts, beside, others. rewrite (each_perm _ _ q (all_put refs _ _ _ k' Hi)), each_app. lia.
  - done.
  - by rewrite (all_put made _ _ _ k' Hi).
  - eapply reader_ok_lists; [exact Hls|done|apply (v_reader _ _ _ _ HI)].
  - intros j x Hj. apply list_lookup_insert_Some in Hj as [(_ & <- & _)|(_ & Hj)]; [done|].
    eapply writer_ok_more; [exact Hsub|]. by apply (v_writers _ _ _ _ HI j).
  - done.
  - rewrite length_insert. apply (v_length _ _ _ _ HI).
Qed.

(** A call of the lock moves a writer or the reader and nothing else. *)
Lemma same_share k k' m m' self :
  announcer_lock self k m = Some (k', m') ->
  refs k' = refs k /\ strings k' = strings k /\ made k' = made k /\ forall cur ps, writer_ok cur ps k'.
Proof.
  destruct k as [|a|a ver|a ver l rest|a p|a p|a|p|p|p|]; try done; cbn [announcer_lock].
  - intros [= <- <-]. by destruct (already_locking _ _).
  - destruct (rw_lock_wlock _ _); [|done]. by intros [= <- <-].
  - by intros [= <- <-].
Qed.

Lemma each_same (f : announcer -> list nat) ks i k k' :
  ks !! i = Some k -> f k' = f k -> all f (<[i := k']> ks) ≡ₚ all f ks.
Proof. intros Hi E. rewrite (all_put f _ _ _ k' Hi), (all_take f _ _ _ Hi). by rewrite E. Qed.

(** The strings of a new call. *)
Lemma hear_account host port prot id s a s' T bs :
  announced host port prot id -> call_strings host port prot id s = (a, s') -> accounted s T bs ->
  accounted s' T (strings (Heard a) ++ bs) /\ forall cur ps, writer_ok cur ps (Heard a).
Proof.
  intros [H1 H2 H3 (v & Hv & Hne & Ev)] E HA. unfold call_strings in E.
  pose proof (accounted_alloc host _ _ _ HA) as HA1. destruct (str_new host (live s)) as [h l1] eqn:E1.
  pose proof (accounted_alloc port _ _ _ HA1) as HA2. cbn [fst snd nodes live] in HA2. destruct (str_new port l1) as [p l2] eqn:E2.
  pose proof (accounted_alloc prot _ _ _ HA2) as HA3. cbn [fst snd nodes live] in HA3. destruct (str_new prot l2) as [f l3] eqn:E3.
  pose proof (accounted_alloc id _ _ _ HA3) as HA4. cbn [fst snd nodes live] in HA4. destruct (str_new id l3) as [x l4] eqn:E4.
  injection E as <- <-. split.
  - eapply accounted_ext; [exact HA4|done|]. cbn [strings fmap list_fmap a_protocol a_host a_port a_id app fst]. solve_Permutation.
  - unfold str_new in *. injection E1 as <- _. injection E2 as <- _. injection E3 as <- _. injection E4 as <- _.
    intros cur ps. cbn. split; [done|]. by exists v.
Qed.

Lemma hear_inv s ps i host port prot id a s' :
  inv n c s ps -> writers s !! i = Some Quiet -> announced host port prot id ->
  call_strings host port prot id (st (w s)) = (a, s') ->
  ~ overlap (Shared (lk s) (ins s) (World (lists (w s)) s') (reader s) (<[i := Heard a]> (writers s))) ->
  exists ps', inv n c (Shared (lk s) (ins s) (World (lists (w s)) s') (reader s) (<[i := Heard a]> (writers s))) ps'.
Proof.
  intros HI Hi Han E Hap. destruct (split_writer s ps i Quiet HI Hi) as (HA & HN & _ & _ & _).
  destruct (hear_account _ _ _ _ _ _ _ _ _ Han E HA) as [HA' Hok].
  apply (join_writer s ps i Quiet); [done|done| |done].
  apply after_store; [apply (v_list _ _ _ _ HI)|done| |apply Hok|done].
  eapply accounted_ext; [exact HA'|done|done].
Qed.

Lemma writer_inv s ps i k now k' w' :
  inv n c s ps -> writers s !! i = Some k -> announcer_step now (ins s) k (w s) = Ret (k', w') ->
  ~ overlap (Shared (lk s) (ins s) w' (reader s) (<[i := k']> (writers s))) ->
  exists ps', inv n c (Shared (lk s) (ins s) w' (reader s) (<[i := k']> (writers s))) ps'.
Proof.
  intros HI Hi E Hap. destruct (split_writer s ps i k HI Hi) as (HA & HN & HR & Hms & Hr).
  apply (join_writer s ps i k); [done|done| |done].
  destruct (writer_step_ok _ ps _ _ _ HR Hms now (ins s) k (w s) (v_list _ _ _ _ HI) HN Hr
    (touching_current s ps i k HI Hi) HA (v_writers _ _ _ _ HI i k Hi)) as [E'|(k0 & w0 & E' & H)]; [by destruct k|congruence].
Qed.

Lemma writer_lock_inv s ps i k k' m' :
  inv n c s ps -> writers s !! i = Some k -> announcer_lock (writer_tid i) k (lk s) = Some (k', m') ->
  ~ overlap (Shared m' (ins s) (w s) (reader s) (<[i := k']> (writers s))) ->
  inv n c (Shared m' (ins s) (w s) (reader s) (<[i := k']> (writers s))) ps.
Proof.
  intros HI Hi E Hap. destruct (same_share _ _ _ _ _ E) as (Hr & Hs & Hm & Hok).
  split; cbn [lk ins w reader writers].
  - by eapply lock_writer, (v_lock _ _ _ _ HI).
  - eapply accounted_ext; [exact (v_store _ _ _ _ HI)| |by rewrite (each_same strings _ _ _ k' Hi Hs)].
    intros q. unfold counts, others. by rewrite (each_perm _ _ q (each_same refs _ _ _ k' Hi Hr)).
  - apply (v_list _ _ _ _ HI).
  - rewrite (each_same made _ _ _ k' Hi Hm). apply (v_nodup _ _ _ _ HI).
  - apply (v_reader _ _ _ _ HI).
  - intros j x Hj. apply list_lookup_insert_Some in Hj as [(_ & <- & _)|(_ & Hj)]; [done|]. by apply (v_writers _ _ _ _ HI j).
  - done.
  - rewrite length_insert. apply (v_length _ _ _ _ HI).
Qed.

Lemma reader_inv s ps now r' ins' w' :
  inv n c s ps -> consumer_step now timeout (ins s) (reader s) (w s) = Ret (r', ins', w') ->
  ~ overlap (Shared (lk s) ins' w' r' (writers s)) ->
  exists ps', inv n c (Shared (lk s) ins' w' r' (writers s)) ps'.
Proof.
  intros HI E Hap.
  assert (forall q, 0 <= others c (writers s) q)%Z as HR by (intros q; pose proof (others_bounds (writers s) q (v_length _ _ _ _ HI)); lia).
  destruct (reader_step_ok timeout ps _ (all strings (writers s)) (all made (writers s)) HR now (ins s) (reader s) (w s) (v_list _ _ _ _ HI) (v_nodup _ _ _ _ HI))
    as [E'|(r0 & ins0 & w0 & E' & ps' & HA & Hl & HN & Hok & Hst & Hsame)];
    [intros q; pose proof (inv_room s ps q HI); lia|apply (v_store _ _ _ _ HI)|apply (v_reader _ _ _ _ HI)|by destruct (reader s)|].
  rewrite E in E'. injection E' as <- <- <-. exists ps'. split; cbn [lk ins w reader writers]; try done.
  - by eapply lock_same_reader, (v_lock _ _ _ _ HI).
  - intros i k Hi. destruct (in_get (reader s)) eqn:Eg.
    + apply (writer_ok_apart (current_list (reader s) (ins s)) _ ps); [|by apply (v_writers _ _ _ _ HI i)].
      apply not_true_is_false. intros Hk. apply (v_apart _ _ _ _ HI). split; [done|]. eauto.
    + destruct (Hsame eq_refl) as (Eg' & -> & ->).
      replace (current_list r' (ins s)) with (current_list (reader s) (ins s)); [by apply (v_writers _ _ _ _ HI i)|].
      by destruct (reader s), r'.
  - apply (v_length _ _ _ _ HI).
Qed.

Lemma reader_lock_inv s ps r' m' :
  inv n c s ps -> consumer_lock consumer_tid (reader s) (lk s) = Some (r', m') ->
  ~ overlap (Shared m' (ins s) (w s) r' (writers s)) ->
  inv n c (Shared m' (ins s) (w s) r' (writers s)) ps.
Proof.
  intros HI E Hap. pose proof (lock_reader _ _ (writers s) _ _ E (v_lock _ _ _ _ HI)) as Hlock.
  pose proof (v_reader _ _ _ _ HI) as Hr. pose proof (v_store _ _ _ _ HI) as HA. pose proof (v_list _ _ _ _ HI) as Hl.
  pose proof (v_writers _ _ _ _ HI) as Hw.
  assert (current_list r' (ins s) = current_list (reader s) (ins s) /\ reader_refs r' = reader_refs (reader s) /\
    reader_ok (current_list r' (ins s)) (lists (w s)) r') as (Ec & Er & Hok).
  { destruct (reader s) as [| | |l|l items|n0 l items iter|n0 l items p iter|l rest]; try done; cbn [consumer_lock] in E.
    - injection E as <- <-. by destruct (already_locking _ _).
    - destruct (rw_lock_rlock _ _); [|done]. by injection E as <- <-.
    - injection E as <- <-. destruct Hr as (H1 & H2 & H3).
      split; [done|]. split; [done|]. split_and!; try done. apply suffix_nil. }
  split; cbn [lk ins w reader writers]; try done.
  - by rewrite Er.
  - by rewrite Ec.
  - apply (v_nodup _ _ _ _ HI).
  - intros i k Hi. rewrite Ec. by apply (Hw i).
  - apply (v_length _ _ _ _ HI).
Qed.

Lemma step_inv s s' ps :
  inv n c s ps -> apart_step timeout s s' -> exists ps', inv n c s' ps'.
Proof.
  intros HI [Hs Hap]. destruct Hs as [m ins w r ks i host port prot id a s1 Hi Han E|m ins w r ks i k now k' w' Hi E
    |m ins w r ks i k k' m' Hi E|m ins w r ks now r' ins' w' E|m ins w r ks r' m' E].
  - by eapply (hear_inv (Shared m ins w r ks)).
  - by eapply (writer_inv (Shared m ins w r ks)).
  - exists ps. by eapply (writer_lock_inv (Shared m ins w r ks)).
  - by eapply (reader_inv (Shared m ins w r ks)).
  - exists ps. by eapply (reader_lock_inv (Shared m ins w r ks)).
Qed.

(** A thread that is not at a call of the lock moves. *)
Lemma writer_moves s ps i k now :
  inv n c s ps -> writers s !! i = Some k -> writer_waits k = false ->
  exists k' w', announcer_step now (ins s) k (w s) = Ret (k', w').
Proof.
  intros HI Hi Hk. destruct (split_writer s ps i k HI Hi) as (HA & HN & HR & Hms & Hr).
  destruct (writer_step_ok _ ps _ _ _ HR Hms now (ins s) k (w s) (v_list _ _ _ _ HI) HN Hr
    (touching_current s ps i k HI Hi) HA (v_writers _ _ _ _ HI i k Hi)) as [E|(k' & w' & E & _)]; [congruence|eauto].
Qed.

Lemma reader_moves s ps now :
  inv n c s ps -> reader_waits (reader s) = false ->
  exists r' ins' w', consumer_step now timeout (ins s) (reader s) (w s) = Ret (r', ins', w').
Proof.
  intros HI Hk.
  assert (forall q, 0 <= others c (writers s) q)%Z as HR by (intros q; pose proof (others_bounds (writers s) q (v_length _ _ _ _ HI)); lia).
  destruct (reader_step_ok timeout ps _ (all strings (writers s)) (all made (writers s)) HR now (ins s) (reader s) (w s) (v_list _ _ _ _ HI) (v_nodup _ _ _ _ HI))
    as [E|(r' & ins' & w' & E & _)];
    [intros q; pose proof (inv_room s ps q HI); lia|apply (v_store _ _ _ _ HI)|apply (v_reader _ _ _ _ HI)|congruence|eauto].
Qed.

(** A session at rest can enter [indexnodes_get], once it has the lock. *)
Lemma getting_moves s ps now :
  inv n c s ps -> reader s = Resting ->
  exists r' ins' w', consumer_step now timeout (ins s) Getting (w s) = Ret (r', ins', w').
Proof.
  intros HI Hr. pose proof (v_list _ _ _ _ HI) as Hl. pose proof (v_store _ _ _ _ HI) as HA.
  pose proof (fun q => inv_room s ps q HI) as Hq. rewrite Hr in Hl, HA, Hq. cbn [current_list reader_refs] in Hl, HA, Hq.
  destruct (getting_ok timeout ps (others c (writers s)) (all strings (writers s)) (all made (writers s))) with (now := now) (ins := ins s) (w := w s)
    as (r' & ins' & w' & E & _); [|done|apply (v_nodup _ _ _ _ HI)| |done|eauto].
  - intros q. pose proof (others_bounds (writers s) q (v_length _ _ _ _ HI)). lia.
  - intros q. specialize (Hq q). lia.
Qed.

Lemma inv_safe s ps : inv n c s ps -> ~ goes_wrong timeout s.
Proof.
  intros HI [(i & k & now & Hi & Hb)|(now & Hb)].
  - destruct (writer_waits k) eqn:E; [destruct k; try done; by destruct Hb|].
    destruct (writer_moves s ps i k now HI Hi E) as (k' & w' & E'). rewrite E' in Hb. by destruct Hb.
  - destruct (reader_waits (reader s)) eqn:E; [destruct (reader s); try done; by destruct Hb|].
    destruct (reader_moves s ps now HI E) as (r' & ins' & w' & E'). rewrite E' in Hb. by destruct Hb.
Qed.

(** Some thread is in the code. *)
Definition busy (s : shared) : Prop :=
  reader s <> Resting \/ exists i k, writers s !! i = Some k /\ k <> Quiet.

Lemma writer_goes s ps i k :
  inv n c s ps -> writers s !! i = Some k -> writer_waits k = false -> exists s', step timeout s s'.
Proof.
  intros HI Hi Hk. destruct (writer_moves s ps i k 0%Z HI Hi Hk) as (k' & w' & E).
  destruct s as [m ins w r ks]. eexists. by eapply writer_step.
Qed.

Lemma reader_goes s ps : inv n c s ps -> reader_waits (reader s) = false -> exists s', step timeout s s'.
Proof.
  intros HI Hk. destruct (reader_moves s ps (fun _ => 0%Z) HI Hk) as (r' & ins' & w' & E).
  destruct s as [m ins w r ks]. eexists. by eapply reader_step.
Qed.

(** Whoever holds the lock is not kept from leaving. *)
Lemma holder_goes s ps h :
  inv n c s ps -> holding (threads (reader s) (writers s) h) -> exists s', step timeout s s'.
Proof.
  intros HI Hh. unfold threads in Hh. destruct (h =? consumer_tid)%Z.
  - destruct (reader_waits (reader s)) eqn:E; [|by eapply reader_goes].
    destruct s as [m ins w [| | |l|l items|rounds l items iter|rounds l items p iter|l rest] ks]; cbn in *;
      try done; try (by destruct Hh).
    eexists. by eapply reader_lock_step.
  - destruct (2 <=? h)%Z; [|by destruct Hh]. destruct (writers s !! _) as [k|] eqn:Hi; [|by destruct Hh].
    destruct (writer_waits k) eqn:E; [|by eapply writer_goes].
    destruct s as [m ins w r ks]. destruct k as [|a|a ver|a ver l rest|a p|a p|a|p|p|p|]; cbn in *; try done; try (by destruct Hh).
    eexists. by eapply writer_lock_step.
Qed.

Lemma progress s ps : inv n c s ps -> busy s -> exists s', step timeout s s'.
Proof.
  intros HI Hb. destruct (v_lock _ _ _ _ HI) as (_ & _ & Hl). cbn [lock thread] in Hl.
  assert (lk s = rw_lock_new \/ exists s', step timeout s s') as [Hm|] ; [|clear Hl|done].
  { destruct Hl as [[-> _]|(h & Hh & _)]; [by left|right]. by eapply holder_goes. }
  destruct Hb as [Hr|(i & k & Hi & Hk)].
  - destruct (reader_waits (reader s)) eqn:E; [|by eapply reader_goes].
    destruct s as [m ins w [| | |l|l items|rounds l items iter|rounds l items p iter|l rest] ks]; cbn in *; try done; subst m;
      eexists; by eapply reader_lock_step.
  - destruct (writer_waits k) eqn:E; [|by eapply writer_goes].
    destruct s as [m ins w r ks]; cbn in *; subst m; destruct k as [|a|a ver|a ver l rest|a p|a p|a|p|p|p|]; try done;
      eexists; by eapply writer_lock_step.
Qed.

Lemma reachable_inv s s' ps : inv n c s ps -> rtc (apart_step timeout) s s' -> exists ps', inv n c s' ps'.
Proof. intros HI Hr. revert ps HI. induction Hr; intros ps HI; [eauto|]. destruct (step_inv _ _ _ HI H); eauto. Qed.

End Invariant.

(** ** Where it starts *)

(** A collection with the items [ps], whose consumers hold [c] besides. *)
Definition collection (c : nat -> Z) (ins : indexnodes) (w : world) (ps : list nat) : Prop :=
  lists w !! list_ ins = Some (Some ps) /\ NoDup ps /\ accounted (st w) (fun q => each ps q + c q)%Z [].

Definition start (ins : indexnodes) (w : world) (n : nat) : shared :=
  Shared rw_lock_new ins w Resting (replicate n Quiet).

Lemma all_quiet f n : f Quiet = [] -> all f (replicate n Quiet) = [].
Proof. intros H. unfold all. induction n as [|n IH]; [done|]. cbn in *. by rewrite H, IH. Qed.

Lemma start_inv n c ins w ps : collection c ins w ps -> inv n c (start ins w n) ps.
Proof.
  intros (Hl & HN & HA). split; cbn [start lk Interleaving.ins Interleaving.w reader writers current_list reader_refs].
  - eapply one_holder_ext; [|apply one_holder_start]. intros t. unfold threads. cbn.
    destruct (t =? consumer_tid)%Z; [done|]. destruct (2 <=? t)%Z; [|done].
    destruct (replicate n Quiet !! _) as [k|] eqn:E; [|done]. by apply lookup_replicate in E as [-> _].
  - rewrite (all_quiet strings) by done. eapply accounted_ext; [exact HA| |done]. intros q.
    unfold counts, others. rewrite (all_quiet refs) by done. change (each [] q) with 0%Z. lia.
  - done.
  - by rewrite (all_quiet made), app_nil_r.
  - done.
  - intros i k Hk. by apply lookup_replicate in Hk as [-> _].
  - by intros [? _].
  - apply length_replicate.
Qed.

(** ** Properties *)

(** C26: a listener, alarms and a session of libfuse's, in any interleaving of
    their accesses to the collection in which no search of the list overlaps an
    [indexnodes_get]: no access is undefined and no assertion fails; each
    indexnode has exactly the references of the list, of the threads and of
    other consumers, and is freed with the last; while a thread is in the code,
    one can go on, so the lock does not deadlock; and when all threads have
    left it, a collection is left, with nothing but copies of versions lost. *)
Theorem interleaved_collection_is_safe (timeout : Z) (n : nat) (c : nat -> Z) (ins0 : indexnodes) (w0 : world)
    (ps0 : list nat) (s : shared)
    (Hroom : forall q, (0 <= c q /\ c q + Z.of_nat n + 8 < 2 ^ 32)%Z)
    (H0 : collection c ins0 w0 ps0) (Hrun : rtc (apart_step timeout) (start ins0 w0 n) s) :
  ~ goes_wrong timeout s /\
  (exists ps, lists (w s) !! current_list (reader s) (ins s) = Some (Some ps) /\
    NoDup (ps ++ all made (writers s)) /\
    accounted (st (w s)) (fun q => each ps q + each (reader_refs (reader s)) q + each (all refs (writers s)) q + c q)%Z
      (all strings (writers s)) /\
    (~ busy s -> collection c (ins s) (w s) ps)) /\
  (busy s -> exists s', step timeout s s').
Proof.
  destruct (reachable_inv timeout n c Hroom _ _ _ (start_inv n c _ _ _ H0) Hrun) as [ps HI].
  split; [by eapply inv_safe|]. split; [|by eapply progress].
  exists ps. split; [apply (v_list _ _ _ _ HI)|]. split; [apply (v_nodup _ _ _ _ HI)|]. split.
  - eapply accounted_ext; [exact (v_store _ _ _ _ HI)| |done]. intros q. unfold counts, others. lia.
  - intros Hb. assert (reader s = Resting /\ writers s = replicate n Quiet) as [Er Ew].
    { split; [destruct (reader s) eqn:E; try done; exfalso; apply Hb; left; by rewrite E|].
      rewrite <- (v_length _ _ _ _ HI). symmetry. apply replicate_as_Forall_2; [done|]. apply Forall_forall. intros k Hk.
      apply list_elem_of_lookup in Hk as [i Hi]. destruct k; try done; exfalso; apply Hb; right; eauto. }
    pose proof (v_nodup _ _ _ _ HI) as HN. pose proof (v_store _ _ _ _ HI) as HA. pose proof (v_list _ _ _ _ HI) as Hl.
    rewrite Er, Ew in *. rewrite (all_quiet made), app_nil_r in HN by done. split; [done|]. split; [done|].
    rewrite (all_quiet strings) in HA by done. eapply accounted_ext; [exact HA| |done]. intros q.
    unfold counts, others. rewrite (all_quiet refs) by done. cbn [reader_refs]. change (each [] q) with 0%Z. lia.
Qed.

(** ** Schedules that can be run *)

(** Whose turn it is; a hearing brings its texts, a step the time. *)
Inductive turn :=
| Hear (i : nat) (host port fs2protocol id : cstr)
| Write (i : nat) (now : Z)
| WriteLock (i : nat)
| Read (now : Z)
| ReadLock.

Definition play1 (timeout : Z) (x : turn) (s : shared) : option shared :=
  match x with
  | Hear i host port fs2protocol id =>
      match writers s !! i with
      | Some Quiet =>
          let '(a, s') := call_strings host port fs2protocol id (st (w s)) in
          Some (Shared (lk s) (ins s) (World (lists (w s)) s') (reader s) (<[i := Heard a]> (writers s)))
      | _ => None
      end
  | Write i now =>
      k ← writers s !! i;
      match announcer_step now (ins s) k (w s) with
      | Ret (k', w') => Some (Shared (lk s) (ins s) w' (reader s) (<[i := k']> (writers s)))
      | _ => None
      end
  | WriteLock i =>
      k ← writers s !! i;
      '(k', m') ← announcer_lock (writer_tid i) k (lk s);
      Some (Shared m' (ins s) (w s) (reader s) (<[i := k']> (writers s)))
  | Read now =>
      match consumer_step (fun _ => now) timeout (ins s) (reader s) (w s) with
      | Ret (r', ins', w') => Some (Shared (lk s) ins' w' r' (writers s))
      | _ => None
      end
  | ReadLock =>
      '(r', m') ← consumer_lock consumer_tid (reader s) (lk s);
      Some (Shared m' (ins s) (w s) r' (writers s))
  end.

Definition fair (x : turn) : Prop :=
  match x with Hear _ host port fs2protocol id => announced host port fs2protocol id | _ => True end.

Lemma play1_step timeout x s s' : fair x -> play1 timeout x s = Some s' -> step timeout s s'.
Proof.
  destruct s as [m ins w r ks]. destruct x as [i host port prot id|i now|i|now|]; cbn [play1 lk Interleaving.ins Interleaving.w reader writers fair]; intros Hf.
  - destruct (ks !! i) as [[]|] eqn:Hi; try done. destruct (call_strings _ _ _ _ _) as [a s1] eqn:E. intros [= <-].
    by eapply hear_step.
  - destruct (ks !! i) as [k|] eqn:Hi; [|done]. cbn. destruct (announcer_step now ins k w) as [[k' w']| | |] eqn:E; try done.
    intros [= <-]. by eapply writer_step.
  - destruct (ks !! i) as [k|] eqn:Hi; [|done]. cbn. destruct (announcer_lock _ k m) as [[k' m']|] eqn:E; [|done].
    intros [= <-]. by eapply writer_lock_step.
  - destruct (consumer_step _ timeout ins r w) as [[[r' ins'] w']| | |] eqn:E; try done. intros [= <-]. by eapply reader_step.
  - destruct (consumer_lock consumer_tid r m) as [[r' m']|] eqn:E; [|done]. intros [= <-]. by eapply reader_lock_step.
Qed.

Definition overlapb (s : shared) : bool := in_get (reader s) && existsb searching (writers s).
Lemma overlapb_overlap s : overlap s -> overlapb s = true.
Proof.
  intros (Hg & i & k & Hi & Hk). unfold overlapb. rewrite Hg. apply existsb_exists. exists k.
  split; [|done]. apply list_elem_of_In. by eapply list_elem_of_lookup_2.
Qed.

(** [None] where a turn is not possible, or with [apart] would overlap. *)
Fixpoint play (apart : bool) (timeout : Z) (xs : list turn) (s : shared) : option shared :=
  match xs with
  | [] => Some s
  | x :: xs => s ← play1 timeout x s; if apart && overlapb s then None else play apart timeout xs s
  end.

Lemma play_run timeout xs s s' : Forall fair xs -> play false timeout xs s = Some s' -> rtc (step timeout) s s'.
Proof.
  intros HF. revert s. induction HF as [|x xs Hx HF IH]; intros s; cbn [play]; [intros [= <-]; apply rtc_refl|].
  destruct (play1 timeout x s) as [s1|] eqn:E; [|done]. cbn. intros E'. eapply rtc_l; [by eapply play1_step|]. by apply IH.
Qed.

Lemma play_apart timeout xs s s' : Forall fair xs -> play true timeout xs s = Some s' -> rtc (apart_step timeout) s s'.
Proof.
  intros HF. revert s. induction HF as [|x xs Hx HF IH]; intros s; cbn [play]; [intros [= <-]; apply rtc_refl|].
  destruct (play1 timeout x s) as [s1|] eqn:E; [|done]. cbn. destruct (overlapb s1) eqn:Eo; [done|]. intros E'.
  eapply rtc_l; [|by apply IH]. split; [by eapply play1_step|]. intros Ho%overlapb_overlap. congruence.
Qed.

(** An indexnode whose advert comes from 10.0.0.2. *)
Definition hears (i : nat) (id : cstr) : turn := Hear i (cs "10.0.0.2") (cs "42000") (cs "fs2protocol-0.13") id.
Lemma hears_fair i (name : ascii) : fair (hears i [name]).
Proof.
  split; [discriminate..|]. exists [cs "0"; cs "13"]. split_and!; [|discriminate|reflexivity].
  constructor; [|constructor; [|constructor]]; split_and!; vm_compute; done.
Qed.

(** The collection of [demo_world]; something else holds "a" too. *)
Definition demo_held (q : nat) : Z := if decide (q = 0) then 1%Z else 0%Z.
Lemma demo_collection : collection demo_held (Indexnodes 0) demo_world [0; 1].
Proof.
  split; [done|]. split; [apply (bool_decide_unpack _); vm_compute; exact I|].
  split; [apply (ok_owned _ _ _ demo_ins_ok)| |constructor|by intros b Hb%elem_of_nil|by intros q r v b _ _ Hb%elem_of_nil].
  intros q. destruct (nodes (st demo_world) !! q) as [[r v]|] eqn:E.
  - destruct (demo_lookup q r v E) as [(-> & -> & _)|(-> & -> & _)]; vm_compute; done.
  - destruct q as [|[|q]]; [by vm_compute in E..|]. unfold demo_held, each. by rewrite decide_False.
Qed.

Ltac all_fair := repeat (apply Forall_cons; split; [first [apply hears_fair|exact I]|]); apply Forall_nil_2.

Lemma getting_expired now timeout ins0 w0 r' ins' w' :
  consumer_step now timeout ins0 Getting w0 = Ret (r', ins', w') -> exists l, r' = Expired l /\ ins0 = ins'.
Proof. cbn [consumer_step]. intros H. apply bind_ret_inv in H as ([l w1] & _ & H). injection H as <- <- _. eauto. Qed.

(** [indexnodes_get] frees the list it takes. *)
Lemma getting_frees now timeout ins0 w0 r' ins' w' :
  consumer_step now timeout ins0 Getting w0 = Ret (r', ins', w') ->
  lists w' !! list_ ins0 = Some None /\ items_of (list_ ins0) w' = Undef.
Proof.
  cbn [consumer_step]. intros H. apply bind_ret_inv in H as ([l w1] & E & H). injection H as _ _ <-.
  assert (lists w1 !! list_ ins0 = Some None) as Hl by by eapply remove_expired_frees.
  split; [done|]. unfold items_of. by rewrite Hl.
Qed.

(** A thread searches the list "a" and "b" are in. *)
Definition search_begins : list turn := [hears 0 (cs "b"); Write 0 3602; Write 0 3602].

(** C39: the search of [new_indexnode_event] does not take the lock. After any
    run in which no search overlapped a get: when a thread is in the list's
    search with items still ahead, the lock is free and the session is at rest,
    the session can take the lock and enter [indexnodes_get], which frees the
    very list that the thread walks; the thread's next access, at any time, is
    then to an item of a freed list. *)
Theorem search_races_get (timeout : Z) (n : nat) (c : nat -> Z) (ins0 : indexnodes) (w0 : world)
    (ps0 : list nat) (s : shared) (i : nat) (a : advert) (version : str) (l item : nat) (rest : list nat)
    (Hroom : forall q, (0 <= c q /\ c q + Z.of_nat n + 8 < 2 ^ 32)%Z)
    (H0 : collection c ins0 w0 ps0) (Hrun : rtc (apart_step timeout) (start ins0 w0 n) s)
    (Hi : writers s !! i = Some (Walk a version l (item :: rest)))
    (Hrest : reader s = Resting) (Hfree : lk s = rw_lock_new) :
  lists (w s) !! l <> None /\ lists (w s) !! l <> Some None /\
  exists s', rtc (step timeout) s s' /\
    writers s' !! i = Some (Walk a version l (item :: rest)) /\
    lists (w s') !! l = Some None /\
    forall now, announcer_step now (ins s') (Walk a version l (item :: rest)) (w s') = Undef.
Proof.
  destruct (reachable_inv timeout n c Hroom _ _ _ (start_inv n c _ _ _ H0) Hrun) as [ps HI].
  destruct (v_writers _ _ _ _ HI i _ Hi) as (_ & _ & -> & _). pose proof (v_list _ _ _ _ HI) as Hl.
  rewrite Hrest in Hl |- *. cbn [current_list] in Hl |- *. rewrite Hl. split; [done|]. split; [done|].
  destruct (getting_moves timeout n c Hroom s ps (fun _ => 0%Z) HI Hrest) as (r' & ins' & w' & E).
  pose proof (getting_frees _ _ _ _ _ _ _ E) as [Hf Hu]. pose proof E as (l' & _ & <-)%getting_expired.
  destruct s as [m ins1 w1 r ks]. cbn [lk Interleaving.ins Interleaving.w reader writers] in *. subst r m.
  destruct (rw_lock_rlock consumer_tid rw_lock_new) as [m|] eqn:Em; [|done].
  exists (Shared m ins1 w' r' ks). split; [|split; [done|split; [done|]]].
  - eapply (rtc_l _ _ (Shared rw_lock_new ins1 w1 Wanting ks)); [by apply reader_lock_step|].
    eapply (rtc_l _ _ (Shared m ins1 w1 Getting ks)); [apply reader_lock_step; cbn [consumer_lock]; by rewrite Em|].
    eapply rtc_l; [eapply reader_step; exact E|apply rtc_refl].
  - intros now. cbn [announcer_step Interleaving.ins Interleaving.w]. by rewrite Hu.
Qed.

Lemma search_races_get_witness :
  exists s a version, play true 5 search_begins (start (Indexnodes 0) demo_world 1) = Some s /\
    exists s', rtc (step 5) s s' /\ writers s' !! 0 = Some (Walk a version 0 [0; 1]) /\
      lists (w s') !! 0 = Some None /\
      forall now, announcer_step now (ins s') (Walk a version 0 [0; 1]) (w s') = Undef.
Proof.
  destruct (play true 5 search_begins (start (Indexnodes 0) demo_world 1)) as [s|] eqn:E; [|by vm_compute in E].
  assert (rtc (apart_step 5) (start (Indexnodes 0) demo_world 1) s) as Hr by (eapply play_apart; [|exact E]; all_fair).
  vm_compute in E. injection E as <-. eexists _, _, _. split; [reflexivity|].
  eapply (search_races_get 5 1 demo_held (Indexnodes 0) demo_world [0; 1] _ 0).
  - intros q. unfold demo_held. case_decide; lia.
  - apply demo_collection.
  - exact Hr.
  - reflexivity.
  - reflexivity.
  - reflexivity.
Defined.

(** Two threads hear of "c", both find it is not there, and both add it. *)
Definition both_add : list turn :=
  [hears 0 (cs "c"); hears 1 (cs "c")] ++ concat (replicate 5 [Write 0 3602; Write 1 3602]) ++
  [WriteLock 0; WriteLock 0; Write 0 3602; WriteLock 1; WriteLock 0; WriteLock 1; Write 1 3602; WriteLock 1].

(** Nor is the search one step with the addition: two threads that hear of
    one indexnode at once, without any overlap, leave it in the list twice. *)
Theorem simultaneous_adverts_duplicate :
  exists s p q i, rtc (apart_step 5) (start (Indexnodes 0) demo_world 2) s /\ ~ busy s /\
    items_of (list_ (ins s)) (w s) = Ret [p; q; 0; 1] /\ p <> q /\
    id_of (st (w s)) p = i /\ id_of (st (w s)) q = i.
Proof.
  destruct (play true 5 both_add (start (Indexnodes 0) demo_world 2)) as [s|] eqn:E; [|by vm_compute in E].
  assert (rtc (apart_step 5) (start (Indexnodes 0) demo_world 2) s) as Hr by (eapply play_apart; [|exact E]; all_fair).
  vm_compute in E. injection E as <-. eexists _, 3, 2, (cs "c"). split; [exact Hr|]. split_and!; try (vm_compute; done).
  intros [?|(i & k & Hk & Hq)]; [done|]. by destruct i as [|[|i]]; [injection Hk as <-..|].
Qed.

(** A session's statfs while "c" is heard of: the thread waits for the lock
    while the list is taken, and adds while the session loops. *)
Definition statfs_and_advert : list turn :=
  [hears 0 (cs "c"); ReadLock] ++ replicate 5 (Write 0 3602) ++
  [ReadLock; WriteLock 0; Read 3602; Read 3602; ReadLock; WriteLock 0; Read 3602; Read 3602; Write 0 3602;
   Read 3602; WriteLock 0] ++ replicate 6 (Read 3602).

Lemma interleaved_collection_is_safe_witness :
  exists s, play true 5 statfs_and_advert (start (Indexnodes 0) demo_world 1) = Some s /\
    ~ goes_wrong 5 s /\ exists p, collection demo_held (ins s) (w s) [p; 0].
Proof.
  destruct (play true 5 statfs_and_advert (start (Indexnodes 0) demo_world 1)) as [s|] eqn:E; [|by vm_compute in E].
  exists s. split; [done|].
  destruct (interleaved_collection_is_safe 5 1 demo_held (Indexnodes 0) demo_world [0; 1] s) as (Hsafe & (ps & Hl & _ & _ & Hq) & _).
  - intros q. unfold demo_held. case_decide; lia.
  - apply demo_collection.
  - eapply play_apart; [|exact E]. all_fair.
  - split; [exact Hsafe|]. vm_compute in E. injection E as <-. vm_compute in Hl. injection Hl as <-.
    eexists. apply Hq. intros [?|(i & k & Hk & Hne)]; [done|]. destruct i as [|i]; [by injection Hk as <-|done].
Defined.
