(* ===== verification/Statics.v ===== *)
(** * indexnodes_statics_manager.c, linked_list.h: the configured indexnodes

    Each configured host and port gets an alarm that asks the indexnode for its
    details at intervals; the manager keeps the alarms in a linked list made of
    the macros of linked_list.h, and deletes them with it. *)
From S2P Require Import Prelude CLib Fetcher Indexnode Alarm.

(** ** linked_list.h: the macros *)

Module LinkedList.

Record entry (D : Type) := Entry { data : D; next : option nat }.
Arguments Entry {D} _ _.
Arguments data {D} _.
Arguments next {D} _.

Definition LINKED_LIST_INIT : option nat := None.

Definition LINKED_LIST_ADD {D} (head : option nat) (d : D) (h : gmap nat (entry D))
  : option nat * gmap nat (entry D) :=
  let temp := head in
  let p := fresh (dom h) in
  (Some p, <[p := Entry d temp]> h).

(** The statement [body] for each item. *)
Fixpoint LINKED_LIST_FOREACH {D S} (fuel : nat) (item : option nat) (body : D -> S -> outcome S)
    (h : gmap nat (entry D)) (s : S) : outcome S :=
  match item, fuel with
  | None, _ => Ret s
  | Some _, 0 => Blocked
  | Some p, S fuel =>
      e ← deref (h !! p);
      s ← body (data e) s;
      LINKED_LIST_FOREACH fuel (next e) body h s
  end.

(** [item_delete_fn] works on other memory. *)
Fixpoint LINKED_LIST_DELETE {D S} (fuel : nat) (item : option nat) (item_delete_fn : D -> S -> outcome S)
    (h : gmap nat (entry D)) (s : S) : outcome (gmap nat (entry D) * S) :=
  match item, fuel with
  | None, _ => Ret (h, s)
  | Some _, 0 => Blocked
  | Some p, S fuel =>
      e ← deref (h !! p);
      let next := next e in
      s ← item_delete_fn (data e) s;
      LINKED_LIST_DELETE fuel next item_delete_fn (base.delete p h) s
  end.

(** [h] holds a list with these entries at these addresses. *)
Fixpoint is_list {D} (head : option nat) (l : list (nat * D)) (h : gmap nat (entry D)) : Prop :=
  match l with
  | [] => head = None
  | (p, d) :: l => head = Some p /\ exists nx, h !! p = Some (Entry d nx) /\ is_list nx l h
  end.

Lemma is_list_frame {D} head l (h h' : gmap nat (entry D)) :
  (forall p, p ∈ l.*1 -> h' !! p = h !! p) -> is_list head l h -> is_list head l h'.
Proof.
  revert head. induction l as [|[p d] l IH]; intros head Hf; [done|].
  intros [-> (nx & Hp & Hl)]. split; [done|]. exists nx. split.
  - rewrite Hf; [done|]. apply list_elem_of_here.
  - apply IH; [|done]. intros q Hq. apply Hf. by apply list_elem_of_further.
Qed.

Lemma is_list_alloc {D} head l (h : gmap nat (entry D)) p : is_list head l h -> p ∈ l.*1 -> is_Some (h !! p).
Proof.
  revert head. induction l as [|[q d] l IH]; intros head; [by intros _ ?%elem_of_nil|].
  intros [-> (nx & Hq & Hl)] [-> |Hp]%elem_of_cons; [by eexists|by eapply IH].
Qed.

Lemma linked_add_ok {D} head l (d : D) h :
  is_list head l h ->
  exists p, h !! p = None /\
    LINKED_LIST_ADD head d h = (Some p, <[p := Entry d head]> h) /\
    is_list (Some p) ((p, d) :: l) (<[p := Entry d head]> h).
Proof.
  intros Hl. exists (fresh (dom h)). assert (h !! fresh (dom h) = None) as Hn
    by (apply not_elem_of_dom, is_fresh).
  split_and!; [done..|]. split; [done|]. exists head. split; [by rewrite lookup_insert_eq|].
  eapply is_list_frame; [|done]. intros p Hp. rewrite lookup_insert_ne; [done|]. intros <-.
  destruct (is_list_alloc _ _ _ _ Hl Hp) as [e He]. congruence.
Qed.

(** The calls for the items of a list. *)
Fixpoint each {D S} (f : D -> S -> outcome S) (l : list D) (s : S) : outcome S :=
  match l with [] => Ret s | d :: l => s ← f d s; each f l s end.

Lemma linked_foreach_ok {D S} fuel head l (h : gmap nat (entry D)) (f : D -> S -> outcome S) s :
  is_list head l h -> length l <= fuel -> LINKED_LIST_FOREACH fuel head f h s = each f l.*2 s.
Proof.
  revert fuel head s. induction l as [|[p d] l IH]; intros fuel head s.
  - cbn. intros -> _. by destruct fuel.
  - intros [-> (nx & Hp & Hl)]. cbn [length]. destruct fuel as [|fuel]; [lia|]. intros Hf.
    cbn [LINKED_LIST_FOREACH fmap list_fmap each snd]. rewrite Hp. cbn [deref]. rewrite bind_ret_l.
    cbn [data next]. destruct (f d s); [|done..]. rewrite !bind_ret_l. apply IH; [done|lia].
Qed.

(** Deleting a list calls the function on each item in order and frees exactly
    the list's entries. *)
Lemma linked_delete_ok {D S} fuel head l (h : gmap nat (entry D)) (f : D -> S -> outcome S) s :
  is_list head l h -> NoDup l.*1 -> length l <= fuel ->
  LINKED_LIST_DELETE fuel head f h s = (s ← each f l.*2 s; Ret (foldr base.delete h (reverse l.*1), s)).
Proof.
  revert fuel head h s. induction l as [|[p d] l IH]; intros fuel head h s.
  - cbn. intros -> _ _. by destruct fuel.
  - intros [-> (nx & Hp & Hl)]. cbn [fmap list_fmap]. intros [Hn HN]%NoDup_cons. cbn [length].
    destruct fuel as [|fuel]; [lia|]. intros Hf. cbn [LINKED_LIST_DELETE each snd fst].
    rewrite Hp. cbn [deref]. rewrite bind_ret_l. cbn [data next].
    destruct (f d s) as [s'| | |]; [|done..]. rewrite !bind_ret_l, reverse_cons, foldr_app. apply IH; [|done|lia].
    cbn [foldr]. eapply is_list_frame; [|done]. intros q Hq. rewrite lookup_delete_ne; [done|]. by intros ->.
Qed.

End LinkedList.
Import LinkedList.

(** ** indexnodes_statics_manager.c *)

(** The manager's [alarms]; its callback is an argument. *)
Record indexnodes_statics_manager := Manager { mgr_alarms : option nat }.

(** The list's entries, the alarms, each with the indexnode it asks, and the
    allocated strings. The pairs of manager and indexnode that the alarms point
    to are never freed, like the indexnodes in them. *)
Record memory := Memory {
  entries : gmap nat (entry nat);
  am : alarm_mem proto_indexnode;
  strings : gset nat
}.

Section Manager.
Context `{Curl}.
(** As in [Indexnode]. *)
Variable config_alias : cstr.
Variable fetcher_escape_for_http : cstr -> cstr.
Variable web : fetcher -> transfer.

(** [cb] is the manager's. *)
Definition ping_indexnode {S} (cb : cstr -> cstr -> cstr -> cstr -> S -> outcome S)
    (p : proto_indexnode) (s : S) : outcome S :=
  '(ok, protocol, id) ← proto_indexnode_get_info config_alias fetcher_escape_for_http web p;
  if ok : bool then
    protocol ← deref protocol;
    id ← deref id;
    cb (proto_indexnode_host p) (proto_indexnode_port p) protocol id s
  else Ret s.

(** The loop over the configured hosts and ports, which ends with the shorter
    list; [pipes] are the results of [pipe] and [pthread_create] for each
    alarm, which asks twice in the lifetime of an indexnode. *)
Fixpoint load_indexnodes_from_config (config_indexnode_timeout : Z) (hosts ports : list cstr)
    (pipes : list (option (Z * Z) * Z)) (head : option nat) (m : memory) : outcome (option nat * memory) :=
  match hosts, ports with
  | host :: hosts, port :: ports =>
      let '(host, l) := str_new host (strings m) in
      let '(port, l) := str_new port l in
      pin ← proto_indexnode_init host port;
      match pipes with
      | (fds, rc) :: pipes =>
          '(alarm, am) ← alarm_new fds rc (Z.quot config_indexnode_timeout 2) pin (am m);
          let '(head, es) := LINKED_LIST_ADD head alarm (entries m) in
          load_indexnodes_from_config config_indexnode_timeout hosts ports pipes head (Memory es am l)
      | [] => Blocked
      end
  | _, _ => Ret (head, m)
  end.

Definition indexnodes_statics_manager_new (config_indexnode_timeout : Z) (hosts ports : list cstr)
    (pipes : list (option (Z * Z) * Z)) (m : memory) : outcome (indexnodes_statics_manager * memory) :=
  '(head, m) ← load_indexnodes_from_config config_indexnode_timeout hosts ports pipes LINKED_LIST_INIT m;
  Ret (Manager head, m).

(** [schedules]: for each alarm in turn the result of [write] and the turns of
    the threads until the alarm's has ended. *)
Definition delete_item {S} (cb : cstr -> cstr -> cstr -> cstr -> S -> outcome S) (alarm : nat)
    (x : list (Z * list (nat * select_result)) * alarm_mem proto_indexnode * S)
  : outcome (list (Z * list (nat * select_result)) * alarm_mem proto_indexnode * S) :=
  let '(schedules, am, s) := x in
  match schedules with
  | (rc, turns) :: schedules =>
      '(s, am) ← alarm_delete (ping_indexnode cb) rc turns alarm am s;
      Ret (schedules, am, s)
  | [] => Blocked
  end.

Definition indexnodes_statics_manager_delete {S} (cb : cstr -> cstr -> cstr -> cstr -> S -> outcome S)
    (mgr : indexnodes_statics_manager) (schedules : list (Z * list (nat * select_result)))
    (m : memory) (s : S) : outcome (memory * S) :=
  '(es, x) ← LINKED_LIST_DELETE (size (entries m)) (mgr_alarms mgr) (delete_item cb) (entries m)
              (schedules, am m, s);
  let '(_, am, s) := x in
  Ret (Memory es am (strings m), s).

End Manager.

(** ** Facts *)

(** [m] is what [m0] became by adding alarms, the newest first, each at an
    entry [q]; [head] is the list. *)
Inductive grown (e0 : gmap nat (entry nat)) (a0 : alarm_mem proto_indexnode)
  : option nat -> list (nat * nat) -> gmap nat (entry nat) -> alarm_mem proto_indexnode -> Prop :=
| grown_nil : grown e0 a0 None [] e0 a0
| grown_cons head l es am q p a :
    grown e0 a0 head l es am -> es !! q = None -> alarms am !! p = None -> p ∉ threads am ->
    pipe_read a ∉ open am -> pipe_write a ∉ open am ->
    grown e0 a0 (Some q) ((q, p) :: l) (<[q := Entry p head]> es)
      (AlarmMem (<[p := a]> (alarms am)) ({[ p ]} ∪ threads am) ({[ pipe_read a; pipe_write a ]} ∪ open am)).

Section Grown.
Context {e0 : gmap nat (entry nat)} {a0 : alarm_mem proto_indexnode}.

Lemma grown_fresh head l es am :
  grown e0 a0 head l es am -> forall q, q ∈ l.*1 -> is_Some (es !! q).
Proof.
  intros HG. induction HG as [|head l es am q p a HG IH Hq]; [by intros q ?%elem_of_nil|].
  intros q' [-> |Hin]%elem_of_cons; cbn [fst]; [by rewrite lookup_insert_eq|].
  destruct (decide (q = q')) as [-> |Hne]; [by rewrite lookup_insert_eq|].
  rewrite lookup_insert_ne by done. by apply IH.
Qed.

Lemma grown_list head l es am :
  grown e0 a0 head l es am ->
  is_list head l es /\ NoDup l.*1 /\ foldr base.delete es (reverse l.*1) = e0 /\ length l <= size es.
Proof.
  intros HG. induction HG as [|head l es am q p a HG (Hl & HN & He & Hs) Hq]; [split_and!; try done; [constructor|cbn; lia]|].
  assert (q ∉ l.*1) as Hnq by (intros Hin; destruct (grown_fresh _ _ _ _ HG _ Hin); congruence).
  split_and!.
  - split; [done|]. exists head. split; [by rewrite lookup_insert_eq|]. eapply is_list_frame; [|done].
    intros q' Hq'. rewrite lookup_insert_ne; [done|]. by intros ->.
  - cbn. by constructor.
  - cbn [fmap list_fmap fst]. rewrite reverse_cons, foldr_app. cbn [foldr]. by rewrite delete_insert_id.
  - rewrite map_size_insert_None by done. cbn [length]. lia.
Qed.

Lemma grown_threads head l es am :
  threads a0 ⊆ dom (alarms a0) -> grown e0 a0 head l es am ->
  threads am ⊆ dom (alarms am) /\ list_to_set l.*2 ⊆ threads am.
Proof.
  intros H0 HG. induction HG as [|head l es am q p a HG [IH1 IH2]]; [split; [done|cbn; set_solver]|].
  cbn [alarms threads fmap list_fmap snd list_to_set]. rewrite dom_insert_L. set_solver.
Qed.

End Grown.

(** The turns of each deletion name only alarms that are still there. *)
Fixpoint in_time (ps : list nat) (turns : list (list (nat * select_result))) : Prop :=
  match ps, turns with
  | [], [] => True
  | p :: ps', t :: turns => quiet (list_to_set ps) t /\ in_time ps' turns
  | _, _ => False
  end.

Definition stop_each (ps : list nat) (turns : list (list (nat * select_result)))
  : list (Z * list (nat * select_result)) :=
  zip_with (fun p t => (sizeof_msg, t ++ [(p, stopped)])) ps turns.

Lemma calls_app {A S} (cb : A -> S -> outcome S) data t t' s :
  calls cb data (t ++ t') s = (s ← calls cb data t s; calls cb data t' s).
Proof.
  revert s. induction t as [|[p r] t IH]; intros s; [done|]. cbn [app calls].
  destruct (match data p with Some _ => _ | None => _ end); [apply IH|done..].
Qed.

Lemma calls_ext {A S} (cb : A -> S -> outcome S) data data' t s :
  Forall (fun t => data t.1 = data' t.1) t -> calls cb data t s = calls cb data' t s.
Proof.
  intros HF. revert s. induction HF as [|[p r] t Hp HF IH]; intros s; [done|]. cbn [calls].
  cbn [fst] in Hp. rewrite Hp. destruct (match data' p with Some _ => _ | None => _ end); [apply IH|done..].
Qed.

Lemma in_time_names ps turns : in_time ps turns -> Forall (fun t => t.1 ∈ ps) (concat turns).
Proof.
  revert turns. induction ps as [|p ps IH]; intros [|t turns]; try done. intros [Hq Ht]. cbn [concat].
  apply Forall_app. split.
  - eapply Forall_impl; [exact Hq|]. intros x [Hx _]. by apply elem_of_list_to_set in Hx.
  - eapply Forall_impl; [by apply IH|]. intros x Hx. by apply list_elem_of_further.
Qed.

Definition data_of (am : alarm_mem proto_indexnode) (p : nat) : option proto_indexnode :=
  cb_data <$> alarms am !! p.

Section Deletion.
Context `{Curl} (config_alias : cstr) (escape : cstr -> cstr) (web : fetcher -> transfer).
Context {S : Type} (cb : cstr -> cstr -> cstr -> cstr -> S -> outcome S).

Lemma delete_each e0 a0 head l es am :
  threads a0 ⊆ dom (alarms a0) -> grown e0 a0 head l es am -> forall turns rest s, in_time l.*2 turns ->
  each (delete_item config_alias escape web cb) l.*2 (stop_each l.*2 turns ++ rest, am, s) =
    (s ← calls (ping_indexnode config_alias escape web cb) (data_of am) (concat turns) s; Ret (rest, a0, s)).
Proof.
  intros H0 HG. induction HG as [|head l es am q p a HG IH Hq Ha Hp Hr Hw]; intros turns rest s; [by destruct turns|].
  destruct turns as [|t turns]; [done|]. intros [Hquiet Htime].
  destruct (grown_threads _ _ _ _ H0 HG) as [Hd Hl]. cbn [fmap list_fmap snd stop_each zip_with app each delete_item concat].
  set (am' := AlarmMem _ _ _). rewrite (alarm_delete_ok _ am' t p a).
  - rewrite calls_app. unfold data_of. destruct (calls _ _ t s) as [s'| | |]; [|done..]. rewrite !bind_ret_l.
    replace (AlarmMem _ _ _) with am.
    + unfold stop_each in IH. rewrite IH by done. f_equal. apply calls_ext. eapply Forall_impl; [by apply in_time_names|].
      intros [p' r] Hp'. cbn [fst] in *. unfold data_of, am'. cbn [alarms]. rewrite lookup_insert_ne; [done|].
      intros ->. apply Hp, Hl. by apply elem_of_list_to_set.
    + unfold am'. destruct am as [al th op]. cbn [alarms threads open] in *. f_equal; [by rewrite delete_insert_id|set_solver..].
  - unfold am'. cbn [alarms threads]. rewrite dom_insert_L. set_solver.
  - unfold am'. cbn [threads]. set_solver.
  - unfold am'. cbn [alarms]. by rewrite lookup_insert_eq.
  - eapply Forall_impl; [exact Hquiet|]. intros x [Hx Hwk]. split; [|done]. unfold am'. cbn [threads].
    cbn [list_to_set] in Hx. set_solver.
Qed.

Lemma manager_delete_ok e0 a0 head l m turns s :
  threads a0 ⊆ dom (alarms a0) -> grown e0 a0 head l (entries m) (am m) -> in_time l.*2 turns ->
  indexnodes_statics_manager_delete config_alias escape web cb (Manager head) (stop_each l.*2 turns) m s =
    (s ← calls (ping_indexnode config_alias escape web cb) (data_of (am m)) (concat turns) s;
     Ret (Memory e0 a0 (strings m), s)).
Proof.
  intros H0 HG Htime. destruct (grown_list _ _ _ _ HG) as (Hl & HN & He & Hs).
  unfold indexnodes_statics_manager_delete. cbn [mgr_alarms]. rewrite (linked_delete_ok _ head l) by done.
  rewrite <- (app_nil_r (stop_each _ _)), (delete_each e0 a0 head l (entries m)) by done.
  destruct (calls _ _ _ s); [|done..]. rewrite !bind_ret_l. by rewrite He.
Qed.

End Deletion.

(** ** Loading *)

(** The results of [pipe] and [pthread_create] where both succeed. *)
Definition piped (fds : list (Z * Z)) : list (option (Z * Z) * Z) := (fun x => (Some x, 0%Z)) <$> fds.

(** Descriptors that are new when they are given out. *)
Fixpoint new_fds (open : gset Z) (fds : list (Z * Z)) : Prop :=
  match fds with
  | [] => True
  | x :: fds => (x.1 ∉ open) /\ (x.2 ∉ open) /\ new_fds ({[ x.1; x.2 ]} ∪ open) fds
  end.

(** The descriptors in use once these are given out. *)
Definition opened (fds : list (Z * Z)) (o : gset Z) : gset Z :=
  foldl (fun o x => {[ x.1; x.2 ]} ∪ o) o fds.

Lemma new_fds_app o fds fds' : new_fds o (fds ++ fds') <-> new_fds o fds /\ new_fds (opened fds o) fds'.
Proof. revert o. induction fds as [|x fds IH]; intros o; cbn; [tauto|]. rewrite IH. tauto. Qed.

Lemma str_new_text s live : text (fst (str_new s live)) = s.
Proof. done. Qed.
Lemma str_new_size s live : size (snd (str_new s live)) = S (size live).
Proof.
  pose proof (str_new_fresh s live) as Hf. unfold str_new in *. cbn [fst snd addr] in *.
  rewrite size_union by set_solver. by rewrite size_singleton.
Qed.

(** What an alarm asks, as texts. *)
Definition asked (a : alarm proto_indexnode) : cstr * cstr :=
  (text (host (cb_data a)), text (port (cb_data a))).

Lemma load_ok timeout hosts ports fds : forall e0 a0 head l m,
  Forall (.≠ []) hosts -> Forall (.≠ []) ports ->
  threads a0 ⊆ dom (alarms a0) -> grown e0 a0 head l (entries m) (am m) ->
  length (zip hosts ports) <= length fds -> new_fds (open (am m)) fds ->
  exists head' l' m', load_indexnodes_from_config timeout hosts ports (piped fds) head m = Ret (head', m') /\
    grown e0 a0 head' (l' ++ l) (entries m') (am m') /\
    (fun p => asked <$> alarms (am m') !! p) <$> l'.*2 = Some <$> reverse (zip hosts ports) /\
    (forall p, p ∈ dom (alarms (am m)) -> alarms (am m') !! p = alarms (am m) !! p) /\
    size (strings m') = size (strings m) + 2 * length (zip hosts ports) /\
    open (am m') = opened (take (length (zip hosts ports)) fds) (open (am m)).
Proof.
  revert ports fds. induction hosts as [|h hosts IH]; intros [|p ports] fds e0 a0 head l m Hh Hp H0 HG Hfds Hnew;
    try (exists head, [], m; split_and!; try done; cbn; lia).
  destruct fds as [|fd fds]; [cbn in Hfds; lia|]. destruct Hnew as (Hr & Hw & Hnew).
  apply Forall_cons in Hh as [Hh Hhs]. apply Forall_cons in Hp as [Hp Hps].
  destruct (grown_threads _ _ _ _ H0 HG) as [Hd _].
  cbn [load_indexnodes_from_config piped fmap list_fmap].
  pose proof (str_new_fresh h (strings m)) as Hf1. pose proof (str_new_size h (strings m)) as Hs1.
  pose proof (str_new_text h (strings m)) as Ht1. destruct (str_new h (strings m)) as [hs l1].
  pose proof (str_new_size p l1) as Hs2. pose proof (str_new_text p l1) as Ht2.
  destruct (str_new p l1) as [ps l2]. cbn [fst snd] in *.
  assert (nonempty hs = true /\ nonempty ps = true) as [E1 E2]
    by (unfold nonempty; rewrite Ht1, Ht2; by destruct h, p).
  unfold proto_indexnode_init. rewrite E1, E2. cbn [c_assert]. rewrite !bind_ret_l.
  unfold alarm_new, LINKED_LIST_ADD. rewrite bind_ret_l. cbn [Z.eqb c_assert]. rewrite !bind_ret_l.
  set (pa := fresh (dom (alarms (am m)))). set (q := fresh (dom (entries m))).
  set (a := Alarm _ _ _ _). set (m1 := Memory _ _ _).
  assert (alarms (am m) !! pa = None) as Hpa by apply not_elem_of_dom, is_fresh.
  assert (entries m !! q = None) as Hq by apply not_elem_of_dom, is_fresh.
  assert (grown e0 a0 (Some q) ((q, pa) :: l) (entries m1) (am m1)) as HG1.
  { apply (grown_cons _ _ _ _ _ _ q pa a); try done. intros Hin. apply Hd, elem_of_dom in Hin as [? ?]. congruence. }
  destruct (IH ports fds e0 a0 (Some q) ((q, pa) :: l) m1 Hhs Hps H0 HG1) as (head' & l' & m' & E & HG' & Hasked & Hold & Hsize & Hopen);
    [cbn in Hfds |- *; lia|done|].
  exists head', (l' ++ [(q, pa)]), m'. split; [done|]. split; [by rewrite <- app_assoc|].
  split_and!; [..|by rewrite Hopen].
  - rewrite !fmap_app, Hasked. cbn [zip zip_with fmap list_fmap]. fold (zip hosts ports). rewrite reverse_cons, fmap_app.
    cbn [fmap list_fmap snd]. rewrite Hold by (cbn; rewrite dom_insert_L; set_solver). cbn [m1 am alarms].
    rewrite lookup_insert_eq. cbn. unfold asked. cbn. by rewrite Ht1, Ht2.
  - intros p' Hp'. rewrite Hold by (cbn; rewrite dom_insert_L; set_solver). cbn [m1 am alarms].
    rewrite lookup_insert_ne; [done|]. intros <-. apply elem_of_dom in Hp' as [? ?]. congruence.
  - rewrite Hsize. cbn [m1 strings zip zip_with length]. fold (zip hosts ports). lia.
Qed.

(** ** Properties *)

(** C27: the manager of the configured indexnodes, from its creation to its
    deletion: it starts an alarm for each configured host and its port, no more
    than the shorter list has; each asks its own indexnode at every tick of its
    thread until that is stopped, while the others still run; deleting the
    manager returns, with every thread stopped, every alarm and list entry
    freed and every pipe closed. Only the copies of the hosts and ports are
    left behind. *)
Theorem statics_lifecycle `{Curl} (config_alias : cstr) (escape : cstr -> cstr) (web : fetcher -> transfer)
    {S} (cb : cstr -> cstr -> cstr -> cstr -> S -> outcome S)
    (timeout : Z) (hosts ports : list cstr) (fds : list (Z * Z)) (m : memory)
    (Hhosts : Forall (.≠ []) hosts) (Hports : Forall (.≠ []) ports)
    (Hthreads : threads (am m) ⊆ dom (alarms (am m)))
    (Hfds : length (zip hosts ports) <= length fds) (Hnew : new_fds (open (am m)) fds) :
  exists mgr m' (ps : list nat),
    indexnodes_statics_manager_new timeout hosts ports (piped fds) m = Ret (mgr, m') /\
    (fun p => asked <$> alarms (am m') !! p) <$> ps = Some <$> reverse (zip hosts ports) /\
    size (strings m') = size (strings m) + 2 * length (zip hosts ports) /\
    forall turns s, in_time ps turns ->
      indexnodes_statics_manager_delete config_alias escape web cb mgr (stop_each ps turns) m' s =
        (s ← calls (ping_indexnode config_alias escape web cb) (data_of (am m')) (concat turns) s;
         Ret (Memory (entries m) (am m) (strings m'), s)).
Proof.
  destruct (load_ok timeout hosts ports fds (entries m) (am m) None [] m Hhosts Hports Hthreads
    (grown_nil _ _) Hfds Hnew) as (head & l & m' & E & HG & Hasked & _ & Hsize & _).
  exists (Manager head), m', l.*2. unfold indexnodes_statics_manager_new, LINKED_LIST_INIT. rewrite E, bind_ret_l.
  split_and!; [done..|]. intros turns s Htime. rewrite app_nil_r in HG.
  by apply (manager_delete_ok config_alias escape web cb (entries m) (am m) head l m' turns s).
Qed.

Definition demo_memory : memory := Memory ∅ (AlarmMem ∅ ∅ {[ 0; 1; 2 ]}%Z) ∅.

(** Two hosts, three ports; the second alarm's thread ticks while the first is
    stopped, and nobody can be reached. *)
Lemma statics_lifecycle_witness :
  exists mgr m' (ps : list nat),
    indexnodes_statics_manager_new 5 [cs "a"; cs "b"] [cs "1"; cs "2"; cs "3"] (piped [(3, 4); (5, 6)]%Z) demo_memory
      = Ret (mgr, m') /\
    (fun p => asked <$> alarms (am m') !! p) <$> ps = [Some (cs "b", cs "2"); Some (cs "a", cs "1")] /\
    size (strings m') = 4 /\
    forall turns s, in_time ps turns ->
      @indexnodes_statics_manager_delete script_curl (cs "me") (fun x => x) (fun _ => Transfer [] CURLE_COULDNT_CONNECT 0)
        (list cstr) (fun host _ _ _ s => Ret (s ++ [host])) mgr (stop_each ps turns) m' s =
        (s ← calls (@ping_indexnode script_curl (cs "me") (fun x => x) (fun _ => Transfer [] CURLE_COULDNT_CONNECT 0)
                (list cstr) (fun host _ _ _ s => Ret (s ++ [host]))) (data_of (am m')) (concat turns) s;
         Ret (Memory ∅ (AlarmMem ∅ ∅ {[ 0; 1; 2 ]}%Z) (strings m'), s)).
Proof.
  apply (@statics_lifecycle script_curl (cs "me") (fun x => x) (fun _ => Transfer [] CURLE_COULDNT_CONNECT 0) (list cstr)
    (fun host _ _ _ s => Ret (s ++ [host])) 5 [cs "a"; cs "b"] [cs "1"; cs "2"; cs "3"] [(3, 4); (5, 6)]%Z demo_memory).
  - repeat (apply Forall_cons; split; [discriminate|]). constructor.
  - repeat (apply Forall_cons; split; [discriminate|]). constructor.
  - done.
  - cbn. lia.
  - cbn. set_solver.
Defined.
