(* ===== verification/Listener.v ===== *)
(** * indexnodes_listener_thread.c: adverts from the network

    Indexnodes broadcast UDP packets "protocol:port:id". The thread waits in
    [select] on its two sockets and its owner's pipe, takes each packet apart
    and calls back with its sender and fields. The results of the system calls
    are a schedule. *)
From stdpp Require Import pretty.
From S2P Require Import Prelude CLib StringBuffer.

(** ** The code: a packet *)

(** The distance to the first colon, or else to the NUL ([strchr], twice), in
    the memory from the pointer on. *)
Fixpoint field_end (buf : list (option ascii)) : outcome nat :=
  match buf with
  | Some c :: buf =>
      if bool_decide (c = ":"%char \/ c = NUL) then Ret 0
      else n ← field_end buf; Ret (S n)
  | _ => Undef
  end.

(** The field and the memory from the advanced pointer on. *)
Definition get_next_field (buf : list (option ascii)) : outcome (cstr * list (option ascii)) :=
  off ← field_end buf;
  Ret (default NUL <$> take off buf, drop (S off) buf).

Record advert := Advert { ad_fs2protocol : cstr; ad_port : cstr; ad_id : cstr }.

(** [None] is the result 1. *)
Definition parse_advert_packet (buf : list (option ascii)) : outcome (option advert) :=
  '(fs2protocol, buf) ← get_next_field buf;
  '(port_or_auto, buf) ← get_next_field buf;
  if streq port_or_auto (cs "autoindexnode") then Ret None
  else
    '(id, buf) ← get_next_field buf;
    Ret (Some (Advert fs2protocol port_or_auto id)).

(** [inet_ntop(AF_INET, ...)]: the first four bytes of the address in dotted
    decimal, if that and its NUL fit in [size]. *)
Definition dotted (a : list Z) : cstr :=
  match a with
  | b1 :: b2 :: b3 :: b4 :: _ =>
      print_u64 b1 ++ cs "." ++ print_u64 b2 ++ cs "." ++ print_u64 b3 ++ cs "." ++ print_u64 b4
  | _ => []
  end.
Definition inet_ntop (a : list Z) (size : nat) : option cstr :=
  if length (dotted a) <? size then Some (dotted a) else None.

Definition sizeof_buf : nat := 1024.
Definition INET_ADDRSTRLEN : nat := 16.
Definition INET6_ADDRSTRLEN : nat := 46.

(** What [recvfrom] did: a negative result, or a packet (the result is its
    length, with [MSG_TRUNC]), the sender's address and [socklen], which the
    code does not set before the call. *)
Inductive received :=
| RecvError
| Recv (packet : list ascii) (addr_src : list Z) (socklen : Z).

(** [recv_rc] is an [int]. [cb] is given host, port, protocol and id. *)
Definition receive_advert {S} (cb : cstr -> cstr -> cstr -> cstr -> S -> outcome S)
    (r : received) (socklen_in : Z) (host_len : nat) (s : S) : outcome S :=
  buffer ← string_buffer_new;
  match r with
  | RecvError => Ret s
  | Recv packet addr_src socklen =>
      _ ← c_assert (length packet <=? sizeof_buf - 1);
      _ ← c_assert (socklen =? socklen_in)%Z;
      buffer ← string_buffer_append buffer (Malloced (until_nul (packet ++ [NUL])));
      ad ← parse_advert_packet (string_buffer_peek buffer);
      match ad with
      | Some ad =>
          match inet_ntop addr_src (host_len - 1) with
          | Some host => cb host (ad_port ad) (ad_fs2protocol ad) (ad_id ad) s
          | None => Ret s
          end
      | None => Ret s
      end
  end.

(** ** The code: the loop *)

Definition listener_control_codes_STOP : Z := 1.
Definition sizeof_msg : Z := 4.
Definition sizeof_sockaddr_in : Z := 16.
Definition sizeof_sockaddr_in6 : Z := 28.

(** A return of [select]: -1, 0, or what is then read from each descriptor
    that is set: a packet, a packet, the result and message from the pipe. *)
Inductive wakeup :=
| SelectError
| SelectTimeout
| Ready (r4 r6 : option received) (control : option (Z * Z)).

(** [s4] and [s6]: the socket could be opened. The rest of the schedule is
    left. *)
Fixpoint listener_thread_event_loop {S} (cb : cstr -> cstr -> cstr -> cstr -> S -> outcome S)
    (s4 s6 : bool) (ws : list wakeup) (s : S) : outcome (S * list wakeup) :=
  match ws with
  | [] => Blocked
  | SelectError :: ws => listener_thread_event_loop cb s4 s6 ws s
  | SelectTimeout :: ws => AssertFail
  | Ready r4 r6 control :: ws =>
      s ← (match r4 with
           | Some r => if s4 then receive_advert cb r sizeof_sockaddr_in INET_ADDRSTRLEN s else Ret s
           | None => Ret s
           end);
      s ← (match r6 with
           | Some r => if s6 then receive_advert cb r sizeof_sockaddr_in6 INET6_ADDRSTRLEN s else Ret s
           | None => Ret s
           end);
      match control with
      | Some (read_rc, msg) =>
          _ ← c_assert (read_rc =? sizeof_msg)%Z;
          _ ← c_assert (msg =? listener_control_codes_STOP)%Z;
          Ret (s, ws)
      | None => listener_thread_event_loop cb s4 s6 ws s
      end
  end.

(** ** The code: sockets *)

(** An interface as [getifaddrs] lists it: its address' family ([None]: it has
    no address) and what [getnameinfo] makes of it ([None]: it fails). *)
Record ifaddrs := IfAddrs { ifa_name : cstr; sa_family : option Z; name_info : option cstr }.

Definition AF_INET : Z := 2.
Definition AF_INET6 : Z := 10.

(** The loop over the interfaces: the lines printed. [host] is not set when
    [getnameinfo] fails, and printed all the same. *)
Fixpoint print_interfaces (ifas : list ifaddrs) : outcome (list cstr) :=
  match ifas with
  | [] => Ret []
  | ifa :: ifas =>
      family ← deref (sa_family ifa);
      lines ← (if ((family =? AF_INET) || (family =? AF_INET6))%Z then
                 host ← deref (name_info ifa);
                 Ret [host ++ cs " (" ++ ifa_name ifa ++ cs ", " ++
                      (if (family =? AF_INET)%Z then cs "AF_INET" else cs "AF_INET6") ++ cs ")"]
               else Ret []);
      more ← print_interfaces ifas;
      Ret (lines ++ more)
  end.

(** [None]: [getifaddrs] fails and leaves [ifaddr] unset, which is then read. *)
Definition print_network_interfaces (ifas : option (list ifaddrs)) : outcome (list cstr) :=
  ifas ← deref ifas;
  print_interfaces ifas.

(** The address bound to: the family, the port's two bytes in network order
    ([htons]); the rest is zero, the wildcard address. *)
Record sockaddr := Sockaddr { sin_family : Z; sin_port : Z * Z }.

Definition htons (port : Z) : Z * Z := ((port / 256) mod 256, port mod 256)%Z.

(** What [socket] does, given the domain, and then [bind]. *)
Inductive opening := SocketFails | Opened (fd bind_rc : Z).
Definition network := Z -> sockaddr -> opening.

(** A socket that cannot be bound is not closed. [open] are the descriptors in
    use. *)
Definition get_socket (net : network) (sa : sockaddr) (domain : Z) (open : gset Z) : Z * gset Z :=
  match net domain sa with
  | SocketFails => ((-1)%Z, open)
  | Opened fd bind_rc => (if (bind_rc =? 0)%Z then fd else (-1)%Z, {[ fd ]} ∪ open)
  end.

Definition get_ipv4_socket (net : network) (port : Z) (open : gset Z) : Z * gset Z :=
  let domain := AF_INET in
  get_socket net (Sockaddr domain (htons port)) domain open.

Definition get_ipv6_socket (net : network) (port : Z) (open : gset Z) : Z * gset Z :=
  let domain := AF_INET6 in
  get_socket net (Sockaddr domain (htons port)) domain open.

Definition close (fd : Z) (open : gset Z) : gset Z := open ∖ {[ fd ]}.

(** [port] is the configured one. [indexnodes_listener_delete] writes the
    message that ends the loop. *)
Definition indexnodes_listen_main {S} (cb : cstr -> cstr -> cstr -> cstr -> S -> outcome S)
    (ifas : option (list ifaddrs)) (net : network) (port : Z) (ws : list wakeup) (open : gset Z) (s : S)
  : outcome (S * gset Z) :=
  _ ← print_network_interfaces ifas;
  let '(s6, open) := get_ipv6_socket net port open in
  let '(s4, open) := get_ipv4_socket net port open in
  '(s, _) ← listener_thread_event_loop cb (negb (s4 =? -1)%Z) (negb (s6 =? -1)%Z) ws s;
  let open := if (s4 =? -1)%Z then open else close s4 open in
  let open := if (s6 =? -1)%Z then open else close s6 open in
  Ret (s, open).

(** ** The code: the listener *)

Record indexnodes_listener := IndexnodesListener { thread_control_fd : Z; control_fd : Z }.

(** [pipe_fds]: what [pipe] gives, [None] if it fails; [create_rc]: the result
    of [pthread_create]. *)
Definition indexnodes_listener_new (pipe_fds : option (Z * Z)) (create_rc : Z) (open : gset Z)
  : outcome (indexnodes_listener * gset Z) :=
  fds ← (match pipe_fds with Some fds => Ret fds | None => AssertFail end);
  _ ← c_assert (create_rc =? 0)%Z;
  Ret (IndexnodesListener fds.1 fds.2, {[ fds.1; fds.2 ]} ∪ open).

(** The thread runs beside its owner, and only on the memory of the callback;
    [pthread_join] returns when it has ended. [ws] are its wake-ups up to the
    message, which the last brings; [write_rc] is the result of [write]. *)
Definition indexnodes_listener_delete {S} (cb : cstr -> cstr -> cstr -> cstr -> S -> outcome S)
    (ifas : option (list ifaddrs)) (net : network) (port : Z) (ws : list wakeup) (write_rc : Z)
    (listener : indexnodes_listener) (open : gset Z) (s : S) : outcome (S * gset Z) :=
  let msg := listener_control_codes_STOP in
  _ ← c_assert (write_rc =? sizeof_msg)%Z;
  '(s, open) ← indexnodes_listen_main cb ifas net port
    (ws ++ [Ready None None (Some (write_rc, msg))]) open s;   (* pthread_join *)
  Ret (s, close (control_fd listener) (close (thread_control_fd listener) open)).

(** ** Facts *)

(** The buffer's block ends with the packet's NUL. *)
Lemma packet_buffer t :
  exists sb, (sb ← string_buffer_new; string_buffer_append sb (Malloced t)) = Ret sb /\
    string_buffer_peek sb = stored t.
Proof.
  unfold string_buffer_new, string_buffer_from_chars. cbn [text_of].
  rewrite mem_write_ok by (cbn; lia). rewrite bind_ret_l. cbn [free_const]. rewrite !bind_ret_l.
  unfold string_buffer_append. cbn [text_of length_ length].
  set (sb := string_buffer_ensure_capacity _ _).
  assert (length_ sb = 0 /\ length (s sb) = S (length t)) as [Hl Hs].
  { unfold sb, string_buffer_ensure_capacity. cbn [capacity]. destruct (Nat.ltb_spec (0 + 1) (0 + length t + 1)).
    - cbn [length_ s]. split; [done|]. rewrite length_app, length_replicate. cbn. lia.
    - split; [done|]. cbn. lia. }
  rewrite mem_write_ok by (rewrite stored_length, Hl; lia). rewrite bind_ret_l. cbn [free_const].
  rewrite bind_ret_l. eexists. split; [done|]. unfold string_buffer_peek. cbn [s].
  rewrite Hl, take_0, drop_ge, app_nil_r; [done|]. rewrite stored_length. lia.
Qed.

Definition plain (f : cstr) : Prop := Forall (fun c => c <> ":"%char /\ c <> NUL) f.

Lemma field_end_ok f c rest :
  plain f -> c = ":"%char \/ c = NUL -> field_end ((Some <$> f) ++ Some c :: rest) = Ret (length f).
Proof.
  intros Hf Hc. induction Hf as [|x f Hx Hf IH]; cbn [fmap list_fmap app field_end length].
  - by rewrite bool_decide_true.
  - by rewrite bool_decide_false, IH by tauto.
Qed.

Lemma next_field_ok f c rest :
  plain f -> c = ":"%char \/ c = NUL ->
  get_next_field ((Some <$> f) ++ Some c :: rest) = Ret (f, rest).
Proof.
  intros Hf Hc. unfold get_next_field. rewrite field_end_ok by done. rewrite bind_ret_l.
  rewrite take_app_length' by by rewrite length_fmap.
  rewrite <- list_fmap_compose, (list_fmap_ext _ id), list_fmap_id by done.
  replace (S (length f)) with (length (Some <$> f) + 1) by (rewrite length_fmap; lia).
  by rewrite drop_app_add'.
Qed.

(** A packet without NULs that fits. *)
Lemma receive_ok {S} (cb : cstr -> cstr -> cstr -> cstr -> S -> outcome S) packet a socklen host_len s :
  no_nul packet -> length packet <= 1023 ->
  receive_advert cb (Recv packet a socklen) socklen host_len s =
    (ad ← parse_advert_packet (stored packet);
     match ad with
     | Some ad => match inet_ntop a (host_len - 1) with
                  | Some host => cb host (ad_port ad) (ad_fs2protocol ad) (ad_id ad) s
                  | None => Ret s
                  end
     | None => Ret s
     end).
Proof.
  intros Hn Hl. unfold receive_advert. destruct (packet_buffer packet) as (sb & E & Hs).
  unfold sizeof_buf. rewrite (proj2 (Nat.leb_le _ _)) by lia. rewrite Z.eqb_refl. cbn [c_assert].
  rewrite until_nul_app by done. revert E. destruct string_buffer_new as [b| | |]; try done.
  rewrite !bind_ret_l. intros ->. by rewrite bind_ret_l, Hs.
Qed.

Lemma plain_no_nul f : plain f -> no_nul f.
Proof. intros H. eapply Forall_impl; [exact H|]. by intros c []. Qed.

Lemma stored_fields f g :
  stored (f ++ cs ":" ++ g) = (Some <$> f) ++ Some ":"%char :: stored g.
Proof. unfold stored. by rewrite !fmap_app, <- app_assoc. Qed.

Lemma stored_last f : stored f = (Some <$> f) ++ [Some NUL].
Proof. unfold stored. by rewrite fmap_app. Qed.

Lemma no_nul_fields f g : plain f -> no_nul g -> no_nul (f ++ cs ":" ++ g).
Proof.
  intros Hf Hg. apply no_nul_app. split; [by apply plain_no_nul|]. apply no_nul_app.
  split; [by constructor|done].
Qed.

(** ** Sessions *)

(** A packet that is well formed, with its sender's address. *)
Record hearing := Hearing { h_protocol : cstr; h_port : cstr; h_id : cstr; h_addr : list Z }.

Definition packet_of (h : hearing) : cstr := h_protocol h ++ cs ":" ++ h_port h ++ cs ":" ++ h_id h.

Record wf_hearing (h : hearing) : Prop := {
  wf_protocol : plain (h_protocol h);
  wf_port : plain (h_port h);
  wf_id : plain (h_id h);
  wf_auto : h_port h <> cs "autoindexnode";
  wf_length : length (packet_of h) <= 1023
}.

(** What a wake-up brings from the two sockets. *)
Definition wakeup_of (w : option hearing * option hearing) : wakeup :=
  Ready ((fun h => Recv (packet_of h) (h_addr h) sizeof_sockaddr_in) <$> w.1)
        ((fun h => Recv (packet_of h) (h_addr h) sizeof_sockaddr_in6) <$> w.2) None.

(** The message of [indexnodes_listener_delete]. *)
Definition stop : wakeup := Ready None None (Some (sizeof_msg, listener_control_codes_STOP)).

Section Session.
Context {S : Type} (cb : cstr -> cstr -> cstr -> cstr -> S -> outcome S).

(** The call for a packet, if its sender's address fits. *)
Definition report (host_len : nat) (h : option hearing) (s : S) : outcome S :=
  match h with
  | Some h =>
      if length (dotted (h_addr h)) + 1 <? host_len
      then cb (dotted (h_addr h)) (h_port h) (h_protocol h) (h_id h) s
      else Ret s
  | None => Ret s
  end.

(** The calls of a session, in order; a socket that is not open is not heard. *)
Fixpoint reports (s4 s6 : bool) (ws : list (option hearing * option hearing)) (s : S) : outcome S :=
  match ws with
  | [] => Ret s
  | w :: ws =>
      s ← (if s4 then report INET_ADDRSTRLEN w.1 s else Ret s);
      s ← (if s6 then report INET6_ADDRSTRLEN w.2 s else Ret s);
      reports s4 s6 ws s
  end.

Lemma received_ok h socklen host_len s : wf_hearing h ->
  receive_advert cb (Recv (packet_of h) (h_addr h) socklen) socklen host_len s = report host_len (Some h) s.
Proof.
  intros [Hp Hport Hid Hauto Hlen]. unfold packet_of in *.
  rewrite receive_ok by (done || by repeat apply no_nul_fields; [..|apply plain_no_nul]).
  rewrite !stored_fields. unfold parse_advert_packet.
  rewrite next_field_ok, bind_ret_l by (done || by left).
  rewrite next_field_ok, bind_ret_l by (done || by left).
  rewrite (proj2 (streq_false _ _)) by done. rewrite stored_last.
  rewrite next_field_ok, !bind_ret_l by (done || by right). cbn [ad_port ad_fs2protocol ad_id report].
  unfold inet_ntop. replace (length (dotted (h_addr h)) <? host_len - 1)
    with (length (dotted (h_addr h)) + 1 <? host_len).
  - by destruct (_ <? _).
  - apply eq_bool_prop_intro. rewrite !Is_true_true, !Nat.ltb_lt. lia.
Qed.

Lemma event_loop_ok s4 s6 ws rest : forall s,
  Forall (fun w => (forall h, w.1 = Some h -> wf_hearing h) /\ (forall h, w.2 = Some h -> wf_hearing h)) ws ->
  listener_thread_event_loop cb s4 s6 ((wakeup_of <$> ws) ++ stop :: rest) s =
    (s ← reports s4 s6 ws s; Ret (s, rest)).
Proof.
  intros s HF. revert s. induction HF as [|[h4 h6] ws [H4 H6] HF IH]; intros s; cbn [fmap list_fmap app];
    cbn [listener_thread_event_loop stop wakeup_of fst snd reports]; [done|].
  assert (forall b (h : option hearing) len hl (s : S), (forall x, h = Some x -> wf_hearing x) ->
    match (fun h => Recv (packet_of h) (h_addr h) len) <$> h with
    | Some r => if b : bool then receive_advert cb r len hl s else Ret s
    | None => Ret s
    end = (if b then report hl h s else Ret s)) as Hr.
  { intros b [h|] len hl s0 Hh; [|by destruct b]. destruct b; [|done]. exact (received_ok h len hl s0 (Hh h eq_refl)). }
  cbn [fst snd] in *. rewrite Hr by done.
  destruct (if s4 then report INET_ADDRSTRLEN h4 s else Ret s) as [s1| | |]; [|done..]. rewrite !bind_ret_l, Hr by done.
  destruct (if s6 then report INET6_ADDRSTRLEN h6 s1 else Ret s1) as [s2| | |]; [|done..]. rewrite !bind_ret_l. apply IH.
Qed.

End Session.

(** ** Properties *)

(** A well-formed packet "protocol:port:id" is reported with its sender's
    address in dotted form and its three fields, if the address leaves room for
    two characters in the buffer: [inet_ntop] is told the buffer is one smaller
    than it is, so a packet from an IPv4 address of fifteen characters is
    dropped. *)
Theorem advert_is_received {S} (cb : cstr -> cstr -> cstr -> cstr -> S -> outcome S)
    (fs2protocol port id : cstr) (a : list Z) (socklen : Z) (host_len : nat) (s : S)
    (Hp : plain fs2protocol) (Hport : plain port) (Hid : plain id)
    (Hauto : port <> cs "autoindexnode")
    (Hlen : length (fs2protocol ++ cs ":" ++ port ++ cs ":" ++ id) <= 1023) :
  receive_advert cb (Recv (fs2protocol ++ cs ":" ++ port ++ cs ":" ++ id) a socklen) socklen host_len s =
    if length (dotted a) + 1 <? host_len then cb (dotted a) port fs2protocol id s else Ret s.
Proof. exact (received_ok cb (Hearing fs2protocol port id a) socklen host_len s ltac:(by split)). Qed.

Definition note (host port fs2protocol id : cstr) (s : list (list cstr)) : outcome (list (list cstr)) :=
  Ret (s ++ [[host; port; fs2protocol; id]]).

Lemma advert_is_received_witness :
  receive_advert note (Recv (cs "fs2protocol-0.13:42000:abc") [10; 0; 0; 1]%Z 16) 16 INET_ADDRSTRLEN []
    = Ret [[cs "10.0.0.1"; cs "42000"; cs "fs2protocol-0.13"; cs "abc"]] /\
  receive_advert note (Recv (cs "fs2protocol-0.13:42000:abc") [192; 168; 100; 101]%Z 16) 16 INET_ADDRSTRLEN []
    = Ret [].
Proof.
  assert (Hp : plain (cs "fs2protocol-0.13") /\ plain (cs "42000") /\ plain (cs "abc"))
    by (split_and!; repeat (constructor; [split; discriminate|]); constructor).
  destruct Hp as (H1 & H2 & H3). split.
  - apply (advert_is_received note (cs "fs2protocol-0.13") (cs "42000") (cs "abc") [10; 0; 0; 1]%Z
      16 INET_ADDRSTRLEN [] H1 H2 H3); [discriminate|vm_compute; lia].
  - apply (advert_is_received note (cs "fs2protocol-0.13") (cs "42000") (cs "abc") [192; 168; 100; 101]%Z
      16 INET_ADDRSTRLEN [] H1 H2 H3); [discriminate|vm_compute; lia].
Defined.

(** A packet with too few fields is read past its end: [get_next_field]
    steps over the NUL that ends the last field, and the next call searches from
    there. *)
Theorem short_packet_is_overread {S} (cb : cstr -> cstr -> cstr -> cstr -> S -> outcome S)
    (f g : cstr) (a : list Z) (socklen : Z) (host_len : nat) (s : S)
    (Hf : plain f) (Hg : plain g) (Hauto : g <> cs "autoindexnode")
    (Hlen : length (f ++ cs ":" ++ g) <= 1023) :
  receive_advert cb (Recv f a socklen) socklen host_len s = Undef /\
  receive_advert cb (Recv (f ++ cs ":" ++ g) a socklen) socklen host_len s = Undef.
Proof.
  split.
  - rewrite receive_ok by ((by apply plain_no_nul) || (rewrite length_app in Hlen; lia)). unfold parse_advert_packet.
    rewrite stored_last, next_field_ok by (done || by right). done.
  - rewrite receive_ok by (done || by apply no_nul_fields, plain_no_nul).
    rewrite stored_fields. unfold parse_advert_packet.
    rewrite next_field_ok, bind_ret_l by (done || by left).
    rewrite stored_last, next_field_ok, bind_ret_l by (done || by right).
    by rewrite (proj2 (streq_false _ _)).
Qed.

Lemma short_packet_is_overread_witness :
  receive_advert note (Recv (cs "hello") [10; 0; 0; 1]%Z 16) 16 INET_ADDRSTRLEN [] = Undef /\
  receive_advert note (Recv (cs "hello:world") [10; 0; 0; 1]%Z 16) 16 INET_ADDRSTRLEN [] = Undef.
Proof.
  apply (short_packet_is_overread note (cs "hello") (cs "world")); [..|discriminate|vm_compute; lia];
    repeat (constructor; [split; discriminate|]); constructor.
Defined.

(** The descriptor an opening leaves open for good, and whether it can be
    listened on. *)
Definition bound (o : opening) : bool :=
  match o with Opened _ rc => (rc =? 0)%Z | SocketFails => false end.
Definition leaked (o : opening) : gset Z :=
  match o with Opened fd rc => if (rc =? 0)%Z then ∅ else {[ fd ]} | SocketFails => ∅ end.

Lemma interfaces_printed ifas :
  Forall (fun i => is_Some (sa_family i) /\ is_Some (name_info i)) ifas -> returns (print_interfaces ifas).
Proof.
  intros H. induction H as [|i ifas [[f Ef] [n En]] HF [l IH]]; cbn; [by eexists|].
  rewrite Ef, En. cbn [deref]. rewrite bind_ret_l.
  destruct (_ || _)%bool; rewrite ?bind_ret_l, IH, bind_ret_l; by eexists.
Qed.

(** The descriptors that the two sockets get are new, and differ. *)
Record wf_network (net : network) (port : Z) (open : gset Z) : Prop := {
  fresh6 fd rc : net AF_INET6 (Sockaddr AF_INET6 (htons port)) = Opened fd rc -> (0 <= fd)%Z /\ (fd ∉ open);
  fresh4 fd rc : net AF_INET (Sockaddr AF_INET (htons port)) = Opened fd rc -> (0 <= fd)%Z /\ (fd ∉ open) /\
    (forall rc', net AF_INET6 (Sockaddr AF_INET6 (htons port)) <> Opened fd rc')
}.

Lemma sockets_end net port open : wf_network net port open ->
  let o6 := net AF_INET6 (Sockaddr AF_INET6 (htons port)) in
  let o4 := net AF_INET (Sockaddr AF_INET (htons port)) in
  let (s6, open6) := get_ipv6_socket net port open in
  let (s4, open4) := get_ipv4_socket net port open6 in
  negb (s6 =? -1)%Z = bound o6 /\ negb (s4 =? -1)%Z = bound o4 /\
  (let open := if (s4 =? -1)%Z then open4 else close s4 open4 in
   if (s6 =? -1)%Z then open else close s6 open) = leaked o4 ∪ leaked o6 ∪ open.
Proof.
  intros [H6 H4]. unfold get_ipv6_socket, get_ipv4_socket, get_socket, close in *. cbn zeta.
  destruct (net AF_INET6 _) as [|f6 rc6]; destruct (net AF_INET _) as [|f4 rc4]; cbn [bound leaked];
    try (destruct (H4 _ _ eq_refl) as (Hp4 & Hn4 & Hne4)); try (destruct (H6 _ _ eq_refl) as (Hp6 & Hn6));
    try assert (f4 <> f6) by (intros ->; by eapply Hne4);
    try destruct (Z.eqb_spec rc6 0); try destruct (Z.eqb_spec rc4 0); rewrite ?Z.eqb_refl;
    rewrite ?(proj2 (Z.eqb_neq f6 (-1))) by lia; rewrite ?(proj2 (Z.eqb_neq f4 (-1))) by lia;
    (split_and!; [done..|]); apply set_eq; intros x; set_solver.
Qed.

Lemma leaked_fresh6 net port open :
  wf_network net port open -> leaked (net AF_INET6 (Sockaddr AF_INET6 (htons port))) ## open.
Proof.
  intros [H6 _]. destruct (net AF_INET6 _) as [|fd rc]; cbn; [set_solver|].
  destruct (H6 _ _ eq_refl), (rc =? 0)%Z; set_solver.
Qed.

Lemma leaked_fresh4 net port open :
  wf_network net port open -> leaked (net AF_INET (Sockaddr AF_INET (htons port))) ## open.
Proof.
  intros [_ H4]. destruct (net AF_INET _) as [|fd rc]; cbn; [set_solver|].
  destruct (H4 _ _ eq_refl) as (_ & ? & _), (rc =? 0)%Z; set_solver.
Qed.

(** A listener's whole life. *)
Lemma session_ok {S} (cb : cstr -> cstr -> cstr -> cstr -> S -> outcome S)
    (ifas : list ifaddrs) (net : network) (port : Z) (ws : list (option hearing * option hearing))
    (r w : Z) (open : gset Z) (s : S)
    (Hifas : Forall (fun i => is_Some (sa_family i) /\ is_Some (name_info i)) ifas)
    (Hws : Forall (fun w => (forall h, w.1 = Some h -> wf_hearing h) /\
                            (forall h, w.2 = Some h -> wf_hearing h)) ws)
    (Hrw : (r ∉ open) /\ w ∉ open)
    (Hnet : wf_network net port ({[ r; w ]} ∪ open)) :
  let o6 := net AF_INET6 (Sockaddr AF_INET6 (htons port)) in
  let o4 := net AF_INET (Sockaddr AF_INET (htons port)) in
  ('(listener, open) ← indexnodes_listener_new (Some (r, w)) 0 open;
   indexnodes_listener_delete cb (Some ifas) net port (wakeup_of <$> ws) sizeof_msg listener open s) =
    (s ← reports cb (bound o4) (bound o6) ws s; Ret (s, leaked o4 ∪ leaked o6 ∪ open)).
Proof.
  intros o6 o4. unfold indexnodes_listener_new, indexnodes_listener_delete. rewrite !bind_ret_l.
  cbn [c_assert Z.eqb fst snd control_fd thread_control_fd]. rewrite !bind_ret_l, Z.eqb_refl.
  cbn [c_assert]. rewrite bind_ret_l. unfold indexnodes_listen_main, print_network_interfaces.
  cbn [deref]. rewrite bind_ret_l. destruct (interfaces_printed _ Hifas) as [lines ->]. rewrite bind_ret_l.
  pose proof (sockets_end _ _ _ Hnet) as E. destruct (get_ipv6_socket net port _) as [s6 open6].
  destruct (get_ipv4_socket net port open6) as [s4 open4]. destruct E as (E6 & E4 & Hopen).
  change (Ready None None (Some (sizeof_msg, listener_control_codes_STOP))) with stop.
  rewrite E6, E4, event_loop_ok by done. fold o6 o4 in Hopen |- *.
  destruct (reports cb _ _ ws s) as [s'| | |]; [|done..]. rewrite !bind_ret_l. cbn zeta in Hopen |- *.
  rewrite Hopen. do 2 f_equal.
  pose proof (leaked_fresh6 _ _ _ Hnet) as Hl6. pose proof (leaked_fresh4 _ _ _ Hnet) as Hl4.
  fold o6 in Hl6. fold o4 in Hl4. unfold close. destruct Hrw. set_solver.
Qed.

(** A listener, from its creation to its deletion: the thread reports every
    well-formed packet that its open sockets receive, in order, and no other;
    deleting it stops the thread, returns, and closes the pipe and the sockets
    it listened on. A socket that could not be bound stays open for good. *)
Theorem listener_session {S} (cb : cstr -> cstr -> cstr -> cstr -> S -> outcome S)
    (ifas : list ifaddrs) (net : network) (port : Z) (ws : list (option hearing * option hearing))
    (r w : Z) (open : gset Z) (s : S)
    (Hifas : Forall (fun i => is_Some (sa_family i) /\ is_Some (name_info i)) ifas)
    (Hws : Forall (fun w => (forall h, w.1 = Some h -> wf_hearing h) /\
                            (forall h, w.2 = Some h -> wf_hearing h)) ws)
    (Hrw : (r ∉ open) /\ w ∉ open)
    (Hnet : wf_network net port ({[ r; w ]} ∪ open)) :
  let o6 := net AF_INET6 (Sockaddr AF_INET6 (htons port)) in
  let o4 := net AF_INET (Sockaddr AF_INET (htons port)) in
  ('(listener, open) ← indexnodes_listener_new (Some (r, w)) 0 open;
   indexnodes_listener_delete cb (Some ifas) net port (wakeup_of <$> ws) sizeof_msg listener open s) =
    (s ← reports cb (bound o4) (bound o6) ws s; Ret (s, leaked o4 ∪ leaked o6 ∪ open)).
Proof. by apply session_ok. Qed.

(** IPv6 cannot be bound: its packets are not heard and its socket stays open. *)
Lemma listener_session_witness :
  ('(listener, open) ← indexnodes_listener_new (Some (3, 6)) 0 {[ 0; 1; 2 ]};
   indexnodes_listener_delete note
    (Some [IfAddrs (cs "eth0") (Some AF_INET) (Some (cs "10.0.0.7"))])
    (fun d a => if (d =? AF_INET)%Z then Opened 5 0 else Opened 4 (-1)) 42444
    [Ready (Some (Recv (cs "fs2:1:a") [10; 0; 0; 1]%Z 16)) (Some (Recv (cs "fs2:2:b") [10; 0; 0; 2]%Z 28)) None;
     Ready (Some (Recv (cs "fs2:3:c") [10; 0; 0; 3]%Z 16)) None None] sizeof_msg listener open [])%Z
  = Ret ([[cs "10.0.0.1"; cs "1"; cs "fs2"; cs "a"]; [cs "10.0.0.3"; cs "3"; cs "fs2"; cs "c"]],
         ∅ ∪ {[ 4 ]} ∪ {[ 0; 1; 2 ]})%Z.
Proof.
  refine (listener_session note _ (fun d a => if (d =? AF_INET)%Z then Opened 5 0 else Opened 4 (-1)) 42444
    [(Some (Hearing (cs "fs2") (cs "1") (cs "a") [10; 0; 0; 1]%Z), Some (Hearing (cs "fs2") (cs "2") (cs "b") [10; 0; 0; 2]%Z));
     (Some (Hearing (cs "fs2") (cs "3") (cs "c") [10; 0; 0; 3]%Z), None)] 3 6 _ [] _ _ _ _)%Z.
  - apply Forall_cons. split; [|by constructor]. by split; eexists.
  - assert (forall n : cstr, n = cs "fs2" \/ n = cs "1" \/ n = cs "2" \/ n = cs "3" \/ n = cs "a" \/ n = cs "b" \/ n = cs "c" ->
      plain n) as Hp by (intros n H; destruct_or! H; subst n; repeat (constructor; [split; discriminate|]); constructor).
    repeat (apply Forall_cons; split); [..|constructor]; split; intros h [= <-];
      (split; [apply Hp; tauto..|discriminate|cbn; lia]).
  - split; set_solver.
  - split; intros fd rc [= <- <-]; (split_and?; [lia|..]); [set_solver..|].
    intros rc'. discriminate.
Defined.
