(* ===== verification/Collection.v ===== *)
(** * indexnodes.c with its listener: adverts become indexnodes

    The listener's thread calls [new_indexnode_event] for each packet. What the
    collection is for: a list of the indexnodes on the network, the newest
    first, each with the time it was last heard of. *)
From S2P Require Import Prelude CLib Utils Locks RefCount Counted Fetcher Indexnode Indexnodes Alarm Statics Listener.
From S2P Require Import Alarm.

(** ** The code: the two together *)

(** [new_indexnode_event] as the listener calls it: it is given its own copies
    of the strings. [clock]: what [time] will return. *)
Definition hear (ins : indexnodes) (host port fs2protocol id : cstr) (x : list Z * world)
  : outcome (list Z * world) :=
  let '(clock, w) := x in
  match clock with
  | [] => Blocked
  | now :: clock =>
      let '(host, l) := str_new host (live (st w)) in
      let '(port, l) := str_new port l in
      let '(fs2protocol, l) := str_new fs2protocol l in
      let '(id, l) := str_new id l in
      w ← new_indexnode_event now ins host port fs2protocol id (World (lists w) (Store (nodes (st w)) l));
      Ret (clock, w)
  end.

(** What [struct _indexnodes_t] points to. *)
Record indexnodes_t := IndexnodesT {
  ins_list : indexnodes;
  statics : indexnodes_statics_manager;
  listener : indexnodes_listener;
  lock : rw_lock
}.

(** The memory: lists, indexnodes and their strings; the alarms and their list;
    the descriptors in use are the alarms'. *)
Record process := Process {
  wd : world;
  entries : gmap nat (LinkedList.entry nat);
  am : alarm_mem proto_indexnode
}.

(** What the configuration and the system give when the collection is made. *)
Record startup := Startup {
  config_indexnode_timeout : Z;
  hosts : list cstr;
  ports : list cstr;
  alarm_pipes : list (option (Z * Z) * Z);
  listener_pipe : option (Z * Z);
  listener_create_rc : Z
}.

Definition indexnodes_new (u : startup) (p : process) : outcome (indexnodes_t * process) :=
  let lock := rw_lock_new in
  let '(l, w) := indexnodes_list_new (wd p) in
  '(mgr, m) ← indexnodes_statics_manager_new (config_indexnode_timeout u) (hosts u) (ports u) (alarm_pipes u)
              (Memory (entries p) (am p) (live (st w)));
  let w := World (lists w) (Store (nodes (st w)) (strings m)) in
  '(listener, open) ← indexnodes_listener_new (listener_pipe u) (listener_create_rc u) (open (Statics.am m));
  Ret (IndexnodesT (Indexnodes l) mgr listener lock,
       Process w (Statics.entries m) (AlarmMem (alarms (Statics.am m)) (threads (Statics.am m)) open)).

(** What the threads meet until they have been stopped: first the listener's,
    which is stopped first, then the alarms'. *)
Record session := Session {
  interfaces : option (list ifaddrs);
  at_net : network;
  at_port : Z;
  packets : list wakeup;
  write_rc : Z;
  schedules : list (Z * list (nat * select_result));
  times : list Z
}.

Section Life.
Context `{Curl}.
(** As in [Indexnode]. *)
Variable config_alias : cstr.
Variable fetcher_escape_for_http : cstr -> cstr.
Variable web : fetcher -> transfer.

Definition indexnodes_delete (u : session) (i : indexnodes_t) (p : process) : outcome process :=
  '(x, open) ← indexnodes_listener_delete (hear (ins_list i)) (interfaces u) (at_net u) (at_port u) (packets u) (write_rc u)
                 (listener i) (open (am p)) (times u, wd p);
  let am := AlarmMem (alarms (am p)) (threads (am p)) open in
  '(m, x) ← indexnodes_statics_manager_delete config_alias fetcher_escape_for_http web (hear (ins_list i))
              (statics i) (schedules u) (Memory (entries p) am ∅) x;   (* it frees no string *)
  w ← indexnodes_list_delete (list_ (ins_list i)) (snd x);
  Ret (Process w (Statics.entries m) (Statics.am m)).

(** init.c and destroy.c: libfuse's first and last calls. *)
Definition fsfuse_init (u : startup) (p : process) : outcome (indexnodes_t * process) := indexnodes_new u p.
Definition fsfuse_destroy (u : session) (i : indexnodes_t) (p : process) : outcome process :=
  indexnodes_delete u i p.

End Life.

(** ** The abstract collection *)

Record member := Member { m_host : cstr; m_port : cstr; m_version : cstr; m_id : cstr; m_seen : Z }.

(** Host, port, version and id of an advert. *)
Record sighting := Sighting { s_host : cstr; s_port : cstr; s_version : cstr; s_id : cstr }.

Definition touch (now : Z) (m : member) : member :=
  Member (m_host m) (m_port m) (m_version m) (m_id m) now.

(** An indexnode that is known is touched; a new one goes to the front. *)
Definition note (now : Z) (a : sighting) (l : list member) : list member :=
  if decide (s_id a ∈ m_id <$> l)
  then (fun m => if decide (m_id m = s_id a) then touch now m else m) <$> l
  else Member (s_host a) (s_port a) (s_version a) (s_id a) now :: l.

Definition note_all (l : list member) (xs : list (Z * sighting)) : list member :=
  foldl (fun l x => note x.1 x.2 l) l xs.

Definition member_of (v : indexnode) : member :=
  Member (text (host (pin v))) (text (port (pin v))) (text (version v)) (text (id v)) (last_seen v).

Definition member_at (s : store) (p : nat) : option member := member_of <$> (snd <$> nodes s !! p).

(** A well-formed collection with these members, no two of them with one id;
    [c] are the references that its consumers hold. *)
Definition represents (ins : indexnodes) (c : nat -> Z) (w : world) (l : list member) : Prop :=
  exists ps, ins_ok ins w ps /\ member_at (st w) <$> ps = Some <$> l /\ NoDup (m_id <$> l) /\
    forall q, match nodes (st w) !! q with
              | Some (r, _) => count r = (each ps q + c q)%Z
              | None => c q = 0%Z
              end.

(** What a packet adds, if its sender's address fits the buffer. *)
Definition sight (host_len : nat) (h : option hearing) : list sighting :=
  match h with
  | Some h =>
      if length (dotted (h_addr h)) + 1 <? host_len
      then [Sighting (dotted (h_addr h)) (h_port h) (drop (length prefix) (h_protocol h)) (h_id h)]
      else []
  | None => []
  end.

Definition heard (s4 s6 : bool) (ws : list (option hearing * option hearing)) : list sighting :=
  concat ((fun w => (if s4 then sight INET_ADDRSTRLEN w.1 else []) ++
                    (if s6 then sight INET6_ADDRSTRLEN w.2 else [])) <$> ws).

(** A packet of an indexnode: its protocol is "fs2protocol-" and a version, and
    no field is empty. *)
Record genuine (h : hearing) : Prop := {
  gen_wf : wf_hearing h;
  gen_port : h_port h <> [];
  gen_id : h_id h <> [];
  gen_addr : 4 <= length (h_addr h);
  gen_version : exists v, well_formed_version v /\ v <> [] /\ h_protocol h = prefix ++ render v
}.

(** ** Facts *)

Section Facts.
Implicit Types (s : store) (ps : list nat) (l : list member) (ins : indexnodes) (w : world).

Lemma member_id s p m : member_at s p = Some m -> id_of s p = m_id m.
Proof. unfold member_at, id_of. destruct (nodes s !! p) as [[r v]|]; [|done]. by intros [= <-]. Qed.

Lemma represented s ps l p :
  member_at s <$> ps = Some <$> l -> p ∈ ps -> exists m, member_at s p = Some m /\ m ∈ l.
Proof.
  intros E Hp. apply (list_elem_of_fmap_2 (member_at s)) in Hp. rewrite E in Hp.
  apply list_elem_of_fmap in Hp as (m & Em & Hm). eauto.
Qed.

Lemma ids_of s ps l : member_at s <$> ps = Some <$> l -> id_of s <$> ps = m_id <$> l.
Proof.
  revert l. induction ps as [|p ps IH]; intros [|m l]; try done. cbn. intros [= Hm Hl].
  by rewrite (member_id _ _ _ Hm), (IH l).
Qed.

Lemma nodup_ids s ps l p q :
  member_at s <$> ps = Some <$> l -> NoDup (m_id <$> l) -> p ∈ ps -> q ∈ ps ->
  id_of s p = id_of s q -> p = q.
Proof.
  intros E HN Hp Hq Hpq. rewrite <- (ids_of s ps l E) in HN.
  apply list_elem_of_lookup in Hp as [i Hi]. apply list_elem_of_lookup in Hq as [j Hj].
  assert (i = j) as <-.
  { eapply NoDup_lookup; [exact HN|..]; rewrite list_lookup_fmap; [by rewrite Hi|by rewrite Hj, Hpq]. }
  congruence.
Qed.

Lemma known_none s ps i : known s ps i = None -> i ∉ id_of s <$> ps.
Proof.
  unfold known. intros H Hin. apply list_elem_of_fmap in Hin as (p & -> & Hp).
  assert (p ∈ filter (fun q => id_of s q = id_of s p) ps) as Hf by (by apply list_elem_of_filter).
  destruct (filter _ ps); [by apply elem_of_nil in Hf|done].
Qed.

(** Members that are found where they were, or changed alike. *)
Lemma members_change s s' ps l (f : member -> member) :
  member_at s <$> ps = Some <$> l ->
  (forall p m, p ∈ ps -> member_at s p = Some m -> member_at s' p = Some (f m)) ->
  member_at s' <$> ps = Some <$> (f <$> l).
Proof.
  revert l. induction ps as [|p ps IH]; intros [|m l]; try done. cbn. intros [= Hm Hl] Hf.
  rewrite (Hf p m), (IH l); [done|done| |apply list_elem_of_here|done].
  intros q m' Hq. apply Hf. by apply list_elem_of_further.
Qed.

Lemma note_ids now a l : NoDup (m_id <$> l) -> NoDup (m_id <$> note now a l).
Proof.
  intros HN. unfold note. case_decide as Hd.
  - rewrite <- list_fmap_compose. rewrite (list_fmap_ext _ m_id); [done|].
    intros i m _. cbn. by case_decide.
  - cbn. by constructor.
Qed.

Lemma ins_ok_live ins w ps (l : gset nat) :
  ins_ok ins w ps -> live (st w) ⊆ l -> ins_ok ins (World (lists w) (Store (nodes (st w)) l)) ps.
Proof.
  intros [H1 [O1 O2 O3] H3 H4] Hl. split; [done| |done|done].
  split; [done| |done]. intros p r v b Hp Hb. by apply Hl, (O2 p r v b).
Qed.

Lemma dotted_nonempty a : 4 <= length a -> dotted a <> [].
Proof.
  destruct a as [|b1 [|b2 [|b3 [|b4 a]]]]; cbn [length]; try lia. intros _ H.
  unfold dotted in H. apply app_eq_nil in H as [_ H]. discriminate.
Qed.

(** Four new strings make an advert. *)
Lemma new_advert ins w ps hst prt prot i :
  ins_ok ins w ps -> hst <> [] -> prt <> [] -> i <> [] ->
  let '(h, l1) := str_new hst (live (st w)) in
  let '(p, l2) := str_new prt l1 in
  let '(v, l3) := str_new prot l2 in
  let '(i, l4) := str_new i l3 in
  let w1 := World (lists w) (Store (nodes (st w)) l4) in
  ins_ok ins w1 ps /\ advert_ok h p v i (st w1).
Proof.
  intros Hok Hh Hp Hi. pose proof (str_new_fresh hst (live (st w))) as F1.
  destruct (str_new hst (live (st w))) as [sh l1] eqn:E1. pose proof (str_new_fresh prt l1) as F2.
  destruct (str_new prt l1) as [sp l2] eqn:E2. pose proof (str_new_fresh prot l2) as F3.
  destruct (str_new prot l2) as [sv l3] eqn:E3. pose proof (str_new_fresh i l3) as F4.
  destruct (str_new i l3) as [si l4] eqn:E4. cbn [fst] in *.
  unfold str_new in E1, E2, E3, E4. injection E1 as <- <-. injection E2 as <- <-.
  injection E3 as <- <-. injection E4 as <- <-. cbn [addr] in *.
  repeat match goal with |- context [stdpp.base.fresh ?x] => let a := fresh "a" in set (a := stdpp.base.fresh x) in * end.
  clearbody a a0 a1 a2. cbn zeta. split; [apply ins_ok_live; [done|set_solver]|].
  split; cbn [fmap list_fmap addr text]; [|set_solver| |done].
  - rewrite !NoDup_cons, !not_elem_of_cons. split_and!; try apply not_elem_of_nil; try apply NoDup_nil_2; set_solver.
  - intros p r v b Hq Hb. assert (b ∈ live (st w)) by (by eapply (owned_live _ (ok_owned _ _ _ Hok))).
    set_solver.
Qed.

Lemma hear_ok ins c w l now clock h :
  represents ins c w l -> genuine h ->
  exists w', hear ins (dotted (h_addr h)) (h_port h) (h_protocol h) (h_id h) (now :: clock, w) = Ret (clock, w') /\
    represents ins c w' (note now (Sighting (dotted (h_addr h)) (h_port h)
      (drop (length prefix) (h_protocol h)) (h_id h)) l).
Proof.
  intros (ps & Hok & El & HN & Hc) [_ Hport Hid Ha (v & Hv & Hne & Hprot)]. unfold hear.
  pose proof (new_advert ins w ps (dotted (h_addr h)) (h_port h) (h_protocol h) (h_id h) Hok
    (dotted_nonempty _ Ha) Hport Hid) as Had.
  destruct (str_new (dotted (h_addr h)) (live (st w))) as [sh l1] eqn:E1.
  destruct (str_new (h_port h) l1) as [sp l2] eqn:E2. destruct (str_new (h_protocol h) l2) as [sv l3] eqn:E3.
  destruct (str_new (h_id h) l3) as [si l4] eqn:E4. cbn zeta in Had. destruct Had as [Hok1 Had].
  assert (text sh = dotted (h_addr h) /\ text sp = h_port h /\ text sv = h_protocol h /\ text si = h_id h)
    as (T1 & T2 & T3 & T4)
    by (unfold str_new in *; injection E1 as <- _; injection E2 as <- _; injection E3 as <- _; by injection E4 as <- _).
  set (w1 := World (lists w) _) in *.
  destruct (advert_noted now ins sh sp sv si w1 ps v Hok1 Had Hv Hne ltac:(by rewrite T3))
    as (w' & ver & E & _ & Hver & H). rewrite E, bind_ret_l. exists w'. split; [done|].
  assert (m_version_ok : drop (length prefix) (h_protocol h) = text ver)
    by (rewrite Hprot, Hver; apply drop_app_length).
  change (known (st w1)) with (known (st w)) in H. rewrite T4 in H. unfold represents.
  destruct (known (st w) ps (h_id h)) as [p|] eqn:Ek.
  - destruct H as (Hok' & r & x & Hx & ->). exists ps. split; [done|]. split; [|split; [by apply note_ids|]].
    2:{ intros q. specialize (Hc q). cbn [st nodes w1] in Hx |- *. destruct (decide (q = p)) as [-> |Hqp].
        - rewrite lookup_insert_eq. by rewrite Hx in Hc.
        - by rewrite lookup_insert_ne. }
    destruct (known_elem _ _ _ _ Ek) as [Hp Hpi]. unfold note. cbn [s_id].
    rewrite decide_True by (rewrite <- (ids_of _ _ _ El), <- Hpi; by apply list_elem_of_fmap_2).
    eapply members_change; [exact El|]. intros q m Hq Hm. unfold member_at. cbn [st nodes].
    pose proof (member_id _ _ _ Hm) as Hmi. destruct (decide (q = p)) as [-> |Hqp].
    + rewrite lookup_insert_eq, decide_True by congruence. unfold member_at in Hm. cbn [nodes st w1] in Hx.
      rewrite Hx in Hm. by injection Hm as <-.
    + rewrite lookup_insert_ne by done. rewrite decide_False; [exact Hm|]. intros Hmi'. apply Hqp.
      by apply (nodup_ids (st w) ps l); [..|congruence].
  - destruct H as (p & Hok' & Hnone & ->). exists (p :: ps). split; [done|]. cbn [st nodes w1] in Hnone. split; [|split; [by apply note_ids|]].
    2:{ intros q. pose proof (Hc q) as Hcq. pose proof (Hc p) as Hcp. rewrite Hnone in Hcp. cbn [st nodes].
        rewrite each_cons. unfold one. destruct (decide (q = p)) as [-> |Hqp].
        - rewrite lookup_insert_eq. rewrite each_none; [cbn; lia|].
          intros Hp. destruct (represented _ _ _ _ El Hp) as (m & Hm & _). unfold member_at in Hm. by rewrite Hnone in Hm.
        - rewrite lookup_insert_ne by done. change (nodes (st w1)) with (nodes (st w)).
          revert Hcq. destruct (nodes (st w) !! q) as [[r x]|]; [lia|done]. }
    pose proof (known_none _ _ _ Ek) as Hni. rewrite (ids_of _ _ _ El) in Hni. unfold note. cbn [s_id s_host s_port s_version].
    rewrite decide_False by done. cbn [fmap list_fmap]. f_equal.
    + unfold member_at. cbn [st nodes]. rewrite lookup_insert_eq. by rewrite m_version_ok, <- T1, <- T2, <- T4.
    + rewrite <- (list_fmap_id l). apply (members_change (st w)); [exact El|]. intros q m Hq Hm.
      unfold member_at in *. cbn [st nodes]. rewrite lookup_insert_ne; [exact Hm|]. intros <-.
      by rewrite Hnone in Hm.
Qed.

Lemma report_ok ins c w l clock host_len h :
  represents ins c w l -> (forall x, h = Some x -> genuine x) -> length (sight host_len h) <= length clock ->
  exists w', report (hear ins) host_len h (clock, w) = Ret (drop (length (sight host_len h)) clock, w') /\
    represents ins c w' (note_all l (zip clock (sight host_len h))).
Proof.
  intros Hr Hg Hc. assert (note_all l (zip clock []) = l) as E0 by by destruct clock.
  destruct h as [h|]; cbn [report sight]; [|exists w; rewrite E0; by split].
  cbn [sight] in Hc. destruct (_ <? _); [|exists w; rewrite E0; by split].
  destruct clock as [|now clock]; [cbn in Hc; lia|]. set (a := Sighting _ _ _ _).
  replace (zip (now :: clock) [a]) with [(now, a)] by by destruct clock. apply hear_ok; [done|by apply Hg].
Qed.

Lemma note_all_app l xs ys : note_all l (xs ++ ys) = note_all (note_all l xs) ys.
Proof. apply foldl_app. Qed.

Lemma zip_split (clock : list Z) (xs ys : list sighting) :
  length xs <= length clock -> zip clock (xs ++ ys) = zip clock xs ++ zip (drop (length xs) clock) ys.
Proof.
  revert clock. induction xs as [|x xs IH]; intros clock; [by destruct clock|].
  destruct clock as [|c clock]; cbn [length]; [lia|]. intros Hc. cbn. f_equal. apply IH. lia.
Qed.

(** What the two sockets bring in one wake-up, and then the rest. *)
Lemma heard_cons (s4 s6 : bool) x ws :
  heard s4 s6 (x :: ws) = (if s4 then sight INET_ADDRSTRLEN x.1 else []) ++
    (if s6 then sight INET6_ADDRSTRLEN x.2 else []) ++ heard s4 s6 ws.
Proof. unfold heard. cbn [fmap list_fmap concat]. by rewrite <- app_assoc. Qed.

Lemma socket_ok (b : bool) ins c w l clock host_len h :
  let xs := if b then sight host_len h else [] in
  represents ins c w l -> (forall x, h = Some x -> genuine x) -> length xs <= length clock ->
  exists w', (if b then report (hear ins) host_len h (clock, w) else Ret (clock, w)) =
      Ret (drop (length xs) clock, w') /\ represents ins c w' (note_all l (zip clock xs)).
Proof.
  intros xs Hr Hg Hc. destruct b; [by apply report_ok|]. exists w. by destruct clock.
Qed.

Lemma reports_ok ins c (s4 s6 : bool) ws : forall w l clock,
  represents ins c w l ->
  Forall (fun x => (forall h, x.1 = Some h -> genuine h) /\ (forall h, x.2 = Some h -> genuine h)) ws ->
  length (heard s4 s6 ws) <= length clock ->
  exists w', reports (hear ins) s4 s6 ws (clock, w) = Ret (drop (length (heard s4 s6 ws)) clock, w') /\
    represents ins c w' (note_all l (zip clock (heard s4 s6 ws))).
Proof.
  induction ws as [|x ws IH]; intros w l clock Hr HF Hc.
  { exists w. by destruct clock. }
  apply Forall_cons in HF as [[H4 H6] HF]. rewrite heard_cons in *. rewrite !length_app in Hc.
  cbn [reports].
  destruct (socket_ok s4 ins c w l clock INET_ADDRSTRLEN x.1 Hr H4 ltac:(lia)) as (w1 & -> & Hr1).
  rewrite bind_ret_l. set (xs := if s4 then _ else _) in *.
  destruct (socket_ok s6 ins c w1 _ (drop (length xs) clock) INET6_ADDRSTRLEN x.2 Hr1 H6) as (w2 & -> & Hr2);
    [rewrite length_drop; lia|].
  rewrite bind_ret_l. set (ys := if s6 then _ else _) in *.
  destruct (IH w2 _ (drop (length ys) (drop (length xs) clock)) Hr2 HF) as (w3 & -> & Hr3);
    [rewrite !length_drop; lia|].
  exists w3. rewrite !length_app, !drop_drop. split; [do 3 f_equal; lia|].
  rewrite zip_split, (zip_split (drop _ _)), !note_all_app by (rewrite ?length_drop; lia).
  rewrite drop_drop in Hr3. by rewrite drop_drop.
Qed.

End Facts.

Lemma genuine_wf ws :
  Forall (fun x : option hearing * option hearing =>
    (forall h, x.1 = Some h -> genuine h) /\ (forall h, x.2 = Some h -> genuine h)) ws ->
  Forall (fun x => (forall h, x.1 = Some h -> wf_hearing h) /\ (forall h, x.2 = Some h -> wf_hearing h)) ws.
Proof.
  intros HF. eapply Forall_impl; [exact HF|]. intros x [H4 H6].
  split; intros h Hh; [by apply gen_wf, H4|by apply gen_wf, H6].
Qed.

(** ** Properties *)

(** C24: the collection of indexnodes refines a list of members: between the
    start of the listener and its deletion, the indexnodes known are those
    known before and those that the packets of its open sockets announced, one
    for each id, the newest first, each with the details it was first heard
    with and the time it was last heard of. The references that consumers hold
    stay as they are. *)
Theorem adverts_reach_collection (ifas : list ifaddrs) (net : network) (port : Z)
    (ws : list (option hearing * option hearing)) (r w : Z) (open : gset Z)
    (ins : indexnodes) (c : nat -> Z) (wd : world) (l : list member) (clock : list Z)
    (Hifas : Forall (fun i => is_Some (sa_family i) /\ is_Some (name_info i)) ifas)
    (Hws : Forall (fun x => (forall h, x.1 = Some h -> genuine h) /\ (forall h, x.2 = Some h -> genuine h)) ws)
    (Hrw : (r ∉ open) /\ (w ∉ open)) (Hnet : wf_network net port ({[ r; w ]} ∪ open))
    (Hins : represents ins c wd l) :
  let o6 := net AF_INET6 (Sockaddr AF_INET6 (htons port)) in
  let o4 := net AF_INET (Sockaddr AF_INET (htons port)) in
  let announced := heard (bound o4) (bound o6) ws in
  length announced <= length clock ->
  exists wd',
    ('(listener, open) ← indexnodes_listener_new (Some (r, w)) 0 open;
     indexnodes_listener_delete (hear ins) (Some ifas) net port (wakeup_of <$> ws) sizeof_msg listener open (clock, wd))
      = Ret ((drop (length announced) clock, wd'), leaked o4 ∪ leaked o6 ∪ open) /\
    represents ins c wd' (note_all l (zip clock announced)).
Proof.
  intros o6 o4 announced Hc.
  destruct (reports_ok ins c (bound o4) (bound o6) ws wd l clock Hins Hws Hc) as (wd' & E & Hr).
  exists wd'. split; [|done]. rewrite session_ok; [fold o4 o6; by rewrite E|done|by apply genuine_wf|done..].
Qed.

(** ** The whole life of a collection *)

(** The alarms with descriptors more in use. *)
Definition with_open (o : gset Z) (a : alarm_mem proto_indexnode) : alarm_mem proto_indexnode :=
  AlarmMem (alarms a) (threads a) (o ∪ open a).

Lemma grown_open o e0 a0 head l es a :
  grown e0 a0 head l es a -> o ## open a -> grown e0 (with_open o a0) head l es (with_open o a).
Proof.
  intros HG. induction HG as [|head l es a q p al HG IH Hq Ha Hp Hr Hw]; intros Ho; [constructor|].
  unfold with_open at 2. cbn [alarms threads open] in *.
  replace (o ∪ ({[ pipe_read al; pipe_write al ]} ∪ open a))
    with ({[ pipe_read al; pipe_write al ]} ∪ open (with_open o a)) by (unfold with_open; cbn [open]; set_solver).
  apply (grown_cons _ _ head l es (with_open o a) q p al); try done; [apply IH; set_solver|..];
    unfold with_open; cbn [open]; set_solver.
Qed.

(** Ticks that change nothing. *)
Lemma calls_idle {A S} (cb : A -> S -> outcome S) data turns s :
  (forall p d s, data p = Some d -> p ∈ turns.*1 -> cb d s = Ret s) -> calls cb data turns s = Ret s.
Proof.
  induction turns as [|[p r] turns IH]; intros Hcb; [done|]. cbn [calls].
  assert (match data p with Some d => if decide (r = SelectTimeout) then cb d s else Ret s | None => Ret s end = Ret s) as ->.
  { destruct (data p) as [d|] eqn:E; [|done]. case_decide; [|done]. apply (Hcb p); [done|]. apply list_elem_of_here. }
  rewrite bind_ret_l. apply IH. intros p' d s' Hd Hp. apply (Hcb p'); [done|]. by apply list_elem_of_further.
Qed.

(** The last reference to every member goes with the list. *)
Lemma list_freed ins w l :
  represents ins (fun _ => 0%Z) w l ->
  exists w', indexnodes_list_delete (list_ ins) w = Ret w' /\ nodes (st w') = ∅.
Proof.
  intros (ps & Hok & _ & _ & Hc). unfold indexnodes_list_delete.
  rewrite (items_of_ok _ ps), bind_ret_l by apply (ok_list _ _ _ Hok).
  assert (settled (st w) (st w) (fun _ => 0%Z)) as Hs by (apply settled_refl; intros q r v Hq; by specialize (ok_counts _ _ _ Hok q r v Hq)).
  destruct (delete_loop_ok (st w) (st w) ps (fun _ => 0%Z) (ok_owned _ _ _ Hok) Hs) as (s' & -> & Hs').
  { intros p Hp. destruct (ok_held _ _ _ Hok p Hp) as (r & v & Hn & Hr). exists r, v. split; [done|]. pose proof (each_bounds ps p). cbn beta. lia. }
  rewrite bind_ret_l. eexists. split; [done|]. cbn [st]. apply map_empty. intros q.
  rewrite (settled_nodes _ _ _ Hs'). specialize (Hc q). destruct (nodes (st w) !! q) as [[r v]|]; [|done]. cbn.
  by rewrite (proj2 (Z.eqb_eq _ _)) by lia.
Qed.

(** The references to an indexnode. *)
Definition count_of (s : store) (q : nat) : Z := match nodes s !! q with Some (r, _) => count r | None => 0 end.

(** A new collection is empty: all references are others'. *)
Lemma new_collection (w : world) :
  owned (st w) -> (forall q r v, nodes (st w) !! q = Some (r, v) -> (0 < count r)%Z) ->
  represents (Indexnodes (fst (indexnodes_list_new w))) (count_of (st w)) (snd (indexnodes_list_new w)) [].
Proof.
  intros Ho Hc. exists []. split_and!; [|done|constructor|].
  2:{ intros q. cbn [indexnodes_list_new snd st]. unfold count_of. by destruct (nodes (st w) !! q) as [[r v]|]. } split; cbn; [by rewrite lookup_insert_eq|done|done|].
  intros p Hp. by apply elem_of_nil in Hp.
Qed.

Definition demo_hearing (id : cstr) : hearing :=
  Hearing (cs "fs2protocol-0.13") (cs "42000") id [10; 0; 0; 1]%Z.

Lemma demo_genuine c : c <> ":"%char -> c <> NUL -> genuine (demo_hearing [c]).
Proof.
  intros H1 H2. split; [|discriminate|discriminate|cbn; lia|].
  - split; [..|discriminate|cbn; lia]; repeat (constructor; [by split|]); constructor.
  - exists [cs "0"; cs "13"]. split_and!; [|discriminate|reflexivity].
    constructor; [|constructor; [|constructor]]; split_and!; vm_compute; done.
Qed.

(** "b" is heard of after "a", and then "a" again; what comes by IPv6, which
    could not be bound, is not heard. *)
Lemma adverts_reach_collection_witness :
  exists wd',
    ('(listener, open) ← indexnodes_listener_new (Some (3, 6)) 0 {[ 0; 1; 2 ]};
     indexnodes_listener_delete (hear (Indexnodes (fst (indexnodes_list_new (World ∅ (Store ∅ ∅))))))
       (Some [IfAddrs (cs "eth0") (Some AF_INET) (Some (cs "10.0.0.7"))])
       (fun d a => if (d =? AF_INET)%Z then Opened 5 0 else Opened 4 (-1)) 42444
       (wakeup_of <$> [(Some (demo_hearing (cs "a")), Some (demo_hearing (cs "c"))); (Some (demo_hearing (cs "b")), None);
                       (Some (demo_hearing (cs "a")), None)])
       sizeof_msg listener open ([10; 20; 30; 40], snd (indexnodes_list_new (World ∅ (Store ∅ ∅)))))%Z
      = Ret (([40], wd'), ∅ ∪ {[ 4 ]} ∪ {[ 0; 1; 2 ]})%Z /\
    represents (Indexnodes (fst (indexnodes_list_new (World ∅ (Store ∅ ∅))))) (count_of (Store ∅ ∅)) wd'
      [Member (cs "10.0.0.1") (cs "42000") (cs "0.13") (cs "b") 20;
       Member (cs "10.0.0.1") (cs "42000") (cs "0.13") (cs "a") 30].
Proof.
  refine (adverts_reach_collection _ (fun d a => if (d =? AF_INET)%Z then Opened 5 0 else Opened 4 (-1)) 42444
    [(Some (demo_hearing (cs "a")), Some (demo_hearing (cs "c"))); (Some (demo_hearing (cs "b")), None);
     (Some (demo_hearing (cs "a")), None)] 3 6 _ _ _ _ [] [10; 20; 30; 40] _ _ _ _ _ _)%Z.
  - apply Forall_cons. split; [|by constructor]. by split; eexists.
  - repeat (apply Forall_cons; split); [..|constructor]; split; intros h [= <-]; by apply demo_genuine.
  - split; set_solver.
  - split; intros fd rc [= <- <-]; (split_and?; [lia|..]); [set_solver..|]. intros rc'. discriminate.
  - apply new_collection; [|by intros q r v]. split; by intros.
  - vm_compute. lia.
Defined.

(** What [indexnodes_new] makes of the memory. *)
Lemma new_ok (u : startup) (p : process) (fds : list (Z * Z)) (r w : Z) :
  alarm_pipes u = piped fds -> listener_pipe u = Some (r, w) -> listener_create_rc u = 0%Z ->
  Forall (.≠ []) (hosts u) -> Forall (.≠ []) (ports u) -> length fds = length (zip (hosts u) (ports u)) ->
  new_fds (open (am p)) (fds ++ [(r, w)]) -> threads (am p) ⊆ dom (alarms (am p)) -> nodes (st (wd p)) = ∅ ->
  exists head l i p', indexnodes_new u p = Ret (i, p') /\
    i = IndexnodesT (ins_list i) (Manager head) (IndexnodesListener r w) rw_lock_new /\
    represents (ins_list i) (fun _ => 0%Z) (wd p') [] /\
    (exists a, am p' = with_open {[ r; w ]} a /\ (r ∉ open a) /\ (w ∉ open a) /\
               grown (entries p) (am p) head l (entries p') a /\
               (fun x => asked <$> alarms a !! x) <$> l.*2 = Some <$> reverse (zip (hosts u) (ports u))).
Proof.
  intros Hu Hpipe Hrc Hh Hp Hlen Hnew Hth Hnodes. apply new_fds_app in Hnew as [Hnew (Hr & Hw & _)].
  unfold indexnodes_new. destruct (indexnodes_list_new (wd p)) as [ln w0] eqn:El.
  set (m0 := Memory _ _ _).
  destruct (load_ok (config_indexnode_timeout u) (hosts u) (ports u) fds (entries p) (am p) None [] m0 Hh Hp Hth
    (grown_nil _ _) ltac:(lia) Hnew) as (head & l & m & E & HG & Hasked & _ & _ & Hopen).
  rewrite <- Hlen, firstn_all in Hopen. rewrite app_nil_r in HG.
  unfold indexnodes_statics_manager_new, LinkedList.LINKED_LIST_INIT. rewrite Hu, E, !bind_ret_l, Hpipe, Hrc.
  unfold indexnodes_listener_new. cbn [fst snd c_assert Z.eqb]. rewrite !bind_ret_l.
  eexists head, l, _, _. split; [done|]. split; [done|]. cbn [ins_list wd am entries].
  split; [|exists (Statics.am m); split; [done|]; split_and!; try done; by rewrite Hopen].
  unfold indexnodes_list_new in El. injection El as <- <-. cbn [lists st nodes]. exists [].
  split_and!; [|done|constructor|].
  - split; cbn [lists st nodes list_].
    + by rewrite lookup_insert_eq.
    + rewrite Hnodes. split; by intros.
    + rewrite Hnodes. by intros.
    + intros q Hq. by apply elem_of_nil in Hq.
  - intros q. cbn [st nodes]. by rewrite Hnodes.
Qed.

(** An alarm asks what was configured. *)
Lemma asked_configured (a : alarm_mem proto_indexnode) (ps : list nat) (zs : list (cstr * cstr)) q x :
  (fun y => asked <$> alarms a !! y) <$> ps = Some <$> reverse zs -> data_of a q = Some x -> q ∈ ps ->
  (text (Indexnode.host x), text (Indexnode.port x)) ∈ zs.
Proof.
  intros E Hx Hq. apply (list_elem_of_fmap_2 (fun y => asked <$> alarms a !! y)) in Hq. rewrite E in Hq.
  apply list_elem_of_fmap in Hq as (z & Ez & Hz). unfold data_of in Hx.
  destruct (alarms a !! q) as [al|]; [|done]. cbn in Ez, Hx. injection Ez as <-. injection Hx as <-.
  exact (proj1 (elem_of_reverse _ _) Hz).
Qed.

(** C25: the collection from libfuse's first call to its last: [indexnodes_new]
    starts the alarms of the configured indexnodes and the listener;
    [indexnodes_delete] returns, whatever packets and ticks its threads still
    met, and has given everything back: no indexnode is left, nor any thread,
    alarm, list entry or pipe; only a socket that could not be bound is still
    open. (No configured indexnode answers: [get_info_never_succeeds] says why.) *)
Theorem collection_lifecycle `{Curl} (config_alias : cstr) (escape : cstr -> cstr) (web : fetcher -> transfer)
    (u : startup) (p : process) (fds : list (Z * Z)) (r w : Z)
    (Hu : alarm_pipes u = piped fds) (Hpipe : listener_pipe u = Some (r, w)) (Hrc : listener_create_rc u = 0%Z)
    (Hhosts : Forall (.≠ []) (hosts u)) (Hports : Forall (.≠ []) (ports u))
    (Hlen : length fds = length (zip (hosts u) (ports u)))
    (Hnew : new_fds (open (am p)) (fds ++ [(r, w)]))
    (Hthreads : threads (am p) ⊆ dom (alarms (am p))) (Hnodes : nodes (st (wd p)) = ∅)
    (Hweb : forall x, (text (Indexnode.host x), text (Indexnode.port x)) ∈ zip (hosts u) (ports u) ->
            proto_indexnode_get_info config_alias escape web x = Ret (false, None, None)) :
  exists i p' ps, fsfuse_init u p = Ret (i, p') /\ length ps = length fds /\
    forall ifas net port ws turns clock,
      let o6 := net AF_INET6 (Sockaddr AF_INET6 (htons port)) in
      let o4 := net AF_INET (Sockaddr AF_INET (htons port)) in
      Forall (fun i => is_Some (sa_family i) /\ is_Some (name_info i)) ifas ->
      Forall (fun x => (forall h, x.1 = Some h -> genuine h) /\ (forall h, x.2 = Some h -> genuine h)) ws ->
      wf_network net port (open (am p')) -> in_time ps turns ->
      length (heard (bound o4) (bound o6) ws) <= length clock ->
      exists w', fsfuse_destroy config_alias escape web
          (Session (Some ifas) net port (wakeup_of <$> ws) Listener.sizeof_msg (stop_each ps turns) clock) i p' =
        Ret (Process w' (entries p) (with_open (leaked o4 ∪ leaked o6) (am p))) /\ nodes (st w') = ∅.
Proof.
  destruct (new_ok u p fds r w Hu Hpipe Hrc Hhosts Hports Hlen Hnew Hthreads Hnodes)
    as (head & l & i & p' & E & Hi & Hrep & a & Ha & Hr & Hw & HG & Hasked).
  exists i, p', l.*2. split; [exact E|]. split.
  { apply (f_equal length) in Hasked. rewrite !length_fmap, length_reverse in Hasked. by rewrite length_fmap, Hasked. }
  intros ifas net port ws turns clock o6 o4 Hifas Hws Hnet Htime Hclock. rewrite Ha in Hnet.
  destruct (reports_ok _ _ (bound o4) (bound o6) ws (wd p') [] clock Hrep Hws Hclock) as (w1 & E1 & Hrep1).
  pose proof (session_ok (hear (ins_list i)) ifas net port ws r w (open a) (clock, wd p') Hifas) as E2.
  unfold indexnodes_listener_new in E2. rewrite !bind_ret_l in E2. cbn [c_assert Z.eqb fst snd] in E2.
  rewrite !bind_ret_l in E2. fold o6 o4 in E2. rewrite E1, bind_ret_l in E2.
  unfold fsfuse_destroy, indexnodes_delete. rewrite Hi. cbn [interfaces at_net at_port packets write_rc schedules times listener ins_list statics].
  rewrite Ha. cbn [with_open alarms threads open]. rewrite E2, bind_ret_l; [|by eapply genuine_wf|done|done].
  set (L := leaked o4 ∪ leaked o6) in *. change (AlarmMem _ _ _) with (with_open L a).
  assert (L ## open a) as HL.
  { pose proof (leaked_fresh6 _ _ _ Hnet). pose proof (leaked_fresh4 _ _ _ Hnet). unfold L, o6, o4. set_solver. }
  pose proof (grown_open L _ _ _ _ _ _ HG HL) as HG'.
  rewrite (manager_delete_ok config_alias escape web (hear (ins_list i)) (entries p) (with_open L (am p)) head l
    (Memory (entries p') (with_open L a) ∅) turns) by done.
  cbn [Statics.am strings]. rewrite calls_idle, !bind_ret_l.
  - cbn [snd Statics.entries Statics.am]. destruct (list_freed _ _ _ Hrep1) as (w' & -> & Hw'). rewrite bind_ret_l. by exists w'.
  - intros q x s Hx Hq. unfold ping_indexnode. rewrite Hweb, bind_ret_l; [done|].
    apply (asked_configured a l.*2 (zip (hosts u) (ports u)) q x Hasked); [exact Hx|].
    apply list_elem_of_fmap in Hq as (y & -> & Hy). pose proof (in_time_names _ _ Htime) as HF.
    rewrite Forall_forall in HF. by apply HF.
Qed.

(** One indexnode is configured and cannot be reached; its thread ticks once
    before it is stopped. A packet announces "a" by IPv4; IPv6 cannot be bound,
    and its socket stays open. *)
Lemma collection_lifecycle_witness :
  let u := Startup 5 [cs "index.example"] [cs "42000"] (piped [(3, 6)]%Z) (Some (7, 8)%Z) 0 in
  let p := Process (World ∅ (Store ∅ ∅)) ∅ (AlarmMem ∅ ∅ {[ 0; 1; 2 ]}%Z) in
  let web := fun _ => Transfer [] CURLE_COULDNT_CONNECT 0 in
  let net := fun (d : Z) (a : sockaddr) => if (d =? AF_INET)%Z then Opened 5 0 else Opened 4 (-1) in
  exists i p' ps, fsfuse_init u p = Ret (i, p') /\ length ps = 1 /\
    forall turns, wf_network net 42444 (open (am p')) -> in_time ps turns ->
      exists w', @fsfuse_destroy script_curl (cs "me") (fun x => x) web
          (Session (Some [IfAddrs (cs "eth0") (Some AF_INET) (Some (cs "10.0.0.7"))]) net 42444
             (wakeup_of <$> [(Some (demo_hearing (cs "a")), None)]) Listener.sizeof_msg (stop_each ps turns) [10%Z]) i p' =
        Ret (Process w' ∅ (with_open ({[ 4 ]} ∪ ∅)%Z (AlarmMem ∅ ∅ {[ 0; 1; 2 ]}%Z))) /\ nodes (st w') = ∅.
Proof.
  intros u p web net.
  destruct (@collection_lifecycle script_curl (cs "me") (fun x => x) web u p [(3, 6)]%Z 7 8) as (i & p' & ps & E & Hlen & Hlife).
  - done.
  - done.
  - done.
  - by repeat constructor.
  - by repeat constructor.
  - done.
  - cbn. set_solver.
  - done.
  - done.
  - intros [[n1 t1] [n2 t2]] Hx. cbn [hosts ports u zip zip_with] in Hx. apply list_elem_of_singleton in Hx as [= -> ->].
    reflexivity.
  - exists i, p', ps. split; [done|]. split; [done|]. intros turns Hnet Htime.
    destruct (Hlife [IfAddrs (cs "eth0") (Some AF_INET) (Some (cs "10.0.0.7"))] net 42444%Z
      [(Some (demo_hearing (cs "a")), None)] turns [10%Z]) as (w' & E' & Hw').
    + apply Forall_cons. split; [|by constructor]. by split; eexists.
    + repeat (apply Forall_cons; split); [..|constructor]; split; intros h [= <-]; by apply demo_genuine.
    + done.
    + done.
    + vm_compute. lia.
    + exists w'. split; [|done]. by rewrite E'.
Defined.
