(* ===== verification/Config.v ===== *)
(** * config/: the configuration

    A stack of layers: the defaults, the files that could be read, the command
    line. A reader looks an item up from the top of the stack down. The item
    table and the getters are generated from config-config.xml by the style
    sheets beside it, and libxml2's XPath evaluation is a parameter. *)
From stdpp Require Import functions.
From S2P Require Import Prelude CLib.

(** ** The data *)

(** The items of config-config.xml. *)
Inductive symbol :=
| alias | timeout_chunk | timeout_cache | indexnode_autodetect_listen | indexnode_advert_port
| indexnode_timeout | indexnode_hosts | indexnode_ports | attr_mode_file | attr_mode_dir
| attr_id_uid | attr_id_gid | proc_debug | proc_singlethread | proc_fg | option_cache
| option_cache_negative | peers_favourites | peers_blocked.
#[export] Instance symbol_eq_dec : EqDecision symbol.
Proof. solve_decision. Defined.

Inductive config_item_type_t :=
| config_item_type_STRING | config_item_type_INTEGER | config_item_type_STRING_COLLECTION.

(** A collection's cells before its null; [None] is one that was not written. *)
Inductive value :=
| VString (s : cstr)
| VInt (z : Z)
| VCollection (l : list (option cstr)).
#[export] Instance value_eq_dec : EqDecision value.
Proof. solve_decision. Defined.

(** [config_data_t]: an item that is not present is [None]. *)
Definition config_data : Type := symbol -> option value.

Definition type_of (s : symbol) : config_item_type_t :=
  match s with
  | alias => config_item_type_STRING
  | indexnode_hosts | indexnode_ports | peers_favourites | peers_blocked =>
      config_item_type_STRING_COLLECTION
  | _ => config_item_type_INTEGER
  end.

Definition xpath_of (s : symbol) : cstr :=
  match s with
  | alias => cs "/config/alias/text()"
  | timeout_chunk => cs "/config/timeouts/chunk/text()"
  | timeout_cache => cs "/config/timeouts/cache/text()"
  | indexnode_autodetect_listen => cs "/config/indexnode/autodetect/listen/text()"
  | indexnode_advert_port => cs "/config/indexnode/autodetect/advert_port/text()"
  | indexnode_timeout => cs "/config/indexnode/timeout/text()"
  | indexnode_hosts => cs "/config/indexnode/host/text()"
  | indexnode_ports => cs "/config/indexnode/port/text()"
  | attr_mode_file => cs "/config/node-attrs/mode/file/text()"
  | attr_mode_dir => cs "/config/node-attrs/mode/directory/text()"
  | attr_id_uid => cs "/config/node-attrs/id/uid/text()"
  | attr_id_gid => cs "/config/node-attrs/id/gid/text()"
  | proc_debug => cs "/config/process/debug/text()"
  | proc_singlethread => cs "/config/process/single-thread/text()"
  | proc_fg => cs "/config/process/foreground/text()"
  | option_cache => cs "/config/options/cache/text()"
  | option_cache_negative => cs "/config/options/cache_negative/text()"
  | peers_favourites => cs "/config/peers/favourites/favourite/text()"
  | peers_blocked => cs "/config/peers/blocked/block/text()"
  end.

(** [config_xml_info] *)
Definition config_xml_info : list symbol :=
  [alias; timeout_chunk; timeout_cache; indexnode_autodetect_listen; indexnode_advert_port;
   indexnode_timeout; indexnode_hosts; indexnode_ports; attr_mode_file; attr_mode_dir;
   attr_id_uid; attr_id_gid; proc_debug; proc_singlethread; proc_fg; option_cache;
   option_cache_negative; peers_favourites; peers_blocked].

(** Every item is present in the defaults; 0444 and 0555 are octal. *)
Definition config_defaults_get (s : symbol) : value :=
  match s with
  | alias => VString (cs "[fsfuse]Anonymous")
  | timeout_chunk | indexnode_timeout => VInt 5
  | timeout_cache => VInt 60
  | indexnode_autodetect_listen | option_cache | option_cache_negative => VInt 1
  | indexnode_advert_port => VInt 42444
  | indexnode_hosts | indexnode_ports | peers_favourites | peers_blocked => VCollection []
  | attr_mode_file => VInt 292
  | attr_mode_dir => VInt 365
  | attr_id_uid | attr_id_gid => VInt (-1)
  | proc_debug | proc_singlethread | proc_fg => VInt 0
  end.

(** ** The code: config_loader.c *)

(** [xmlXPathEvalExpression] on a document: the nodes found, each with its
    content if it is a text node; [None] if the result is no node set. *)
Definition document : Type := cstr -> option (list (option cstr)).

Definition xpath_get_array (xpath : cstr) (doc : document) : list (option cstr) :=
  match doc xpath with Some nodes => nodes | None => [] end.

Definition xpath_get (xpath : cstr) (doc : document) : option cstr :=
  match doc xpath with Some [Some content] => Some content | _ => None end.

(** [offsetof] the members the generator declares: the item's pointer or [int],
    aligned to its size, then the [int] that says it is present. *)
Definition sizeof_item (t : config_item_type_t) : nat :=
  match t with config_item_type_INTEGER => 4 | _ => 8 end.
Definition align (size n : nat) : nat := (n + size - 1) / size * size.
Fixpoint layout (n : nat) (items : list symbol) : list (nat * symbol) * nat :=
  match items with
  | [] => ([], align 8 n)
  | s :: items =>
      let size := sizeof_item (type_of s) in
      let offset := align size n in
      let '(l, total) := layout (offset + size + 4) items in
      ((offset, s) :: l, total)
  end.
(** The offsets of [config_xml_info], and [sizeof(config_data_t)]. *)
Definition item_offsets : list (nat * symbol) := fst (layout 0 config_xml_info).
Definition sizeof_config_data : nat := snd (layout 0 config_xml_info).

(** [config_data_t] in memory: each byte is part of a value that was written
    there, the so-manyth; those of [calloc] are zero. *)
Definition bytes : Type := nat -> option (value * nat).
Definition calloc_bytes : bytes := fun _ => None.
Definition write_at (size offset : nat) (v : value) (m : bytes) : bytes :=
  fun b => if (offset <=? b) && (b <? offset + size) then Some (v, b - offset) else m b.
Definition read_at (size offset : nat) (m : bytes) : option value :=
  '(v, _) ← m offset;
  if forallb (fun k => bool_decide (m (offset + k) = Some (v, k))) (seq 0 size) then Some v else None.

(** The body of the loop: a member of its type at the offset, and the [int]
    after it, through casts. *)
Definition load_item (doc : document) (m : bytes) (item : nat * symbol) : bytes :=
  let '(offset, s) := item in
  match type_of s with
  | config_item_type_STRING =>
      match xpath_get (xpath_of s) doc with
      | Some val => write_at 4 (offset + 8) (VInt 1) (write_at 8 offset (VString val) m)
      | None => m
      end
  | config_item_type_INTEGER =>
      match xpath_get (xpath_of s) doc with
      | Some val => write_at 4 (offset + 4) (VInt 1) (write_at 4 offset (VInt (i32 (strtoul0 val))) m)
      | None => m
      end
  | config_item_type_STRING_COLLECTION =>
      let val_array := xpath_get_array (xpath_of s) doc in
      write_at 4 (offset + 8) (VInt 1) (write_at 8 offset (VCollection val_array) m)
  end.

(** A member, if the [int] declared after it says that it is present. *)
Definition member_at (item : nat * symbol) (m : bytes) : option value :=
  let '(offset, s) := item in
  let size := sizeof_item (type_of s) in
  match read_at 4 (offset + size) m with
  | Some (VInt present) => if (present =? 0)%Z then None else read_at size offset m
  | _ => None
  end.
Definition members (m : bytes) : config_data := fun s =>
  '(_, item) ← list_find (fun item => snd item = s) item_offsets; member_at item m.

(** The loop over the table; the getters read the members by their names. *)
Definition load_items (doc : document) : config_data :=
  members (foldl (load_item doc) calloc_bytes item_offsets).

(** [None] is a file that cannot be read or parsed. *)
Definition config_loader_tryread_from_file (file : option document) : option config_data :=
  match file with Some doc => Some (load_items doc) | None => None end.

(** What a member points to: a string's block, or an array and its strings'. *)
Inductive owned :=
| OwnedString (block : nat)
| OwnedCollection (block : nat) (strings : list nat).

Definition string_collection_free (block : nat) (strings : list nat) : list nat :=
  strings ++ [block].

(** The blocks that are freed. [data + item->offset] is that many whole
    structures on; [memory] is what is found that many bytes from [data]. *)
Fixpoint items_free (memory : nat -> option owned) (items : list (nat * symbol))
  : outcome (list nat) :=
  match items with
  | [] => Ret []
  | (offset, s) :: items =>
      if bool_decide (offset = 0) then Ret []
      else
        freed ← match type_of s with
                | config_item_type_INTEGER => Ret []
                | _ =>
                    o ← deref (memory (offset * sizeof_config_data));
                    match o with
                    | OwnedString b => Ret [b]
                    | OwnedCollection b l => Ret (string_collection_free b l)
                    end
                end;
        rest ← items_free memory items;
        Ret (freed ++ rest)
  end.
Definition config_loader_items_free (memory : nat -> option owned) : outcome (list nat) :=
  items_free memory item_offsets.

(** ** The code: config_manager.c *)

(** [data_stack], the newest layer last; [realloc] gives it a new [address]
    with each layer. The singleton does not exist until it is asked for. *)
Record config_manager := ConfigManager {
  address : nat;
  data_stack : list config_data
}.

Definition data_push (data : config_data) (mgr : config_manager) : config_manager :=
  ConfigManager (S (address mgr)) (data_stack mgr ++ [data]).

Definition config_singleton_get (singleton : option config_manager) : config_manager :=
  match singleton with
  | Some mgr => mgr
  | None => data_push (fun s => Some (config_defaults_get s)) (ConfigManager 0 [])
  end.

(** Frees the strings of every layer, then the manager. *)
Definition config_singleton_delete (singleton : option config_manager)
  : outcome (option config_manager) :=
  _ ← c_assert (bool_decide (is_Some singleton)); Ret None.

Definition config_manager_add_from_file (file : option document) (singleton : option config_manager)
  : Z * option config_manager :=
  let mgr := config_singleton_get singleton in
  match config_loader_tryread_from_file file with
  | Some data => (0%Z, Some (data_push data mgr))
  | None => (1%Z, Some mgr)
  end.

(** An [int] parameter and whether it was set. *)
Definition flag (set : bool) (z : Z) : option value := if set then Some (VInt z) else None.

Definition config_manager_add_from_cmdline (debug_set : bool) (debug : Z)
    (singlethread_set : bool) (singlethread : Z) (fg_set : bool) (fg : Z)
    (singleton : option config_manager) : option config_manager :=
  let mgr := config_singleton_get singleton in
  let data : config_data :=
    <[proc_debug := flag debug_set debug]>
      (<[proc_singlethread := flag singlethread_set singlethread]>
        (<[proc_fg := flag fg_set fg]> (fun _ => None))) in
  Some (data_push data mgr).

(** ** The code: config_reader.c and the generated getters *)

(** A pointer to the stack and its length. *)
Record config_reader := ConfigReader { datas : nat; datas_len : nat }.

Definition config_get_reader (singleton : option config_manager)
  : config_reader * option config_manager :=
  let mgr := config_singleton_get singleton in
  (ConfigReader (address mgr) (length (data_stack mgr)), Some mgr).

(** The search from the last layer down. *)
Fixpoint config_search (s : symbol) (layers : list config_data) : outcome value :=
  match layers with
  | [] => AssertFail
  | data :: layers =>
      match data s with Some v => Ret v | None => config_search s layers end
  end.

(** A pointer that was reallocated is no pointer. *)
Definition config_get (s : symbol) (reader : config_reader) (singleton : option config_manager)
  : outcome value :=
  mgr ← deref singleton;
  if address mgr =? datas reader
  then config_search s (reverse (take (datas_len reader) (data_stack mgr)))
  else Undef.

(** ** Facts *)

Lemma read_write_same size offset v m : 0 < size -> read_at size offset (write_at size offset v m) = Some v.
Proof.
  intros Hs. unfold read_at, write_at. rewrite (proj2 (Nat.leb_le offset offset)), (proj2 (Nat.ltb_lt offset _)) by lia.
  cbn [andb mbind option_bind]. rewrite (proj2 (forallb_forall _ _)); [done|]. intros k [_ Hk]%in_seq.
  apply bool_decide_eq_true. rewrite (proj2 (Nat.leb_le _ _)), (proj2 (Nat.ltb_lt _ _)) by lia. cbn [andb].
  do 2 f_equal. lia.
Qed.

Lemma read_ext size offset m m' :
  0 < size -> (forall b, offset <= b < offset + size -> m b = m' b) -> read_at size offset m = read_at size offset m'.
Proof.
  intros Hs Hb. unfold read_at. rewrite (Hb offset) by lia. destruct (m' offset) as [[v k]|]; [|done].
  cbn [mbind option_bind]. assert (forall l, (forall k, k ∈ l -> k < size) ->
    forallb (fun k => bool_decide (m (offset + k) = Some (v, k))) l =
    forallb (fun k => bool_decide (m' (offset + k) = Some (v, k))) l) as ->; [|done|].
  - induction l as [|x l IH]; intros Hl; [done|]. cbn [forallb].
    rewrite IH by (intros; apply Hl; by apply list_elem_of_further).
    by rewrite Hb by (pose proof (Hl x (list_elem_of_here _ _)); lia).
  - intros x Hx. apply list_elem_of_In, in_seq in Hx. lia.
Qed.

Lemma read_write_other size offset size' offset' v m :
  0 < size -> offset + size <= offset' \/ offset' + size' <= offset ->
  read_at size offset (write_at size' offset' v m) = read_at size offset m.
Proof.
  intros Hs Hd. apply read_ext; [done|]. intros b Hb. unfold write_at.
  destruct (Nat.leb_spec offset' b), (Nat.ltb_spec b (offset' + size')); try done. lia.
Qed.

(** What the document has for an item, whatever its place. *)
Definition item_value (doc : document) (s : symbol) : option value :=
  match type_of s with
  | config_item_type_STRING => VString <$> xpath_get (xpath_of s) doc
  | config_item_type_INTEGER => (fun val => VInt (i32 (strtoul0 val))) <$> xpath_get (xpath_of s) doc
  | config_item_type_STRING_COLLECTION => Some (VCollection (xpath_get_array (xpath_of s) doc))
  end.

Lemma load_item_eq doc m offset s :
  load_item doc m (offset, s) =
    match item_value doc s with
    | Some v => write_at 4 (offset + sizeof_item (type_of s)) (VInt 1)
                  (write_at (sizeof_item (type_of s)) offset v m)
    | None => m
    end.
Proof. unfold load_item, item_value. by destruct (type_of s), (xpath_get (xpath_of s) doc). Qed.

Lemma size_positive t : 0 < sizeof_item t.
Proof. destruct t; cbn; lia. Qed.
#[local] Hint Resolve size_positive Nat.lt_0_succ : core.

(** Members that do not overlap, with what says that they are present. *)
Definition apart (x y : nat * symbol) : Prop :=
  fst x + sizeof_item (type_of (snd x)) + 4 <= fst y \/ fst y + sizeof_item (type_of (snd y)) + 4 <= fst x.
#[local] Instance apart_dec x y : Decision (apart x y).
Proof. unfold apart. apply _. Defined.

Lemma member_same doc x m :
  member_at x (load_item doc m x) = from_option Some (member_at x m) (item_value doc (snd x)).
Proof.
  destruct x as [offset s]. rewrite load_item_eq. cbn [snd]. destruct (item_value doc s) as [v|]; [|done].
  unfold member_at. rewrite read_write_same by lia. cbn. rewrite read_write_other by (auto || lia).
  by apply read_write_same.
Qed.

Lemma member_apart doc x y m : apart x y -> member_at x (load_item doc m y) = member_at x m.
Proof.
  destruct x as [offset s], y as [offset' s']. unfold apart. cbn [fst snd]. intros Ha. rewrite load_item_eq.
  destruct (item_value doc s'); [|done]. unfold member_at.
  assert (forall size o v1 v2, 0 < size -> offset <= o -> o + size <= offset + sizeof_item (type_of s) + 4 ->
    read_at size o (write_at 4 (offset' + sizeof_item (type_of s')) v1
      (write_at (sizeof_item (type_of s')) offset' v2 m)) = read_at size o m) as E.
  { intros size o v1 v2 H1 H2 H3. by rewrite !read_write_other by lia. }
  pose proof (size_positive (type_of s)). by rewrite !E by lia.
Qed.

Lemma load_loop doc x l m :
  Forall (fun y => x = y \/ apart x y) l ->
  member_at x (foldl (load_item doc) m l) =
    if decide (x ∈ l) then from_option Some (member_at x m) (item_value doc (snd x)) else member_at x m.
Proof.
  intros HF. revert m. induction HF as [|y l Hy HF IH]; intros m; [done|]. cbn [foldl]. rewrite IH.
  destruct (decide (x = y)) as [<-|Hne].
  - rewrite (decide_True (P := x ∈ x :: l)) by apply list_elem_of_here. rewrite member_same.
    by case_decide; destruct (item_value doc (snd x)).
  - destruct Hy as [->|Ha]; [done|]. rewrite (member_apart doc x y m Ha).
    destruct (decide (x ∈ l)) as [Hl|Hl].
    + by rewrite decide_True by by apply list_elem_of_further.
    + rewrite decide_False; [done|]. intros H. by apply elem_of_cons in H as [|].
Qed.

(** The layout the generator's declarations have keeps the members apart. *)
Lemma offsets_apart : Forall (fun x => Forall (fun y => x = y \/ apart x y) item_offsets) item_offsets.
Proof. apply (bool_decide_unpack _). by vm_compute. Qed.

Lemma offset_found s :
  exists i offset, list_find (fun item => snd item = s) item_offsets = Some (i, (offset, s)) /\
    (offset, s) ∈ item_offsets.
Proof.
  assert (is_Some (list_find (fun item => snd item = s) item_offsets)) as [[i [offset s']] E]
    by (destruct s; vm_compute; eauto).
  pose proof E as (Hi & Es & _)%list_find_Some. cbn in Es. subst s'. exists i, offset. split; [done|].
  by eapply list_elem_of_lookup_2.
Qed.

(** So every member that the loop wrote is found, and no other. *)
Lemma load_spec doc s : load_items doc s = item_value doc s.
Proof.
  unfold load_items, members. destruct (offset_found s) as (i & offset & -> & Hin). cbn [mbind option_bind].
  pose proof offsets_apart as HF. rewrite Forall_forall in HF. rewrite load_loop, decide_True by auto.
  cbn [snd]. by destruct (item_value doc s).
Qed.

(** The last of the layers that has an item. *)
Definition effective (layers : list config_data) (s : symbol) : option value :=
  last (omap (fun data => data s) layers).

Lemma search_spec s layers :
  config_search s (reverse layers) = match effective layers s with Some v => Ret v | None => AssertFail end.
Proof.
  induction layers as [|data layers IH] using rev_ind; [done|].
  rewrite reverse_app. cbn [reverse rev_append app config_search]. unfold effective in *.
  rewrite omap_app, last_app. change (reverse [data] ++ reverse layers) with (data :: reverse layers).
  cbn [config_search omap list_omap]. destruct (data s); cbn; [done|]. by rewrite IH.
Qed.

(** Ways to add a layer. *)
Inductive source :=
| File (file : option document)
| Cmdline (debug_set : bool) (debug : Z) (singlethread_set : bool) (singlethread : Z)
    (fg_set : bool) (fg : Z).

Definition add_source (singleton : option config_manager) (x : source) : option config_manager :=
  match x with
  | File file => snd (config_manager_add_from_file file singleton)
  | Cmdline ds d ss s fs f => config_manager_add_from_cmdline ds d ss s fs f singleton
  end.

(** The layer a source gives, if any. *)
Definition layer_of (x : source) : option config_data :=
  match x with
  | File file => config_loader_tryread_from_file file
  | Cmdline ds d ss s fs f => Some (fun i =>
      match i with
      | proc_debug => flag ds d
      | proc_singlethread => flag ss s
      | proc_fg => flag fs f
      | _ => None
      end)
  end.

Definition defaults : config_data := fun s => Some (config_defaults_get s).

Lemma add_source_stack singleton x s :
  effective (data_stack (config_singleton_get (add_source singleton x))) s =
  effective (data_stack (config_singleton_get singleton) ++ option_list (layer_of x)) s.
Proof.
  destruct x as [file|ds d ss sv fs f]; cbn [add_source layer_of].
  - unfold config_manager_add_from_file. destruct (config_loader_tryread_from_file file); cbn; [done|].
    by rewrite app_nil_r.
  - cbn. unfold effective. rewrite !omap_app. do 2 f_equal. cbn [omap list_omap].
    destruct s; cbn; reflexivity.
Qed.

Lemma effective_app a b s :
  effective (a ++ b) s = match effective b s with Some v => Some v | None => effective a s end.
Proof. unfold effective. by rewrite omap_app, last_app. Qed.

(** What a run of sources gives an item. *)
Definition setting (xs : list source) (s : symbol) : option value :=
  last (omap (fun x => data ← layer_of x; data s) xs).

Lemma effective_sources xs s :
  effective (data_stack (config_singleton_get (foldl add_source None xs))) s =
  Some (default (config_defaults_get s) (setting xs s)).
Proof.
  induction xs as [|x xs IH] using rev_ind; [done|].
  rewrite foldl_app. cbn [foldl]. rewrite add_source_stack, effective_app, IH.
  unfold setting. rewrite omap_app, last_app. cbn [omap list_omap].
  destruct (layer_of x) as [d|]; cbn; [|done]. unfold effective. cbn [omap list_omap].
  by destruct (d s).
Qed.

(** A reader made after the last source. *)
Definition read_config (s : symbol) (xs : list source) : outcome value :=
  let '(reader, singleton) := config_get_reader (foldl add_source None xs) in
  config_get s reader singleton.

Lemma read_config_ok s xs :
  read_config s xs = Ret (default (config_defaults_get s) (setting xs s)).
Proof.
  unfold read_config, config_get_reader, config_get. cbn [deref datas datas_len].
  rewrite bind_ret_l, Nat.eqb_refl, take_ge by done. by rewrite search_spec, effective_sources.
Qed.

(** ** Properties *)

(** C17: whatever files can be read and whatever the command line sets, in any
    order, a reader finds for each item the value of the last source that has
    it, and the default if none has: the search never fails its assertion. *)
Theorem config_reads_latest (xs : list source) (s : symbol) :
  read_config s xs = Ret (default (config_defaults_get s) (setting xs s)).
Proof. apply read_config_ok. Qed.

(** A value of an item's type; an integer is an [int]. *)
Definition has_type (v : value) (t : config_item_type_t) : Prop :=
  match v, t with
  | VString _, config_item_type_STRING => True
  | VInt z, config_item_type_INTEGER => (-2 ^ 31 <= z < 2 ^ 31)%Z
  | VCollection _, config_item_type_STRING_COLLECTION => True
  | _, _ => False
  end.

Definition typed (data : config_data) : Prop := forall s v, data s = Some v -> has_type v (type_of s).

Definition int_args (x : source) : Prop :=
  match x with
  | File _ => True
  | Cmdline _ d _ st _ fg => Forall (fun z => -2 ^ 31 <= z < 2 ^ 31)%Z [d; st; fg]
  end.

Lemma defaults_typed s : has_type (config_defaults_get s) (type_of s).
Proof. by destruct s. Qed.

Lemma item_value_typed doc s v : item_value doc s = Some v -> has_type v (type_of s).
Proof.
  unfold item_value. destruct (type_of s); [..|by intros [= <-]];
    destruct (xpath_get _ _) as [t|]; intros [= <-]; [done|]. apply i32_range.
Qed.

Lemma layer_typed x data : int_args x -> layer_of x = Some data -> typed data.
Proof.
  destruct x as [[doc|]|ds d ss st fs fg]; cbn [layer_of config_loader_tryread_from_file]; intros Hi [= <-] s v.
  - rewrite load_spec. apply item_value_typed.
  - apply Forall_cons in Hi as [Hd [Hs [Hf _]%Forall_cons]%Forall_cons].
    destruct s; try discriminate; unfold flag; case_match; intros [= <-]; done.
Qed.

(** C31: the configuration is well typed: whatever the files contain, in
    whatever order they and the command line are read, the value a getter
    finds has the type that the table of config-config.xml declares for its
    item, an integer within an [int]. The getters cast what they find to that
    type. *)
Theorem configuration_is_typed (xs : list source) (s : symbol) (Hints : Forall int_args xs) :
  exists v, read_config s xs = Ret v /\ has_type v (type_of s).
Proof.
  rewrite read_config_ok. eexists. split; [done|]. unfold setting.
  destruct (last _) as [v|] eqn:E; cbn [default]; [|apply defaults_typed].
  apply last_Some_elem_of, list_elem_of_omap in E as (x & Hx & Hv). rewrite Forall_forall in Hints.
  destruct (layer_of x) as [data|] eqn:El; [|done]. exact (layer_typed x data (Hints x Hx) El s v Hv).
Qed.

Lemma configuration_is_typed_witness : exists v,
  read_config proc_debug [File (Some (fun _ => Some [Some (cs "4294967297")])); Cmdline true 1 false 0 false 0] = Ret v /\
  has_type v config_item_type_INTEGER.
Proof.
  apply (configuration_is_typed [File (Some (fun _ => Some [Some (cs "4294967297")])); Cmdline true 1 false 0 false 0] proc_debug).
  apply Forall_cons. split; [done|]. apply Forall_cons. split; [|constructor].
  cbn [int_args]. repeat (apply Forall_cons; split; [lia|]). constructor.
Defined.

(** But a readable file has every collection: one without an element for
    it has the empty collection, which hides those of the files before it, so
    the indexnodes and peers of /etc/fsfuserc are gone when a later file does
    not repeat them. *)
Theorem later_file_empties_collections (xs : list source) (doc : document) (s : symbol)
    (Htype : type_of s = config_item_type_STRING_COLLECTION)
    (Hmissing : default [] (doc (xpath_of s)) = []) :
  read_config s (xs ++ [File (Some doc)]) = Ret (VCollection []).
Proof.
  rewrite read_config_ok. unfold setting. rewrite omap_app, last_app. cbn [omap list_omap layer_of].
  unfold config_loader_tryread_from_file. cbn [mbind option_bind]. rewrite load_spec.
  unfold item_value. rewrite Htype. unfold xpath_get_array.
  by destruct (doc (xpath_of s)) as [l|]; cbn in *; subst.
Qed.

(** A file with one indexnode, then one that only sets the alias. *)
Definition demo_system_file : document := fun xpath =>
  if streq xpath (xpath_of indexnode_hosts) then Some [Some (cs "index.example")] else Some [].
Definition demo_user_file : document := fun xpath =>
  if streq xpath (xpath_of alias) then Some [Some (cs "me")] else Some [].

Lemma later_file_empties_collections_witness :
  read_config indexnode_hosts [File (Some demo_system_file)]
    = Ret (VCollection [Some (cs "index.example")]) /\
  read_config indexnode_hosts [File (Some demo_system_file); File (Some demo_user_file)]
    = Ret (VCollection []).
Proof.
  split; [vm_compute; reflexivity|].
  apply (later_file_empties_collections [File (Some demo_system_file)] demo_user_file indexnode_hosts);
    reflexivity.
Defined.

(** ** Giving a layer back *)

(** The loop over the table takes the offset of the first item for its end:
    nothing is freed, whatever the layer holds. *)
Lemma items_free_nothing memory : config_loader_items_free memory = Ret [].
Proof. reflexivity. Qed.
