(* ===== verification/Main.v ===== *)
(** * fsfuse.c: the program

    [main] stacks the configuration, reads the command line and hands over to
    libfuse. getopt, realpath, libfuse, uname, the versions of the libraries and
    the system calls of the initialisers are parameters: what they return; the
    initialisers are those of the other files. What the program prints and the
    calls it makes are a log. *)
From S2P Require Import Utils Fetcher Direntry.
From S2P Require Import Prelude CLib Trace StringBuffer Config.

(** ** The code *)

Inductive start_action_t := start_action_MOUNT | start_action_VERSION | start_action_USAGE.

Record mountpoint_t := Mountpoint {
  real : option cstr;
  raw : option cstr;
  error : option cstr
}.

(** A result of [getopt_long] and [optarg]. *)
Record opt := Opt { opt_char : ascii; optarg : cstr }.

(** The results for "c:"; what is not [-c] is '?'. *)
Fixpoint settings_tryget_config_file (opts : list opt) : outcome (option cstr) :=
  match opts with
  | [] => Ret None
  | o :: opts =>
      if bool_decide (opt_char o = "c"%char) then Ret (Some (optarg o))
      else if bool_decide (opt_char o = "?"%char) then settings_tryget_config_file opts
      else AssertFail
  end.

Record flags := Flags {
  action : start_action_t;
  proc_debug_set : bool;
  proc_fg_set : bool;
  proc_singlethread_set : bool
}.

(** The [switch]; a flag that is set has the value 1. In a release build
    [TRACE_ARG] is empty. *)
Definition parse_option (o : opt) (f : flags) : outcome flags :=
  let c := opt_char o in
  if bool_decide (c = "c"%char) then Ret f
  else if bool_decide (c = "d"%char) then Ret (Flags (action f) true true (proc_singlethread_set f))
  else if bool_decide (c = "f"%char)
  then Ret (Flags (action f) (proc_debug_set f) true (proc_singlethread_set f))
  else if bool_decide (c = "s"%char)
  then Ret (Flags (action f) (proc_debug_set f) (proc_fg_set f) true)
  else if bool_decide (c = "t"%char) then Ret f
  else if bool_decide (c = "v"%char)
  then Ret (Flags start_action_VERSION (proc_debug_set f) (proc_fg_set f) (proc_singlethread_set f))
  else if bool_decide (c = "h"%char) || bool_decide (c = "?"%char)
  then Ret (Flags start_action_USAGE (proc_debug_set f) (proc_fg_set f) (proc_singlethread_set f))
  else if bool_decide (c = "o"%char) then Ret f
  else AssertFail.

Definition parse_options (opts : list opt) : outcome flags :=
  foldl (fun m o => f ← m; parse_option o f) (Ret (Flags start_action_MOUNT false false false)) opts.

(** The mount point, from the arguments after the options; [realpath] gives the
    path or an error's text. *)
Definition parse_mountpoint (realpath : cstr -> cstr + cstr) (args : list cstr) : mountpoint_t :=
  match args with
  | _ :: p :: _ =>
      match realpath p with
      | inl r => Mountpoint (Some r) (Some p) None
      | inr e => Mountpoint None (Some p) (Some e)
      end
  | _ => Mountpoint None None None
  end.

Definition settings_parse_command_line (realpath : cstr -> cstr + cstr) (opts : list opt)
    (args : list cstr) (singleton : option config_manager)
  : outcome (start_action_t * mountpoint_t * option config_manager) :=
  f ← parse_options opts;
  let singleton := config_manager_add_from_cmdline
    (proc_debug_set f) 1
    (proc_fg_set f) 1
    (proc_singlethread_set f) 1 singleton in
  Ret (action f, parse_mountpoint realpath args, singleton).

(** [string_buffer_printf] then [string_buffer_peek], [fuse_opt_add_arg]
    copying what it is given. *)
Definition add_arg (arg : cstr) (st : string_buffer * list cstr)
  : outcome (string_buffer * list cstr) :=
  my_arg ← string_buffer_printf (fst st) arg;
  Ret (my_arg, snd st ++ [until_nul (default NUL <$> string_buffer_peek my_arg)]).

(** What [main] does, in order: texts printed, calls of libfuse, and the other
    parts' initialisers and finalisers. *)
Inductive part := trace_part | utils_part | locale_part | fetcher_part | direntry_part.
Inductive call :=
| printf (text : cstr)
| fprintf_stderr (text : cstr)
| init (p : part)
| finalise (p : part)
| fuse_parse_cmdline (args : list cstr)
| fuse_mount (path : cstr) (args : list cstr)
| fuse_lowlevel_new (args : list cstr)
| fuse_set_signal_handlers
| fuse_session_add_chan
| fuse_daemonize (foreground : bool)
| fuse_session_loop
| fuse_session_loop_mt
| fuse_session_remove_chan
| fuse_remove_signal_handlers
| fuse_session_destroy
| fuse_unmount (path : cstr).

(** trace.c's console printing, to an empty standard error. *)
Definition warning (text : cstr) : call := fprintf_stderr (trace_print (cs "WARN") text []).
Definition failure (text : cstr) : call := fprintf_stderr (trace_print (cs "ERROR") text []).

(** glibc's ["%s"] *)
Definition print_str (s : option cstr) : cstr := default (cs "(null)") s.

(** "Unknown command line arguments": those after the mount point. *)
Definition warn_arguments (args : list cstr) : list call :=
  match drop 2 args with
  | [] => []
  | extra =>
      [warning (line (cs "Unknown command line arguments."));
       printf (cs "non-option argv elements: " ++ concat ((fun a => a ++ cs " ") <$> extra) ++
               newline)]
  end.

(** What the system and the libraries say they are. *)
Record versions := Versions {
  build_revision : cstr;
  sysname : cstr;
  release : cstr;
  compiler : cstr;
  compiler_version : cstr;
  FUSE_VERSION : Z;             (* what the program was built against *)
  curl_version : cstr;
  LIBXML_DOTTED_VERSION : cstr
}.

Definition FSFUSE_NAME : cstr := cs "fsfuse".
Definition FSFUSE_VERSION : cstr := cs "0.5.0".
Definition FSFUSE_DATE : cstr := cs "August 2012".
Definition FSFUSE_COPYRIGHT : cstr :=
  cs "Copyright (C) 2008-2019 Matthew Turner. Distributed under the GPL v3.".

Definition MAX_FUSE_VERSION : Z := 30.
Definition FUSE_USE_VERSION (vs : versions) : Z := Z.min (FUSE_VERSION vs) MAX_FUSE_VERSION.

Definition fsfuse_splash (vs : versions) : list call :=
  [printf (line (FSFUSE_NAME ++ cs " - FragSoc Filesystem in USErspace") ++
           line (cs "Version " ++ FSFUSE_VERSION ++ cs " - " ++ FSFUSE_DATE ++
                 cs " (commit " ++ build_revision vs ++ cs ")") ++
           line (line FSFUSE_COPYRIGHT))].

(** [fuse_version] is the installed library's. *)
Definition fsfuse_versions (vs : versions) (fuse_version : Z) : outcome (list call) :=
  let text :=
    line (cs "Using kernel " ++ sysname vs ++ cs " " ++ release vs) ++
    line (cs "Compiled with " ++ compiler vs ++ cs " " ++ compiler_version vs) ++
    line (cs "Using libfuse version " ++ print_int fuse_version ++ cs " (built against " ++
          print_int (FUSE_VERSION vs) ++ cs ", using API version " ++
          print_int (FUSE_USE_VERSION vs) ++ cs ")") ++
    line (cs "Using " ++ curl_version vs) ++
    cs "Using libxml2 " ++ LIBXML_DOTTED_VERSION vs in
  my_arg ← string_buffer_new;
  st ← add_arg (cs "-d") (my_arg, []);
  st ← add_arg (cs "--version") st;
  Ret [printf text; printf newline; fuse_parse_cmdline (snd st); printf newline].

Definition fsfuse_usage (progname : cstr) : list call :=
  [printf (line (cs "usage: " ++ progname ++ cs " device mountpoint [-o option[,...]]") ++
           line (cs "    device: device to mount - ignored") ++
           line (cs "    mountpoint: directory over which to mount") ++ newline)].

Definition truth (v : value) : bool := match v with VInt z => negb (z =? 0)%Z | _ => false end.

Definition fuse_args_set (progname : cstr) (reader : config_reader)
    (singleton : option config_manager) : outcome (list cstr) :=
  my_arg ← string_buffer_new;
  debug ← config_get proc_debug reader singleton;
  st ← (if truth debug then add_arg (cs "-d") (my_arg, [progname]) else Ret (my_arg, [progname]));
  st ← add_arg (cs "-ofsname=" ++ FSFUSE_NAME) st;
  st ← add_arg (cs "-osubtype=" ++ FSFUSE_NAME ++ cs "-" ++ FSFUSE_VERSION) st;
  st ← add_arg (cs "-oallow_other") st;
  st ← add_arg (cs "-oro") st;
  Ret (snd st).

(** What libfuse returns. *)
Record libfuse := Libfuse {
  fuse_version : Z;
  mount_ok : bool;
  lowlevel_new_ok : bool;
  loop_rc : bool -> Z         (* of the loop, single-threaded or not *)
}.

Definition EXIT_FAILURE : Z := 1.

Definition my_fuse_main (lib : libfuse) (progname mnt : cstr) (singleton : option config_manager)
  : outcome (Z * list call) :=
  let '(reader, singleton) := config_get_reader singleton in
  args ← fuse_args_set progname reader singleton;
  if mount_ok lib then
    if lowlevel_new_ok lib then
      fg ← config_get proc_fg reader singleton;
      single ← config_get proc_singlethread reader singleton;
      Ret (loop_rc lib (truth single),
           [fuse_mount mnt args; fuse_lowlevel_new args;
            fuse_set_signal_handlers; fuse_session_add_chan; fuse_daemonize (truth fg);
            if truth single then fuse_session_loop else fuse_session_loop_mt;
            fuse_session_remove_chan; fuse_remove_signal_handlers; fuse_session_destroy;
            fuse_unmount mnt])
    else Ret (EXIT_FAILURE, [fuse_mount mnt args; fuse_lowlevel_new args])
  else Ret (EXIT_FAILURE, [fuse_mount mnt args]).

(** How an initialiser ends: [trace_error] exits. *)
Inductive init_result := Returns (rc : Z) | Exits.

(** localei.c: what [setlocale] finds, and then the encoding [nl_langinfo]
    names; what it prints, and how it ends. *)
Definition locale_init (codeset : option cstr) : list call * init_result :=
  match codeset with
  | None =>
      ([warning (line (cs "Can't set the specified locale! Check LANG, LC_CTYPE, LC_ALL."))],
       Returns 1)
  | Some codeset =>
      if negb (streq codeset (cs "UTF-8")) && negb (streq codeset (cs "ANSI_X3.4-1968"))
      then ([failure (line (cs "Encoding " ++ codeset ++ cs " unsupported!"))], Exits)
      else ([], Returns 0)
  end.

(** Everything [main] is given: the file system's configuration files, the two
    passes of getopt, the other arguments, whether the log file can be opened,
    what [pthread_key_create] returns and the process's encoding. *)
Record environment := Environment {
  progname : cstr;
  system : versions;
  files : cstr -> option document;
  first_opts : list opt;
  opts : list opt;
  args : list cstr;
  realpath : cstr -> cstr + cstr;
  lib : libfuse;
  logfile_opened : bool;
  key_create_rc : Z;
  codeset : option cstr
}.

(** The inode map is empty when the program starts. *)
Definition inits (e : environment) : list (part * outcome (list call * init_result)) :=
  [(trace_part, Ret ([], Returns (trace_init (logfile_opened e))));
   (utils_part, Ret ([], Returns (fst (utils_init (key_create_rc e)))));
   (locale_part, Ret (locale_init (codeset e)));
   (fetcher_part, Ret ([], Returns fetcher_init));
   (direntry_part, _ ← direntry_init (Fs ∅ InodeMap.initial no_listings); Ret ([], Returns 0%Z))].

(** The [||] of their results: the calls, and what ended it early. *)
Fixpoint run_inits (l : list (part * outcome (list call * init_result)))
  : outcome (list call * option init_result) :=
  match l with
  | [] => Ret ([], None)
  | (p, o) :: l =>
      '(said, result) ← o;
      match result with
      | Returns 0%Z => '(calls, failed) ← run_inits l; Ret (init p :: said ++ calls, failed)
      | failed => Ret (init p :: said, Some failed)
      end
  end.

Definition finalisations : list call :=
  finalise <$> [direntry_part; fetcher_part; locale_part; utils_part; trace_part].

(** A layer, and the loader's warning. *)
Definition add_file (e : environment) (path : cstr) (st : list call * option config_manager)
  : list call * option config_manager :=
  let '(rc, singleton) := config_manager_add_from_file (files e path) (snd st) in
  (fst st ++ (if (rc =? 0)%Z then []
              else [warning (line (cs "Unable to read / parse config file " ++ path))]), singleton).

(** [pre_init_bail] *)
Definition bail (rc : Z) (calls : list call) (singleton : option config_manager)
  : outcome (Z * list call) :=
  _ ← config_singleton_delete singleton; Ret (rc, calls).

(** The exit code and the log; [trace_error] exits with 1. *)
Definition main (e : environment) : outcome (Z * list call) :=
  let log := fsfuse_splash (system e) in
  if (fuse_version (lib e) <? FUSE_USE_VERSION (system e))%Z then
    bail EXIT_FAILURE
      (log ++ [warning (line (progname e ++ cs " error: fuse version " ++
                 print_int (FUSE_USE_VERSION (system e)) ++ cs " required, only version " ++
                 print_int (fuse_version (lib e)) ++ cs " available"))]) None
  else
    let st := add_file e (cs "/etc/fsfuserc") (log, None) in
    let st := add_file e (cs "~/.fsfuserc") st in
    let st := add_file e (cs "./fsfuserc") st in
    config_file ← settings_tryget_config_file (first_opts e);
    let '(log, singleton) := match config_file with
                             | Some path => add_file e path st
                             | None => st
                             end in
    '(sa, mountpoint, singleton) ←
      settings_parse_command_line (realpath e) (opts e) (args e) singleton;
    let log := log ++ warn_arguments (args e) in
    match sa, real mountpoint with
    | start_action_MOUNT, Some mnt =>
        '(calls, failed) ← run_inits (inits e);
        let log := log ++ calls in
        match failed with
        | Some Exits => Ret (1%Z, log)
        | Some (Returns _) => Ret (1%Z, log ++ [failure (line (cs "initialisation failed"))])
        | None =>
            '(rc, calls) ← my_fuse_main (lib e) (progname e) mnt singleton;
            bail rc (log ++ calls ++ finalisations) singleton
        end
    | start_action_MOUNT, None =>
        Ret (1%Z, log ++ [failure (line (cs "bad or missing mount point " ++ dquote ++
                    print_str (raw mountpoint) ++ dquote ++ cs ": " ++ print_str (error mountpoint) ++
                    cs "."))])
    | start_action_VERSION, _ =>
        calls ← fsfuse_versions (system e) (fuse_version (lib e));
        bail EXIT_FAILURE (log ++ calls) singleton
    | start_action_USAGE, _ => bail EXIT_FAILURE (log ++ fsfuse_usage (progname e)) singleton
    end.

(** ** Facts *)

(** The options this program knows. *)
Definition known_opts (opts : list opt) : Prop :=
  Forall (fun o => opt_char o ∈ cs "cdfstvh?o") opts.
(** Some option is one of these. *)
Definition given (set : cstr) (opts : list opt) : bool :=
  existsb (fun o => bool_decide (opt_char o ∈ set)) opts.

Lemma given_app set os os' : given set (os ++ os') = given set os || given set os'.
Proof. unfold given. apply existsb_app. Qed.

(** The last of the options that choose an action. *)
Definition action_of (opts : list opt) : start_action_t :=
  foldl (fun a o => if bool_decide (opt_char o = "v"%char) then start_action_VERSION
                    else if bool_decide (opt_char o ∈ cs "h?") then start_action_USAGE else a)
    start_action_MOUNT opts.

Lemma parse_options_ok opts :
  known_opts opts ->
  parse_options opts =
    Ret (Flags (action_of opts) (given (cs "d") opts) (given (cs "df") opts) (given (cs "s") opts)).
Proof.
  induction opts as [|o opts IH] using rev_ind; intros Hk; [done|].
  apply Forall_app in Hk as [Hk Ho]. apply Forall_cons in Ho as [Ho _].
  unfold parse_options, action_of in *. rewrite !foldl_app, IH by done. cbn [foldl].
  rewrite bind_ret_l, !given_app. destruct o as [c a]. cbn [opt_char] in *.
  unfold given. cbn [existsb opt_char cs String.list_ascii_of_string] in *.
  repeat (apply elem_of_cons in Ho as [->|Ho]; [vm_compute parse_option; by rewrite !orb_false_r, ?orb_true_r|]).
  by apply elem_of_nil in Ho.
Qed.

(** ** The command line's layer *)

Definition cmdline_source (opts : list opt) : source :=
  Cmdline (given (cs "d") opts) 1 (given (cs "df") opts) 1 (given (cs "s") opts) 1.

Lemma parse_command_line_ok realpath opts args xs :
  known_opts opts ->
  settings_parse_command_line realpath opts args (foldl add_source None xs) =
    Ret (action_of opts, parse_mountpoint realpath args,
         foldl add_source None (xs ++ [cmdline_source opts])).
Proof.
  intros Hk. unfold settings_parse_command_line. rewrite parse_options_ok, bind_ret_l by done.
  by rewrite foldl_app.
Qed.

Lemma setting_snoc xs x s :
  setting (xs ++ [x]) s =
    match (data ← layer_of x; data s) with Some v => Some v | None => setting xs s end.
Proof.
  unfold setting. rewrite omap_app, last_app. cbn [omap list_omap]. by destruct (_ ≫= _).
Qed.

Lemma read_cmdline xs opts s :
  read_config s (xs ++ [cmdline_source opts]) =
    match s with
    | proc_debug => if given (cs "d") opts then Ret (VInt 1) else read_config s xs
    | proc_singlethread => if given (cs "df") opts then Ret (VInt 1) else read_config s xs
    | proc_fg => if given (cs "s") opts then Ret (VInt 1) else read_config s xs
    | _ => read_config s xs
    end.
Proof.
  rewrite !read_config_ok, setting_snoc. destruct s; cbn [layer_of cmdline_source mbind option_bind];
    unfold flag; try reflexivity;
    match goal with |- context [given ?x opts] => destruct (given x opts) end; try reflexivity;
    by rewrite read_config_ok.
Qed.

(** ** libfuse's arguments *)





(** ** The whole run *)

(** The loader's warnings about them, oldest first. *)
Definition file_warnings (e : environment) (config_file : option cstr) : list call :=
  concat ((fun path =>
    match files e path with
    | Some _ => []
    | None => [warning (line (cs "Unable to read / parse config file " ++ path))]
    end) <$> [cs "/etc/fsfuserc"; cs "~/.fsfuserc"; cs "./fsfuserc"] ++ option_list config_file).

Lemma add_file_ok e path log xs :
  add_file e path (log, foldl add_source None xs) =
    (log ++ match files e path with
            | Some _ => []
            | None => [warning (line (cs "Unable to read / parse config file " ++ path))]
            end, foldl add_source None (xs ++ [File (files e path)])).
Proof.
  unfold add_file, config_manager_add_from_file. rewrite foldl_app. cbn [fst snd foldl add_source].
  unfold config_manager_add_from_file, config_loader_tryread_from_file.
  by destruct (files e path).
Qed.

(** The three files, and the one of the command line. *)
Lemma add_files_ok e config_file log :
  (let st := add_file e (cs "/etc/fsfuserc") (log, None) in
   let st := add_file e (cs "~/.fsfuserc") st in
   let st := add_file e (cs "./fsfuserc") st in
   match config_file with Some path => add_file e path st | None => st end) =
    (log ++ file_warnings e config_file,
     foldl add_source None
       ([File (files e (cs "/etc/fsfuserc")); File (files e (cs "~/.fsfuserc"));
         File (files e (cs "./fsfuserc"))] ++
        option_list ((fun path => File (files e path)) <$> config_file))).
Proof.
  cbv zeta. rewrite (add_file_ok e _ log []), !add_file_ok.
  unfold file_warnings. destruct config_file as [path|]; [rewrite add_file_ok|]; f_equal;
    try done; cbn [option_list option_rect fmap list_fmap app concat];
    by rewrite ?app_nil_r, <- ?app_assoc.
Qed.




(** -v is answered with the versions, and libfuse is asked for its own; its
    parser takes the first argument for the program's name, so "-d" is lost. *)
Lemma version_is_shown vs v :
  exists text, fsfuse_versions vs v =
    Ret [printf text; printf newline; fuse_parse_cmdline [cs "-d"; cs "--version"]; printf newline].
Proof. eexists. reflexivity. Qed.

Lemma ret_pair {A B} (a a' : A) (b b' : B) : Ret (a, b) = Ret (a', b') -> a = a' /\ b = b'.
Proof. by intros [= -> ->]. Qed.

(** A log without a mount. *)
Definition mounts_nothing (log : list call) : Prop := Forall (fun c => forall mnt args, c <> fuse_mount mnt args) log.

Lemma mounts_nothing_app l l' : mounts_nothing l -> mounts_nothing l' -> mounts_nothing (l ++ l').
Proof. intros. by apply Forall_app. Qed.

(** No initialisation ever succeeds: [direntry_init] adds the root to the inode
    map through the wrong declaration. *)
Lemma inits_fail e calls failed :
  run_inits (inits e) = Ret (calls, failed) ->
  is_Some failed /\ mounts_nothing calls.
Proof.
  unfold inits. cbn [run_inits]. rewrite !bind_ret_l. cbn [fetcher_init fst utils_init].
  destruct (trace_init _); cbn; [|intros [= <- <-]; split; [by eexists|by repeat constructor]..].
  destruct (key_create_rc e); cbn; [|intros [= <- <-]; split; [by eexists|by repeat constructor]..].
  unfold locale_init. destruct (codeset e) as [cset|]; [|intros [= <- <-]; split; [by eexists|by repeat constructor]].
  destruct (_ && _); cbn; [intros [= <- <-]; split; [by eexists|by repeat constructor]|]. discriminate.
Qed.

(** ** Properties *)


Definition demo_versions : versions :=
  Versions (cs "f00d") (cs "Linux") (cs "3.2") (cs "gcc") (cs "4.7") 29 (cs "libcurl/7") (cs "2.8").

Definition demo_environment : environment :=
  Environment (cs "fsfuse") demo_versions
    (fun path => if streq path (cs "/etc/fsfuserc") then Some demo_system_file else None)
    [Opt "?" []] [Opt "f" []] [cs "fsfuse"; cs "mnt"] (fun p => inl (cs "/" ++ p))
    (Libfuse 29 true true (fun single => if single : bool then 0 else 5)%Z) true 0
    (Some (cs "UTF-8")).

(** But the program never gets there: however it is started, if it ends at all
    it ends with 1 and has not mounted anything. On a command line that asks for
    a mount, with nothing else amiss, [direntry_init] is undefined. *)
Theorem main_never_mounts (e : environment) :
  (forall rc log, main e = Ret (rc, log) -> rc = 1%Z /\ mounts_nothing log) /\
  main demo_environment = Undef.
Proof.
  split; [|vm_compute; reflexivity]. intros rc log. unfold main, bail.
  assert (Hsplash : mounts_nothing (fsfuse_splash (system e))) by (by repeat constructor).
  destruct (_ <? _)%Z.
  { destruct (config_singleton_delete None); try discriminate. intros [<- <-]%ret_pair. split; [done|].
    apply mounts_nothing_app; [done|by repeat constructor]. }
  destruct (settings_tryget_config_file (first_opts e)) as [config_file| | |]; try discriminate.
  rewrite bind_ret_l, add_files_ok.
  destruct (settings_parse_command_line _ _ _ _) as [[[sa mountpoint] singleton]| | |]; try discriminate.
  rewrite bind_ret_l. set (log0 := (_ ++ _) ++ warn_arguments (args e)).
  assert (mounts_nothing log0) as Hlog.
  { apply mounts_nothing_app; [apply mounts_nothing_app; [done|]|].
    - unfold file_warnings. apply Forall_concat, Forall_fmap, Forall_true. intros path. cbn.
      by destruct (files e path); repeat constructor.
    - unfold warn_arguments. by destruct (drop 2 (args e)); repeat constructor. }
  destruct sa; [destruct (real mountpoint)|..].
  - destruct (run_inits (inits e)) as [[calls failed]| | |] eqn:Er; try discriminate. rewrite bind_ret_l.
    apply inits_fail in Er as [[r ->] Hc]. pose proof (mounts_nothing_app _ _ Hlog Hc) as Hboth.
    destruct r; intros [<- <-]%ret_pair; (split; [done|]); [|done].
    apply mounts_nothing_app; [done|by repeat constructor].
  - intros [<- <-]%ret_pair. split; [done|]. apply mounts_nothing_app; [done|by repeat constructor].
  - destruct (fsfuse_versions _ _) as [calls| | |] eqn:Ev; try discriminate. rewrite bind_ret_l.
    destruct (config_singleton_delete singleton); try discriminate. intros [<- <-]%ret_pair. split; [done|].
    apply mounts_nothing_app; [done|]. destruct (version_is_shown (system e) (fuse_version (lib e))) as [text E].
    rewrite E in Ev. injection Ev as <-. by repeat constructor.
  - destruct (config_singleton_delete singleton); try discriminate. intros [<- <-]%ret_pair. split; [done|].
    apply mounts_nothing_app; [done|by repeat constructor].
Qed.

(** [settings_parse_command_line] passes its flags as debug, foreground,
    single-threaded, and [config_manager_add_from_cmdline] takes them as debug,
    single-threaded, foreground: -f (and -d) make the loop single-threaded and
    leave the program in the background, -s keeps it in the foreground and
    multi-threaded. *)
Theorem foreground_and_singlethread_are_swapped (realpath : cstr -> cstr + cstr)
    (opts : list opt) (args : list cstr) (xs : list source) (Hopts : known_opts opts) :
  exists sa mnt x,
    settings_parse_command_line realpath opts args (foldl add_source None xs) =
      Ret (sa, mnt, foldl add_source None (xs ++ [x])) /\
    read_config proc_singlethread (xs ++ [x]) =
      (if given (cs "df") opts then Ret (VInt 1) else read_config proc_singlethread xs) /\
    read_config proc_fg (xs ++ [x]) =
      (if given (cs "s") opts then Ret (VInt 1) else read_config proc_fg xs).
Proof.
  eexists _, _, (cmdline_source opts). split; [by apply parse_command_line_ok|].
  by rewrite !read_cmdline.
Qed.

Lemma foreground_and_singlethread_are_swapped_witness :
  exists sa mnt x,
    settings_parse_command_line (fun p => inl p) [Opt "f" []] [] (foldl add_source None []) =
      Ret (sa, mnt, foldl add_source None ([] ++ [x])) /\
    read_config proc_singlethread ([] ++ [x]) = Ret (VInt 1) /\
    read_config proc_fg ([] ++ [x]) = read_config proc_fg [].
Proof.
  apply (foreground_and_singlethread_are_swapped (fun p => inl p) [Opt "f" []] [] []).
  repeat constructor.
Defined.

(** A libfuse that is too old makes [main] fail the assertion of
    [config_singleton_delete]: no configuration was asked for yet. *)
Lemma old_libfuse_aborts (e : environment) :
  (fuse_version (lib e) < FUSE_USE_VERSION (system e))%Z -> main e = AssertFail.
Proof. intros H. unfold main. by rewrite (proj2 (Z.ltb_lt _ _)). Qed.

(** Without a mount point, the error is the last thing said: [trace_error]
    exits before the usage. *)
Lemma no_mount_point_says_no_usage e log rc :
  main e = Ret (rc, log) -> action_of (opts e) = start_action_MOUNT -> known_opts (opts e) ->
  args e = [] -> exists text, last log = Some (failure text).
Proof.
  unfold main. destruct (_ <? _)%Z; [done|]. intros H Ha Hk Hargs.
  destruct (settings_tryget_config_file (first_opts e)) as [config_file| | |]; [|done..].
  rewrite bind_ret_l, add_files_ok, parse_command_line_ok, bind_ret_l, Ha, Hargs in H by done.
  cbn [parse_mountpoint real] in H.
  assert (H' : forall A (a b : A), Ret a = Ret b -> b = a) by (by intros ? ? ? [= ->]).
  apply H' in H. apply (f_equal snd) in H. cbn [snd] in H. subst log. eexists. apply last_snoc.
Qed.
