(* ===== verification/UnitTests.v ===== *)
(** * src/tests/unit: the tests of the repository, run on the model

    Each test is a program over the model of the code it tests; it passes if it
    returns, as a failed check is a failed assertion. What a test takes from
    [random], [time] or the allocator is an argument, so it passes whatever that
    is. All tests that the driver registers pass. Of those it only has in a
    comment, the one of paths passes if something lies behind its literals, and
    the one of URIs, on the code as it is, frees a literal. *)
From S2P Require Import Prelude CLib Utils RefCount BinaryHeap StringBuffer Uri Http Parsers Indexnode Indexnodes Config.

Definition ck_assert_int_eq (a b : Z) : outcome unit := c_assert (a =? b)%Z.
Definition ck_assert_str_eq (a b : cstr) : outcome unit := c_assert (streq a b).

(** Checks in order; the first that fails ends the test. *)
Fixpoint checks (l : list (outcome unit)) : outcome unit :=
  match l with [] => Ret tt | c :: l => _ ← c; checks l end.

Lemma ck_assert_same a : ck_assert_int_eq a a = Ret tt.
Proof. unfold ck_assert_int_eq. by rewrite Z.eqb_refl. Qed.

(** Runs a test whose values are variables. *)
Ltac run_test := cbv -[ck_assert_int_eq]; repeat (rewrite ck_assert_same; cbv beta iota); reflexivity.

(** ** binary_heap_test.c *)

Module HeapTests.

(** The pairs are added in the order given, then popped and compared. *)
Fixpoint pop_each (l : list (Z * Z)) (heap : binary_heap Z) : outcome (binary_heap Z) :=
  match l with
  | [] => Ret heap
  | (key, value) :: l =>
      '(r, heap) ← binary_heap_trypop heap;
      '(key_out, value_out) ← deref r;
      _ ← ck_assert_int_eq key_out key;
      _ ← ck_assert_int_eq value_out value;
      pop_each l heap
  end.

(** Only the keys are compared. *)
Fixpoint pop_keys (l : list Z) (heap : binary_heap Z) : outcome (binary_heap Z) :=
  match l with
  | [] => Ret heap
  | key :: l =>
      '(r, heap) ← binary_heap_trypop heap;
      '(key_out, _) ← deref r;
      _ ← ck_assert_int_eq key_out key;
      pop_keys l heap
  end.

Definition empty_is_sane : outcome unit := binary_heap_delete (@binary_heap_new Z).

Definition singleton_is_sane (random : Z) : outcome unit :=
  heap ← add_all [(0%Z, random)] binary_heap_new;
  heap ← pop_each [(0%Z, random)] heap;
  binary_heap_delete heap.

Definition in_order (pairs : list (Z * Z)) : outcome unit :=
  heap ← add_all pairs binary_heap_new;
  heap ← pop_each pairs heap;
  binary_heap_delete heap.

Definition reverse_order (pairs : list (Z * Z)) : outcome unit :=
  heap ← add_all (reverse pairs) binary_heap_new;
  heap ← pop_each pairs heap;
  binary_heap_delete heap.

(** The tests of keys alone: added in one order, popped in another. *)
Definition keys_test (added popped : list Z) : outcome unit :=
  heap ← add_all ((fun k => (k, 0%Z)) <$> added) binary_heap_new;
  heap ← pop_keys popped heap;
  binary_heap_delete heap.

Definition in_order_duplicates : outcome unit := keys_test [0; 0; 1; 1; 2]%Z [0; 0; 1; 1; 2]%Z.
Definition reverse_order_duplicates : outcome unit := keys_test [2; 1; 1; 0; 0]%Z [0; 0; 1; 1; 2]%Z.
Definition funny_order1 : outcome unit := keys_test [0; 3; 4; 2; 1]%Z [0; 1; 2; 3; 4]%Z.
Definition funny_order2 : outcome unit := keys_test [3; 2; 0; 1; 4]%Z [0; 1; 2; 3; 4]%Z.

Example empty_passes : empty_is_sane = Ret tt.
Proof. reflexivity. Qed.
Example keys_pass :
  checks [in_order_duplicates; reverse_order_duplicates; funny_order1; funny_order2] = Ret tt.
Proof. vm_compute. reflexivity. Qed.

(** Whatever the values are. *)
Lemma singleton_is_sane_passes random : singleton_is_sane random = Ret tt.
Proof. run_test. Qed.
Lemma in_order_passes a b c d e : in_order [(0, a); (1, b); (2, c); (3, d); (4, e)]%Z = Ret tt.
Proof. run_test. Qed.
Lemma reverse_order_passes a b c d e : reverse_order [(0, a); (1, b); (2, c); (3, d); (4, e)]%Z = Ret tt.
Proof. run_test. Qed.

End HeapTests.

(** ** utils_test.c *)

Module UtilsTests.

(** [beyond]: what lies behind each literal. *)
Definition basename_is (beyond path name : cstr) : outcome unit :=
  b ← fsfuse_basename path beyond; ck_assert_str_eq b name.
Definition dirname_is (path name : cstr) : outcome unit := ck_assert_str_eq (fsfuse_dirname path) name.

Definition test_basename_dirname (beyond : cstr) : outcome unit :=
  checks [basename_is beyond (cs "/foo/bar/baz") (cs "baz"); dirname_is (cs "/foo/bar/baz") (cs "/foo/bar");
          basename_is beyond (cs "/foo") (cs "foo"); dirname_is (cs "/foo") (cs "/");
          basename_is beyond (cs "foo") (cs "foo"); dirname_is (cs "foo") [];
          basename_is beyond (cs "/") []; dirname_is (cs "/") (cs "/");
          basename_is beyond [] []; dirname_is [] []].

(** It passes where another object follows the literals; by itself, a literal
    is read over its end. *)
Lemma test_basename_dirname_passes c beyond : test_basename_dirname (c :: beyond) = Ret tt.
Proof. by vm_compute. Qed.
Example test_basename_dirname_overreads : test_basename_dirname [] = Undef.
Proof. vm_compute. reflexivity. Qed.

Definition version_is (x : cstr * cstr * Z) : outcome unit :=
  r ← compare_dotted_version x.1.1 x.1.2; ck_assert_int_eq r x.2.

Definition versions : list (cstr * cstr * Z) :=
  [(cs "1", cs "2", -1); (cs "2", cs "1", 1); (cs "1", cs "1", 0); (cs "0", cs "0", 0);
   (cs "0.1", cs "0.2", -1); (cs "0.2", cs "0.1", 1); (cs "0.1", cs "0.1", 0); (cs "0.0", cs "0.0", 0);
   (cs "0.5.1", cs "0.5.2", -1); (cs "0.5.2", cs "0.5.1", 1); (cs "0.5.1", cs "0.5.1", 0);
   (cs "0.5.0", cs "0.5.0", 0);
   (cs "0.2", cs "0.2.0", 0); (cs "0.2", cs "0.2.1", -1); (cs "0.2", cs "0.2.2", -1);
   (cs "0.2", cs "0.2.3", -1); (cs "0.2", cs "0.1.9", 1);
   (cs "0.2.0", cs "0.2", 0); (cs "0.2.1", cs "0.2", 1); (cs "0.2.2", cs "0.2", 1);
   (cs "0.2.3", cs "0.2", 1); (cs "0.1.9", cs "0.2", -1);
   (cs "0.2", cs "0.2.0.0.1", -1); (cs "0.2.0.0.1", cs "0.2", 1);
   (cs "1", cs "666", -1); (cs "11111.11111.22", cs "11111.11111.22", 0);
   (cs "0.10", cs "0.1", 1); (cs "0.10", cs "0.1.0", 1); (cs "0.10", cs "0.10", 0);
   (cs "0.10", cs "0.10.0", 0); (cs "0.10", cs "0.11", -1);
   (cs "0.1", cs "0.10", -1); (cs "0.1.0", cs "0.10", -1); (cs "0.10", cs "0.10", 0);
   (cs "0.10.0", cs "0.10", 0); (cs "0.11", cs "0.10", 1)]%Z.

Definition test_compare_dotted_version : outcome unit := checks (version_is <$> versions).

Example test_compare_dotted_version_passes : test_compare_dotted_version = Ret tt.
Proof. vm_compute. reflexivity. Qed.

End UtilsTests.

(** ** ref_count_test.c *)

Module RefCountTests.

Definition inc_is (n : Z) (refc : ref_count) : outcome ref_count :=
  '(c, refc) ← ref_count_inc refc; _ ← ck_assert_int_eq c n; Ret refc.
Definition dec_is (n : Z) (refc : ref_count) : outcome ref_count :=
  '(c, refc) ← ref_count_dec refc; _ ← ck_assert_int_eq c n; Ret refc.

Definition ref_count_can_be_created_and_destroyed : outcome unit :=
  _ ← ref_count_dec ref_count_new; Ret tt.

Definition ref_count_can_be_inc_and_dec : outcome unit :=
  refc ← inc_is 2 ref_count_new;
  refc ← inc_is 3 refc;
  refc ← inc_is 4 refc;
  refc ← dec_is 3 refc;
  refc ← dec_is 2 refc;
  refc ← dec_is 1 refc;
  _ ← dec_is 0 refc;
  Ret tt.

Example ref_count_passes :
  checks [ref_count_can_be_created_and_destroyed; ref_count_can_be_inc_and_dec] = Ret tt.
Proof. vm_compute. reflexivity. Qed.

End RefCountTests.

(** ** string_buffer_test.c *)

Module StringBufferTests.

Definition strdup (t : cstr) : string_arg := Malloced t.
Definition chars (block : list (option ascii)) : cstr := until_nul (default NUL <$> block).

(** Appends in order. *)
Definition appends (l : list cstr) (sb : string_buffer) : outcome string_buffer :=
  StringBuffer.run sb ((fun t => Append (strdup t)) <$> l).
Definition commits_to (t : cstr) (sb : string_buffer) : outcome unit :=
  block ← string_buffer_commit sb; ck_assert_str_eq (chars block) t.
Definition peeks_as (t : cstr) (sb : string_buffer) : outcome unit :=
  ck_assert_str_eq (chars (string_buffer_peek sb)) t.

Definition can_new_empty_and_commit : outcome unit :=
  sb ← string_buffer_new; commits_to [] sb.
Definition can_new_empty_append_and_commit : outcome unit :=
  sb ← string_buffer_new; sb ← appends [cs "Hello"] sb; commits_to (cs "Hello") sb.
Definition can_new_and_commit : outcome unit :=
  sb ← string_buffer_from_chars (strdup (cs "Hello")); commits_to (cs "Hello") sb.
Definition can_new_append_and_commit : outcome unit :=
  sb ← string_buffer_from_chars (strdup (cs "Hello"));
  sb ← appends [cs ", World!"] sb; commits_to (cs "Hello, World!") sb.
Definition can_new_and_peek : outcome unit :=
  sb ← string_buffer_from_chars (strdup (cs "Hello")); peeks_as (cs "Hello") sb.
Definition can_new_append_and_peek : outcome unit :=
  sb ← string_buffer_from_chars (strdup (cs "Hello"));
  sb ← appends [cs ", World!"] sb; peeks_as (cs "Hello, World!") sb.
Definition can_append_multiple_times : outcome unit :=
  sb ← string_buffer_from_chars (strdup (cs "Hello"));
  sb ← appends [cs ", World!"; cs " World!"; cs " World!"; cs " World!"; cs " World!"] sb;
  commits_to (cs "Hello, World! World! World! World! World!") sb.

Example string_buffer_passes :
  checks [can_new_empty_and_commit; can_new_empty_append_and_commit; can_new_and_commit;
          can_new_append_and_commit; can_new_and_peek; can_new_append_and_peek;
          can_append_multiple_times] = Ret tt.
Proof. vm_compute. reflexivity. Qed.

End StringBufferTests.

(** ** uri_test.c *)

Module UriTests.

(** Set the components, compare the URI's text, delete it: the memory left. *)
Definition uri_is (sets : list (component * cstr)) (t : cstr) (live : gset nat)
  : outcome (gset nat) :=
  '(uri, live) ← set_all uri_new sets live;
  '(str, live) ← uri_get uri live;
  _ ← ck_assert_str_eq (text str) t;
  live ← str_free str live;
  uri_delete uri live.

Definition test_uri : outcome (gset nat) :=
  live ← uri_is
    [(Scheme, cs "http"); (Userinfo, cs "user"); (Uri.Host, cs "foo.com"); (Uri.Port, cs "1337");
     (Path, cs "/path/bar.html"); (Query, cs "query"); (Fragment, cs "frag")]
    (cs "http://user@foo.com:1337/path/bar.html?query#frag") ∅;
  uri_is [(Scheme, cs "http"); (Uri.Host, cs "foo.com"); (Path, cs "/path/bar.html")]
    (cs "http://foo.com/path/bar.html") live.

(** The driver does not run the test: the first literal that is appended is
    freed. *)
Example test_uri_frees_literals : test_uri = Undef.
Proof. vm_compute. reflexivity. Qed.

End UriTests.

(** ** parser_stubs.c, parser_test.c, parser_xml_test.c *)

Module ParserTests.

Definition start (name : cstr) : event := Event TAG_START name None.
Definition start_id (name id : cstr) : event := Event TAG_START name (Some id).
Definition attribute (name value : cstr) : event := Event ATTRIBUTE name (Some value).
Definition txt (t : cstr) : event := Event TEXT t None.
Definition end_ (name : cstr) : event := Event TAG_END name None.

Definition stats_expected_results : list event :=
  [start (cs "html"); start (cs "body"); start_id (cs "div") (cs "general");
   start_id (cs "span") (cs "file-count"); attribute (cs "value") (cs "98740"); txt (cs "98740"); end_ (cs "span");
   start_id (cs "span") (cs "indexnode-started"); attribute (cs "value") (cs "1367424501976");
   txt (cs "Wed May 01 17:08:21 BST 2013"); end_ (cs "span");
   start (cs "br"); end_ (cs "br");
   start_id (cs "span") (cs "total-size"); attribute (cs "value") (cs "4010079412955");
   txt (cs "3.6 TiB"); end_ (cs "span");
   end_ (cs "div"); end_ (cs "body"); end_ (cs "html")].

(** A file of the stub's list. *)
Definition file_attributes (hash name size : cstr) : list (cstr * cstr) :=
  [(cs "fs2-alternativescount", cs "1"); (cs "fs2-clientalias", cs "3mpty-fileserver");
   (cs "fs2-hash", hash); (cs "fs2-name", name); (cs "fs2-size", size); (cs "fs2-type", cs "file");
   (cs "href", cs "http://localhost:1337/download/" ++ hash)].
Definition file_events (hash name size human : cstr) : list event :=
  [start (cs "b"); txt (cs "(1)"); end_ (cs "b"); start (cs "a")]
  ++ ((fun a => attribute a.1 a.2) <$> file_attributes hash name size)
  ++ [txt name; end_ (cs "a"); start (cs "span"); txt human; end_ (cs "span"); start (cs "br"); end_ (cs "br")].

Definition docbook : cstr * cstr * cstr * cstr :=
  (cs "cea65d7062303adea837b6eeed2b5e63", cs "docbook-xsl-1.78.0.tar.bz2", cs "5011106", cs "(4.8 MiB)").
Definition coverage : cstr * cstr * cstr * cstr :=
  (cs "8fd5667996cb59ddff343329ac29f9d2", cs "Test-Pod-Coverage-1.08.tar.gz", cs "6418", cs "(6.3 KiB)").

Definition uncurried {A} (f : cstr -> cstr -> cstr -> cstr -> A) (x : cstr * cstr * cstr * cstr) : A :=
  f x.1.1.1 x.1.1.2 x.1.2 x.2.

Definition filelist_expected_results : list event :=
  [start (cs "html"); start (cs "body"); start (cs "div"); start_id (cs "div") (cs "fs2-filelist")]
  ++ uncurried file_events docbook ++ uncurried file_events coverage
  ++ [end_ (cs "div"); end_ (cs "div"); end_ (cs "body"); end_ (cs "html")].

(** Feeds the events to a parser, one by one. *)
Definition feed {P} (cb : event -> P -> outcome P) (tags : list event) (p : P) : outcome P :=
  foldl (fun m e => p ← m; cb e p) (Ret p) tags.

(** The callback is called once, with the right numbers. *)
Definition can_parse_stats_page : outcome unit :=
  p ← feed Stats.stats_xml_cb stats_expected_results Stats.parser_stats_new;
  match Stats.calls p with
  | [(files, bytes)] => checks [ck_assert_int_eq files 98740; ck_assert_int_eq bytes 4010079412955]
  | _ => AssertFail
  end.

Definition str_is (s : option str) (t : cstr) : outcome unit := s ← deref s; ck_assert_str_eq (text s) t.

(** [filelist_cb]'s checks; an unknown hash fails. *)
Definition filelist_cb (e : Filelist.entry) : outcome unit :=
  hash ← deref (Filelist.e_hash e);
  x ← (if streq (text hash) docbook.1.1.1 then Ret docbook
       else if streq (text hash) coverage.1.1.1 then Ret coverage else AssertFail);
  checks [str_is (Filelist.e_name e) x.1.1.2; str_is (Filelist.e_type e) (cs "file");
          ck_assert_int_eq (Filelist.e_size e) (atol x.1.2); ck_assert_int_eq (Filelist.e_link_count e) 1;
          str_is (Filelist.e_href e) (cs "http://localhost:1337/download/" ++ x.1.1.1);
          str_is (Filelist.e_client e) (cs "3mpty-fileserver")].

Definition can_parse_filelist_page : outcome unit :=
  p ← feed Filelist.filelist_xml_cb filelist_expected_results Filelist.parser_filelist_new;
  _ ← c_assert (length (Filelist.calls p) =? 2);
  checks (filelist_cb <$> Filelist.calls p).

Example parsers_pass : checks [can_parse_stats_page; can_parse_filelist_page] = Ret tt.
Proof. vm_compute. reflexivity. Qed.

(** testdata/stats.xml and filelist.xml as libxml2 reports them: the text
    between the elements is a new line and an indentation; what follows a text
    in memory is the next tag. *)
Definition gap : sax := Characters ("010"%char :: cs "    <") 5.
Definition content (t : cstr) : sax := Characters (t ++ cs "<") (Z.of_nat (length t)).
Definition spaced (l : list (list sax)) : list sax := gap :: concat ((fun x => x ++ [gap]) <$> l).
Definition element (name : cstr) (attributes : list (cstr * cstr)) (inner : list sax) : list sax :=
  StartElementNs name attributes :: inner ++ [EndElementNs name].

Definition stats_xml : list sax :=
  let span id value t := element (cs "span") [(cs "id", id); (cs "value", value)] [content t] in
  element (cs "html") [] (spaced [element (cs "body") [] (spaced [
    element (cs "div") [(cs "id", cs "general")] (spaced [
      span (cs "file-count") (cs "98740") (cs "98740");
      span (cs "indexnode-started") (cs "1367424501976") (cs "Wed May 01 17:08:21 BST 2013");
      element (cs "br") [] [];
      span (cs "total-size") (cs "4010079412955") (cs "3.6 TiB")])])]).

Definition file_sax (hash name size human : cstr) : list (list sax) :=
  [element (cs "b") [] [content (cs "(1)")];
   element (cs "a") (file_attributes hash name size) [content name];
   element (cs "span") [] [content human]; element (cs "br") [] []].

Definition filelist_xml : list sax :=
  element (cs "html") [] (spaced [element (cs "body") [] (spaced [element (cs "div") [] (spaced [
    element (cs "div") [(cs "id", cs "fs2-filelist")]
      (spaced (uncurried file_sax docbook ++ uncurried file_sax coverage))])])]).

Definition parser_xml_event_eqb (a b : parser_xml_event) : bool :=
  match a, b with
  | TAG_START, TAG_START | TEXT, TEXT | TAG_END, TAG_END | ATTRIBUTE, ATTRIBUTE => true
  | _, _ => false
  end.

(** [test_cb]: each event against the next that is expected. *)
Definition test_cb (e : event) (expected_results : list event) : outcome (list event) :=
  match expected_results with
  | [] => Undef
  | x :: rest =>
      _ ← c_assert (parser_xml_event_eqb (Parsers.ev e) (Parsers.ev x));
      _ ← ck_assert_str_eq (Parsers.name e) (Parsers.name x);
      _ ← (match Parsers.value x with
           | Some v => i ← deref (Parsers.value e); ck_assert_str_eq i v
           | None => Ret tt
           end);
      Ret rest
  end.

(** Every expected event comes. *)
Example parser_xml_passes :
  parser_xml_consume test_cb stats_xml stats_expected_results = Ret [] /\
  parser_xml_consume test_cb filelist_xml filelist_expected_results = Ret [].
Proof. split; vm_compute; reflexivity. Qed.

End ParserTests.

(** ** indexnode_stubs.c, proto_indexnode_test.c, indexnode_test.c, indexnodes_list_test.c *)

Module IndexnodeTests.

Fixpoint strstr (s t : cstr) : bool :=
  streq (take (length t) s) t || match s with [] => false | _ :: s => strstr s t end.

Definition stub : cstr * cstr * cstr * cstr := (cs "fs2.example.org", cs "1337", cs "0.13", cs "d34db33f").
Definition stub2 : cstr * cstr * cstr * cstr := (cs "second.indexnode.com", cs "1337", cs "0.14", cs "80081355").

Definition no_memory : world := World ∅ (Store ∅ ∅).

(** The strings are the caller's copies. *)
Definition get_proto_indexnode_stub (s : store) : outcome (proto_indexnode * store) :=
  let '(host, l) := str_new stub.1.1.1 (live s) in
  let '(port, l) := str_new stub.1.1.2 l in
  pin ← proto_indexnode_init host port;
  Ret (pin, Store (nodes s) l).

Definition get_stub (now : Z) (x : cstr * cstr * cstr * cstr) (w : world) : outcome (nat * world) :=
  let '(host, l) := str_new x.1.1.1 (live (st w)) in
  let '(port, l) := str_new x.1.1.2 l in
  let '(version, l) := str_new x.1.2 l in
  let '(id, l) := str_new x.2 l in
  '(in_, s) ← indexnode_new now host port version id (Store (nodes (st w)) l);
  in_ ← deref in_;
  Ret (in_, World (lists w) s).
Definition get_indexnode_stub (now : Z) : world -> outcome (nat * world) := get_stub now stub.
Definition get_indexnode_stub2 (now : Z) : world -> outcome (nat * world) := get_stub now stub2.

Definition proto_indexnode_equals_stub (p : proto_indexnode) : bool :=
  streq (proto_indexnode_host p) stub.1.1.1 && streq (proto_indexnode_port p) stub.1.1.2.

(** [p]: the pointer, printed. *)
Definition equals (x : cstr * cstr * cstr * cstr) (p : cstr) (in_ : nat) (w : world) : outcome bool :=
  '(_, v) ← deref (nodes (st w) !! in_);
  t ← indexnode_tostring p v;
  Ret (strstr t (x.2 ++ cs " @ " ++ x.1.1.1 ++ cs ":" ++ x.1.1.2 ++ cs " (version " ++ x.1.2 ++ cs ")")).
Definition indexnode_equals_stub : cstr -> nat -> world -> outcome bool := equals stub.
Definition indexnode_equals_stub2 : cstr -> nat -> world -> outcome bool := equals stub2.

Definition copy (in_ : nat) (w : world) : outcome world := on_store (indexnode_copy in_ (st w)) w.
Definition delete (in_ : nat) (w : world) : outcome world := on_store (indexnode_delete in_ (st w)) w.

(** The teardown has freed every indexnode and string. *)
Definition clean (w : world) : outcome unit :=
  c_assert (bool_decide (nodes (st w) = ∅) && bool_decide (live (st w) = ∅)).

Definition proto_indexnode_is_sane_property_bag : outcome unit :=
  '(pin, s) ← get_proto_indexnode_stub (Store ∅ ∅);
  _ ← c_assert (proto_indexnode_equals_stub pin);
  s ← proto_indexnode_teardown pin s;
  clean (World ∅ s).

Definition indexnode_is_sane_property_bag (now : Z) (p : cstr) : outcome unit :=
  '(in_, w) ← get_indexnode_stub now no_memory;
  ok ← indexnode_equals_stub p in_ w; _ ← c_assert ok;
  w ← delete in_ w; clean w.

Definition indexnode_can_be_copied_and_copy_outlives_original (now : Z) (p : cstr) : outcome unit :=
  '(in1, w) ← get_indexnode_stub now no_memory;
  w ← copy in1 w;
  w ← delete in1 w;
  ok ← indexnode_equals_stub p in1 w; _ ← c_assert ok;
  w ← delete in1 w; clean w.

(** A copy is the same object. *)
Definition indexnode_can_be_copied_and_has_right_data (now : Z) (p : cstr) : outcome unit :=
  '(in1, w) ← get_indexnode_stub now no_memory;
  w ← copy in1 w; let in2 := in1 in
  ok ← indexnode_equals_stub p in1 w; _ ← c_assert ok;
  ok ← indexnode_equals_stub p in2 w; _ ← c_assert ok;
  w ← delete in1 w; w ← delete in2 w; clean w.

Definition put (ins in_ : nat) (w : world) : outcome world := w ← copy in_ w; indexnodes_list_add ins in_ w.

Definition indexnodes_list_can_be_created_and_destroyed : outcome unit :=
  let '(ins, w) := indexnodes_list_new no_memory in
  w ← indexnodes_list_delete ins w; clean w.

Definition indexnodes_list_can_have_a_member (now : Z) : outcome unit :=
  '(in_, w) ← get_indexnode_stub now no_memory;
  let '(ins, w) := indexnodes_list_new w in
  w ← put ins in_ w;
  w ← indexnodes_list_delete ins w;
  w ← delete in_ w; clean w.

(** Two members, and what a test does with their list. *)
Definition with_two (now : Z) (body : nat -> world -> outcome world) : outcome unit :=
  '(in1, w) ← get_indexnode_stub now no_memory;
  '(in2, w) ← get_indexnode_stub2 now w;
  let '(ins, w) := indexnodes_list_new w in
  w ← put ins in1 w;
  w ← put ins in2 w;
  w ← body ins w;
  w ← indexnodes_list_delete ins w;
  w ← delete in1 w;
  w ← delete in2 w; clean w.

Definition indexnodes_list_can_have_several_members (now : Z) : outcome unit := with_two now (fun _ w => Ret w).

(** The loop; [fuel] bounds its rounds. *)
Fixpoint count_items (fuel : nat) (iter : list nat) (count : Z) (w : world) : outcome (Z * world) :=
  match fuel with
  | 0 => Blocked
  | S fuel =>
      if indexnodes_iterator_end iter then Ret (count, w)
      else
        '(in_out, w) ← indexnodes_iterator_current iter w;
        w ← delete in_out w;
        iter ← indexnodes_iterator_next iter;
        count_items fuel iter (count + 1) w
  end.

Definition indexnodes_list_holds_right_number_of_items (now : Z) : outcome unit :=
  with_two now (fun ins w =>
    iter ← indexnodes_iterator_begin ins w;
    '(count, w) ← count_items 3 iter 0 w;
    _ ← ck_assert_int_eq count 2; Ret w).

Definition check_current (p : cstr) (iter : list nat) (w : world) : outcome world :=
  '(in_out, w) ← indexnodes_iterator_current iter w;
  a ← indexnode_equals_stub p in_out w;
  b ← indexnode_equals_stub2 p in_out w;
  _ ← c_assert (a || b);
  delete in_out w.

Definition indexnodes_list_returns_what_is_put_in (now : Z) (p : cstr) : outcome unit :=
  with_two now (fun ins w =>
    iter ← indexnodes_iterator_begin ins w;
    w ← check_current p iter w;
    iter ← indexnodes_iterator_next iter;
    w ← check_current p iter w;
    iter ← indexnodes_iterator_next iter;
    _ ← c_assert (indexnodes_iterator_end iter); Ret w).

(** At any time. *)
Lemma indexnode_passes now :
  checks [proto_indexnode_is_sane_property_bag; indexnode_is_sane_property_bag now (cs "0x1");
          indexnode_can_be_copied_and_copy_outlives_original now (cs "0x1");
          indexnode_can_be_copied_and_has_right_data now (cs "0x1")] = Ret tt.
Proof. vm_compute. reflexivity. Qed.
Lemma indexnodes_list_passes now :
  checks [indexnodes_list_can_be_created_and_destroyed; indexnodes_list_can_have_a_member now;
          indexnodes_list_can_have_several_members now; indexnodes_list_holds_right_number_of_items now;
          indexnodes_list_returns_what_is_put_in now (cs "0x1")] = Ret tt.
Proof. vm_compute. reflexivity. Qed.

End IndexnodeTests.

(** ** config_test.c *)

Module ConfigTests.

Definition value_eqb (a b : Config.value) : bool :=
  match a, b with
  | VString s, VString t => streq s t
  | VInt x, VInt y => (x =? y)%Z
  | VCollection l, VCollection m => bool_decide (l = m)
  | _, _ => false
  end.

(** What a reader of the configuration should find. *)
Definition expect (l : list (Config.symbol * Config.value)) (singleton : option config_manager)
  : outcome (option config_manager) :=
  let '(config, singleton) := config_get_reader singleton in
  _ ← checks ((fun x => v ← config_get x.1 config singleton; c_assert (value_eqb v x.2)) <$> l);
  Ret singleton.

(** testdata/test_fsfuserc and test_fsfuserc2: the text nodes by XPath. *)
Definition test_fsfuserc : document := fun xpath =>
  if streq xpath (cs "/config/alias/text()") then Some [Some (cs "test alias")]
  else if streq xpath (cs "/config/indexnode/autodetect/advert_port/text()") then Some [Some (cs "55555")]
  else if streq xpath (cs "/config/indexnode/host/text()") then Some [Some (cs "test host 1"); Some (cs "test host 2")]
  else Some [].
Definition test_fsfuserc2 : document := fun xpath =>
  if streq xpath (cs "/config/indexnode/autodetect/advert_port/text()") then Some [Some (cs "22222")]
  else if streq xpath (cs "/config/indexnode/host/text()") then Some [Some (cs "test host 21")]
  else if streq xpath (cs "/config/process/debug/text()") then Some [Some (cs "1")]
  else if streq xpath (cs "/config/process/single-thread/text()") then Some [Some (cs "1")]
  else if streq xpath (cs "/config/process/foreground/text()") then Some [Some (cs "1")]
  else Some [].

Definition from_file (doc : document) (singleton : option config_manager) : option config_manager :=
  snd (config_manager_add_from_file (Some doc) singleton).

Definition the_defaults : list (Config.symbol * Config.value) :=
  [(alias, VString (cs "[fsfuse]Anonymous")); (indexnode_advert_port, VInt 42444); (indexnode_hosts, VCollection [])].

Definition config_defaults_are_sane : outcome (option config_manager) :=
  m ← expect ((indexnode_autodetect_listen, VInt 1) :: the_defaults) None;
  config_singleton_delete m.

Definition config_can_override_from_cmdline : outcome (option config_manager) :=
  m ← expect [(proc_fg, VInt 0); (proc_singlethread, VInt 0); (proc_debug, VInt 0)] None;
  m ← expect [(proc_fg, VInt 0); (proc_singlethread, VInt 1); (proc_debug, VInt 0)]
    (config_manager_add_from_cmdline true 0 true 1 false 1 m);
  config_singleton_delete m.

Definition config_can_override_from_file : outcome (option config_manager) :=
  m ← expect the_defaults None;
  m ← expect [(attr_mode_file, VInt 292); (alias, VString (cs "test alias")); (indexnode_advert_port, VInt 55555);
              (indexnode_hosts, VCollection [Some (cs "test host 1"); Some (cs "test host 2")])]
    (from_file test_fsfuserc m);
  config_singleton_delete m.

Definition config_can_override_from_several : outcome (option config_manager) :=
  m ← expect the_defaults None;
  m ← expect [(attr_mode_file, VInt 292); (alias, VString (cs "test alias")); (indexnode_advert_port, VInt 22222);
              (proc_fg, VInt 1); (proc_singlethread, VInt 0); (proc_debug, VInt 1);
              (indexnode_hosts, VCollection [Some (cs "test host 21")])]
    (config_manager_add_from_cmdline true 1 true 0 false 0 (from_file test_fsfuserc2 (from_file test_fsfuserc m)));
  config_singleton_delete m.

(** Every test leaves no singleton behind for the next. *)
Example config_passes :
  Forall (.= Ret None) [config_defaults_are_sane; config_can_override_from_cmdline;
                        config_can_override_from_file; config_can_override_from_several].
Proof. repeat (constructor; [vm_compute; reflexivity|]). constructor. Qed.

End ConfigTests.

(** ** http_test.c *)

Module HttpTests.
Import Http.

Definition settings : list (cstr * cstr) :=
  [(cs "key1", cs "FAIL"); (cs "key1", cs "FAIL2"); (cs "key2", cs "value2"); (cs "key1", cs "value1");
   (cs "key3", cs "FAIL3"); (cs "key3", cs "FAIL4"); (cs "key3", cs "value3")].

Definition http_test (net : network) : outcome (Z * cstr) :=
  '(req, live) ← make_request (cs "localhost") (cs "1338") (cs "/bar.html") settings ∅;
  '(rc, req, sent, _, live) ← http_req_send req net live;
  _ ← http_req_delete req live;
  Ret (rc, sent).

(** It checks nothing; the headers it has set are one of each key, with no "FAIL",
    but they are never sent. *)
Example http_test_headers :
  ('(req, live) ← make_request (cs "localhost") (cs "1338") (cs "/bar.html") settings ∅;
   http_req_dump_headers req) =
    Ret (line (cs "header 0 | key1: value1") ++ line (cs "header 1 | key2: value2") ++
         line (cs "header 2 | key3: value3")).
Proof. vm_compute. reflexivity. Qed.
Example http_test_frees_literals :
  http_test (Network 0 [AddrInfo true true 3 true] [Wrote 200] [Ready 0] []) = Undef.
Proof. vm_compute. reflexivity. Qed.

End HttpTests.
